(* ===== verification/_CoqProject ===== *)
-Q . S2P
Prelude.v
Codec.v
Primitives.v
Reference.v
Message.v
Aggregator.v
Synchronizer.v
ProtocolName.v
Network.v
ConsensusState.v
Import.v
Worker.v
WorkerFacts.v
WorkerSafety.v
Liveness.v
ViewChange.v
Cluster.v
Progress.v
Recovery.v
NodeRound.v
Finality.v
Timer.v
Service.v
Inherents.v
Pallet.v
Weights.v
Runtime.v
RuntimeApi.v
ChainSpec.v
NodeService.v
Benchmarking.v
Command.v
Payload.v
ConfigFile.v
BenchClient.v
