(* ===== verification/Prelude.v ===== *)
(** * HotStuff block finality for Substrate: a verification library

    The repository runs HotStuff as a finality gadget beside Substrate's block
    production: blocks are authored and imported by Substrate, the voters of
    [hotstuff/consensus] agree on which of them are final, and the pallet of
    [hotstuff/pallets/hotstuff] keeps the authorities and slots in the runtime
    of [node-template], whose node starts the voters.  This library translates
    that code into Rocq functions and proves what makes it correct, and where it
    is not, exactly how it fails.

    ** The program and its model

    A node has two tasks.  The network task ([ConsensusNetwork]) decodes gossip
    into a bounded channel and follows the client's notifications into a shared
    queue of blocks waiting for finality.  The worker ([ConsensusWorker]) takes
    messages from the channel and its timer, one at a time.  In view [v] the
    authority [v mod n] proposes a payload on its highest quorum certificate
    (QC); the others vote to the leader of [v + 1], which makes a QC of more than
    two thirds of the votes and proposes next.  A view without progress ends by
    timeouts, collected into a timeout certificate (TC).  A proposal whose parent
    and grandparent have consecutive views finalizes the grandparent's block.

    - [Prelude]: bytes, machine integers, outcomes, the state monad [Comp] for
      [&mut self] methods with its weakest preconditions, generic lemmas.
    - [Codec], [Primitives]: SCALE, hashing, keys and keystore as interfaces with
      their laws; constants, errors, consensus logs
      ([hotstuff/primitives/src/lib.rs], [consensus/src/primitives.rs]).
    - [Reference]: one concrete platform (SCALE as documented, a toy hash and
      signature) that satisfies the laws, for evaluated witnesses.
    - [Message] ([message.rs]): messages, coding, digests, verification.
    - [Aggregator] ([aggregator.rs]): votes and timeouts into certificates.
    - [Synchronizer] ([client.rs] as an interface, [store.rs], [synchronizer.rs]):
      the client, the proposal store and the ancestor walk.
    - [ProtocolName] ([config.rs]): the name and peer set of the gossip protocol.
    - [Network] ([network.rs]): the gossip filters and the bridge to the engine.
    - [ConsensusState] ([consensus.rs], [ConsensusState]): the voter's state.
    - [Import] ([import.rs]): block import and the queue of pending blocks.
    - [Worker] ([consensus.rs], [ConsensusWorker]): every handler and the loop;
      what a leader proposes.
    - [WorkerFacts]: the worker's invariant and a specification of each handler.
    - [WorkerSafety]: the node as a state machine and its theorems.
    - [Liveness]: from a quorum of votes to the next leader's proposal.
    - [ViewChange]: timeouts and views without progress; nodes left behind.
    - [Cluster]: several nodes with faulty authorities; agreement.
    - [Recovery]: a committee with a silent leader.
    - [Progress], [NodeRound], [Finality]: a schedule of timers and deliveries for
      an honest committee, what each of its steps does at one node, and the run of
      the whole network to the last block.
    - [Timer] ([synchronizer.rs], [Timer]; [consensus.rs], [run]): the local timer
      over tokio's interval and the loop of the worker in time.
    - [Service] ([consensus.rs], [ConsensusNetwork] and [start_hotstuff];
      [client.rs], [authorities.rs], [aux_schema.rs]): wiring and start-up.
    - [Inherents] ([primitives/src/inherents.rs]): the slot in inherent data.
    - [Pallet] ([pallets/hotstuff/src/lib.rs], [primitives/src/digests.rs]) and
      [Weights] ([pallets/hotstuff/src/weights.rs]): the runtime side.
    - [Runtime] and [RuntimeApi] ([node-template/runtime/src/lib.rs]): constants,
      session keys and blocks; the configuration of every pallet and every method
      of the runtime interface.
    - [ChainSpec], [NodeService], [Benchmarking], [Command]
      ([node-template/node/src]: [chain_spec.rs]; [service.rs] and [rpc.rs];
      [benchmarking.rs]; [cli.rs] and [command.rs]): the node around the voter,
      from the chain specification to the started services.
    - [Payload] ([primitives/src/payload.rs], [commitment.rs]): extensible
      payloads and commitments.
    - [ConfigFile] ([node-template/node/src/config.rs], [node.rs]) and
      [BenchClient] ([client.rs]): the stand-alone node's files and boot, and the
      load generator.

    A struct is a [Record] with the source's fields, an enum an [Inductive], a
    [HashMap] a [gmap], a [Result] an [outcome] (which also has [Panic], and
    [Diverge] for exhausted fuel), and a [&mut self] method a [Comp].  Integers
    are [Z] with the wrap-around of release builds written out.  Calls that leave
    the node (gossip, timer resets, sync requests, finalization) are recorded in
    the worker's log, in order, and so is each vote it makes.

    ** What the theorems show

    Messages ([Message]): exactly when each [verify] succeeds and with which
    error it fails; messages survive the wire; digests commit to what they
    cover and the kinds of messages cannot be confused. Aggregation
    ([Aggregator]): refinement of a map from certificates to supporters,
    quorums in any order make certificates, and those verify; for TCs, when
    they do and when not. State ([ConsensusState]): leaders rotate fairly, own
    messages verify at peers, and what view changes do. Queue and store
    ([Import], [Synchronizer], [Network]): what polls and filters do on every
    input. Worker ([Worker], [WorkerSafety]): what leaders propose; in every
    reachable state the invariant holds; views never move back; every handler
    returns; a node never equivocates; it finalizes only by the commit rule and
    always when the rule applies; what it gossips decodes at its peers.
    Progress ([Liveness]): a quorum of votes in any order makes the next leader
    propose on a certificate for them; ([ViewChange]) a quorum of timeouts in
    any order ends a view, and the next leader proposes the first waiting
    block; ([Recovery]) the live nodes of a committee get past a silent leader
    to a proposal they vote for; ([Finality]) in a synchronous run of an honest
    committee of any size every node finalizes every block of a chain of any
    length; ([Timer]) a node's own timeouts are a timer period apart and an
    idle node times out. Committee ([Cluster]): at most one proposal is
    certified per view below a third of faulty authorities; and a run in which
    two honest nodes finalize different blocks, since the voting rule has no
    lock. Start-up ([Service]): a started node, also a restarted one, refines
    the state machine of [WorkerSafety] under any interleaving of its tasks;
    and a restart that makes a node vote twice in a view. Runtime ([Inherents],
    [Pallet], [RuntimeApi], [Payload]): storage invariants, accepted blocks,
    announced changes, authorities that stay those of genesis over executed
    blocks, session keys, lookup. Node ([ChainSpec], [NodeService], [Command],
    [ProtocolName]): a shipped chain starts exactly its committee, services
    start in one order, and up to a failure in the same order, and chains do
    not share a protocol. Tools ([Benchmarking], [ConfigFile], [BenchClient]):
    signed benchmark extrinsics, files that are read back, and transactions
    that differ.

    Defects the code has are stated as theorems about the code as it is:
    [advance_view_from_target] never catches up, so that messages and
    certificates of later views do not move a node left behind, nor does its
    timer ([ViewChange]), TCs of timeouts with an older high QC do not verify, certificates do not check membership,
    the restarted queue is empty, the missing locking rule, votes that a
    restart forgets, a timer period of zero that stops the start-up,
    configuration files that are neither truncated nor flushed, and a load
    generator that is silent at low rates.

    ** States a node starts in

    [initial] of [WorkerSafety] is what [start_hotstuff] builds: view 0, an empty
    queue, and a store that is empty or holds proposals of an earlier run.  Polls of
    the queue and moves of the client ([background]) happen between events, at one
    node and in a committee ([net_step] of [Cluster]); the schedule of [Finality]
    begins after polls have filled the queues.  A log belongs to one run of a node,
    so theorems about votes are about the votes since the last start.  The faulty
    authorities of [Cluster] can send everything except a valid signature of an
    honest key that its node has not given.

    ** Parameters and hypotheses

    Code outside the repository is a parameter: SCALE ([Scale], [ScaleLaws]), the
    hash, keys and keystore ([Platform], [PlatformLaws], [KeystoreLaws]) and the
    client ([Client], [ClientLaws], [ImportClient], [RuntimeClient]; [ChainClient]
    says what a client on one chain of blocks does); tokio's interval
    ([TokioTime], [TokioLaws]); around the node, the gossip engine ([GossipLib]),
    inherent data ([InherentLib]), weights and limits ([WeightLib], [LimitsLib]),
    the other pallets, the executive and the optional features ([FrameLib],
    [ExecutiveLib], [FeatureLib]), key derivation ([KeyLib]),
    transactions ([TxLib]), Substrate's services and commands ([ServiceLib],
    [CliLib]), hex and byte buffers ([HexLib], [BytesLib]), JSON ([Json]) and the
    services of the stand-alone node ([NodeLib]), each with its laws.  Hash
    collisions are excluded only between the preimages a theorem names
    ([collision_free]).  [Reference] and the reference clients instantiate all of
    them, so every hypothesis is shown to be satisfiable.

    ** Fuel and bounds

    [handle_proposal] and [handle_vote] call each other; [fuel] bounds the nested
    calls.  With at least two distinct authorities two are enough, since
    consecutive views have different leaders; in any committee, and so with a
    lone authority, which leads every view, twice the length of the pending queue
    and three are ([handlers_return]): [proposal_rank] of [WorkerFacts] decreases
    with each nested proposal.  More fuel never changes a result.  The queue is
    taken to stay as it is while one event is handled.  The view counter is a [u64]:
    the theorems about steps ask that it is not within [room fuel] of its end.
    [collect_unfinalized] has one unit of fuel per unfinalized block
    ([pending_queue_new_exact] shows it is enough below the last block number),
    and [binary_search_by] one per entry.  The connection attempts of the load
    generator have fuel that stands for their number; [wait_run] shows that it
    runs out only when a node refuses them all.  The schedule of [Finality] runs
    [3 * top] proposals for [top] blocks, and one nested call is enough for it.

    ** Not modelled

    The gossip engine and the tokio runtime (their calls are effects, events or
    parameters); Substrate's services, pallets, executive and command
    implementations, which the node only calls.  Associated types that carry no
    value and trait aliases.  The [try-runtime] subcommand, [Display], logging and
    metrics.  Handlers take no time, so the load a node can bear is not covered.
    Files are opened or not and have a size limit; other errors of the operating
    system are left out, and connections of the load generator take no time.
    The unit tests. *)
From stdpp Require Export base tactics numbers option list sorting gmap sets strings.
From Stdlib Require Export Strings.Byte.

#[export] Set Default Goal Selector "!".
Local Open Scope Z_scope.

(** ** Bytes *)

Abbreviation bytes := (list Byte.byte).

#[export] Instance byte_eq_dec : EqDecision Byte.byte := Byte.byte_eq_dec.
#[export] Instance byte_countable : Countable Byte.byte.
Proof.
  refine (inj_countable Byte.to_N Byte.of_N _).
  apply Byte.of_to_N.
Defined.

(** The byte-string literal [b"..."] of Rust. *)
Definition byte_string (s : string) : bytes := String.list_byte_of_string s.

(** ** Machine integers: an unsigned [w]-bit integer is a [Z] in range. *)

Definition u64_max : Z := 2 ^ 64 - 1.
Definition u64_ok (z : Z) : Prop := 0 <= z < 2 ^ 64.
Definition u32_ok (z : Z) : Prop := 0 <= z < 2 ^ 32.

(** Wrap-around of the release profile (overflow checks off). *)
Definition u64_wrap (z : Z) : Z := z mod 2 ^ 64.
Definition u32_wrap (z : Z) : Z := z mod 2 ^ 32.

Declare Scope machine_scope.
Delimit Scope machine_scope with machine.
Notation "a +₆₄ b" := (u64_wrap (a + b)) (at level 50, left associativity) : machine_scope.
Notation "a -₆₄ b" := (u64_wrap (a - b)) (at level 50, left associativity) : machine_scope.
Notation "a +₃₂ b" := (u32_wrap (a + b)) (at level 50, left associativity) : machine_scope.

Lemma u64_wrap_small z : u64_ok z → u64_wrap z = z.
Proof. intros ?. by apply Z.mod_small. Qed.

Lemma u64_wrap_ok z : u64_ok (u64_wrap z).
Proof. by apply Z.mod_pos_bound. Qed.

Lemma u32_wrap_small z : u32_ok z → u32_wrap z = z.
Proof. intros ?. by apply Z.mod_small. Qed.

Lemma u32_wrap_ok z : u32_ok (u32_wrap z).
Proof. by apply Z.mod_pos_bound. Qed.

(** ** Outcomes

    What running a Rust function gives: a value, an [Err] of its [Result], a
    panic, or, for the fuelled model of an unbounded recursion, [Diverge] when
    the fuel ran out. *)

Inductive outcome (E A : Type) : Type :=
| Ok (a : A)
| Err (e : E)
| Panic (why : string)
| Diverge.
Arguments Ok {_ _} _.
Arguments Err {_ _} _.
Arguments Panic {_ _} _.
Arguments Diverge {_ _}.

#[export] Instance outcome_ret E : MRet (outcome E) := λ A a, Ok a.
#[export] Instance outcome_bind E : MBind (outcome E) := λ A B k m,
  match m with
  | Ok a => k a
  | Err e => Err e
  | Panic s => Panic s
  | Diverge => Diverge
  end.
#[export] Instance outcome_fmap E : FMap (outcome E) := λ A B f m,
  m ≫= λ a, Ok (f a).

#[export] Instance outcome_eq_dec E A `{EqDecision E, EqDecision A} :
  EqDecision (outcome E A).
Proof. solve_decision. Defined.

(** [Option::ok_or]. *)
Definition ok_or {E A} (o : option A) (e : E) : outcome E A :=
  match o with Some a => Ok a | None => Err e end.

(** [Result::map_err] on the result of a call into a library: [inl] is the
    library's error, as the string the code turns it into. *)
Definition map_err {E A} (r : string + A) (f : string → E) : outcome E A :=
  match r with inl e => Err (f e) | inr a => Ok a end.

(** [Result::ok]. *)
Definition result_ok {A} (r : string + A) : option A :=
  match r with inl _ => None | inr a => Some a end.

Definition is_ok {E A} (o : outcome E A) : bool :=
  match o with Ok _ => true | _ => false end.

(** Neither a panic nor an exhausted recursion. *)
Definition settles {E A} (o : outcome E A) : Prop :=
  match o with Ok _ | Err _ => True | _ => False end.

Lemma settles_bind {E A B} (m : outcome E A) (k : A → outcome E B) :
  settles m → (∀ a, settles (k a)) → settles (m ≫= k).
Proof. by destruct m; simpl; auto. Qed.

Lemma settles_ok_or {E A} (o : option A) (e : E) : settles (ok_or o e).
Proof. by destruct o. Qed.

Lemma settles_map_err {E A} (r : string + A) (f : string → E) : settles (map_err r f).
Proof. by destruct r. Qed.

(** Goals [settles m] for straight-line [m]. *)
Create HintDb settles.
#[export] Hint Resolve settles_ok_or settles_map_err : settles.
Ltac settle :=
  repeat lazymatch goal with
  | |- settles (_ ≫= _) => apply settles_bind; [|intros ?]
  | |- settles (match _ with _ => _ end) => case_match
  | |- settles (Ok _) => exact I
  | |- settles (Err _) => exact I
  | |- settles _ => solve [auto with settles]
  end.

Lemma outcome_bind_Ok {E A B} (m : outcome E A) (k : A → outcome E B) b :
  m ≫= k = Ok b ↔ ∃ a, m = Ok a ∧ k a = Ok b.
Proof. destruct m; simpl; naive_solver. Qed.

Lemma mapM_Ok {E A B} (f : A → outcome E B) (g : A → B) (l : list A) :
  (∀ x, x ∈ l → f x = Ok (g x)) → mapM f l = Ok (g <$> l).
Proof.
  induction l as [|x l IH]; intros Hf; [done|]. cbn [mapM].
  rewrite Hf by by left. cbn. rewrite IH by (intros; apply Hf; by right). done.
Qed.

Lemma ok_or_Ok {E A} (o : option A) (e : E) a : ok_or o e = Ok a ↔ o = Some a.
Proof. destruct o; simpl; naive_solver. Qed.

(** ** Stateful computations

    [Comp S E A] is a method on [&mut self] with state [S] that returns
    [Result<A, E>]: the state changes made before an error stay. *)

Definition Comp (S E A : Type) : Type := S → outcome E A * S.

#[export] Instance comp_ret S E : MRet (Comp S E) := λ A a s, (Ok a, s).
#[export] Instance comp_bind S E : MBind (Comp S E) := λ A B k m s,
  match m s with
  | (Ok a, s') => k a s'
  | (Err e, s') => (Err e, s')
  | (Panic p, s') => (Panic p, s')
  | (Diverge, s') => (Diverge, s')
  end.

Section comp_ops.
Context {S E : Type}.

Definition get : Comp S E S := λ s, (Ok s, s).
Definition gets {A} (f : S → A) : Comp S E A := λ s, (Ok (f s), s).
Definition modify (f : S → S) : Comp S E unit := λ s, (Ok (), f s).
Definition lift {A} (o : outcome E A) : Comp S E A := λ s, (o, s).
Definition raise {A} (e : E) : Comp S E A := lift (Err e).
Definition diverge {A} : Comp S E A := lift Diverge.
(** [match m { Ok(_) => .., Err(e) => .. }]: an error becomes a value. *)
Definition catch {A} (m : Comp S E A) : Comp S E (E + A) := λ s,
  match m s with
  | (Ok a, s') => (Ok (inr a), s')
  | (Err e, s') => (Ok (inl e), s')
  | (Panic p, s') => (Panic p, s')
  | (Diverge, s') => (Diverge, s')
  end.
(** Run a method of a field of the state. *)
Definition zoom {T A} (g : S → T) (p : T → S → S)
    (m : T → outcome E A * T) : Comp S E A := λ s,
  let '(o, t) := m (g s) in (o, p t s).
End comp_ops.

(** The postcondition [Q] holds of the result and the final state of [m] run
    from [s]. *)
Definition wp {S E A} (m : Comp S E A) (Q : outcome E A → S → Prop) (s : S) : Prop :=
  Q (m s).1 (m s).2.

Section wp.
Context {S E : Type}.
Implicit Types s : S.

Lemma wp_mono {A} (m : Comp S E A) (P Q : outcome E A → S → Prop) s :
  wp m P s → (∀ o s', P o s' → Q o s') → wp m Q s.
Proof. unfold wp. eauto. Qed.

Lemma wp_ret {A} (a : A) (Q : outcome E A → S → Prop) s :
  Q (Ok a) s → wp (mret a) Q s.
Proof. done. Qed.

Lemma wp_lift {A} (o : outcome E A) (Q : outcome E A → S → Prop) s :
  Q o s → wp (lift o) Q s.
Proof. done. Qed.

Lemma wp_gets {A} (f : S → A) (Q : outcome E A → S → Prop) s :
  Q (Ok (f s)) s → wp (gets f) Q s.
Proof. done. Qed.

Lemma wp_modify (f : S → S) (Q : outcome E unit → S → Prop) s :
  Q (Ok ()) (f s) → wp (modify f) Q s.
Proof. done. Qed.

Lemma wp_bind {A B} (m : Comp S E A) (k : A → Comp S E B)
    (Q : outcome E B → S → Prop) s :
  wp m (λ o s', match o with
                | Ok a => wp (k a) Q s'
                | Err e => Q (Err e) s'
                | Panic p => Q (Panic p) s'
                | Diverge => Q Diverge s'
                end) s →
  wp (m ≫= k) Q s.
Proof. unfold wp, mbind, comp_bind. by destruct (m s) as [[] ?]. Qed.

Lemma wp_catch {A} (m : Comp S E A) (Q : outcome E (E + A) → S → Prop) s :
  wp m (λ o s', match o with
                | Ok a => Q (Ok (inr a)) s'
                | Err e => Q (Ok (inl e)) s'
                | Panic p => Q (Panic p) s'
                | Diverge => Q Diverge s'
                end) s →
  wp (catch m) Q s.
Proof. unfold wp, catch. by destruct (m s) as [[] ?]. Qed.

(** Chaining two-state relations. *)
Lemma wp_bind_rel {A B} (R : relation S) `{!Transitive R}
    (m : Comp S E A) (k : A → Comp S E B) s :
  wp m (λ _ s', R s s') s →
  (∀ a s', R s s' → (m s).1 = Ok a → wp (k a) (λ _ s'', R s' s'') s') →
  wp (m ≫= k) (λ _ s', R s s') s.
Proof.
  intros Hm Hk. apply wp_bind. unfold wp in *.
  destruct (m s) as [[a|e|p|] s'] eqn:E1; simpl in *; try done.
  etrans; [done|]. by eapply Hk.
Qed.
End wp.

(** ** Lists *)

Section lists.
Context {A : Type}.

Lemma find_Some_iff (f : A → bool) l x :
  List.find f l = Some x → x ∈ l ∧ f x = true.
Proof. intros [??]%List.find_some. by rewrite list_elem_of_In. Qed.

Lemma find_None_iff (f : A → bool) l :
  List.find f l = None ↔ ∀ x, x ∈ l → f x = false.
Proof.
  split.
  - intros Hf x Hx. apply (List.find_none _ _ Hf). by apply list_elem_of_In.
  - induction l as [|y l IH]; simpl; [done|]. intros Hl.
    rewrite (Hl y) by left. apply IH. intros x ?. apply Hl. by right.
Qed.

Lemma existsb_elem_of (f : A → bool) l :
  existsb f l = true ↔ ∃ x, x ∈ l ∧ f x = true.
Proof.
  rewrite List.existsb_exists. by setoid_rewrite list_elem_of_In.
Qed.

Lemma filter_all (P : A → Prop) `{∀ x, Decision (P x)} l : Forall P l → filter P l = l.
Proof.
  induction 1 as [|x l Hx _ IH]; [done|]. rewrite filter_cons, decide_True by done. by f_equal.
Qed.

Lemma list_to_set_NoDup_size `{Countable A} (l : list A) :
  NoDup l → size (list_to_set l : gset A) = length l.
Proof. apply size_list_to_set. Qed.
End lists.

(** Strings cancel like lists: prefixes of one length, and a common suffix. *)
Lemma string_app_inv (a b c d : string) :
  String.length a = String.length c → (a +:+ b = c +:+ d)%string → a = c ∧ b = d.
Proof.
  revert c. induction a as [|x a IH]; intros [|y c] Hlen Heq; simplify_eq/=; [done|].
  by destruct (IH c Hlen) as [-> ->].
Qed.

Lemma string_app_assoc (a b c : string) : ((a +:+ b) +:+ c = a +:+ (b +:+ c))%string.
Proof. induction a as [|x a IH]; [done|exact (f_equal (String x) IH)]. Qed.

Lemma string_length_app (a b : string) :
  String.length (a +:+ b) = (String.length a + String.length b)%nat.
Proof. induction a as [|x a IH]; [done|exact (f_equal S IH)]. Qed.

Lemma string_app_inv_r (a b c : string) : (a +:+ c = b +:+ c)%string → a = b.
Proof.
  intros Heq. apply (string_app_inv a c b c); [|done].
  apply (f_equal String.length) in Heq. rewrite !string_length_app in Heq. lia.
Qed.

(** In a list strictly sorted by a key, an element is determined by its key. *)
Lemma sorted_fmap_inj {A} (f : A → Z) (l : list A) x y :
  StronglySorted Z.lt (f <$> l) → x ∈ l → y ∈ l → f x = f y → x = y.
Proof.
  induction l as [|z l IH]; [set_solver|]. rewrite fmap_cons.
  intros [Hs Hlt]%StronglySorted_inv Hx Hy Heq. rewrite Forall_fmap, Forall_forall in Hlt.
  apply elem_of_cons in Hx as [->|Hx], Hy as [->|Hy].
  - done.
  - specialize (Hlt y Hy). simpl in Hlt. lia.
  - specialize (Hlt x Hx). simpl in Hlt. lia.
  - by apply IH.
Qed.

(** In an association list with distinct keys, a key has one value. *)
Lemma NoDup_fmap_fst_inj {A B} (l : list (A * B)) k x y :
  NoDup l.*1 → (k, x) ∈ l → (k, y) ∈ l → x = y.
Proof.
  induction l as [|[k' z] l IH]; [set_solver|]. rewrite fmap_cons. intros [Hn Hnd]%NoDup_cons.
  assert (∀ v, (k', v) ∈ l → False) as Hk.
  { intros v Hv. apply Hn. by apply (list_elem_of_fmap_2 fst l (k', v)). }
  rewrite !elem_of_cons. intros [?|?] [?|?]; simplify_eq; eauto; exfalso; eauto.
Qed.

(** Two sets inside [N] that together exceed [N] by more than [B] share an
    element outside [B]. *)
Lemma quorum_intersection `{Countable A} (N X Y B : gset A) :
  X ⊆ N → Y ⊆ N → (size N + size B < size X + size Y)%nat →
  ∃ x, x ∈ X ∧ x ∈ Y ∧ x ∉ B.
Proof.
  intros HX HY Hlt.
  destruct (decide (X ∩ Y ⊆ B)) as [Hsub|Hsub].
  - exfalso.
    assert (size (X ∩ Y) ≤ size B)%nat by by apply subseteq_size.
    assert (size (X ∪ Y) ≤ size N)%nat by (apply subseteq_size; set_solver).
    assert (size (X ∪ Y) = size X + size (Y ∖ X))%nat by apply size_union_alt.
    assert (size Y = size (X ∩ Y) + size (Y ∖ X))%nat.
    { rewrite <- size_union by set_solver. f_equal. apply set_eq. intros x.
      destruct (decide (x ∈ X)); set_solver. }
    lia.
  - destruct (set_choose_or_empty ((X ∩ Y) ∖ B)) as [[x Hx]|Hemp].
    + exists x. set_solver.
    + contradict Hsub. intros x Hx. destruct (decide (x ∈ B)) as [|Hn]; [done|].
      exfalso. apply (not_elem_of_empty (C:=gset A) x). rewrite <- Hemp.
      set_solver.
Qed.

(** ** Evaluation in proofs *)

(** Close an equation between closed terms by evaluating both sides. *)
Ltac vm_refl :=
  lazymatch goal with |- _ = ?y => vm_cast_no_check (@eq_refl _ y) end.

(** Close a decidable closed proposition by evaluating its decision. *)
Ltac vm_decide := apply (bool_decide_unpack _); vm_compute; exact I.
