(* ===== verification/Codec.v ===== *)
(** * The SCALE codec as an interface

    [parity-scale-codec] is a library the sources only call, so its coding of
    the basic types is a parameter: the class [Scale] gives the coders,
    [ScaleLaws] the documented behaviour the code relies on (decoding an
    encoding gives the value back and leaves the rest of the input).  What the
    sources themselves write, [#[derive(Encode, Decode)]] on their structs and
    enums (fields in order, a variant index first), is defined in the files of
    those types with the combinators below. *)
From S2P Require Import Prelude.
Local Open Scope Z_scope.

Class Codec (A : Type) := {
  scale_encode : A → bytes;
  scale_decode : bytes → option (A * bytes);
}.
#[export] Hint Mode Codec ! : typeclass_instances.

(** [Decode::decode(&mut &data[..])]: the rest of the input is dropped. *)
Definition decode_all `{Codec A} (data : bytes) : option A :=
  fst <$> scale_decode data.

(** A coder round-trips on the values satisfying [ok], and decodes to such
    values only. *)
Class RoundTrip (A : Type) `{Codec A} (ok : A → Prop) : Prop := {
  decode_encode_rest : ∀ a r, ok a → scale_decode (scale_encode a ++ r) = Some (a, r);
  decode_ok : ∀ b a r, scale_decode b = Some (a, r) → ok a;
}.
#[export] Hint Mode RoundTrip ! ! - : typeclass_instances.

Section roundtrip.
Context `{HA : RoundTrip A ok}.

Lemma decode_all_encode a : ok a → decode_all (scale_encode a) = Some a.
Proof.
  intros ?. unfold decode_all.
  rewrite <- (app_nil_r (scale_encode a)), decode_encode_rest; done.
Qed.

Lemma encode_inj_rest a b r s :
  ok a → ok b → scale_encode a ++ r = scale_encode b ++ s → a = b ∧ r = s.
Proof.
  intros Ha Hb Heq.
  pose proof (decode_encode_rest a r Ha) as Hd.
  rewrite Heq, decode_encode_rest in Hd by done. naive_solver.
Qed.

Lemma encode_inj a b :
  ok a → ok b → scale_encode a = scale_encode b → a = b.
Proof.
  intros Ha Hb Heq.
  apply (encode_inj_rest a b [] []); [done..|by rewrite Heq].
Qed.
End roundtrip.

(** ** The library's coders *)

Class Scale := {
  u8_codec :: Codec Byte.byte;
  u32_codec : Codec Z;
  u64_codec : Codec Z;
  vec_codec :: ∀ A, Codec A → Codec (list A);
  option_codec :: ∀ A, Codec A → Codec (option A);
}.

Definition encode_u64 `{Scale} (z : Z) : bytes := @scale_encode Z u64_codec z.
Definition decode_u64 `{Scale} (b : bytes) : option (Z * bytes) := @scale_decode Z u64_codec b.
Definition encode_u32 `{Scale} (z : Z) : bytes := @scale_encode Z u32_codec z.
Definition decode_u32 `{Scale} (b : bytes) : option (Z * bytes) := @scale_decode Z u32_codec b.

(** A [Vec] that SCALE can encode: its length fits a [u32]. *)
Definition vec_ok {A} (ok : A → Prop) (l : list A) : Prop :=
  Forall ok l ∧ Z.of_nat (length l) < 2 ^ 32.

Definition option_ok {A} (ok : A → Prop) (o : option A) : Prop :=
  match o with Some a => ok a | None => True end.

Definition any_ok {A} (a : A) : Prop := True.

Class ScaleLaws `{Scale} : Prop := {
  u8_round_trip :: RoundTrip Byte.byte any_ok;
  u32_round_trip : @RoundTrip Z u32_codec u32_ok;
  u64_round_trip : @RoundTrip Z u64_codec u64_ok;
  vec_round_trip :: ∀ A (HA : Codec A) ok, RoundTrip A ok → RoundTrip (list A) (vec_ok ok);
  option_round_trip :: ∀ A (HA : Codec A) ok, RoundTrip A ok → RoundTrip (option A) (option_ok ok);
  (** Fixed-width integers take their width. *)
  encode_u32_length : ∀ z, length (encode_u32 z) = 4%nat;
  encode_u64_length : ∀ z, length (encode_u64 z) = 8%nat;
}.

Section laws.
Context `{ScaleLaws}.

Lemma decode_encode_u64 z r : u64_ok z → decode_u64 (encode_u64 z ++ r) = Some (z, r).
Proof. apply u64_round_trip. Qed.
Lemma decode_u64_ok b z r : decode_u64 b = Some (z, r) → u64_ok z.
Proof. apply u64_round_trip. Qed.
Lemma decode_encode_u32 z r : u32_ok z → decode_u32 (encode_u32 z ++ r) = Some (z, r).
Proof. apply u32_round_trip. Qed.
Lemma decode_u32_ok b z r : decode_u32 b = Some (z, r) → u32_ok z.
Proof. apply u32_round_trip. Qed.

Lemma encode_u64_inj_rest a b r s :
  u64_ok a → u64_ok b → encode_u64 a ++ r = encode_u64 b ++ s → a = b ∧ r = s.
Proof. apply (encode_inj_rest (HA := u64_round_trip)). Qed.
Lemma encode_u32_inj_rest a b r s :
  u32_ok a → u32_ok b → encode_u32 a ++ r = encode_u32 b ++ s → a = b ∧ r = s.
Proof. apply (encode_inj_rest (HA := u32_round_trip)). Qed.
End laws.

(** ** Derived coders

    [dec_bind] sequences decoders, the shape [#[derive(Decode)]] generates. *)
Definition decoder (A : Type) : Type := bytes → option (A * bytes).

Definition dec_ret {A} (a : A) : decoder A := λ b, Some (a, b).
Definition dec_bind {A B} (m : decoder A) (k : A → decoder B) : decoder B := λ b,
  match m b with Some (a, b') => k a b' | None => None end.

Declare Scope codec_scope.
Delimit Scope codec_scope with codec.
Notation "'let+' x ':=' m 'in' k" := (dec_bind m (λ x, k))
  (at level 200, x name, m at level 100, k at level 200, right associativity) : codec_scope.

Lemma dec_bind_Some {A B} (m : decoder A) (k : A → decoder B) b c :
  dec_bind m k b = Some c ↔ ∃ a b', m b = Some (a, b') ∧ k a b' = Some c.
Proof. unfold dec_bind. destruct (m b) as [[??]|]; naive_solver. Qed.

(** Pairs are encoded field by field (tuples in the sources). *)
#[export] Instance prod_codec {A B} `{Codec A, Codec B} : Codec (A * B) := {|
  scale_encode p := scale_encode p.1 ++ scale_encode p.2;
  scale_decode := (let+ a := scale_decode in let+ b := scale_decode in dec_ret (a, b))%codec;
|}.

#[export] Instance prod_round_trip {A B} `{Codec A, Codec B} okA okB :
  RoundTrip A okA → RoundTrip B okB →
  RoundTrip (A * B) (λ p, okA p.1 ∧ okB p.2).
Proof.
  intros HA HB. split.
  - intros [a b] r [??]; simpl. unfold dec_bind.
    rewrite <- app_assoc, decode_encode_rest by done.
    by rewrite decode_encode_rest.
  - intros b [a c] r. simpl.
    intros (a' & b' & ? & (c' & b'' & ? & Heq)%dec_bind_Some)%dec_bind_Some.
    unfold dec_ret in Heq. simplify_eq. split; by eapply decode_ok.
Qed.
