(* ===== verification/Primitives.v ===== *)
(** * The platform interface, hotstuff-primitives and the error type

    [Platform] collects what the consensus crate takes from Substrate and from
    its generic parameters: the block hash and its hashing, the sr25519
    authority keys of [app_crypto!], and the keystore.  They are parameters
    with the laws in [PlatformLaws] and [KeystoreLaws].  The rest of the file
    translates [hotstuff/primitives/src/lib.rs] and
    [hotstuff/consensus/src/primitives.rs]. *)
From S2P Require Import Prelude Codec.
Local Open Scope Z_scope.

Class Platform := {
  platform_scale :: Scale;
  (** [Block::Hash], [Hashing::hash], [AsRef<[u8]>] and [Default]. *)
  Hash : Type;
  Hash_eq_dec :: EqDecision Hash;
  Hash_countable :: Countable Hash;
  Hash_codec :: Codec Hash;
  Hash_default : Hash;
  hash_as_ref : Hash → bytes;
  hashing : bytes → Hash;
  (** [app::Public], [app::Signature] and [app::Pair::verify]. *)
  AuthorityId : Type;
  AuthorityId_eq_dec :: EqDecision AuthorityId;
  AuthorityId_countable :: Countable AuthorityId;
  AuthorityId_codec :: Codec AuthorityId;
  id_as_ref : AuthorityId → bytes;
  AuthoritySignature : Type;
  AuthoritySignature_eq_dec :: EqDecision AuthoritySignature;
  AuthoritySignature_codec :: Codec AuthoritySignature;
  signature_try_from : bytes → option AuthoritySignature;
  pair_verify : AuthoritySignature → bytes → AuthorityId → bool;
  (** [AuthorityId::CRYPTO_ID]. *)
  CRYPTO_ID : bytes;
  (** [Keystore::has_keys] and [Keystore::sign_with]. *)
  Keystore : Type;
  has_keys : Keystore → list (bytes * bytes) → bool;
  sign_with : Keystore → bytes → bytes → bytes → bytes → string + option bytes;
}.

(** SCALE's documented behaviour on the platform's types; hashes and public
    keys are 32 bytes, and taking the bytes of a hash or key loses nothing. *)
Class PlatformLaws `{Platform} : Prop := {
  platform_scale_laws :: ScaleLaws;
  Hash_round_trip :: RoundTrip Hash any_ok;
  AuthorityId_round_trip :: RoundTrip AuthorityId any_ok;
  AuthoritySignature_round_trip :: RoundTrip AuthoritySignature any_ok;
  encode_Hash_length : ∀ h : Hash, length (scale_encode h) = 32%nat;
  encode_AuthorityId_length : ∀ i : AuthorityId, length (scale_encode i) = 32%nat;
  hash_as_ref_inj :: Inj (=) (=) hash_as_ref;
  id_as_ref_inj :: Inj (=) (=) id_as_ref;
}.

(** [Hashing::hash_of(&data)] of a [Vec<u8>]: the hash of its encoding. *)
Definition hash_of `{Platform} (data : bytes) : Hash := hashing (scale_encode data).

(** [AuthorityPair::verify(signature, digest, id)]. *)
Definition authority_verify `{Platform} (signature : AuthoritySignature)
    (digest : Hash) (id : AuthorityId) : bool :=
  pair_verify signature (hash_as_ref digest) id.

(** ** hotstuff-primitives *)

(** Key type for HOTSTUFF module. *)
Definition HOTSTUFF_KEY_TYPE : bytes := byte_string "hots".
Definition HOTSTUFF_ENGINE_ID : bytes := byte_string "HOTS".
Definition HOTSTUFF_AUTHORITIES_KEY : bytes := byte_string ":hotstuff_authorities".
Definition GENESIS_AUTHORITY_SET_ID : Z := 0.

(** [AuthorityWeight], [AuthorityIndex] and [ViewNumber] are [u64]. *)
Abbreviation AuthorityWeight := Z (only parsing).
Abbreviation AuthorityIndex := Z (only parsing).
Abbreviation ViewNumber := Z (only parsing).
(** The block number of the runtime the node is built on is [u32]. *)
Abbreviation Number := Z (only parsing).

Abbreviation AuthorityList := (list (AuthorityId * AuthorityWeight)).

(** The keystore holds the private key of [id]: it says so, and signing with it
    gives a signature that verifies. *)
Definition holds_key `{Platform} (ks : Keystore) (id : AuthorityId) : Prop :=
  has_keys ks [(id_as_ref id, HOTSTUFF_KEY_TYPE)] = true.

(** Documented behaviour of [Keystore]: signing with a key that it has succeeds,
    and the data is a signature that verifies under that key. *)
Class KeystoreLaws `{Platform} : Prop := {
  sign_with_key : ∀ ks id msg,
    holds_key ks id →
    ∃ data sig,
      sign_with ks HOTSTUFF_KEY_TYPE CRYPTO_ID (id_as_ref id) msg = inr (Some data) ∧
      signature_try_from data = Some sig ∧
      pair_verify sig msg id = true;
}.

(** ** Errors *)

Inductive HotstuffError `{Platform} :=
| AuthorityReuse (id : AuthorityId)
| InsufficientQuorum
| InvalidSignature (id : AuthorityId)
| NullSignature
| UnknownAuthority (id : AuthorityId)
| NotAuthority
| WrongProposer
| ProposalNoParent
| ExpiredVote
| InvalidTC
| FinalizeBlock (why : string)
| SaveProposal (why : string)
| ClientError (why : string)
| Other (why : string).

#[export] Instance HotstuffError_eq_dec `{Platform} : EqDecision HotstuffError.
Proof. solve_decision. Defined.

(** ** Consensus log items *)

(** An consensus log item for Hotstuff. *)
Inductive ConsensusLog (Id : Type) :=
| AuthoritiesChange (ids : list Id)
| OnDisabled (index : AuthorityIndex).
Arguments AuthoritiesChange {_} _.
Arguments OnDisabled {_} _.

(** [#[codec(index = 1)]] and [#[codec(index = 2)]]. *)
#[export] Instance ConsensusLog_codec `{Scale, Codec Id} : Codec (ConsensusLog Id) := {|
  scale_encode l :=
    match l with
    | AuthoritiesChange ids => scale_encode Byte.x01 ++ scale_encode ids
    | OnDisabled i => scale_encode Byte.x02 ++ encode_u64 i
    end;
  scale_decode := (
    let+ tag := scale_decode in
    match tag with
    | Byte.x01 => let+ ids := scale_decode in dec_ret (AuthoritiesChange ids)
    | Byte.x02 => let+ i := decode_u64 in dec_ret (OnDisabled i)
    | _ => λ _, None
    end)%codec;
|}.

Definition ConsensusLog_ok {Id} (ok : Id → Prop) (l : ConsensusLog Id) : Prop :=
  match l with AuthoritiesChange ids => vec_ok ok ids | OnDisabled i => u64_ok i end.

#[export] Instance ConsensusLog_round_trip `{ScaleLaws} {Id} `{!Codec Id} (ok : Id → Prop)
    `{!RoundTrip Id ok} : RoundTrip (ConsensusLog Id) (ConsensusLog_ok ok).
Proof.
  split.
  - intros [ids|i] r Hl; cbn in *; unfold dec_bind, dec_ret; rewrite <- app_assoc;
      rewrite decode_encode_rest by done; cbn.
    + by rewrite decode_encode_rest.
    + by rewrite decode_encode_u64.
  - intros b l r Hd. cbn in Hd. apply dec_bind_Some in Hd as (tag & b' & _ & Hd).
    destruct tag; try done; apply dec_bind_Some in Hd as (x & b'' & Hx & Hr);
      unfold dec_ret in Hr; simplify_eq.
    + exact (decode_ok (ok := vec_ok ok) _ _ _ Hx).
    + exact (decode_u64_ok _ _ _ Hx).
Qed.
