(* ===== verification/Reference.v ===== *)
(** * A reference instance of the platform

    A concrete, computable platform satisfying [PlatformLaws] and
    [KeystoreLaws]: SCALE as its specification writes it (little-endian
    integers, compact length prefixes), 256-bit hashes of a polynomial hash
    function, and ideal signatures that name their signer and message.  It shows
    the laws can hold together and lets the witnesses evaluate. *)
From S2P Require Import Prelude Codec Primitives.
From Stdlib Require Import Eqdep_dec.
Local Open Scope Z_scope.

(** ** Little-endian integers *)

Definition byte_of_Z (z : Z) : Byte.byte :=
  default Byte.x00 (Byte.of_N (Z.to_N (Z.land z 255))).
Definition Z_of_byte (b : Byte.byte) : Z := Z.of_N (Byte.to_N b).

Lemma Z_of_byte_of_Z z : Z_of_byte (byte_of_Z z) = z mod 256.
Proof.
  unfold Z_of_byte, byte_of_Z.
  change 255 with (Z.ones 8). rewrite Z.land_ones by lia. change (2 ^ 8) with 256.
  pose proof (Z.mod_pos_bound z 256 ltac:(lia)).
  destruct (Byte.of_N (Z.to_N (z mod 256))) as [b|] eqn:E; simpl.
  - apply Byte.to_of_N in E. rewrite E. lia.
  - apply Byte.of_N_None_iff in E. lia.
Qed.

Lemma Z_of_byte_range b : 0 <= Z_of_byte b < 256.
Proof. unfold Z_of_byte. pose proof (Byte.to_N_bounded b). lia. Qed.

Fixpoint le_encode (n : nat) (z : Z) : bytes :=
  match n with
  | O => []
  | S n => byte_of_Z z :: le_encode n (Z.shiftr z 8)
  end.

Fixpoint le_decode (n : nat) (b : bytes) : option (Z * bytes) :=
  match n with
  | O => Some (0, b)
  | S n =>
      match b with
      | [] => None
      | x :: b =>
          match le_decode n b with
          | Some (z, r) => Some (Z_of_byte x + 256 * z, r)
          | None => None
          end
      end
  end.

Lemma le_encode_length n z : length (le_encode n z) = n.
Proof.
  revert z. induction n; intros; cbn [le_encode length]; auto.
Qed.

Lemma pow256_S n : 2 ^ (8 * Z.of_nat (S n)) = 256 * 2 ^ (8 * Z.of_nat n).
Proof.
  replace (8 * Z.of_nat (S n)) with (8 + 8 * Z.of_nat n) by lia.
  rewrite Z.pow_add_r by lia. done.
Qed.

Lemma le_decode_encode n z r :
  0 <= z < 2 ^ (8 * Z.of_nat n) → le_decode n (le_encode n z ++ r) = Some (z, r).
Proof.
  revert z r. induction n as [|n IH]; intros z r Hz; cbn [le_encode le_decode app].
  - simpl in Hz. do 2 f_equal. lia.
  - rewrite pow256_S in Hz. rewrite Z.shiftr_div_pow2 by lia.
    change (2 ^ 8) with 256. rewrite IH.
    + rewrite Z_of_byte_of_Z. do 2 f_equal.
      pose proof (Z.div_mod z 256 ltac:(lia)). lia.
    + pose proof (Z.div_mod z 256 ltac:(lia)).
      pose proof (Z.mod_pos_bound z 256 ltac:(lia)). lia.
Qed.

Lemma le_decode_range n b z r :
  le_decode n b = Some (z, r) → 0 <= z < 2 ^ (8 * Z.of_nat n).
Proof.
  revert b z r. induction n as [|n IH]; intros b z r; cbn [le_decode].
  - intros [= <- <-]. simpl. lia.
  - rewrite pow256_S. destruct b as [|x b]; [done|].
    destruct (le_decode n b) as [[z' r']|] eqn:E; [|done]. intros [= <- <-].
    apply IH in E. pose proof (Z_of_byte_range x). lia.
Qed.

(** ** SCALE *)

Definition compact_encode (n : Z) : bytes :=
  if n <? 64 then le_encode 1 (n * 4)
  else if n <? 16384 then le_encode 2 (n * 4 + 1)
  else if n <? 1073741824 then le_encode 4 (n * 4 + 2)
  else Byte.x03 :: le_encode 4 n.

Definition compact_decode (b : bytes) : option (Z * bytes) :=
  match b with
  | [] => None
  | x :: rest =>
      let tag := Z_of_byte x mod 4 in
      let take n := match le_decode n b with Some (z, r) => Some (z / 4, r) | None => None end in
      if tag =? 0 then take 1%nat
      else if tag =? 1 then take 2%nat
      else if tag =? 2 then take 4%nat
      else if Z_of_byte x =? 3 then le_decode 4 rest else None
  end.

Lemma compact_tagged (len : nat) k n r :
  (k, len) ∈ [(0, 1%nat); (1, 2%nat); (2, 4%nat)] →
  0 <= n → n * 4 + k < 2 ^ (8 * Z.of_nat len) →
  compact_decode (le_encode len (n * 4 + k) ++ r) = Some (n, r).
Proof.
  intros Hk Hn Hlt.
  assert (0 <= k < 4) by (set_unfold in Hk; naive_solver lia).
  destruct len as [|len]; [set_unfold in Hk; naive_solver|].
  assert (Hm : Z_of_byte (byte_of_Z (n * 4 + k)) mod 4 = k).
  { rewrite Z_of_byte_of_Z. clear Hk Hlt. Z.div_mod_to_equations. lia. }
  assert (Hd : (n * 4 + k) / 4 = n) by (clear Hk Hlt Hm; Z.div_mod_to_equations; lia).
  pose proof (le_decode_encode (S len) (n * 4 + k) r ltac:(lia)) as Hdec.
  unfold compact_decode. cbn [le_encode app] in *. cbv zeta. rewrite Hm.
  set_unfold in Hk.
  destruct Hk as [?|[?|[?|[]]]]; simplify_eq; cbn [Z.eqb Pos.eqb]; by rewrite Hdec, Hd.
Qed.

Lemma compact_decode_encode n r :
  0 <= n < 2 ^ 32 → compact_decode (compact_encode n ++ r) = Some (n, r).
Proof.
  intros Hn. unfold compact_encode.
  destruct (Z.ltb_spec n 64); [|destruct (Z.ltb_spec n 16384);
    [|destruct (Z.ltb_spec n 1073741824)]].
  - rewrite <- (Z.add_0_r (n * 4)). apply compact_tagged; [set_solver|lia|simpl; lia].
  - apply compact_tagged; [set_solver|lia|simpl; lia].
  - apply compact_tagged; [set_solver|lia|simpl; lia].
  - cbn [app compact_decode]. change (Z_of_byte Byte.x03) with 3. cbn [Z.eqb].
    change (3 mod 4) with 3. cbn. by apply (le_decode_encode 4).
Qed.

Lemma compact_decode_range b n r : compact_decode b = Some (n, r) → 0 <= n < 2 ^ 32.
Proof.
  unfold compact_decode. destruct b as [|x b]; [done|]. cbv zeta.
  assert (∀ k z, (k ≤ 4)%nat → 0 <= z < 2 ^ (8 * Z.of_nat k) → 0 <= z / 4 < 2 ^ 32) as Hk.
  { intros k z ? [? Hz]. split; [apply Z.div_pos; lia|].
    assert (2 ^ (8 * Z.of_nat k) <= 2 ^ 32) by (apply Z.pow_le_mono_r; lia).
    apply Z.div_lt_upper_bound; lia. }
  repeat case_match; intros; simplify_eq;
    repeat match goal with H : le_decode _ _ = Some _ |- _ => apply le_decode_range in H end;
    try done; (eapply Hk; [|done]; lia).
Qed.

Section vec.
Context {A : Type} `{Codec A}.

Fixpoint decode_n (n : nat) : decoder (list A) :=
  match n with
  | O => dec_ret []
  | S n => (let+ a := scale_decode in let+ l := decode_n n in dec_ret (a :: l))%codec
  end.

Definition ref_vec_codec : Codec (list A) := {|
  scale_encode l := compact_encode (Z.of_nat (length l)) ++ (l ≫= scale_encode);
  scale_decode := (let+ n := compact_decode in decode_n (Z.to_nat n))%codec;
|}.

Lemma decode_n_encode ok `{!RoundTrip A ok} l r :
  Forall ok l → decode_n (length l) ((l ≫= scale_encode) ++ r) = Some (l, r).
Proof.
  induction 1 as [|a l Ha Hl IH]; [done|]. cbn [decode_n length mbind list_bind].
  unfold dec_bind. rewrite <- app_assoc, decode_encode_rest by done.
  by rewrite IH.
Qed.

Lemma decode_n_ok ok `{!RoundTrip A ok} n b l r :
  decode_n n b = Some (l, r) → Forall ok l ∧ length l = n.
Proof.
  revert b l r. induction n as [|n IH]; intros b l r; cbn [decode_n].
  - unfold dec_ret. naive_solver.
  - intros (a & b1 & Ha & (l' & b2 & Hl & Heq)%dec_bind_Some)%dec_bind_Some.
    unfold dec_ret in Heq. simplify_eq. apply IH in Hl as [??].
    apply decode_ok in Ha. split; [by constructor|simpl; lia].
Qed.

Lemma ref_vec_round_trip ok `{!RoundTrip A ok} :
  @RoundTrip _ ref_vec_codec (vec_ok ok).
Proof.
  split.
  - intros l r [Hl Hlen]. cbn. unfold dec_bind.
    rewrite <- app_assoc, compact_decode_encode by lia.
    rewrite Nat2Z.id. by eapply decode_n_encode.
  - intros b l r. cbn. intros (n & b' & Hn & Hl)%dec_bind_Some.
    apply compact_decode_range in Hn. eapply decode_n_ok in Hl as [??]; [|done].
    split; [done|lia].
Qed.

Definition ref_option_codec : Codec (option A) := {|
  scale_encode o :=
    match o with None => [Byte.x00] | Some a => Byte.x01 :: scale_encode a end;
  scale_decode b :=
    match b with
    | Byte.x00 :: r => Some (None, r)
    | Byte.x01 :: r =>
        match scale_decode r with Some (a, r') => Some (Some a, r') | None => None end
    | _ => None
    end;
|}.

Lemma ref_option_round_trip ok `{!RoundTrip A ok} :
  @RoundTrip _ ref_option_codec (option_ok ok).
Proof.
  split.
  - intros [a|] r Ha; cbn; [|done]. by rewrite decode_encode_rest.
  - intros b o r. cbn. destruct b as [|x b]; [done|]. destruct x; try done.
    + by intros [= <- <-].
    + destruct (scale_decode b) as [[a r']|] eqn:E; [|done].
      intros [= <- <-]. simpl. by eapply decode_ok.
Qed.
End vec.

Definition le_codec (n : nat) : Codec Z := {|
  scale_encode := le_encode n;
  scale_decode := le_decode n;
|}.

#[local] Instance ref_scale : Scale := {|
  u8_codec := {|
    scale_encode x := [x];
    scale_decode b := match b with [] => None | x :: r => Some (x, r) end;
  |};
  u32_codec := le_codec 4;
  u64_codec := le_codec 8;
  vec_codec := @ref_vec_codec;
  option_codec := @ref_option_codec;
|}.

#[local] Instance ref_scale_laws : ScaleLaws.
Proof.
  split.
  - split; [done|done].
  - split; [apply (le_decode_encode 4)|apply (le_decode_range 4)].
  - split; [apply (le_decode_encode 8)|apply (le_decode_range 8)].
  - intros. by apply ref_vec_round_trip.
  - intros. by apply ref_option_round_trip.
  - intros. apply le_encode_length.
  - intros. apply le_encode_length.
Qed.

#[global] Arguments le_encode : simpl never.
#[global] Arguments le_decode : simpl never.

(** ** 256-bit values *)

Definition in_u256 (z : Z) : bool := (0 <=? z) && (z <? 2 ^ 256).

Record u256 := mkU256 { u256_val : Z; u256_in : in_u256 u256_val = true }.

Lemma u256_eq (a b : u256) : u256_val a = u256_val b → a = b.
Proof.
  destruct a as [x Hx], b as [y Hy]; simpl. intros <-. f_equal.
  apply UIP_dec, Bool.bool_dec.
Qed.

#[local] Instance u256_eq_dec : EqDecision u256 := λ a b,
  match decide (u256_val a = u256_val b) with
  | left e => left (u256_eq a b e)
  | right n => right (λ e, n (f_equal u256_val e))
  end.

(** Reduction modulo [2 ^ 256]; the range proof of a closed value evaluates. *)
Definition to_u256 (z : Z) : u256 :=
  let v := Z.land z (Z.ones 256) in
  match in_u256 v as b return in_u256 v = b → u256 with
  | true => λ e, mkU256 v e
  | false => λ _, mkU256 0 eq_refl
  end eq_refl.

Lemma in_u256_spec z : in_u256 z = true ↔ 0 <= z < 2 ^ 256.
Proof. unfold in_u256. rewrite andb_true_iff, Z.leb_le, Z.ltb_lt. done. Qed.

Lemma u256_range (a : u256) : 0 <= u256_val a < 2 ^ 256.
Proof. destruct a as [z Hz]. by apply in_u256_spec. Qed.

Lemma to_u256_val z : u256_val (to_u256 z) = z mod 2 ^ 256.
Proof.
  unfold to_u256. cbv zeta. rewrite Z.land_ones by lia.
  generalize (eq_refl (in_u256 (z mod 2 ^ 256))).
  destruct (in_u256 (z mod 2 ^ 256)) at 2 3; intros e; [done|]. exfalso.
  assert (in_u256 (z mod 2 ^ 256) = true)
    by by apply in_u256_spec, Z.mod_pos_bound. congruence.
Qed.

Lemma to_u256_of a : to_u256 (u256_val a) = a.
Proof.
  apply u256_eq. rewrite to_u256_val. apply Z.mod_small, u256_range.
Qed.

#[local] Instance u256_countable : Countable u256.
Proof.
  refine (inj_countable' u256_val to_u256 to_u256_of).
Defined.

Definition u256_bytes (a : u256) : bytes := le_encode 32 (u256_val a).

#[local] Instance u256_codec : Codec u256 := {|
  scale_encode := u256_bytes;
  scale_decode b :=
    match le_decode 32 b with Some (z, r) => Some (to_u256 z, r) | None => None end;
|}.

#[local] Instance u256_round_trip : RoundTrip u256 any_ok.
Proof.
  split; [|done]. intros a r _. cbn [scale_encode scale_decode u256_codec]. unfold u256_bytes.
  rewrite le_decode_encode by apply u256_range. by rewrite to_u256_of.
Qed.

#[local] Instance u256_bytes_inj : Inj (=) (=) u256_bytes.
Proof. intros a b Heq. by apply (encode_inj (ok := any_ok)). Qed.

(** ** Hashing, keys and signatures *)

(** A cheap mixing function: the input as one integer, cut into 256-bit
    chunks that are combined linearly. *)
Fixpoint mix (n : nat) (z acc : Z) : Z :=
  match n with
  | O => acc
  | S n => mix n (Z.shiftr z 256) (acc * 3 + Z.land z (Z.ones 256) + 1)
  end.

Definition ref_hashing (b : bytes) : u256 :=
  to_u256 (mix (S (length b / 32)) (foldr (λ x acc, Z.shiftl acc 8 + Z_of_byte x) 0 b)
    (Z.of_nat (length b))).

Definition ref_signature : Type := u256 * u256.

Definition ref_sign (id : u256) (msg : bytes) : ref_signature := (id, ref_hashing msg).

(** A keystore is the list of the identities whose keys it holds. *)
Definition ref_has_keys (ks : list u256) (keys : list (bytes * bytes)) : bool :=
  forallb (λ k, bool_decide (k.2 = HOTSTUFF_KEY_TYPE) &&
                existsb (λ id, bool_decide (u256_bytes id = k.1)) ks) keys.

Definition ref_sign_with (ks : list u256) (kt crypto pub msg : bytes) :
    string + option bytes :=
  match List.find (λ id, bool_decide (u256_bytes id = pub)) ks with
  | Some id => inr (Some (scale_encode (ref_sign id msg)))
  | None => inr None
  end.

#[local] Instance ref_platform : Platform := {|
  Hash := u256;
  Hash_default := to_u256 0;
  hash_as_ref := u256_bytes;
  hashing := ref_hashing;
  AuthorityId := u256;
  id_as_ref := u256_bytes;
  AuthoritySignature := ref_signature;
  signature_try_from b := decode_all b;
  pair_verify sig msg id := bool_decide (sig = ref_sign id msg);
  CRYPTO_ID := byte_string "sr25";
  Keystore := list u256;
  has_keys := ref_has_keys;
  sign_with := ref_sign_with;
|}.

#[local] Instance ref_platform_laws : PlatformLaws.
Proof.
  split; try apply _.
  - split; [|done]. intros a r _.
    by apply (decode_encode_rest (ok := λ p, any_ok p.1 ∧ any_ok p.2)).
  - intros h. apply le_encode_length.
  - intros h. apply le_encode_length.
Qed.

#[local] Instance ref_keystore_laws : KeystoreLaws.
Proof.
  split. intros ks id msg Hk. unfold holds_key in Hk.
  cbn [has_keys ref_platform ref_has_keys forallb fst snd] in Hk.
  rewrite andb_true_r, andb_true_iff in Hk. destruct Hk as [_ Hk].
  apply existsb_elem_of in Hk as (x & Hx & Heq%bool_decide_eq_true).
  apply (inj u256_bytes) in Heq as ->.
  cbn [sign_with signature_try_from pair_verify id_as_ref ref_platform].
  unfold ref_sign_with. destruct (List.find _ ks) as [y|] eqn:E.
  - apply find_Some_iff in E as [_ E%bool_decide_eq_true].
    apply (inj u256_bytes) in E as ->. eexists _, _. split; [done|]. split.
    + by apply (decode_all_encode (ok := λ p, any_ok p.1 ∧ any_ok p.2)).
    + by apply bool_decide_eq_true.
  - rewrite find_None_iff in E. specialize (E _ Hx). cbn in E.
    by rewrite bool_decide_eq_true_2 in E.
Qed.

(** Named identities for the witnesses. *)
Definition ref_id (n : Z) : @AuthorityId ref_platform := to_u256 n.
Definition ref_hash (n : Z) : @Hash ref_platform := to_u256 n.
Definition ref_authorities (n : nat) : list (@AuthorityId ref_platform * Z) :=
  (λ k, (ref_id (Z.of_nat k), 1)) <$> seq 1 n.
(** The signature of [id] on a digest. *)
Definition ref_sig (id : @AuthorityId ref_platform) (digest : @Hash ref_platform) :
    @AuthoritySignature ref_platform := ref_sign id (u256_bytes digest).
