(* ===== verification/Message.v ===== *)
(** * Consensus messages ([hotstuff/consensus/src/message.rs])

    The message structs with their derived SCALE coding, their digests and
    their [verify] methods.  The theorems say exactly when each [verify]
    succeeds and which error it gives otherwise, that messages survive the
    wire, and what a digest commits to. *)
From S2P Require Import Prelude Codec Primitives Reference.
Local Open Scope Z_scope.

(** ** Data *)

(** Quorum certificate for a block. *)
Record QC `{Platform} := mkQC {
  qc_proposal_hash : Hash;
  qc_view : ViewNumber;
  qc_votes : list (AuthorityId * AuthoritySignature);
}.

Definition qc_default `{Platform} : QC := mkQC _ Hash_default 0 [].

Record Payload `{Platform} := mkPayload {
  block_hash : Hash;
  block_number : Number;
}.

Record TC `{Platform} := mkTC {
  tc_view : ViewNumber;
  tc_votes : list (AuthorityId * AuthoritySignature * ViewNumber);
}.

(** Hotstuff Proposal. *)
Record Proposal `{Platform} := mkProposal {
  proposal_qc : QC;
  proposal_tc : option TC;
  proposal_payload : Payload;
  proposal_view : ViewNumber;
  proposal_author : AuthorityId;
  proposal_signature : option AuthoritySignature;
}.

(** Vote for a Proposal. *)
Record Vote `{Platform} := mkVote {
  vote_proposal_hash : Hash;
  vote_view : ViewNumber;
  vote_voter : AuthorityId;
  vote_signature : option AuthoritySignature;
}.

(** Timeout notification. *)
Record Timeout `{Platform} := mkTimeout {
  timeout_high_qc : QC;
  timeout_view : ViewNumber;
  timeout_voter : AuthorityId;
  timeout_signature : option AuthoritySignature;
}.

Inductive ConsensusMessage `{Platform} :=
| CM_Propose (p : Proposal)
| CM_Vote (v : Vote)
| CM_Timeout (t : Timeout)
| CM_TC (tc : TC)
| CM_SyncRequest (h : Hash) (id : AuthorityId)
| CM_Phantom.

Arguments mkQC {_} _ _ _.
Arguments mkPayload {_} _ _.
Arguments mkTC {_} _ _.
Arguments mkProposal {_} _ _ _ _ _ _.
Arguments mkVote {_} _ _ _ _.
Arguments mkTimeout {_} _ _ _ _.

Section eq_dec.
Context `{Platform}.
#[export] Instance QC_eq_dec : EqDecision QC.
Proof. solve_decision. Defined.
#[export] Instance Payload_eq_dec : EqDecision Payload.
Proof. solve_decision. Defined.
#[export] Instance TC_eq_dec : EqDecision TC.
Proof. solve_decision. Defined.
#[export] Instance Proposal_eq_dec : EqDecision Proposal.
Proof. solve_decision. Defined.
#[export] Instance Vote_eq_dec : EqDecision Vote.
Proof. solve_decision. Defined.
#[export] Instance Timeout_eq_dec : EqDecision Timeout.
Proof. solve_decision. Defined.
End eq_dec.

(** ** Coding ([#[derive(Encode, Decode)]]) *)
Section codecs.
Context `{Platform}.
Local Open Scope codec_scope.

#[export] Instance QC_codec : Codec QC := {|
  scale_encode q :=
    scale_encode (qc_proposal_hash q) ++ encode_u64 (qc_view q) ++ scale_encode (qc_votes q);
  scale_decode :=
    let+ h := scale_decode in let+ v := decode_u64 in let+ vs := scale_decode in
    dec_ret (mkQC h v vs);
|}.

#[export] Instance Payload_codec : Codec Payload := {|
  scale_encode p := scale_encode (block_hash p) ++ encode_u32 (block_number p);
  scale_decode :=
    let+ h := scale_decode in let+ n := decode_u32 in dec_ret (mkPayload h n);
|}.

(** The third component of a TC vote is a [ViewNumber]. *)
#[export] Instance TC_vote_codec : Codec (AuthorityId * AuthoritySignature * ViewNumber) := {|
  scale_encode x := scale_encode x.1 ++ encode_u64 x.2;
  scale_decode :=
    let+ a := scale_decode in let+ v := decode_u64 in dec_ret (a, v);
|}.

#[export] Instance TC_codec : Codec TC := {|
  scale_encode t := encode_u64 (tc_view t) ++ scale_encode (tc_votes t);
  scale_decode :=
    let+ v := decode_u64 in let+ vs := scale_decode in dec_ret (mkTC v vs);
|}.

#[export] Instance Proposal_codec : Codec Proposal := {|
  scale_encode p :=
    scale_encode (proposal_qc p) ++ scale_encode (proposal_tc p) ++
    scale_encode (proposal_payload p) ++ encode_u64 (proposal_view p) ++
    scale_encode (proposal_author p) ++ scale_encode (proposal_signature p);
  scale_decode :=
    let+ qc := scale_decode in let+ tc := scale_decode in
    let+ pl := scale_decode in let+ v := decode_u64 in
    let+ a := scale_decode in let+ s := scale_decode in
    dec_ret (mkProposal qc tc pl v a s);
|}.

#[export] Instance Vote_codec : Codec Vote := {|
  scale_encode x :=
    scale_encode (vote_proposal_hash x) ++ encode_u64 (vote_view x) ++
    scale_encode (vote_voter x) ++ scale_encode (vote_signature x);
  scale_decode :=
    let+ h := scale_decode in let+ v := decode_u64 in
    let+ a := scale_decode in let+ s := scale_decode in
    dec_ret (mkVote h v a s);
|}.

#[export] Instance Timeout_codec : Codec Timeout := {|
  scale_encode x :=
    scale_encode (timeout_high_qc x) ++ encode_u64 (timeout_view x) ++
    scale_encode (timeout_voter x) ++ scale_encode (timeout_signature x);
  scale_decode :=
    let+ q := scale_decode in let+ v := decode_u64 in
    let+ a := scale_decode in let+ s := scale_decode in
    dec_ret (mkTimeout q v a s);
|}.

(** Variant indices in declaration order; [PhantomData] takes no bytes. *)
#[export] Instance ConsensusMessage_codec : Codec ConsensusMessage := {|
  scale_encode m :=
    match m with
    | CM_Propose p => scale_encode Byte.x00 ++ scale_encode p
    | CM_Vote v => scale_encode Byte.x01 ++ scale_encode v
    | CM_Timeout t => scale_encode Byte.x02 ++ scale_encode t
    | CM_TC tc => scale_encode Byte.x03 ++ scale_encode tc
    | CM_SyncRequest h id => scale_encode Byte.x04 ++ scale_encode h ++ scale_encode id
    | CM_Phantom => scale_encode Byte.x05
    end;
  scale_decode :=
    let+ tag := scale_decode in
    match tag with
    | Byte.x00 => let+ p := scale_decode in dec_ret (CM_Propose p)
    | Byte.x01 => let+ v := scale_decode in dec_ret (CM_Vote v)
    | Byte.x02 => let+ t := scale_decode in dec_ret (CM_Timeout t)
    | Byte.x03 => let+ tc := scale_decode in dec_ret (CM_TC tc)
    | Byte.x04 =>
        let+ h := scale_decode in let+ id := scale_decode in
        dec_ret (CM_SyncRequest h id)
    | Byte.x05 => dec_ret CM_Phantom
    | _ => λ _, None
    end;
|}.
End codecs.

(** ** Digests and verification *)
Section operations.
Context `{Platform}.

(** [QC::digest]. *)
Definition qc_preimage (qc : QC) : bytes :=
  scale_encode (qc_proposal_hash qc) ++ encode_u64 (qc_view qc).
Definition qc_digest (qc : QC) : Hash := hash_of (qc_preimage qc).

(** [QC::add_votes]. *)
Definition qc_add_votes (qc : QC) (id : AuthorityId) (sig : AuthoritySignature) : QC :=
  mkQC (qc_proposal_hash qc) (qc_view qc) (qc_votes qc ++ [(id, sig)]).

(** The first loop of [QC::verify] and of [TC::verify]: a [HashSet] of the
    voters seen so far and the number of granted votes. *)
Fixpoint count_votes (used : gset AuthorityId) (grant_votes : Z)
    (voters : list AuthorityId) : outcome HotstuffError Z :=
  match voters with
  | [] => Ok grant_votes
  | authority_id :: rest =>
      if bool_decide (authority_id ∈ used) then Err (AuthorityReuse authority_id)
      else count_votes ({[ authority_id ]} ∪ used) (grant_votes + 1) rest
  end.

(** The second loop of [QC::verify]. *)
Fixpoint verify_signatures (digest : Hash)
    (votes : list (AuthorityId * AuthoritySignature)) : outcome HotstuffError unit :=
  match votes with
  | [] => Ok ()
  | (voter, signature) :: rest =>
      if negb (authority_verify signature digest voter) then Err (InvalidSignature voter)
      else verify_signatures digest rest
  end.

(** [authorities.len() * 2 / 3]. *)
Definition two_thirds (authorities : AuthorityList) : Z :=
  Z.of_nat (length authorities) * 2 / 3.

(** [QC::verify]. *)
Definition qc_verify (qc : QC) (authorities : AuthorityList) : outcome HotstuffError unit :=
  grant_votes ← count_votes ∅ 0 (fst <$> qc_votes qc);
  if grant_votes <=? two_thirds authorities then Err InsufficientQuorum
  else verify_signatures (qc_digest qc) (qc_votes qc).

(** [PartialEq for QC]: the votes are not compared. *)
Definition qc_eqb (a b : QC) : bool :=
  bool_decide (qc_proposal_hash a = qc_proposal_hash b) && (qc_view a =? qc_view b).

(** [authorities.iter().find(|authority| authority.0 == id).ok_or(..)]. *)
Definition find_authority (authorities : AuthorityList) (id : AuthorityId) :
    outcome HotstuffError (AuthorityId * AuthorityWeight) :=
  ok_or (List.find (λ authority, bool_decide (authority.1 = id)) authorities)
    (UnknownAuthority id).

(** [signature.as_ref().ok_or(NullSignature).and_then(..)]. *)
Definition check_signature (signature : option AuthoritySignature) (digest : Hash)
    (id : AuthorityId) : outcome HotstuffError unit :=
  s ← ok_or signature NullSignature;
  if negb (authority_verify s digest id) then Err (InvalidSignature id) else Ok ().

(** [Proposal::new]. *)
Definition proposal_new (qc : QC) (tc : option TC) (payload : Payload)
    (view : ViewNumber) (author : AuthorityId)
    (signature : option AuthoritySignature) : Proposal :=
  mkProposal qc tc payload view author signature.

(** [Proposal::parent_hash]. *)
Definition proposal_parent_hash (p : Proposal) : Hash := qc_proposal_hash (proposal_qc p).

(** [Proposal::digest]. *)
Definition proposal_preimage (p : Proposal) : bytes :=
  scale_encode (proposal_author p) ++ scale_encode (proposal_payload p) ++
  encode_u64 (proposal_view p) ++ scale_encode (qc_proposal_hash (proposal_qc p)).
Definition proposal_digest (p : Proposal) : Hash := hash_of (proposal_preimage p).

(** [if self.qc != QC::default() { self.qc.verify(authorities)?; }]. *)
Definition verify_unless_default (qc : QC) (authorities : AuthorityList) :
    outcome HotstuffError unit :=
  if negb (qc_eqb qc qc_default) then qc_verify qc authorities else Ok ().

(** [Proposal::verify]. *)
Definition proposal_verify (p : Proposal) (authorities : AuthorityList) :
    outcome HotstuffError unit :=
  _ ← find_authority authorities (proposal_author p);
  _ ← check_signature (proposal_signature p) (proposal_digest p) (proposal_author p);
  verify_unless_default (proposal_qc p) authorities.

(** [Vote::new]. *)
Definition vote_new (h : Hash) (view : ViewNumber) (voter : AuthorityId) : Vote :=
  mkVote h view voter None.

(** [Vote::digest]. *)
Definition vote_preimage (v : Vote) : bytes :=
  scale_encode (vote_proposal_hash v) ++ encode_u64 (vote_view v).
Definition vote_digest (v : Vote) : Hash := hash_of (vote_preimage v).

(** [Vote::verify]. *)
Definition vote_verify (v : Vote) (authorities : AuthorityList) :
    outcome HotstuffError unit :=
  _ ← find_authority authorities (vote_voter v);
  check_signature (vote_signature v) (vote_digest v) (vote_voter v).

(** [Timeout::digest]. *)
Definition timeout_preimage (t : Timeout) : bytes :=
  encode_u64 (timeout_view t) ++ encode_u64 (qc_view (timeout_high_qc t)).
Definition timeout_digest (t : Timeout) : Hash := hash_of (timeout_preimage t).

(** [Timeout::verify]. *)
Definition timeout_verify (t : Timeout) (authorities : AuthorityList) :
    outcome HotstuffError unit :=
  _ ← find_authority authorities (timeout_voter t);
  _ ← check_signature (timeout_signature t) (timeout_digest t) (timeout_voter t);
  verify_unless_default (timeout_high_qc t) authorities.

(** The digest [TC::verify] rebuilds for one vote. *)
Definition tc_vote_digest (tc_view view : ViewNumber) : Hash :=
  hash_of (encode_u64 tc_view ++ encode_u64 view).

(** The second loop of [TC::verify]. *)
Fixpoint verify_tc_signatures (tc_view : ViewNumber)
    (votes : list (AuthorityId * AuthoritySignature * ViewNumber)) :
    outcome HotstuffError unit :=
  match votes with
  | [] => Ok ()
  | (voter, signature, view) :: rest =>
      if negb (authority_verify signature (tc_vote_digest tc_view view) voter)
      then Err (InvalidSignature voter)
      else verify_tc_signatures tc_view rest
  end.

(** [TC::verify]. *)
Definition tc_verify (tc : TC) (authorities : AuthorityList) : outcome HotstuffError unit :=
  grant_votes ← count_votes ∅ 0 ((λ x, x.1.1) <$> tc_votes tc);
  if grant_votes <=? two_thirds authorities then Err InsufficientQuorum
  else verify_tc_signatures (tc_view tc) (tc_votes tc).

(** [ConsensusMessage::gossip_topic]. *)
Definition gossip_topic : Hash := hashing (byte_string "hotstuff/consensus").
End operations.

(** ** Well-formed messages: every integer in its width, every [Vec] encodable *)
Section wf.
Context `{Platform}.

Definition qc_ok (q : QC) : Prop := u64_ok (qc_view q) ∧ vec_ok any_ok (qc_votes q).
Definition payload_ok (p : Payload) : Prop := u32_ok (block_number p).
Definition tc_ok (t : TC) : Prop :=
  u64_ok (tc_view t) ∧ vec_ok (λ x, u64_ok x.2) (tc_votes t).
Definition proposal_ok (p : Proposal) : Prop :=
  qc_ok (proposal_qc p) ∧ option_ok tc_ok (proposal_tc p) ∧
  payload_ok (proposal_payload p) ∧ u64_ok (proposal_view p).
Definition vote_ok (v : Vote) : Prop := u64_ok (vote_view v).
Definition timeout_ok (t : Timeout) : Prop :=
  qc_ok (timeout_high_qc t) ∧ u64_ok (timeout_view t).
Definition message_ok (m : ConsensusMessage) : Prop :=
  match m with
  | CM_Propose p => proposal_ok p
  | CM_Vote v => vote_ok v
  | CM_Timeout t => timeout_ok t
  | CM_TC tc => tc_ok tc
  | CM_SyncRequest _ _ | CM_Phantom => True
  end.
End wf.

(** ** Messages survive the wire *)

(** Decode one field after another, then what was decoded is well formed. *)
Ltac dec_fields :=
  repeat match goal with
  | H : dec_bind _ _ _ = Some _ |- _ =>
      apply dec_bind_Some in H as (? & ? & ? & H); cbn [fst snd] in *
  | H : dec_ret _ _ = Some _ |- _ => unfold dec_ret in H; simplify_eq
  | H : decode_u64 _ = Some _ |- _ => apply decode_u64_ok in H
  | H : decode_u32 _ = Some _ |- _ => apply decode_u32_ok in H
  | H : scale_decode _ = Some _ |- _ => apply decode_ok in H
  end.

Ltac enc_fields :=
  unfold dec_bind, dec_ret;
  repeat first
    [ rewrite <- app_assoc
    | rewrite decode_encode_u64 by done
    | rewrite decode_encode_u32 by done
    | rewrite decode_encode_rest by (done || (split; done)) ].

Section round_trip.
Context `{PlatformLaws}.

#[export] Instance vote_pair_round_trip :
  RoundTrip (AuthorityId * AuthoritySignature) any_ok.
Proof.
  split; [|done]. intros a r _.
  by apply (decode_encode_rest (ok := λ p, any_ok p.1 ∧ any_ok p.2)).
Qed.

#[export] Instance QC_round_trip : RoundTrip QC qc_ok.
Proof.
  split.
  - intros [h v vs] r [??]; cbn in *. by enc_fields.
  - intros b [h v vs] r Hd; cbn in Hd. dec_fields. done.
Qed.
#[local] Arguments QC_codec : simpl never.

#[export] Instance Payload_round_trip : RoundTrip Payload payload_ok.
Proof.
  split.
  - intros [h n] r ?; cbn in *. by enc_fields.
  - intros b [h n] r Hd; cbn in Hd. dec_fields. done.
Qed.
#[local] Arguments Payload_codec : simpl never.

#[export] Instance TC_vote_round_trip :
  RoundTrip (AuthorityId * AuthoritySignature * ViewNumber) (λ x, u64_ok x.2).
Proof.
  split.
  - intros [p v] r ?; cbn [scale_encode scale_decode TC_vote_codec fst snd] in *.
    by enc_fields.
  - intros b [p v] r Hd; cbn [scale_decode TC_vote_codec] in Hd. dec_fields. done.
Qed.

#[export] Instance TC_round_trip : RoundTrip TC tc_ok.
Proof.
  split.
  - intros [v vs] r [??]; cbn in *. by enc_fields.
  - intros b [v vs] r Hd; cbn in Hd. dec_fields. done.
Qed.
#[local] Arguments TC_codec : simpl never.

#[export] Instance signature_option_round_trip :
  RoundTrip (option AuthoritySignature) any_ok.
Proof.
  split; [|done]. intros a r _.
  apply (decode_encode_rest (ok := option_ok any_ok)). by destruct a.
Qed.

#[export] Instance Proposal_round_trip : RoundTrip Proposal proposal_ok.
Proof.
  split.
  - intros [qc tc pl v a s] r (?&?&?&?); cbn in *. by enc_fields.
  - intros b [qc tc pl v a s] r Hd; cbn in Hd. dec_fields. done.
Qed.
#[local] Arguments Proposal_codec : simpl never.

#[export] Instance Vote_round_trip : RoundTrip Vote vote_ok.
Proof.
  split.
  - intros [h v a s] r ?; cbn in *. by enc_fields.
  - intros b [h v a s] r Hd; cbn in Hd. dec_fields. done.
Qed.
#[local] Arguments Vote_codec : simpl never.

#[export] Instance Timeout_round_trip : RoundTrip Timeout timeout_ok.
Proof.
  split.
  - intros [qc v a s] r [??]; cbn in *. by enc_fields.
  - intros b [qc v a s] r Hd; cbn in Hd. dec_fields. done.
Qed.
#[local] Arguments Timeout_codec : simpl never.

#[export] Instance ConsensusMessage_round_trip : RoundTrip ConsensusMessage message_ok.
Proof.
  split.
  - intros m r Hm. destruct m; cbn in *; by enc_fields.
  - intros b m r Hd; cbn in Hd.
    apply dec_bind_Some in Hd as (tag & ? & _ & Hd).
    destruct tag; try done; dec_fields; done.
Qed.
End round_trip.

#[global] Arguments scale_encode : simpl never.
#[global] Arguments scale_decode : simpl never.

(** ** What verification means *)
Section specs.
Context `{Platform}.
Implicit Types (authorities : AuthorityList) (voters : list AuthorityId).

(** The [i]-th voter is the first that voted before. *)
Definition first_reuse voters (id : AuthorityId) : Prop :=
  ∃ pre post, voters = pre ++ id :: post ∧ NoDup pre ∧ id ∈ pre.

(** [x] is the first element of [l] that fails [valid]. *)
Definition first_invalid {A} (valid : A → bool) (l : list A) (x : A) : Prop :=
  ∃ pre post, l = pre ++ x :: post ∧ Forall (λ y, valid y = true) pre ∧ valid x = false.

(** More than two thirds of the authorities. *)
Definition quorum authorities (n : nat) : Prop := two_thirds authorities < Z.of_nat n.
#[export] Instance quorum_dec authorities n : Decision (quorum authorities n) :=
  Z_lt_dec (two_thirds authorities) (Z.of_nat n).

Definition qc_vote_valid (qc : QC) (v : AuthorityId * AuthoritySignature) : bool :=
  authority_verify v.2 (qc_digest qc) v.1.

Definition qc_valid (qc : QC) authorities : Prop :=
  NoDup (qc_votes qc).*1 ∧ quorum authorities (length (qc_votes qc)) ∧
  Forall (λ v, qc_vote_valid qc v = true) (qc_votes qc).

Definition tc_vote_valid (tc : TC) (v : AuthorityId * AuthoritySignature * ViewNumber) : bool :=
  authority_verify v.1.2 (tc_vote_digest (tc_view tc) v.2) v.1.1.

Definition tc_voters (tc : TC) : list AuthorityId := (λ x, x.1.1) <$> tc_votes tc.

Definition tc_valid (tc : TC) authorities : Prop :=
  NoDup (tc_voters tc) ∧ quorum authorities (length (tc_votes tc)) ∧
  Forall (λ v, tc_vote_valid tc v = true) (tc_votes tc).

Lemma count_votes_spec used g voters :
  match count_votes used g voters with
  | Ok n => NoDup voters ∧ (∀ x, x ∈ voters → x ∉ used) ∧ n = g + Z.of_nat (length voters)
  | Err (AuthorityReuse id) =>
      ∃ pre post, voters = pre ++ id :: post ∧ NoDup pre ∧
        (∀ x, x ∈ pre → x ∉ used) ∧ (id ∈ used ∨ id ∈ pre)
  | _ => False
  end.
Proof.
  revert used g. induction voters as [|x voters IH]; intros used g; simpl.
  { split; [constructor|]. split; [set_solver|lia]. }
  case_bool_decide as Hx.
  { exists [], voters. split; [done|]. split; [constructor|]. set_solver. }
  specialize (IH ({[x]} ∪ used) (g + 1)).
  destruct (count_votes _ _ _) as [n|[]| |]; try done.
  - destruct IH as (? & Hin & ->). split; [|split; [|lia]].
    + constructor; [|done]. intros ?. by apply (Hin x); [|set_solver].
    + set_solver.
  - destruct IH as (pre & post & -> & ? & Hin & Hid). exists (x :: pre), post.
    split; [done|]. split; [|set_solver].
    constructor; [|done]. intros ?. by apply (Hin x); [|set_solver].
Qed.

(** [count_votes] as [QC::verify] and [TC::verify] start it. *)
Lemma count_votes_start voters :
  match count_votes ∅ 0 voters with
  | Ok n => NoDup voters ∧ n = Z.of_nat (length voters)
  | Err (AuthorityReuse id) => first_reuse voters id
  | _ => False
  end.
Proof.
  pose proof (count_votes_spec ∅ 0 voters) as Hs.
  destruct (count_votes _ _ _) as [n|[]| |]; try done.
  - naive_solver.
  - destruct Hs as (pre & post & ? & ? & _ & [?|?]); [set_solver|].
    by exists pre, post.
Qed.

Lemma first_reuse_not_NoDup voters id : first_reuse voters id → ¬ NoDup voters.
Proof.
  intros (pre & post & -> & _ & Hid) (_ & Hn & _)%NoDup_app. by eapply Hn; [|left].
Qed.

Lemma first_invalid_not_Forall {A} (valid : A → bool) l x :
  first_invalid valid l x → ¬ Forall (λ y, valid y = true) l.
Proof.
  intros (pre & post & -> & _ & Hx) [_ [Hv _]%Forall_cons]%Forall_app. congruence.
Qed.

Lemma first_invalid_cons {A} (valid : A → bool) y l x :
  valid y = true → first_invalid valid l x → first_invalid valid (y :: l) x.
Proof.
  intros ? (pre & post & -> & ? & ?). exists (y :: pre), post. by repeat constructor.
Qed.

Lemma verify_signatures_spec digest votes :
  let valid v := authority_verify v.2 digest v.1 in
  match verify_signatures digest votes with
  | Ok _ => Forall (λ v, valid v = true) votes
  | Err (InvalidSignature id) => ∃ sig, first_invalid valid votes (id, sig)
  | _ => False
  end.
Proof.
  induction votes as [|[id sig] votes IH]; simpl; [constructor|].
  destruct (authority_verify sig digest id) eqn:E; simpl.
  - destruct (verify_signatures digest votes) as [|[]| |]; try done.
    + by constructor.
    + destruct IH as [s ?]. exists s. by apply first_invalid_cons.
  - exists sig, [], votes. by repeat constructor.
Qed.

Lemma verify_tc_signatures_spec view votes :
  let valid v := authority_verify v.1.2 (tc_vote_digest view v.2) v.1.1 in
  match verify_tc_signatures view votes with
  | Ok _ => Forall (λ v, valid v = true) votes
  | Err (InvalidSignature id) => ∃ sig w, first_invalid valid votes (id, sig, w)
  | _ => False
  end.
Proof.
  induction votes as [|[[id sig] w] votes IH]; simpl; [constructor|].
  destruct (authority_verify sig (tc_vote_digest view w) id) eqn:E; simpl.
  - destruct (verify_tc_signatures view votes) as [|[]| |]; try done.
    + by constructor.
    + destruct IH as (s & w' & ?). exists s, w'. by apply first_invalid_cons.
  - exists sig, w, [], votes. by repeat constructor.
Qed.
End specs.

Section verify.
Context `{Platform}.
Implicit Types (authorities : AuthorityList).

(** C19: [QC::verify] succeeds exactly on a certificate with distinct voters,
    more votes than two thirds of the authorities and only valid signatures;
    otherwise its error names, in this order, the first repeated voter, the
    missing quorum, or the voter of the first invalid signature.  It never
    panics. *)
Theorem qc_verify_exact (qc : QC) authorities :
  match qc_verify qc authorities with
  | Ok _ => qc_valid qc authorities
  | Err (AuthorityReuse id) => first_reuse (qc_votes qc).*1 id
  | Err InsufficientQuorum =>
      NoDup (qc_votes qc).*1 ∧ ¬ quorum authorities (length (qc_votes qc))
  | Err (InvalidSignature id) =>
      NoDup (qc_votes qc).*1 ∧ quorum authorities (length (qc_votes qc)) ∧
      ∃ sig, first_invalid (qc_vote_valid qc) (qc_votes qc) (id, sig)
  | _ => False
  end.
Proof.
  unfold qc_verify. pose proof (count_votes_start (qc_votes qc).*1) as Hc.
  destruct (count_votes _ _ _) as [n|[]| |]; try done. simpl.
  destruct Hc as [Hnd ->]. rewrite length_fmap. unfold quorum.
  destruct (Z.leb_spec (Z.of_nat (length (qc_votes qc))) (two_thirds authorities));
    [split; [done|lia]|].
  pose proof (verify_signatures_spec (qc_digest qc) (qc_votes qc)) as Hs.
  destruct (verify_signatures _ _) as [|[]| |]; try done.
Qed.

Lemma qc_verify_Ok (qc : QC) authorities :
  qc_verify qc authorities = Ok () ↔ qc_valid qc authorities.
Proof.
  unfold qc_verify, qc_valid, quorum.
  pose proof (count_votes_start (qc_votes qc).*1) as Hc.
  destruct (count_votes _ _ _) as [n|[]| |]; try done; simpl.
  - destruct Hc as [Hnd ->]. rewrite length_fmap.
    destruct (Z.leb_spec (Z.of_nat (length (qc_votes qc))) (two_thirds authorities));
      [split; [done|lia]|].
    pose proof (verify_signatures_spec (qc_digest qc) (qc_votes qc)) as Hs.
    destruct (verify_signatures _ _) as [[]|[]| |]; try done; split; try done.
    destruct Hs as [sig Hs%first_invalid_not_Forall]. naive_solver.
  - split; [done|]. intros [Hnd _]. by apply first_reuse_not_NoDup in Hc.
Qed.

Lemma tc_verify_Ok (tc : TC) authorities :
  tc_verify tc authorities = Ok () ↔ tc_valid tc authorities.
Proof.
  unfold tc_verify, tc_valid, tc_voters, quorum.
  pose proof (count_votes_start ((λ x, x.1.1) <$> tc_votes tc)) as Hc.
  destruct (count_votes _ _ _) as [n|[]| |]; try done; simpl.
  - destruct Hc as [Hnd ->]. rewrite length_fmap.
    destruct (Z.leb_spec (Z.of_nat (length (tc_votes tc))) (two_thirds authorities));
      [split; [done|lia]|].
    pose proof (verify_tc_signatures_spec (tc_view tc) (tc_votes tc)) as Hs.
    destruct (verify_tc_signatures _ _) as [[]|[]| |]; try done; split; try done.
    destruct Hs as (sig & w & Hs%first_invalid_not_Forall). naive_solver.
  - split; [done|]. intros [Hnd _]. by apply first_reuse_not_NoDup in Hc.
Qed.

(** C20: [TC::verify] accepts exactly the certificates with distinct voters, a
    quorum, and signatures valid for the digest rebuilt from the TC's view and
    the view stored beside each signature; its errors come in the order of
    [QC::verify]. *)
Theorem tc_verify_exact (tc : TC) authorities :
  match tc_verify tc authorities with
  | Ok _ => tc_valid tc authorities
  | Err (AuthorityReuse id) => first_reuse (tc_voters tc) id
  | Err InsufficientQuorum =>
      NoDup (tc_voters tc) ∧ ¬ quorum authorities (length (tc_votes tc))
  | Err (InvalidSignature id) =>
      NoDup (tc_voters tc) ∧ quorum authorities (length (tc_votes tc)) ∧
      ∃ sig w, first_invalid (tc_vote_valid tc) (tc_votes tc) (id, sig, w)
  | _ => False
  end.
Proof.
  unfold tc_verify, tc_voters.
  pose proof (count_votes_start ((λ x, x.1.1) <$> tc_votes tc)) as Hc.
  destruct (count_votes _ _ _) as [n|[]| |]; try done. simpl.
  destruct Hc as [Hnd ->]. rewrite length_fmap. unfold quorum.
  destruct (Z.leb_spec (Z.of_nat (length (tc_votes tc))) (two_thirds authorities));
    [split; [done|lia]|].
  pose proof (verify_tc_signatures_spec (tc_view tc) (tc_votes tc)) as Hs.
  destruct (verify_tc_signatures _ _) as [|[]| |]; try done.
Qed.

Lemma find_authority_spec authorities id :
  match find_authority authorities id with
  | Ok x => x.1 = id ∧ id ∈ authorities.*1
  | Err e => e = UnknownAuthority id ∧ id ∉ authorities.*1
  | _ => False
  end.
Proof.
  unfold find_authority. destruct (List.find _ _) as [x|] eqn:E; simpl.
  - apply find_Some_iff in E as [Hx Heq%bool_decide_eq_true].
    split; [done|]. rewrite <- Heq. by apply list_elem_of_fmap_2.
  - split; [done|]. rewrite find_None_iff in E.
    intros (x & -> & Hx)%list_elem_of_fmap. specialize (E x Hx).
    by rewrite bool_decide_eq_true_2 in E.
Qed.

Lemma check_signature_spec sig digest id :
  match check_signature sig digest id with
  | Ok _ => ∃ s, sig = Some s ∧ authority_verify s digest id = true
  | Err NullSignature => sig = None
  | Err (InvalidSignature x) =>
      x = id ∧ ∃ s, sig = Some s ∧ authority_verify s digest id = false
  | _ => False
  end.
Proof.
  unfold check_signature. destruct sig as [s|]; simpl; [|done].
  destruct (authority_verify s digest id) eqn:E; simpl; eauto.
Qed.

Lemma check_signature_Ok sig digest id :
  check_signature sig digest id = Ok () ↔
  ∃ s, sig = Some s ∧ authority_verify s digest id = true.
Proof.
  unfold check_signature. destruct sig as [s|]; simpl; [|naive_solver].
  destruct (authority_verify s digest id) eqn:E; simpl; naive_solver congruence.
Qed.

Lemma find_authority_bind {B} authorities id (k : outcome HotstuffError B) b :
  (_ ← find_authority authorities id; k) = Ok b ↔ id ∈ authorities.*1 ∧ k = Ok b.
Proof.
  pose proof (find_authority_spec authorities id) as Hf.
  destruct (find_authority _ _) as [x|e| |]; try done; simpl; naive_solver.
Qed.

(** A message signed by an authority. *)
Definition signed_by authorities (id : AuthorityId) (digest : Hash)
    (sig : option AuthoritySignature) : Prop :=
  id ∈ authorities.*1 ∧ ∃ s, sig = Some s ∧ authority_verify s digest id = true.

Lemma vote_verify_Ok (v : Vote) authorities :
  vote_verify v authorities = Ok () ↔
  signed_by authorities (vote_voter v) (vote_digest v) (vote_signature v).
Proof.
  unfold vote_verify, signed_by. by rewrite find_authority_bind, check_signature_Ok.
Qed.

(** The certificate a message carries: valid, or the one [verify] skips. *)
Definition qc_accepted (qc : QC) authorities : Prop :=
  qc_eqb qc qc_default = true ∨ qc_valid qc authorities.

Lemma verify_unless_default_Ok (qc : QC) authorities :
  verify_unless_default qc authorities = Ok () ↔ qc_accepted qc authorities.
Proof.
  unfold verify_unless_default, qc_accepted.
  destruct (qc_eqb qc qc_default); simpl; [naive_solver|].
  rewrite qc_verify_Ok. naive_solver.
Qed.

Lemma signed_then_Ok {B} (authorities : AuthorityList) id digest sig
    (k : outcome HotstuffError B) b :
  (_ ← find_authority authorities id; _ ← check_signature sig digest id; k) = Ok b ↔
  signed_by authorities id digest sig ∧ k = Ok b.
Proof.
  unfold signed_by. rewrite find_authority_bind, outcome_bind_Ok.
  setoid_rewrite <- check_signature_Ok. split.
  - intros (? & [] & ? & ?). eauto.
  - intros ([??] & ?). eauto.
Qed.

Lemma proposal_verify_Ok (p : Proposal) authorities :
  proposal_verify p authorities = Ok () ↔
  signed_by authorities (proposal_author p) (proposal_digest p) (proposal_signature p) ∧
  qc_accepted (proposal_qc p) authorities.
Proof.
  unfold proposal_verify. by rewrite signed_then_Ok, verify_unless_default_Ok.
Qed.

Lemma timeout_verify_Ok (t : Timeout) authorities :
  timeout_verify t authorities = Ok () ↔
  signed_by authorities (timeout_voter t) (timeout_digest t) (timeout_signature t) ∧
  qc_accepted (timeout_high_qc t) authorities.
Proof.
  unfold timeout_verify. by rewrite signed_then_Ok, verify_unless_default_Ok.
Qed.
End verify.

Section acceptance.
Context `{Platform}.
Implicit Types (authorities : AuthorityList).

Lemma qc_verify_settles (qc : QC) authorities : settles (qc_verify qc authorities).
Proof.
  unfold qc_verify. apply settles_bind.
  - pose proof (count_votes_start (qc_votes qc).*1). by destruct (count_votes _ _ _).
  - intros n. case_match; [done|].
    pose proof (verify_signatures_spec (qc_digest qc) (qc_votes qc)).
    by destruct (verify_signatures _ _).
Qed.

Lemma tc_verify_settles (tc : TC) authorities : settles (tc_verify tc authorities).
Proof.
  unfold tc_verify. apply settles_bind.
  - pose proof (count_votes_start ((λ x, x.1.1) <$> tc_votes tc)). by destruct (count_votes _ _ _).
  - intros n. case_match; [done|].
    pose proof (verify_tc_signatures_spec (tc_view tc) (tc_votes tc)).
    by destruct (verify_tc_signatures _ _).
Qed.

Lemma check_signature_settles sig digest id : settles (check_signature sig digest id).
Proof. unfold check_signature. settle. Qed.
#[local] Hint Resolve qc_verify_settles check_signature_settles : settles.

Lemma vote_verify_settles (v : Vote) authorities : settles (vote_verify v authorities).
Proof.
  unfold vote_verify, find_authority. settle.
Qed.

Lemma signed_message_settles authorities id sig digest (qc : QC) :
  settles (_ ← find_authority authorities id; _ ← check_signature sig digest id;
           verify_unless_default qc authorities).
Proof.
  unfold find_authority, verify_unless_default. settle.
Qed.

(** C21: [Proposal::verify] accepts exactly the proposals of an authority with
    its valid signature whose QC is valid or equal to the default QC; its
    errors come in the order unknown author, missing signature, invalid
    signature, and then whatever [QC::verify] says of the carried QC. *)
Theorem proposal_verify_exact (p : Proposal) authorities :
  let author := proposal_author p in
  let sig_ok s := authority_verify s (proposal_digest p) author in
  (proposal_verify p authorities = Ok () ↔
    author ∈ authorities.*1 ∧
    (∃ s, proposal_signature p = Some s ∧ sig_ok s = true) ∧
    qc_accepted (proposal_qc p) authorities) ∧
  (author ∉ authorities.*1 → proposal_verify p authorities = Err (UnknownAuthority author)) ∧
  (author ∈ authorities.*1 → proposal_signature p = None →
    proposal_verify p authorities = Err NullSignature) ∧
  (∀ s, author ∈ authorities.*1 → proposal_signature p = Some s → sig_ok s = false →
    proposal_verify p authorities = Err (InvalidSignature author)) ∧
  (∀ s, author ∈ authorities.*1 → proposal_signature p = Some s → sig_ok s = true →
    qc_eqb (proposal_qc p) qc_default = false →
    proposal_verify p authorities = qc_verify (proposal_qc p) authorities).
Proof.
  cbv zeta. rewrite proposal_verify_Ok. split; [unfold signed_by; naive_solver|].
  unfold proposal_verify, check_signature, verify_unless_default.
  pose proof (find_authority_spec authorities (proposal_author p)) as Hf.
  destruct (find_authority _ _) as [x|e| |]; try done; simpl.
  - destruct Hf as [_ Hf]. split; [done|]. split; [by intros _ ->|].
    split; intros s _ ->; simpl; intros ->; simpl; [done|]. by intros ->.
  - destruct Hf as [-> Hf]. naive_solver.
Qed.

(** The authorities enter [QC::verify] and [TC::verify] only through their
    number: a certificate is judged the same under any two authority lists of
    equal length, so its voters need not be authorities at all. *)
Lemma certificate_verify_only_counts (qc : QC) (tc : TC) authorities authorities' :
  length authorities = length authorities' →
  qc_verify qc authorities = qc_verify qc authorities' ∧
  tc_verify tc authorities = tc_verify tc authorities'.
Proof. intros Hlen. unfold qc_verify, tc_verify, two_thirds. by rewrite Hlen. Qed.
End acceptance.
#[export] Hint Resolve qc_verify_settles tc_verify_settles check_signature_settles
  vote_verify_settles signed_message_settles : settles.

(** ** What digests commit to *)

(** The hash function has no collision among these inputs. *)
Definition collision_free `{Platform} (inputs : list bytes) : Prop :=
  ∀ x y, x ∈ inputs → y ∈ inputs → hash_of x = hash_of y → x = y.

Lemma collision_free_Forall `{Platform} inputs :
  collision_free inputs ↔
  Forall (λ x, Forall (λ y, hash_of x = hash_of y → x = y) inputs) inputs.
Proof.
  unfold collision_free. rewrite Forall_forall. setoid_rewrite Forall_forall.
  naive_solver.
Qed.

#[export] Instance collision_free_dec `{Platform} inputs : Decision (collision_free inputs) :=
  match decide (Forall (λ x, Forall (λ y, hash_of x = hash_of y → x = y) inputs) inputs) with
  | left h => left (proj2 (collision_free_Forall inputs) h)
  | right n => right (λ h, n (proj1 (collision_free_Forall inputs) h))
  end.

Section digests.
Context `{PlatformLaws}.

Lemma vote_preimage_inj (a b : Vote) :
  vote_ok a → vote_ok b → vote_preimage a = vote_preimage b →
  vote_proposal_hash a = vote_proposal_hash b ∧ vote_view a = vote_view b.
Proof.
  intros Ha Hb Heq. unfold vote_preimage in Heq.
  apply (encode_inj_rest (ok := any_ok)) in Heq as [Hh Hv]; [|done..].
  split; [done|].
  apply (encode_u64_inj_rest _ _ [] []); [done..|]. by rewrite !app_nil_r.
Qed.

Lemma proposal_preimage_inj (a b : Proposal) :
  proposal_ok a → proposal_ok b → proposal_preimage a = proposal_preimage b →
  proposal_author a = proposal_author b ∧ proposal_payload a = proposal_payload b ∧
  proposal_view a = proposal_view b ∧ proposal_parent_hash a = proposal_parent_hash b.
Proof.
  intros (_&_&Ha&Hva) (_&_&Hb&Hvb) Heq. unfold proposal_preimage in Heq.
  apply (encode_inj_rest (ok := any_ok)) in Heq as [? Heq]; [|done..].
  apply (encode_inj_rest (ok := payload_ok)) in Heq as [? Heq]; [|done..].
  apply encode_u64_inj_rest in Heq as [? Heq]; [|done..].
  by apply (encode_inj (ok := any_ok)) in Heq.
Qed.

Lemma vote_preimage_length (v : Vote) : length (vote_preimage v) = 40%nat.
Proof. unfold vote_preimage. by rewrite length_app, encode_Hash_length, encode_u64_length. Qed.

Lemma timeout_preimage_length (t : Timeout) : length (timeout_preimage t) = 16%nat.
Proof. unfold timeout_preimage. by rewrite length_app, !encode_u64_length. Qed.

Lemma proposal_preimage_length (p : Proposal) : length (proposal_preimage p) = 108%nat.
Proof.
  unfold proposal_preimage. rewrite !length_app, encode_AuthorityId_length.
  rewrite encode_u64_length, encode_Hash_length.
  unfold scale_encode at 1, Payload_codec.
  by rewrite length_app, encode_Hash_length, encode_u32_length.
Qed.

(** C24: what the signed digests bind, as far as the hash function has no
    collision among the hashed bytes: a vote digest the proposal hash and the
    view, a proposal digest the author, the payload, the view and the parent
    hash; and the three kinds of signed messages never share a digest, so no
    signature on one kind serves another although the preimages carry no tag. *)
Theorem digests_commit (v w : Vote) (t : Timeout) (p q : Proposal) :
  vote_ok v → vote_ok w → proposal_ok p → proposal_ok q →
  collision_free [vote_preimage v; vote_preimage w; timeout_preimage t; proposal_preimage p;
    proposal_preimage q] →
  (vote_digest v = vote_digest w →
    vote_proposal_hash v = vote_proposal_hash w ∧ vote_view v = vote_view w) ∧
  (proposal_digest p = proposal_digest q →
    proposal_author p = proposal_author q ∧ proposal_payload p = proposal_payload q ∧
    proposal_view p = proposal_view q ∧ proposal_parent_hash p = proposal_parent_hash q) ∧
  vote_digest v ≠ timeout_digest t ∧ vote_digest v ≠ proposal_digest p ∧
  timeout_digest t ≠ proposal_digest p.
Proof.
  intros Hv Hw Hp Hq Hcf.
  pose proof (vote_preimage_length v). pose proof (timeout_preimage_length t).
  pose proof (proposal_preimage_length p).
  split_and!; intros Heq; apply Hcf in Heq; try set_solver.
  - by apply vote_preimage_inj.
  - by apply proposal_preimage_inj.
  - rewrite Heq in *. lia.
  - rewrite Heq in *. lia.
  - rewrite Heq in *. lia.
Qed.

(** C22: every message survives the wire: what [gossip_message] sends as
    [message.encode()] decodes to the same message, whatever follows it in the
    buffer, and whatever decodes is well formed. *)
Theorem message_wire_round_trip (m : ConsensusMessage) (rest : bytes) :
  message_ok m →
  scale_decode (scale_encode m ++ rest) = Some (m, rest) ∧
  decode_all (scale_encode m) = Some m ∧
  (∀ data m', decode_all data = Some m' → message_ok m').
Proof.
  intros Hm. split; [by apply decode_encode_rest|]. split; [by apply (decode_all_encode (ok := message_ok))|].
  intros data m'. unfold decode_all. destruct (scale_decode data) as [[x r]|] eqn:E; [|done].
  intros [= <-]. by eapply decode_ok.
Qed.
End digests.

(** ** Witnesses on the reference platform *)
Section witnesses.
#[local] Existing Instance ref_platform.
#[local] Existing Instance ref_platform_laws.

Definition ref_vote (id view : Z) (h : Hash) : Vote :=
  let v := vote_new h view (ref_id id) in
  mkVote h view (ref_id id) (Some (ref_sig (ref_id id) (vote_digest v))).

(** A QC signed by the given identities. *)
Definition ref_qc (h : Hash) (view : Z) (ids : list Z) : QC :=
  mkQC h view ((λ i, (ref_id i, ref_sig (ref_id i) (qc_digest (mkQC h view [])))) <$> ids).

Definition ref_proposal (author view : Z) (qc : QC) (payload : Payload) : Proposal :=
  let p := proposal_new qc None payload view (ref_id author) None in
  mkProposal qc None payload view (ref_id author)
    (Some (ref_sig (ref_id author) (proposal_digest p))).

Definition ref_timeout (id view : Z) (qc : QC) : Timeout :=
  let t := mkTimeout qc view (ref_id id) None in
  mkTimeout qc view (ref_id id) (Some (ref_sig (ref_id id) (timeout_digest t))).

(** Three keys outside the four authorities certify a proposal. *)
Lemma certificate_verify_only_counts_witness :
  qc_verify (ref_qc (ref_hash 77) 5 [11; 12; 13]) (ref_authorities 4) = Ok () ∧
  Forall (λ v, v.1 ∉ (ref_authorities 4).*1) (qc_votes (ref_qc (ref_hash 77) 5 [11; 12; 13])).
Proof.
  split.
  - destruct (certificate_verify_only_counts (ref_qc (ref_hash 77) 5 [11; 12; 13])
      (mkTC 0 []) (ref_authorities 4) (replicate 4 (ref_id 9, 1)) eq_refl) as [-> _].
    vm_refl.
  - vm_decide.
Defined.

(** Two proposals of view 5 by authority 1 with different payloads have different
    digests, and so have a vote and a timeout of that view. *)
Lemma digests_commit_witness :
  proposal_digest (ref_proposal 1 5 qc_default (mkPayload (ref_hash 3) 4)) ≠
  proposal_digest (ref_proposal 1 5 qc_default (mkPayload (ref_hash 3) 5)) ∧
  vote_digest (ref_vote 1 5 (ref_hash 77)) ≠ timeout_digest (ref_timeout 1 5 qc_default).
Proof.
  destruct (digests_commit (ref_vote 1 5 (ref_hash 77)) (ref_vote 2 5 (ref_hash 77))
    (ref_timeout 1 5 qc_default) (ref_proposal 1 5 qc_default (mkPayload (ref_hash 3) 4))
    (ref_proposal 1 5 qc_default (mkPayload (ref_hash 3) 5))) as (_ & Hp & Hd & _).
  - split; simpl; lia.
  - split; simpl; lia.
  - repeat split; simpl; lia || constructor.
  - repeat split; simpl; lia || constructor.
  - vm_decide.
  - split; [|exact Hd]. intros Heq. destruct (Hp Heq) as (_ & Hpl & _). discriminate Hpl.
Defined.

Lemma message_wire_round_trip_witness :
  decode_all (scale_encode (CM_Vote (ref_vote 1 5 (ref_hash 77)))) =
  Some (CM_Vote (ref_vote 1 5 (ref_hash 77))).
Proof.
  apply (message_wire_round_trip (CM_Vote (ref_vote 1 5 (ref_hash 77))) []).
  split; simpl; lia.
Defined.
End witnesses.
