(* ===== verification/Aggregator.v ===== *)
(** * Vote and timeout aggregation ([hotstuff/consensus/src/aggregator.rs])

    The [Aggregator] collects votes per view and digest and timeouts per view,
    and makes a QC or TC when more than two thirds of the authorities are in.
    The theorems: its well-formedness invariant, the refinement of an abstract
    map from certificates to sets of supporters, that a QC it makes verifies
    everywhere, that a quorum of votes in any order makes one, and which TCs it
    makes do not verify. *)
From S2P Require Import Prelude Codec Primitives Reference Message.
Local Open Scope Z_scope.
Local Open Scope machine_scope.

(** ** Data *)

Record QCMaker `{Platform} := mkQCMaker {
  qcm_weight : Z;
  qcm_votes : list (AuthorityId * AuthoritySignature);
}.
Record TCMaker `{Platform} := mkTCMaker {
  tcm_weight : Z;
  tcm_votes : list (AuthorityId * AuthoritySignature * ViewNumber);
}.
Record Aggregator `{Platform} := mkAggregator {
  votes_aggregator : gmap ViewNumber (gmap Hash QCMaker);
  timeouts_aggregators : gmap ViewNumber TCMaker;
}.
Arguments mkQCMaker {_} _ _.
Arguments mkTCMaker {_} _ _.
Arguments mkAggregator {_} _ _.

(** ** Operations *)
Section operations.
Context `{Platform}.
Implicit Types (authorities : AuthorityList).

Definition qcm_new : QCMaker := mkQCMaker 0 [].
Definition qcm_default : QCMaker := qcm_new.
Definition tcm_new : TCMaker := mkTCMaker 0 [].
Definition tcm_default : TCMaker := tcm_new.
Definition aggregator_new : Aggregator := mkAggregator ∅ ∅.

(** [(authorities.len() * 2 / 3 + 1) as u64]. *)
Definition quorum_weight authorities : Z := two_thirds authorities + 1.

(** [QCMaker::append].  [ok_or(NullSignature)?] is evaluated before the push,
    so an unsigned vote leaves the maker as it was. *)
Definition qcm_append (m : QCMaker) (vote : Vote) authorities :
    outcome HotstuffError (option QC) * QCMaker :=
  if existsb (λ x, bool_decide (x.1 = vote_voter vote)) (qcm_votes m) then (Ok None, m)
  else
    match vote_signature vote with
    | None => (Err NullSignature, m)
    | Some sig =>
        let votes := qcm_votes m ++ [(vote_voter vote, sig)] in
        let m' := mkQCMaker (qcm_weight m +₆₄ 1) votes in
        if qcm_weight m' <? quorum_weight authorities then (Ok None, m')
        else (Ok (Some (mkQC (vote_proposal_hash vote) (vote_view vote) votes)), m')
    end.

(** [TCMaker::append]. *)
Definition tcm_append (m : TCMaker) (timeout : Timeout) authorities :
    outcome HotstuffError (option TC) * TCMaker :=
  let voter := timeout_voter timeout in
  if existsb (λ x, bool_decide (x.1.1 = voter)) (tcm_votes m) then (Ok None, m)
  else
    match timeout_signature timeout with
    | None => (Err NullSignature, m)
    | Some sig =>
        let votes := tcm_votes m ++ [(voter, sig, timeout_view timeout)] in
        let m' := mkTCMaker (tcm_weight m +₆₄ 1) votes in
        if tcm_weight m' <? quorum_weight authorities then (Ok None, m')
        else (Ok (Some (mkTC (timeout_view timeout) votes)), m')
    end.

(** The maker [entry(view).or_default().entry(digest).or_default()] gives. *)
Definition vote_maker (a : Aggregator) (view : ViewNumber) (digest : Hash) : QCMaker :=
  default qcm_default (default ∅ (votes_aggregator a !! view) !! digest).

Definition timeout_maker (a : Aggregator) (view : ViewNumber) : TCMaker :=
  default tcm_default (timeouts_aggregators a !! view).

(** [Aggregator::add_vote]. *)
Definition add_vote (a : Aggregator) (vote : Vote) authorities :
    outcome HotstuffError (option QC) * Aggregator :=
  let view := vote_view vote in
  let digest := vote_digest vote in
  let '(res, m) := qcm_append (vote_maker a view digest) vote authorities in
  let inner := default ∅ (votes_aggregator a !! view) in
  (res, mkAggregator (<[view := <[digest := m]> inner]> (votes_aggregator a))
          (timeouts_aggregators a)).

(** [Aggregator::add_timeout]. *)
Definition add_timeout (a : Aggregator) (timeout : Timeout) authorities :
    outcome HotstuffError (option TC) * Aggregator :=
  let view := timeout_view timeout in
  let '(res, m) := tcm_append (timeout_maker a view) timeout authorities in
  (res, mkAggregator (votes_aggregator a) (<[view := m]> (timeouts_aggregators a))).
End operations.

(** ** Lookup lemmas: the nested maps as one map *)
Section lookups.
Context `{Platform}.
Implicit Types (authorities : AuthorityList).

Lemma vote_maker_add_vote a v authorities view digest :
  vote_maker (add_vote a v authorities).2 view digest =
  if bool_decide (view = vote_view v ∧ digest = vote_digest v)
  then (qcm_append (vote_maker a (vote_view v) (vote_digest v)) v authorities).2
  else vote_maker a view digest.
Proof.
  unfold add_vote. destruct (qcm_append _ _ _) as [res m]. simpl.
  unfold vote_maker at 1; simpl. case_bool_decide as Hk.
  - destruct Hk as [-> ->]. by simplify_map_eq.
  - destruct (decide (view = vote_view v)) as [->|Hne].
    + rewrite lookup_insert_eq. simpl.
      rewrite lookup_insert_ne by naive_solver. done.
    + by rewrite lookup_insert_ne.
Qed.

Lemma add_vote_res a v authorities :
  (add_vote a v authorities).1 =
  (qcm_append (vote_maker a (vote_view v) (vote_digest v)) v authorities).1.
Proof. unfold add_vote. by destruct (qcm_append _ _ _). Qed.

Lemma add_vote_settles a v authorities : settles (add_vote a v authorities).1.
Proof.
  rewrite add_vote_res. unfold qcm_append. repeat case_match; done.
Qed.

Lemma add_timeout_settles a t authorities : settles (add_timeout a t authorities).1.
Proof.
  unfold add_timeout, tcm_append. repeat case_match; naive_solver.
Qed.

Lemma timeout_maker_add_vote a v authorities view :
  timeout_maker (add_vote a v authorities).2 view = timeout_maker a view.
Proof. unfold add_vote. by destruct (qcm_append _ _ _). Qed.

Lemma timeout_maker_add_timeout a t authorities view :
  timeout_maker (add_timeout a t authorities).2 view =
  if bool_decide (view = timeout_view t)
  then (tcm_append (timeout_maker a (timeout_view t)) t authorities).2
  else timeout_maker a view.
Proof.
  unfold add_timeout. destruct (tcm_append _ _ _) as [res m]. simpl.
  unfold timeout_maker at 1; simpl. case_bool_decide; simplify_map_eq; done.
Qed.

Lemma add_timeout_res a t authorities :
  (add_timeout a t authorities).1 =
  (tcm_append (timeout_maker a (timeout_view t)) t authorities).1.
Proof. unfold add_timeout. by destruct (tcm_append _ _ _). Qed.

Lemma vote_maker_add_timeout a t authorities view digest :
  vote_maker (add_timeout a t authorities).2 view digest = vote_maker a view digest.
Proof. unfold add_timeout. by destruct (tcm_append _ _ _). Qed.
End lookups.

(** ** Invariant *)
Section invariant.
Context `{Platform}.
Implicit Types (authorities : AuthorityList).

(** A [Vec] of authorities has far fewer than [2^63] elements. *)
Definition authorities_ok authorities : Prop := Z.of_nat (length authorities) < 2 ^ 63.

(** The maker for [digest]: the weight counts the votes, each from another
    authority with a valid signature on [digest]. *)
Definition qcm_ok authorities (digest : Hash) (m : QCMaker) : Prop :=
  qcm_weight m = Z.of_nat (length (qcm_votes m)) ∧
  NoDup (qcm_votes m).*1 ∧
  Forall (λ x, x.1 ∈ authorities.*1 ∧ authority_verify x.2 digest x.1 = true) (qcm_votes m).

(** The maker for timeouts of [view]. *)
Definition tcm_ok authorities (view : ViewNumber) (m : TCMaker) : Prop :=
  tcm_weight m = Z.of_nat (length (tcm_votes m)) ∧
  NoDup ((λ x, x.1.1) <$> tcm_votes m) ∧
  Forall (λ x, x.1.1 ∈ authorities.*1 ∧ x.2 = view ∧
    ∃ qc_view, authority_verify x.1.2 (tc_vote_digest view qc_view) x.1.1 = true) (tcm_votes m).

Definition aggregator_ok authorities (a : Aggregator) : Prop :=
  (∀ view digest, qcm_ok authorities digest (vote_maker a view digest)) ∧
  (∀ view, tcm_ok authorities view (timeout_maker a view)).

Lemma aggregator_new_ok authorities : aggregator_ok authorities aggregator_new.
Proof. split; intros; repeat constructor. Qed.

Lemma NoDup_subset_length {A} `{EqDecision A} (l k : list A) :
  NoDup l → (∀ x, x ∈ l → x ∈ k) → (length l ≤ length k)%nat.
Proof. intros ??. by apply submseteq_length, NoDup_submseteq. Qed.

Lemma voters_bounded {A} authorities (f : A → AuthorityId) (l : list A) :
  NoDup (f <$> l) → Forall (λ x, f x ∈ authorities.*1) l →
  (length l ≤ length authorities)%nat.
Proof.
  intros Hnd Hin. rewrite <- (length_fmap f l), <- (length_fmap fst authorities).
  apply NoDup_subset_length; [done|]. intros x (y & -> & Hy)%list_elem_of_fmap.
  rewrite Forall_forall in Hin. by apply Hin.
Qed.

Lemma existsb_voter {A} (f : A → AuthorityId) (l : list A) id :
  existsb (λ x, bool_decide (f x = id)) l = bool_decide (id ∈ f <$> l).
Proof.
  apply eq_bool_prop_intro. rewrite Is_true_true, existsb_elem_of, bool_decide_spec.
  rewrite list_elem_of_fmap. setoid_rewrite bool_decide_eq_true. naive_solver.
Qed.

Lemma NoDup_snoc {A} (l : list A) x : NoDup l → x ∉ l → NoDup (l ++ [x]).
Proof. intros ??. apply NoDup_app. split; [done|]. split; [set_solver|apply NoDup_singleton]. Qed.

(** What appending a signed vote does, with the arithmetic done. *)
Lemma qcm_append_signed authorities digest m v sig :
  authorities_ok authorities → qcm_ok authorities digest m →
  vote_signature v = Some sig →
  qcm_append m v authorities =
    if bool_decide (vote_voter v ∈ (qcm_votes m).*1) then (Ok None, m)
    else
      let votes := qcm_votes m ++ [(vote_voter v, sig)] in
      (if bool_decide (quorum authorities (length votes))
       then Ok (Some (mkQC (vote_proposal_hash v) (vote_view v) votes)) else Ok None,
       mkQCMaker (Z.of_nat (length votes)) votes).
Proof.
  intros Hlen (Hw & Hnd & Hall) Hsig. unfold qcm_append. rewrite existsb_voter, Hsig.
  case_bool_decide; [done|]. cbv zeta. simpl.
  assert (length (qcm_votes m) ≤ length authorities)%nat.
  { apply (voters_bounded authorities fst); [done|]. eapply Forall_impl; [done|naive_solver]. }
  rewrite Hw, u64_wrap_small by (unfold u64_ok, authorities_ok in *; lia).
  rewrite length_app. simpl. unfold quorum, quorum_weight.
  replace (Z.of_nat (length (qcm_votes m)) + 1)
    with (Z.of_nat (length (qcm_votes m) + 1)) by lia.
  case_bool_decide; destruct (Z.ltb_spec (Z.of_nat (length (qcm_votes m) + 1))
    (two_thirds authorities + 1)); try done; lia.
Qed.

Lemma tcm_append_signed authorities view m t sig :
  authorities_ok authorities → tcm_ok authorities view m →
  timeout_signature t = Some sig →
  tcm_append m t authorities =
    if bool_decide (timeout_voter t ∈ (λ x, x.1.1) <$> tcm_votes m) then (Ok None, m)
    else
      let votes := tcm_votes m ++ [(timeout_voter t, sig, timeout_view t)] in
      (if bool_decide (quorum authorities (length votes))
       then Ok (Some (mkTC (timeout_view t) votes)) else Ok None,
       mkTCMaker (Z.of_nat (length votes)) votes).
Proof.
  intros Hlen (Hw & Hnd & Hall) Hsig. unfold tcm_append. cbv zeta.
  rewrite (existsb_voter (λ x, x.1.1)), Hsig.
  case_bool_decide; [done|]. simpl.
  assert (length (tcm_votes m) ≤ length authorities)%nat.
  { apply (voters_bounded authorities (λ x, x.1.1)); [done|].
    eapply Forall_impl; [done|naive_solver]. }
  rewrite Hw, u64_wrap_small by (unfold u64_ok, authorities_ok in *; lia).
  rewrite length_app. simpl. unfold quorum, quorum_weight.
  replace (Z.of_nat (length (tcm_votes m)) + 1)
    with (Z.of_nat (length (tcm_votes m) + 1)) by lia.
  case_bool_decide; destruct (Z.ltb_spec (Z.of_nat (length (tcm_votes m) + 1))
    (two_thirds authorities + 1)); try done; lia.
Qed.

Lemma qcm_append_ok authorities m v :
  authorities_ok authorities → qcm_ok authorities (vote_digest v) m →
  vote_verify v authorities = Ok () →
  qcm_ok authorities (vote_digest v) (qcm_append m v authorities).2.
Proof.
  intros Hlen Hm [Hin (sig & Hsig & Hv)]%vote_verify_Ok.
  rewrite (qcm_append_signed _ _ _ _ _ Hlen Hm Hsig).
  case_bool_decide; [done|]. destruct Hm as (Hw & Hnd & Hall). split; [done|].
  simpl. rewrite fmap_app, Forall_app. split; [by apply NoDup_snoc|].
  split; [done|]. by repeat constructor.
Qed.

Lemma tcm_append_ok authorities m t :
  authorities_ok authorities → tcm_ok authorities (timeout_view t) m →
  timeout_verify t authorities = Ok () →
  tcm_ok authorities (timeout_view t) (tcm_append m t authorities).2.
Proof.
  intros Hlen Hm [[Hin (sig & Hsig & Hv)] _]%timeout_verify_Ok.
  rewrite (tcm_append_signed _ _ _ _ _ Hlen Hm Hsig).
  case_bool_decide; [done|]. destruct Hm as (Hw & Hnd & Hall). split; [done|].
  simpl. rewrite fmap_app, Forall_app. split; [by apply NoDup_snoc|].
  split; [done|]. repeat constructor; [done|]. by exists (qc_view (timeout_high_qc t)).
Qed.

Lemma add_vote_ok authorities a v :
  authorities_ok authorities → aggregator_ok authorities a →
  vote_verify v authorities = Ok () →
  aggregator_ok authorities (add_vote a v authorities).2.
Proof.
  intros Hlen [Hq Ht] Hv. split; intros.
  - rewrite vote_maker_add_vote. case_bool_decide as Hk; [|done].
    destruct Hk as [-> ->]. by apply qcm_append_ok.
  - by rewrite timeout_maker_add_vote.
Qed.

Lemma add_timeout_ok authorities a t :
  authorities_ok authorities → aggregator_ok authorities a →
  timeout_verify t authorities = Ok () →
  aggregator_ok authorities (add_timeout a t authorities).2.
Proof.
  intros Hlen [Hq Ht] Hv. split; intros.
  - by rewrite vote_maker_add_timeout.
  - rewrite timeout_maker_add_timeout. case_bool_decide; [|done]. subst.
    by apply tcm_append_ok.
Qed.

(** A QC made from verified votes verifies, and its voters are authorities. *)
Lemma add_vote_qc authorities a v qc :
  authorities_ok authorities → aggregator_ok authorities a →
  vote_verify v authorities = Ok () →
  (add_vote a v authorities).1 = Ok (Some qc) →
  qc_verify qc authorities = Ok () ∧
  Forall (λ x, x.1 ∈ authorities.*1) (qc_votes qc) ∧
  qc_proposal_hash qc = vote_proposal_hash v ∧ qc_view qc = vote_view v.
Proof.
  intros Hlen [Hq Ht] Hv. rewrite add_vote_res.
  pose proof (qcm_append_ok _ _ _ Hlen (Hq (vote_view v) (vote_digest v)) Hv) as Hm'.
  pose proof Hv as [Hin (sig & Hsig & _)]%vote_verify_Ok.
  rewrite (qcm_append_signed _ _ _ _ _ Hlen (Hq _ _) Hsig) in *.
  case_bool_decide; [done|]. simpl in *. case_bool_decide as Hquo; [|done].
  intros [= <-]. destruct Hm' as (_ & Hnd & Hall). simpl in *.
  split; [|split; [eapply Forall_impl; [done|naive_solver]|done]].
  apply qc_verify_Ok. split; [done|]. split; [done|].
  eapply Forall_impl; [done|]. intros x [_ Hx]. exact Hx.
Qed.
End invariant.

(** ** Abstract specification: who supports which certificate *)
Section refinement.
Context `{Platform}.
Implicit Types (authorities : AuthorityList).

(** The contract of vote aggregation: a set of supporters per view and digest,
    and a certificate whenever a new supporter comes in while more than two
    thirds of the authorities support it. *)
Abbreviation vote_spec := (gmap (ViewNumber * Hash) (gset AuthorityId)).

Definition spec_supporters (s : vote_spec) (view : ViewNumber) (digest : Hash) :
    gset AuthorityId := default ∅ (s !! (view, digest)).

Definition spec_add_vote (s : vote_spec) (v : Vote) authorities : bool * vote_spec :=
  let old := spec_supporters s (vote_view v) (vote_digest v) in
  let new := {[vote_voter v]} ∪ old in
  (bool_decide (vote_voter v ∉ old ∧ quorum authorities (size new)),
   <[(vote_view v, vote_digest v) := new]> s).

Definition supporters (a : Aggregator) (view : ViewNumber) (digest : Hash) :
    gset AuthorityId := list_to_set (qcm_votes (vote_maker a view digest)).*1.

(** The simulation relation. *)
Definition refines (s : vote_spec) (a : Aggregator) : Prop :=
  ∀ view digest, spec_supporters s view digest = supporters a view digest.

Lemma refines_new : refines ∅ aggregator_new.
Proof. intros view digest. done. Qed.

Lemma supporters_append authorities a v :
  authorities_ok authorities → aggregator_ok authorities a →
  vote_verify v authorities = Ok () →
  list_to_set (qcm_votes (qcm_append (vote_maker a (vote_view v) (vote_digest v)) v authorities).2).*1
  = {[vote_voter v]} ∪ supporters a (vote_view v) (vote_digest v).
Proof.
  intros Hlen [Hq _] [_ (sig & Hsig & _)]%vote_verify_Ok.
  rewrite (qcm_append_signed _ _ _ _ _ Hlen (Hq _ _) Hsig). unfold supporters.
  case_bool_decide; simpl; [set_solver|].
  rewrite fmap_app, list_to_set_app_L. simpl. set_solver.
Qed.

Lemma add_vote_certifies authorities a v :
  authorities_ok authorities → aggregator_ok authorities a →
  vote_verify v authorities = Ok () →
  let old := supporters a (vote_view v) (vote_digest v) in
  if bool_decide (vote_voter v ∉ old ∧ quorum authorities (size ({[vote_voter v]} ∪ old)))
  then ∃ qc, (add_vote a v authorities).1 = Ok (Some qc)
  else (add_vote a v authorities).1 = Ok None.
Proof.
  intros Hlen [Hq _] [_ (sig & Hsig & _)]%vote_verify_Ok. cbv zeta.
  rewrite add_vote_res, (qcm_append_signed _ _ _ _ _ Hlen (Hq _ _) Hsig).
  unfold supporters. set (m := vote_maker _ _ _).
  destruct (Hq (vote_view v) (vote_digest v)) as (_ & Hnd & _). fold m in Hnd.
  destruct (decide (vote_voter v ∈ (qcm_votes m).*1)) as [Hin|Hin].
  - rewrite (bool_decide_eq_true_2 _ Hin). simpl.
    rewrite bool_decide_eq_false_2; [done|]. set_solver.
  - rewrite (bool_decide_eq_false_2 _ Hin). simpl.
    rewrite size_union, size_singleton, size_list_to_set by set_solver.
    rewrite length_fmap, length_app, (Nat.add_comm 1). simpl.
    case_bool_decide; case_bool_decide; eauto; set_solver.
Qed.

(** C16: [Aggregator::add_vote] on verified votes implements the abstract
    specification: same supporters for every view and digest afterwards, and a
    QC is returned exactly when the specification certifies, [None]
    otherwise; no error, no panic. *)
Theorem add_vote_refines_spec authorities (s : vote_spec) (a : Aggregator) (v : Vote) :
  authorities_ok authorities → aggregator_ok authorities a →
  vote_verify v authorities = Ok () → refines s a →
  let '(certified, s') := spec_add_vote s v authorities in
  let '(res, a') := add_vote a v authorities in
  refines s' a' ∧ aggregator_ok authorities a' ∧
  (if certified then ∃ qc, res = Ok (Some qc) else res = Ok None).
Proof.
  intros Hlen Hok Hv Hr. unfold spec_add_vote. cbv zeta.
  pose proof (add_vote_certifies _ _ _ Hlen Hok Hv) as Hc.
  pose proof (add_vote_ok _ _ _ Hlen Hok Hv) as Hok'.
  pose proof (vote_maker_add_vote a v authorities) as Hm.
  rewrite Hr. destruct (add_vote a v authorities) as [res a']. simpl in *.
  split; [|split; [done|by case_bool_decide]].
  intros view digest. clear Hc. unfold spec_supporters, supporters. rewrite Hm.
  case_bool_decide as Hk.
  - destruct Hk as [-> ->]. rewrite lookup_insert_eq. simpl.
    by rewrite supporters_append.
  - rewrite lookup_insert_ne by naive_solver. apply Hr.
Qed.

(** ** Sequences of votes *)

Fixpoint add_votes authorities (a : Aggregator) (vs : list Vote) :
    list (outcome HotstuffError (option QC)) * Aggregator :=
  match vs with
  | [] => ([], a)
  | v :: vs =>
      let '(o, a1) := add_vote a v authorities in
      let '(os, a2) := add_votes authorities a1 vs in
      (o :: os, a2)
  end.

Lemma add_votes_quorum authorities a vs view h i v :
  authorities_ok authorities → aggregator_ok authorities a →
  Forall (λ v, vote_verify v authorities = Ok () ∧ vote_view v = view ∧
               vote_proposal_hash v = h) vs →
  NoDup (vote_voter <$> vs) →
  let d := vote_digest (mkVote h view (vote_voter v) None) in
  (∀ x, x ∈ vote_voter <$> vs → x ∉ supporters a view d) →
  vs !! i = Some v →
  if bool_decide (quorum authorities (size (supporters a view d) + i + 1))
  then ∃ qc, (add_votes authorities a vs).1 !! i = Some (Ok (Some qc))
  else (add_votes authorities a vs).1 !! i = Some (Ok None).
Proof.
  intros Hlen Hok Hvs Hnd d. revert a i Hok.
  induction Hvs as [|w vs (Hw & Hview & Hh) Hvs IH]; intros a i Hok Hfresh Hi; [done|].
  assert (vote_digest w = d) as Hd.
  { unfold d, vote_digest, vote_preimage. simpl. by rewrite Hh, Hview. }
  simpl in Hnd. apply NoDup_cons in Hnd as [Hnw Hnd].
  pose proof (add_vote_certifies _ _ _ Hlen Hok Hw) as Hc.
  pose proof (add_vote_ok _ _ _ Hlen Hok Hw) as Hok'.
  assert (supporters (add_vote a w authorities).2 view d
          = {[vote_voter w]} ∪ supporters a view d) as Hs.
  { pose proof (supporters_append _ _ _ Hlen Hok Hw) as Hs.
    unfold supporters at 1. rewrite vote_maker_add_vote.
    rewrite bool_decide_eq_true_2 by done. by rewrite Hs, Hview, Hd. }
  assert (vote_voter w ∉ supporters a view d) as Hnew by (apply Hfresh; simpl; left).
  assert (size ({[vote_voter w]} ∪ supporters a view d) = S (size (supporters a view d))) as Hsz.
  { rewrite size_union, size_singleton; [lia|by apply disjoint_singleton_l]. }
  rewrite Hview, Hd in Hc. cbn [add_votes].
  destruct (add_vote a w authorities) as [o a1]. simpl in *.
  specialize (IH Hnd a1). destruct (add_votes authorities a1 vs) as [os a2]. simpl in *.
  destruct i as [|i]; simpl in *.
  - rewrite Hsz in Hc.
    replace (size (supporters a view d) + 0 + 1)%nat with (S (size (supporters a view d))) by lia.
    case_bool_decide as Hq; case_bool_decide; try naive_solver.
  - specialize (IH i Hok'). rewrite Hs, Hsz in IH.
    replace (size (supporters a view d) + S i + 1)%nat
      with (S (size (supporters a view d)) + i + 1)%nat by lia.
    apply IH; [|done]. intros x Hx. apply not_elem_of_union.
    split; [|apply Hfresh; by right]. apply not_elem_of_singleton. by intros ->.
Qed.

(** C17: votes of distinct authorities for one proposal, in any order, starting
    from a fresh entry: the first votes return [None], and from the vote that
    makes more than two thirds of the authorities on, each returns a QC. *)
Theorem quorum_of_votes_makes_qc authorities (vs : list Vote) view h (i : nat) (v : Vote) :
  authorities_ok authorities →
  Forall (λ v, vote_verify v authorities = Ok () ∧ vote_view v = view ∧
               vote_proposal_hash v = h) vs →
  NoDup (vote_voter <$> vs) →
  vs !! i = Some v →
  if bool_decide (quorum authorities (S i))
  then ∃ qc, (add_votes authorities aggregator_new vs).1 !! i = Some (Ok (Some qc))
  else (add_votes authorities aggregator_new vs).1 !! i = Some (Ok None).
Proof.
  intros Hlen Hvs Hnd Hi.
  pose proof (add_votes_quorum authorities aggregator_new vs view h i v Hlen
    (aggregator_new_ok authorities) Hvs Hnd) as Hq.
  cbv zeta in Hq. change (supporters aggregator_new view _) with (∅ : gset AuthorityId) in Hq.
  rewrite size_empty in Hq. replace (0 + i + 1)%nat with (S i) in Hq by lia.
  apply Hq; [set_solver|done].
Qed.
End refinement.

(** ** Certificates made from verified messages *)
Section certificates.
Context `{Platform}.
Implicit Types (authorities : AuthorityList).

(** A run of the aggregator on votes ([inl]) and timeouts ([inr]). *)
Definition aggregate authorities (a : Aggregator) (e : Vote + Timeout) : Aggregator :=
  match e with
  | inl v => (add_vote a v authorities).2
  | inr t => (add_timeout a t authorities).2
  end.

Definition verified authorities (e : Vote + Timeout) : Prop :=
  match e with
  | inl v => vote_verify v authorities = Ok ()
  | inr t => timeout_verify t authorities = Ok ()
  end.

#[export] Instance verified_dec authorities e : Decision (verified authorities e).
Proof. destruct e; simpl; apply _. Defined.

Lemma aggregate_ok authorities a e :
  authorities_ok authorities → aggregator_ok authorities a → verified authorities e →
  aggregator_ok authorities (aggregate authorities a e).
Proof. intros ??. destruct e; simpl; intros; [by apply add_vote_ok|by apply add_timeout_ok]. Qed.

Lemma aggregate_run_ok authorities es a :
  authorities_ok authorities → aggregator_ok authorities a →
  Forall (verified authorities) es →
  aggregator_ok authorities (foldl (aggregate authorities) a es).
Proof.
  intros Hlen Ha Hes. revert a Ha. induction Hes; intros a Ha; simpl; [done|].
  apply IHHes. by apply aggregate_ok.
Qed.

(** C18: after any run of verified votes and timeouts, whenever the next
    verified vote completes a QC, that QC passes [QC::verify] under the same
    authorities, certifies that vote's proposal and view, and is signed by
    authorities only. *)
Theorem aggregated_qc_verifies authorities (es : list (Vote + Timeout)) (v : Vote) (qc : QC) :
  authorities_ok authorities → Forall (verified authorities) es →
  vote_verify v authorities = Ok () →
  (add_vote (foldl (aggregate authorities) aggregator_new es) v authorities).1 = Ok (Some qc) →
  qc_verify qc authorities = Ok () ∧
  Forall (λ x, x.1 ∈ authorities.*1) (qc_votes qc) ∧
  qc_proposal_hash qc = vote_proposal_hash v ∧ qc_view qc = vote_view v.
Proof.
  intros Hlen Hes Hv. apply add_vote_qc; [done| |done].
  apply aggregate_run_ok; [done|apply aggregator_new_ok|done].
Qed.

(** The aggregator stays well formed along any run of verified votes and
    timeouts: weights equal the number of recorded votes and never exceed the
    number of authorities (so the [u64] counter cannot wrap), voters are
    distinct authorities, and every recorded signature is valid. *)
Lemma aggregator_run_invariant authorities (es : list (Vote + Timeout)) :
  authorities_ok authorities → Forall (verified authorities) es →
  let a := foldl (aggregate authorities) aggregator_new es in
  aggregator_ok authorities a ∧
  (∀ view digest, 0 <= qcm_weight (vote_maker a view digest) <= Z.of_nat (length authorities)) ∧
  (∀ view, 0 <= tcm_weight (timeout_maker a view) <= Z.of_nat (length authorities)).
Proof.
  intros Hlen Hes a.
  assert (aggregator_ok authorities a) as Ha
    by (apply aggregate_run_ok; [done|apply aggregator_new_ok|done]).
  split; [done|]. destruct Ha as [Hq Ht]. split.
  - intros view digest. destruct (Hq view digest) as (-> & Hnd & Hall).
    assert (length (qcm_votes (vote_maker a view digest)) ≤ length authorities)%nat; [|lia].
    apply (voters_bounded authorities fst); [done|]. eapply Forall_impl; [done|naive_solver].
  - intros view. destruct (Ht view) as (-> & Hnd & Hall).
    assert (length (tcm_votes (timeout_maker a view)) ≤ length authorities)%nat; [|lia].
    apply (voters_bounded authorities (λ x, x.1.1)); [done|].
    eapply Forall_impl; [done|naive_solver].
Qed.

Lemma add_timeout_tc authorities a t tc :
  authorities_ok authorities → aggregator_ok authorities a →
  timeout_verify t authorities = Ok () →
  (add_timeout a t authorities).1 = Ok (Some tc) →
  ∃ sig, timeout_signature t = Some sig ∧ tc_view tc = timeout_view t ∧
    tc_votes tc = tcm_votes (timeout_maker a (timeout_view t)) ++
                  [(timeout_voter t, sig, timeout_view t)] ∧
    tc_votes tc = tcm_votes (timeout_maker (add_timeout a t authorities).2 (timeout_view t)) ∧
    NoDup (tc_voters tc) ∧ quorum authorities (length (tc_votes tc)).
Proof.
  intros Hlen [Hq Ht] Hv. rewrite add_timeout_res.
  pose proof (tcm_append_ok _ _ _ Hlen (Ht (timeout_view t)) Hv) as Hm'.
  pose proof Hv as [[_ (sig & Hsig & _)] _]%timeout_verify_Ok.
  rewrite timeout_maker_add_timeout, bool_decide_eq_true_2 by done.
  rewrite (tcm_append_signed _ _ _ _ _ Hlen (Ht _) Hsig) in *.
  case_bool_decide; [done|]. simpl in *. case_bool_decide as Hquo; [|done].
  intros [= <-]. destruct Hm' as (_ & Hnd & _). by exists sig.
Qed.

(** Every timeout recorded for [view] was signed over the pair
    [(view, view)], the pair [TC::verify] rebuilds. *)
Definition timeouts_at_view (a : Aggregator) (view : ViewNumber) : Prop :=
  Forall (λ x, authority_verify x.1.2 (tc_vote_digest view view) x.1.1 = true)
    (tcm_votes (timeout_maker a view)).

(** A TC made by [Aggregator::add_timeout] passes [TC::verify] when every
    timeout in it was sent with a high QC of the timed-out view itself (as
    in view 0, where every node starts with the default QC). *)
Lemma aggregated_tc_verifies authorities (a : Aggregator) (t : Timeout) (tc : TC) :
  authorities_ok authorities → aggregator_ok authorities a →
  timeout_verify t authorities = Ok () →
  qc_view (timeout_high_qc t) = timeout_view t →
  timeouts_at_view a (timeout_view t) →
  (add_timeout a t authorities).1 = Ok (Some tc) →
  tc_verify tc authorities = Ok () ∧ tc_view tc = timeout_view t.
Proof.
  intros Hlen Hok Hv Hqc Hat Htc.
  pose proof (add_timeout_ok _ _ _ Hlen Hok Hv) as [_ Hok'].
  destruct (add_timeout_tc _ _ _ _ Hlen Hok Hv Htc)
    as (sig & Hsig & Hview & Hvotes & Hvotes' & Hnd & Hq).
  split; [|done]. apply tc_verify_Ok. split; [done|]. split; [done|].
  destruct (Hok' (timeout_view t)) as (_ & _ & Hall). rewrite <- Hvotes' in Hall.
  apply timeout_verify_Ok in Hv as [[_ (sig' & Hsig' & Hv')] _].
  destruct Hok as [_ Hold]. destruct (Hold (timeout_view t)) as (_ & _ & Hvs).
  unfold tc_vote_valid. rewrite Hview, Hvotes, Forall_app. split.
  - unfold timeouts_at_view in Hat. rewrite Forall_forall in *. intros x Hx.
    specialize (Hat x Hx).
    destruct (Hvs x Hx) as (_ & -> & _). done.
  - simplify_eq. repeat constructor. simpl. rewrite <- Hqc at 2. done.
Qed.

(** C28: when a timeout was sent with an older high QC, the normal case after
    view 0, the TC that [TCMaker::append] completes with it is rejected by
    [TC::verify]: the maker stores the timeout's view where the verifier
    expects the view of its high QC.  (The signature is taken to bind its
    message, and the two preimages not to collide.) *)
Theorem aggregated_tc_rejected `{!PlatformLaws} authorities (a : Aggregator)
    (t : Timeout) (tc : TC) (sig : AuthoritySignature) :
  authorities_ok authorities → aggregator_ok authorities a → timeout_ok t →
  timeout_verify t authorities = Ok () →
  timeout_signature t = Some sig →
  (add_timeout a t authorities).1 = Ok (Some tc) →
  qc_view (timeout_high_qc t) ≠ timeout_view t →
  collision_free [timeout_preimage t; encode_u64 (timeout_view t) ++ encode_u64 (timeout_view t)] →
  (authority_verify sig (timeout_digest t) (timeout_voter t) = true →
   authority_verify sig (tc_vote_digest (timeout_view t) (timeout_view t)) (timeout_voter t) = true →
   timeout_digest t = tc_vote_digest (timeout_view t) (timeout_view t)) →
  ∃ id, tc_verify tc authorities = Err (InvalidSignature id).
Proof.
  intros Hlen Hok [[Hqok _] Htok] Hv Hsig Htc Hneq Hcf Hbind.
  assert (timeout_digest t ≠ tc_vote_digest (timeout_view t) (timeout_view t)) as Hne.
  { intros Heq%Hcf; [|set_solver..]. apply Hneq. unfold timeout_preimage in Heq.
    apply encode_u64_inj_rest in Heq as [_ Heq]; [|done..].
    apply (encode_u64_inj_rest _ _ [] []); [done..|]. by rewrite !app_nil_r. }
  destruct (add_timeout_tc _ _ _ _ Hlen Hok Hv Htc)
    as (sig' & Hsig' & Hview & Hvotes & _ & Hnd & Hq).
  apply timeout_verify_Ok in Hv as [[_ (sig'' & Hsig'' & Hv')] _]. simplify_eq.
  unfold tc_verify. pose proof (count_votes_start (tc_voters tc)) as Hc.
  unfold tc_voters in *.
  destruct (count_votes _ _ _) as [n|[]| |]; try done;
    [|by apply first_reuse_not_NoDup in Hc]. simpl.
  destruct Hc as [_ ->]. rewrite length_fmap. unfold quorum in Hq.
  destruct (Z.leb_spec (Z.of_nat (length (tc_votes tc))) (two_thirds authorities)); [lia|].
  pose proof (verify_tc_signatures_spec (tc_view tc) (tc_votes tc)) as Hs.
  destruct (verify_tc_signatures _ _) as [|[]| |]; try done; eauto.
  rewrite Hvotes, Forall_app, Hview in Hs. destruct Hs as [_ [Hs _]%Forall_cons].
  simpl in Hs. naive_solver.
Qed.
End certificates.

(** ** Witnesses *)
Section witnesses.
#[local] Existing Instance ref_platform.
#[local] Existing Instance ref_platform_laws.

Definition ref_votes : list Vote := (λ i, ref_vote i 5 (ref_hash 77)) <$> [1; 2; 3].

Lemma ref_authorities_ok : authorities_ok (ref_authorities 4).
Proof. vm_compute. reflexivity. Qed.

Lemma add_vote_refines_spec_witness :
  refines (spec_add_vote ∅ (ref_vote 1 5 (ref_hash 77)) (ref_authorities 4)).2
    (add_vote aggregator_new (ref_vote 1 5 (ref_hash 77)) (ref_authorities 4)).2.
Proof.
  pose proof (add_vote_refines_spec (ref_authorities 4) ∅ aggregator_new
    (ref_vote 1 5 (ref_hash 77)) ref_authorities_ok (aggregator_new_ok _)) as Hr.
  destruct (spec_add_vote _ _ _), (add_vote _ _ _).
  apply Hr; [vm_refl|apply refines_new].
Defined.

Lemma quorum_of_votes_makes_qc_witness :
  ∃ qc, (add_votes (ref_authorities 4) aggregator_new ref_votes).1 !! 2%nat =
        Some (Ok (Some qc)).
Proof.
  pose proof (quorum_of_votes_makes_qc (ref_authorities 4) ref_votes 5 (ref_hash 77) 2
    (ref_vote 3 5 (ref_hash 77)) ref_authorities_ok) as Hq.
  rewrite bool_decide_eq_true_2 in Hq by (vm_compute; reflexivity).
  apply Hq.
  - repeat (constructor; [split; [vm_refl|split; reflexivity]|]). constructor.
  - vm_decide.
  - reflexivity.
Defined.

Lemma aggregated_qc_verifies_witness :
  ∃ qc, qc_verify qc (ref_authorities 4) = Ok () ∧ length (qc_votes qc) = 3%nat.
Proof.
  exists (mkQC (ref_hash 77) 5 (qc_votes (ref_qc (ref_hash 77) 5 [1; 2; 3]))).
  split; [|reflexivity].
  apply (aggregated_qc_verifies (ref_authorities 4)
    (inl <$> [ref_vote 1 5 (ref_hash 77); ref_vote 2 5 (ref_hash 77)])
    (ref_vote 3 5 (ref_hash 77)) _ ref_authorities_ok).
  - vm_decide.
  - vm_refl.
  - vm_refl.
Defined.

Lemma aggregator_run_invariant_witness :
  aggregator_ok (ref_authorities 4)
    (foldl (aggregate (ref_authorities 4)) aggregator_new (inl <$> ref_votes)).
Proof.
  apply (aggregator_run_invariant (ref_authorities 4) (inl <$> ref_votes) ref_authorities_ok).
  vm_decide.
Defined.

Definition made_tc (a : Aggregator) (t : Timeout) (authorities : AuthorityList) : TC :=
  match (add_timeout a t authorities).1 with Ok (Some tc) => tc | _ => mkTC 0 [] end.

(** View 0: both nodes time out with the default QC. *)
Lemma aggregated_tc_verifies_witness :
  let a := aggregate (ref_authorities 2) aggregator_new (inr (ref_timeout 1 0 qc_default)) in
  let tc := made_tc a (ref_timeout 2 0 qc_default) (ref_authorities 2) in
  tc_verify tc (ref_authorities 2) = Ok () ∧ tc_view tc = 0.
Proof.
  intros a tc. apply (aggregated_tc_verifies (ref_authorities 2) a (ref_timeout 2 0 qc_default)).
  - vm_compute. reflexivity.
  - apply aggregate_ok; [vm_compute; reflexivity|apply aggregator_new_ok|vm_decide].
  - vm_refl.
  - reflexivity.
  - unfold timeouts_at_view. vm_decide.
  - vm_refl.
Defined.

(** View 7 with a high QC of view 5. *)
Lemma aggregated_tc_rejected_witness :
  let t := ref_timeout 1 7 (ref_qc (ref_hash 77) 5 [1]) in
  ∃ id, tc_verify (made_tc aggregator_new t (ref_authorities 1)) (ref_authorities 1) =
        Err (InvalidSignature id).
Proof.
  intros t. eapply (aggregated_tc_rejected (ref_authorities 1) aggregator_new t).
  - vm_compute. reflexivity.
  - apply aggregator_new_ok.
  - repeat split; simpl; try lia; by repeat constructor.
  - vm_refl.
  - reflexivity.
  - vm_refl.
  - simpl. lia.
  - vm_decide.
  - intros _ Hv. exfalso. revert Hv. apply Bool.not_true_iff_false. vm_refl.
Defined.
End witnesses.
