(* ===== verification/Synchronizer.v ===== *)
(** * The client interface, the proposal store and the synchronizer
    ([hotstuff/consensus/src/client.rs], [store.rs], [synchronizer.rs])

    [ClientForHotstuff] is a bundle of Substrate traits; [Client] is that bundle
    as a class of operations on the client's state, [ClientLaws] the documented
    behaviour of its auxiliary store and of finalization.  The store and the
    synchronizer are translated on top of it. *)
From S2P Require Import Prelude Codec Primitives Reference Message.
Local Open Scope Z_scope.

(** [sp_blockchain::BlockStatus]. *)
Inductive BlockStatus := InChain | Unknown.
#[export] Instance BlockStatus_eq_dec : EqDecision BlockStatus.
Proof. solve_decision. Defined.

(** The fields of [sp_blockchain::Info] the sources read. *)
Record Info `{Platform} := mkInfo {
  info_best_number : Number;
  info_genesis_hash : Hash;
  info_finalized_hash : Hash;
  info_finalized_number : Number;
}.
Arguments mkInfo {_} _ _ _ _.

(** [ClientForHotstuff]: [HeaderBackend::status], [HeaderBackend::info],
    [HeaderBackend::block_hash_from_id], [Finalizer::finalize_block] (without
    justification, notifying) and [AuxStore]. *)
Class Client `{Platform} := {
  client : Type;
  client_status : client → Hash → string + BlockStatus;
  client_info : client → Info;
  client_block_hash : client → Number → string + option Hash;
  client_finalize_block : client → Hash → (string + unit) * client;
  client_get_aux : client → bytes → string + option bytes;
  client_insert_aux : client → list (bytes * bytes) → list bytes → (string + unit) * client;
}.

Class ClientLaws `{Client} : Prop := {
  (** A successful insertion is read back and leaves other keys alone. *)
  get_insert_aux : ∀ c k v c',
    client_insert_aux c [(k, v)] [] = (inr (), c') →
    client_get_aux c' k = inr (Some v) ∧
    (∀ k', k' ≠ k → client_get_aux c' k' = client_get_aux c k');
  (** A failed insertion stores nothing. *)
  get_insert_aux_fails : ∀ c k v e c' k',
    client_insert_aux c [(k, v)] [] = (inl e, c') → client_get_aux c' k' = client_get_aux c k';
  (** The auxiliary store holds no chain data, and conversely. *)
  insert_aux_info : ∀ c i d, client_info (client_insert_aux c i d).2 = client_info c;
  finalize_get_aux : ∀ c h k,
    client_get_aux (client_finalize_block c h).2 k = client_get_aux c k;
  (** A finalized block is the last finalized block; a failure changes nothing. *)
  finalize_info : ∀ c h c',
    client_finalize_block c h = (inr (), c') → info_finalized_hash (client_info c') = h;
  finalize_fails : ∀ c h e c',
    client_finalize_block c h = (inl e, c') → client_info c' = client_info c;
  (** Finality never moves back, and block numbers are [u32]. *)
  finalize_number : ∀ c h,
    info_finalized_number (client_info c) <=
    info_finalized_number (client_info (client_finalize_block c h).2);
  finalized_number_u32 : ∀ c, u32_ok (info_finalized_number (client_info c));
}.

(** ** Store: a key-value store on the client's auxiliary data *)
Section store.
Context `{Client}.

(** [Store::get]. *)
Definition store_get (backend : client) (key : bytes) : string + option bytes :=
  client_get_aux backend key.

(** [Store::set]. *)
Definition store_set (backend : client) (key value : bytes) : (string + unit) * client :=
  client_insert_aux backend [(key, value)] [].
End store.

(** ** Synchronizer *)
Section synchronizer.
Context `{Client}.

(** [Synchronizer::save_proposal]. *)
Definition save_proposal (p : Proposal) : Comp client HotstuffError unit := λ c,
  let value := scale_encode p in
  let key := proposal_digest p in
  let '(r, c') := store_set c (hash_as_ref key) value in
  (map_err r SaveProposal, c').

(** [Synchronizer::get_proposal_parent]. *)
Definition get_proposal_parent (c : client) (p : Proposal) : outcome HotstuffError Proposal :=
  res ← map_err (store_get c (hash_as_ref (proposal_parent_hash p))) Other;
  match res with
  | Some data => ok_or (decode_all data) (Other "decode")
  | None => Err ProposalNoParent
  end.

(** [Synchronizer::get_proposal_ancestors]. *)
Definition get_proposal_ancestors (c : client) (p : Proposal) :
    outcome HotstuffError (Proposal * Proposal) :=
  parent ← get_proposal_parent c p;
  grandpa ← get_proposal_parent c parent;
  Ok (parent, grandpa).
End synchronizer.

Lemma get_proposal_parent_settles `{Client} c p : settles (get_proposal_parent c p).
Proof.
  unfold get_proposal_parent. settle.
Qed.

Lemma get_proposal_ancestors_settles `{Client} c p : settles (get_proposal_ancestors c p).
Proof.
  pose proof (get_proposal_parent_settles c). unfold get_proposal_ancestors. settle.
Qed.
#[export] Hint Resolve get_proposal_parent_settles get_proposal_ancestors_settles : settles.

Section facts.
Context `{Platform} {CL : Client} `{!PlatformLaws} `{!ClientLaws}.

(** The proposal stored under its digest. *)
Definition stored (c : client) (p : Proposal) : Prop :=
  client_get_aux c (hash_as_ref (proposal_digest p)) = inr (Some (scale_encode p)).

Lemma save_proposal_stored p c c' :
  save_proposal p c = (Ok (), c') →
  stored c' p ∧
  (∀ q, proposal_digest q ≠ proposal_digest p → stored c q → stored c' q) ∧
  client_info c' = client_info c.
Proof.
  unfold save_proposal, store_set. intros Hs.
  pose proof (insert_aux_info c
    [(hash_as_ref (proposal_digest p), scale_encode p)] []) as Hi.
  destruct (client_insert_aux _ _ _) as [[e|[]] c1] eqn:E; simpl in *; [done|].
  simplify_eq. destruct (get_insert_aux _ _ _ _ E) as [Hget Hother].
  split; [done|]. split; [|done]. intros q Hne Hq. unfold stored.
  rewrite Hother; [done|]. by intros ?%(inj hash_as_ref).
Qed.

Lemma get_proposal_parent_stored c p parent :
  proposal_ok parent → stored c parent →
  proposal_parent_hash p = proposal_digest parent →
  get_proposal_parent c p = Ok parent.
Proof.
  intros Hok Hs Hp. unfold get_proposal_parent, store_get.
  rewrite Hp, Hs. simpl. by rewrite (decode_all_encode (ok := proposal_ok)).
Qed.

Lemma get_proposal_parent_ok c p parent :
  get_proposal_parent c p = Ok parent → proposal_ok parent.
Proof.
  unfold get_proposal_parent, decode_all.
  destruct (store_get _ _) as [|[data|]]; simpl; try done.
  destruct (scale_decode data) as [[x r]|] eqn:E; simpl; [|done].
  intros [= <-]. by eapply decode_ok.
Qed.

(** What [save_proposal] stored is what the ancestor walk finds: after
    saving a grandparent, its child and then any number of other proposals
    with other digests, [get_proposal_ancestors] of a proposal built on the
    child returns exactly the two, and saving leaves the chain state alone. *)
Lemma saved_ancestors_found (c c1 c2 c3 : client) (grandpa parent other p : Proposal) :
  proposal_ok grandpa → proposal_ok parent →
  proposal_parent_hash parent = proposal_digest grandpa →
  proposal_parent_hash p = proposal_digest parent →
  proposal_digest parent ≠ proposal_digest grandpa →
  proposal_digest other ≠ proposal_digest grandpa →
  proposal_digest other ≠ proposal_digest parent →
  save_proposal grandpa c = (Ok (), c1) →
  save_proposal parent c1 = (Ok (), c2) →
  save_proposal other c2 = (Ok (), c3) →
  get_proposal_ancestors c3 p = Ok (parent, grandpa) ∧
  client_info c3 = client_info c.
Proof.
  intros Hg Hp Hpg Hpp Hne Hog Hop E1 E2 E3.
  apply save_proposal_stored in E1 as (S1 & _ & I1).
  apply save_proposal_stored in E2 as (S2 & O2 & I2).
  apply save_proposal_stored in E3 as (S3 & O3 & I3).
  split; [|congruence].
  unfold get_proposal_ancestors.
  rewrite (get_proposal_parent_stored c3 p parent); [simpl|done|by apply O3|done].
  by rewrite (get_proposal_parent_stored c3 parent grandpa); [|done|apply O3; auto|done].
Qed.
End facts.

(** ** A reference client *)
Section ref_client.
#[local] Existing Instance ref_platform.

Record ref_client_state := mkRefClient {
  rc_blocks : list (Hash * Number);
  rc_best : Number;
  rc_finalized : Hash * Number;
  rc_aux : gmap bytes bytes;
}.

Definition rc_number (c : ref_client_state) (h : Hash) : option Number :=
  snd <$> List.find (λ b, bool_decide (b.1 = h)) (rc_blocks c).

(** Finalizing a known block above the last finalized one. *)
Definition rc_finalize (c : ref_client_state) (h : Hash) : (string + unit) * ref_client_state :=
  match rc_number c h with
  | Some n =>
      if (rc_finalized c).2 <? n
      then (inr (), mkRefClient (rc_blocks c) (rc_best c) (h, n) (rc_aux c))
      else (inl "not above the finalized block", c)
  | None => (inl "unknown block", c)
  end.

Definition rc_insert (c : ref_client_state) (ins : list (bytes * bytes)) (del : list bytes) :
    (string + unit) * ref_client_state :=
  (inr (), mkRefClient (rc_blocks c) (rc_best c) (rc_finalized c)
    (foldr delete (foldl (λ m kv, <[kv.1 := kv.2]> m) (rc_aux c) ins) del)).

(** Block numbers are [u32]. *)
Definition rc_clamp (n : Number) : Number := Z.min (Z.max 0 n) (2 ^ 32 - 1).

Definition ref_client : Client := {|
  client := ref_client_state;
  client_status c h := inr (match rc_number c h with Some _ => InChain | None => Unknown end);
  client_info c :=
    mkInfo (rc_best c) (ref_hash 0) (rc_finalized c).1 (rc_clamp (rc_finalized c).2);
  client_block_hash c n :=
    inr (fst <$> List.find (λ b, bool_decide (b.2 = n)) (rc_blocks c));
  client_finalize_block := rc_finalize;
  client_get_aux c k := inr (rc_aux c !! k);
  client_insert_aux := rc_insert;
|}.

#[local] Existing Instance ref_client.

Lemma ref_client_laws : ClientLaws.
Proof.
  split.
  - intros c k v c' [= <-]. cbn. split; [by rewrite lookup_insert_eq|].
    intros k' Hne. by rewrite lookup_insert_ne.
  - done.
  - intros c i d. done.
  - intros c h k. cbn. unfold rc_finalize. repeat case_match; done.
  - intros c h c'. cbn. unfold rc_finalize. repeat case_match; naive_solver.
  - intros c h e c'. cbn. unfold rc_finalize. repeat case_match; naive_solver.
  - intros c h. cbn [client_info client_finalize_block ref_client info_finalized_number].
    unfold rc_finalize. destruct (rc_number c h) as [n|]; [|done].
    destruct (Z.ltb_spec (rc_finalized c).2 n); cbn [fst snd rc_finalized]; unfold rc_clamp; lia.
  - intros c. cbn [client_info ref_client info_finalized_number]. unfold rc_clamp, u32_ok. lia.
Qed.

(** A chain of blocks 1..n above the genesis block, nothing finalized. *)
Definition ref_chain (n : nat) : ref_client_state :=
  mkRefClient ((λ k, (ref_hash (1000 + Z.of_nat k), Z.of_nat k)) <$> seq 1 n)
    (Z.of_nat n) (ref_hash 0, 0) ∅.

#[local] Existing Instance ref_platform_laws.
#[local] Existing Instance ref_client_laws.

Definition ref_block (k : Z) : Payload := mkPayload (ref_hash (1000 + k)) k.

(** Proposals of views 1, 2 and 4, each on the one before, and one aside. *)
Definition ref_p1 : Proposal := ref_proposal 2 1 qc_default (ref_block 1).
Definition ref_p2 : Proposal :=
  ref_proposal 3 2 (ref_qc (proposal_digest ref_p1) 1 [1; 2; 3]) (ref_block 2).
Definition ref_p3 : Proposal :=
  ref_proposal 4 3 (ref_qc (proposal_digest ref_p2) 2 [1; 2; 3]) (ref_block 3).

Lemma ref_p1_ok : proposal_ok ref_p1.
Proof. repeat split; simpl; try lia; by repeat constructor. Qed.
Lemma ref_p2_ok : proposal_ok ref_p2.
Proof. repeat split; simpl; try lia; by repeat constructor. Qed.

Lemma saved_ancestors_found_witness :
  let other := ref_proposal 2 1 qc_default (ref_block 5) in
  let c1 := (save_proposal ref_p1 (ref_chain 3)).2 in
  let c2 := (save_proposal ref_p2 c1).2 in
  let c3 := (save_proposal other c2).2 in
  get_proposal_ancestors c3 ref_p3 = Ok (ref_p2, ref_p1).
Proof.
  intros other c1 c2 c3.
  apply (saved_ancestors_found (CL := ref_client) (ref_chain 3) c1 c2 c3 ref_p1 ref_p2 other ref_p3);
    [apply ref_p1_ok|apply ref_p2_ok|reflexivity|reflexivity|vm_decide..|
     reflexivity|reflexivity|reflexivity].
Defined.
End ref_client.
