(* ===== verification/ProtocolName.v ===== *)
(** * The gossip protocol ([hotstuff/consensus/src/config.rs])

    Nodes gossip on a protocol whose name carries the genesis hash and the fork
    id of the chain.  The theorem: chains that differ in either never share a
    protocol, so their nodes cannot hear each other's consensus messages. *)
From S2P Require Import Prelude Codec Primitives Reference.
Local Open Scope Z_scope.

(** [array_bytes::bytes2hex] is a library's function: the prefix, then two
    digits per byte. *)
Class HexLib := { bytes2hex : string → bytes → string }.

Class HexLaws `{HexLib} : Prop := {
  bytes2hex_prefix : ∀ p b, bytes2hex p b = (p +:+ bytes2hex "" b)%string;
  bytes2hex_length : ∀ b, String.length (bytes2hex "" b) = (2 * length b)%nat;
  bytes2hex_inj :: Inj (=) (=) (bytes2hex "");
}.

(** The block hash of Substrate is an [H256]. *)
Class HashWidth `{Platform} : Prop := {
  hash_as_ref_length : ∀ h, length (hash_as_ref h) = 32%nat;
}.

Definition HOTSTUFF_PROTOCOL_NAME : string := "/hotstuff/1".

(** [sc_network::config::NonReservedPeerMode]. *)
Inductive NonReservedPeerMode := Accept | Deny.

(** [sc_network::config::SetConfig] and [NonDefaultSetConfig]. *)
Record SetConfig := mkSetConfig {
  in_peers : Z;
  out_peers : Z;
  reserved_nodes : list string;
  non_reserved_mode : NonReservedPeerMode;
}.
Record NonDefaultSetConfig := mkNonDefaultSetConfig {
  notifications_protocol : string;
  fallback_names : list string;
  max_notification_size : Z;
  handshake : option bytes;
  set_config : SetConfig;
}.

Section names.
Context `{Platform} `{HexLib}.
Local Open Scope string_scope.

(** [standard_name]; of the chain specification it reads the fork id. *)
Definition standard_name (genesis_hash : Hash) (fork_id : option string) : string :=
  let genesis_hash := hash_as_ref genesis_hash in
  let chain_prefix :=
    match fork_id with
    | Some fork_id => "/" +:+ bytes2hex "" genesis_hash +:+ "/" +:+ fork_id
    | None => "/" +:+ bytes2hex "" genesis_hash
    end in
  chain_prefix +:+ HOTSTUFF_PROTOCOL_NAME.

(** [hotstuff_peers_set_config]. *)
Definition hotstuff_peers_set_config (protocol_name : string) : NonDefaultSetConfig :=
  {| notifications_protocol := protocol_name;
     fallback_names := [];
     max_notification_size := 1024 * 1024;
     handshake := None;
     set_config :=
       {| in_peers := 0; out_peers := 0; reserved_nodes := []; non_reserved_mode := Deny |} |}.

(** The part of a name between the genesis hash and the protocol. *)
Definition fork_part (fork_id : option string) : string :=
  match fork_id with Some f => "/" +:+ f | None => "" end.

Lemma standard_name_parts h f :
  standard_name h f =
  "/" +:+ (bytes2hex "" (hash_as_ref h) +:+ (fork_part f +:+ HOTSTUFF_PROTOCOL_NAME)).
Proof.
  unfold standard_name, fork_part. by destruct f; rewrite !string_app_assoc.
Qed.

(** The name separates chains: two chains whose genesis hashes or fork ids
    differ never use the same gossip protocol, even when one has no fork id. *)
Lemma protocol_names_separate_chains `{!PlatformLaws} `{!HexLaws} `{!HashWidth}
    (h h' : Hash) (f f' : option string) :
  standard_name h f = standard_name h' f' → h = h' ∧ f = f'.
Proof.
  rewrite !standard_name_parts. intros Heq.
  apply string_app_inv in Heq as [_ Heq]; [|done].
  apply string_app_inv in Heq as [Hhex Hrest];
    [|by rewrite !bytes2hex_length, !hash_as_ref_length].
  split; [by apply (inj hash_as_ref), (inj (bytes2hex ""))|].
  apply string_app_inv_r in Hrest. destruct f, f'; by simplify_eq/=.
Qed.
End names.

Section witnesses.
#[local] Existing Instance ref_platform.
#[local] Existing Instance ref_platform_laws.
Local Open Scope string_scope.

(** Lower-case hexadecimal. *)
Definition hex_digit (n : N) : Ascii.ascii :=
  Ascii.ascii_of_N (if (n <? 10)%N then 48 + n else 87 + n).
Fixpoint ref_hex (b : bytes) : string :=
  match b with
  | [] => ""
  | x :: b => String (hex_digit (Byte.to_N x / 16)) (String (hex_digit (Byte.to_N x mod 16)) (ref_hex b))
  end.
Definition ref_hex_lib : HexLib := {| bytes2hex p b := p +:+ ref_hex b |}.
#[local] Existing Instance ref_hex_lib.

Lemma ref_hex_byte_inj (x y : Byte.byte) :
  hex_digit (Byte.to_N x / 16) = hex_digit (Byte.to_N y / 16) →
  hex_digit (Byte.to_N x mod 16) = hex_digit (Byte.to_N y mod 16) → x = y.
Proof.
  intros Hd Hm.
  assert (∀ a b, (a < 16)%N → (b < 16)%N → hex_digit a = hex_digit b → a = b) as Hinj.
  { intros a b Ha Hb Heq. apply (f_equal Ascii.N_of_ascii) in Heq. unfold hex_digit in Heq.
    rewrite !Ascii.N_ascii_embedding in Heq
      by (destruct (N.ltb_spec a 10), (N.ltb_spec b 10); lia).
    destruct (N.ltb_spec a 10), (N.ltb_spec b 10); lia. }
  pose proof (Byte.to_N_bounded x). pose proof (Byte.to_N_bounded y).
  apply Hinj in Hd; [|apply N.Div0.div_lt_upper_bound; lia..].
  apply Hinj in Hm; [|apply N.mod_lt; lia..].
  assert (Byte.to_N x = Byte.to_N y) as Heq.
  { rewrite (N.div_mod (Byte.to_N x) 16), (N.div_mod (Byte.to_N y) 16) by lia. congruence. }
  apply (f_equal Byte.of_N) in Heq. rewrite !Byte.of_to_N in Heq. by simplify_eq.
Qed.

Lemma ref_hex_laws : HexLaws.
Proof.
  split; cbn [bytes2hex ref_hex_lib]; [done| |].
  - intros b. change ("" +:+ ref_hex b) with (ref_hex b). induction b; simpl in *; lia.
  - intros a b. change (ref_hex a = ref_hex b → a = b). revert b. induction a as [|x a IH]; intros [|y b] Heq; simplify_eq/=; [done|].
    f_equal; [by apply ref_hex_byte_inj|by apply IH].
Qed.

Lemma ref_hash_width : HashWidth.
Proof. split. intros h. apply le_encode_length. Qed.

(** A chain forked off without a fork id of its own would share the name; the
    fork id keeps them apart. *)
Lemma protocol_names_separate_chains_witness :
  standard_name (ref_hash 9) (Some "fork") ≠ standard_name (ref_hash 9) None ∧
  standard_name (ref_hash 9) None = standard_name (ref_hash 9) None ∧ ref_hash 9 = ref_hash 9.
Proof.
  split; [|split; [reflexivity|]].
  - intros Heq.
    destruct (@protocol_names_separate_chains _ _ _ ref_hex_laws ref_hash_width _ _ _ _ Heq)
      as [_ Hf]. discriminate Hf.
  - destruct (@protocol_names_separate_chains _ _ _ ref_hex_laws ref_hash_width
      (ref_hash 9) (ref_hash 9) None None eq_refl) as [Hh _]. exact Hh.
Defined.
End witnesses.
