(* ===== verification/Network.v ===== *)
(** * Gossip validation ([hotstuff/consensus/src/network.rs])

    The [GossipValidator] keeps the node's current view and decides which gossip
    messages to process, to drop from the gossip cache and to send on.  The
    gossip engine itself is a library, the [HotstuffNetworkBridge] holds it beside
    the validator; [Effect]s of the worker record the calls into it. *)
From S2P Require Import Prelude Codec Primitives Reference Message.
From stdpp Require Import pretty.
Local Open Scope Z_scope.
Local Open Scope machine_scope.

(** [sc_network_gossip::ValidationResult], the variants the sources use. *)
Inductive ValidationResult `{Platform} :=
| ProcessAndKeep (topic : Hash)
| Discard.

Record GossipValidator := mkGossipValidator { gv_view : ViewNumber }.

Section validator.
Context `{Platform}.

(** [GossipValidator::new]. *)
Definition gossip_validator_new : GossipValidator := mkGossipValidator 0.

(** [GossipValidator::set_view], [get_view]. *)
Definition gv_set_view (new_view : ViewNumber) (v : GossipValidator) : GossipValidator :=
  mkGossipValidator new_view.
Definition gv_get_view (v : GossipValidator) : ViewNumber := gv_view v.

(** The view of a message, [0] for the kinds that have none. *)
Definition message_view (m : ConsensusMessage) : ViewNumber :=
  match m with
  | CM_Propose p => proposal_view p
  | CM_Vote v => vote_view v
  | CM_Timeout t => timeout_view t
  | CM_TC tc => tc_view tc
  | _ => 0
  end.

(** [Validator::validate]. *)
Definition validate (v : GossipValidator) (data : bytes) : ValidationResult :=
  match decode_all data with
  | Some message =>
      let current_view := gv_get_view v in
      if (current_view >? 1) && (message_view message <? current_view -₆₄ 1)
      then Discard
      else ProcessAndKeep gossip_topic
  | None => Discard
  end.

(** [Validator::message_expired]. *)
Definition message_expired (v : GossipValidator) (topic : Hash) (data : bytes) : bool :=
  match decode_all (A := ConsensusMessage) data with
  | Some message =>
      let current_view := gv_get_view v in
      (current_view >=? 1) && (message_view message <? current_view -₆₄ 1)
  | None => true
  end.

(** [Validator::message_allowed]. *)
Definition message_allowed (v : GossipValidator) (topic : Hash) (data : bytes) : bool :=
  if negb (bool_decide (topic = gossip_topic)) then false
  else
    match decode_all (A := ConsensusMessage) data with
    | Some message =>
        let current_view := gv_get_view v in
        negb ((current_view >=? 1) && (message_view message <? current_view -₆₄ 1))
    | None => false
    end.

(** A message is recent: at most one view behind the validator's. *)
Definition recent (v : GossipValidator) (m : ConsensusMessage) : Prop :=
  gv_view v <= message_view m + 1.

Lemma stale_test bound (v : GossipValidator) (m : ConsensusMessage) :
  u64_ok (gv_view v) → 0 <= message_view m → bound = 0 ∨ bound = 1 →
  (gv_get_view v >? bound) && (message_view m <? gv_get_view v -₆₄ 1) = true ↔
  ¬ recent v m.
Proof.
  intros Hv Hm Hb. unfold recent, gv_get_view, u64_ok in *.
  rewrite andb_true_iff, Z.gtb_lt, Z.ltb_lt.
  destruct (decide (gv_view v = 0)) as [->|]; [lia|].
  rewrite u64_wrap_small by (unfold u64_ok; lia). lia.
Qed.

(** C30: the three gossip filters agree although they test the view with
    different guards ([> 1] and [>= 1]): for every message on the wire, it is
    processed and kept iff it has not expired iff it may be sent on, namely iff
    it is at most one view behind the node; bytes that do not decode are
    always dropped.  The unsigned subtraction never underflows. *)
Theorem gossip_filters_agree (v : GossipValidator) (m : ConsensusMessage) (data : bytes) :
  u64_ok (gv_view v) → 0 <= message_view m → decode_all data = Some m →
  (validate v data = ProcessAndKeep gossip_topic ↔ recent v m) ∧
  (validate v data = Discard ↔ ¬ recent v m) ∧
  (message_expired v gossip_topic data = false ↔ recent v m) ∧
  (message_allowed v gossip_topic data = true ↔ recent v m).
Proof.
  intros Hv Hm Hd. unfold validate, message_expired, message_allowed. rewrite Hd.
  rewrite bool_decide_eq_true_2 by done. cbv zeta.
  pose proof (stale_test 1 v m Hv Hm (or_intror eq_refl)) as H1.
  pose proof (stale_test 0 v m Hv Hm (or_introl eq_refl)) as H0'.
  assert ((gv_get_view v >=? 1) = (gv_get_view v >? 0)) as ->.
  { apply eq_bool_prop_intro. rewrite !Is_true_true, Z.geb_le, Z.gtb_lt. lia. }
  assert (recent v m ∨ ¬ recent v m) as Hr by (unfold recent; lia).
  destruct (_ && _); destruct (_ && _); simpl;
    repeat split; intros; try done; try tauto; naive_solver.
Qed.
End validator.

(** ** The network bridge *)

(** The network and sync services and the gossip engine are libraries.  The
    engine holds the bridge's validator, shared by reference, so the engine's
    operations take the validator as it is when they run. *)
Class GossipLib `{Platform} := {
  NetworkService : Type;
  SyncService : Type;
  PeerId : Type;
  service_local_peer_id : NetworkService → PeerId;
  GossipEngine : Type;
  gossip_engine_new : NetworkService → SyncService → string → GossipEngine;
  (** [poll_unpin]: whether the engine has ended. *)
  gossip_engine_poll : GossipValidator → GossipEngine → bool * GossipEngine;
  gossip_engine_messages_for : GossipEngine → Hash → list bytes;
}.

Record HotstuffNetworkBridge `{GossipLib} := mkBridge {
  bridge_service : NetworkService;
  bridge_sync : SyncService;
  bridge_gossip_engine : GossipEngine;
  bridge_gossip_validator : GossipValidator;
}.
Arguments mkBridge {_ _} _ _ _ _.

Section bridge.
Context `{GossipLib}.

(** [HotstuffNetworkBridge::new]. *)
Definition bridge_new (service : NetworkService) (sync : SyncService) (protocol_name : string) :
    HotstuffNetworkBridge :=
  mkBridge service sync (gossip_engine_new service sync protocol_name) gossip_validator_new.

(** [HotstuffNetworkBridge::set_view], [local_peer_id]. *)
Definition bridge_set_view (view : ViewNumber) (b : HotstuffNetworkBridge) :
    HotstuffNetworkBridge :=
  mkBridge (bridge_service b) (bridge_sync b) (bridge_gossip_engine b)
    (gv_set_view view (bridge_gossip_validator b)).
Definition bridge_local_peer_id (b : HotstuffNetworkBridge) : PeerId :=
  service_local_peer_id (bridge_service b).

(** [Future::poll] of the bridge: [true] when the engine has ended. *)
Definition bridge_poll (b : HotstuffNetworkBridge) : bool * HotstuffNetworkBridge :=
  let '(ended, engine) := gossip_engine_poll (bridge_gossip_validator b) (bridge_gossip_engine b) in
  (ended, mkBridge (bridge_service b) (bridge_sync b) engine (bridge_gossip_validator b)).

(** The notifications [ConsensusNetwork::new] listens to. *)
Definition message_recv (b : HotstuffNetworkBridge) : list bytes :=
  gossip_engine_messages_for (bridge_gossip_engine b) gossip_topic.

(** [round_topic]: the hash of [{set_id}-{round}] in decimal. *)
Definition round_topic (round set_id : Z) : Hash :=
  hashing (byte_string (pretty set_id +:+ "-" +:+ pretty round)%string).
End bridge.

Section witnesses.
#[local] Existing Instance ref_platform.

(** At view 7 a vote of view 6 is processed and one of view 5 is not. *)
Lemma gossip_filters_agree_witness :
  let v := gv_set_view 7 gossip_validator_new in
  validate v (scale_encode (CM_Vote (ref_vote 1 6 (ref_hash 77)))) = ProcessAndKeep gossip_topic ∧
  validate v (scale_encode (CM_Vote (ref_vote 1 5 (ref_hash 77)))) = Discard.
Proof.
  split.
  - apply (gossip_filters_agree _ (CM_Vote (ref_vote 1 6 (ref_hash 77))));
      [split; simpl; lia|simpl; lia|reflexivity|unfold recent; simpl; lia].
  - apply (gossip_filters_agree _ (CM_Vote (ref_vote 1 5 (ref_hash 77))));
      [split; simpl; lia|simpl; lia|reflexivity|unfold recent; simpl; lia].
Defined.
End witnesses.
