(* ===== verification/ConsensusState.v ===== *)
(** * The consensus state ([ConsensusState] of [hotstuff/consensus/src/consensus.rs])

    The voter's own state: the authorities, the current view, the last view it
    voted in, its highest QC and the aggregator.  The theorems: it votes at most
    once per view, what it signs verifies at its peers, leaders rotate fairly,
    and exactly how [advance_view_from_target] moves the view. *)
From S2P Require Import Prelude Codec Primitives Reference Message Aggregator.
Local Open Scope Z_scope.
Local Open Scope machine_scope.

Record ConsensusState `{Platform} := mkConsensusState {
  cs_keystore : Keystore;
  cs_authorities : AuthorityList;
  cs_view : ViewNumber;
  cs_last_voted_view : ViewNumber;
  cs_high_qc : QC;
  cs_aggregator : Aggregator;
}.
Arguments mkConsensusState {_} _ _ _ _ _ _.

Section operations.
Context `{Platform}.
Implicit Types (s : ConsensusState).

(** Field assignment. *)
Definition set_cs_view (v : ViewNumber) s : ConsensusState :=
  mkConsensusState (cs_keystore s) (cs_authorities s) v (cs_last_voted_view s)
    (cs_high_qc s) (cs_aggregator s).
Definition set_last_voted_view (v : ViewNumber) s : ConsensusState :=
  mkConsensusState (cs_keystore s) (cs_authorities s) (cs_view s) v
    (cs_high_qc s) (cs_aggregator s).
Definition set_high_qc (qc : QC) s : ConsensusState :=
  mkConsensusState (cs_keystore s) (cs_authorities s) (cs_view s) (cs_last_voted_view s)
    qc (cs_aggregator s).
Definition set_aggregator (a : Aggregator) s : ConsensusState :=
  mkConsensusState (cs_keystore s) (cs_authorities s) (cs_view s) (cs_last_voted_view s)
    (cs_high_qc s) a.

(** [ConsensusState::new]. *)
Definition consensus_state_new (ks : Keystore) (authorities : AuthorityList) : ConsensusState :=
  mkConsensusState ks authorities 0 0 qc_default aggregator_new.

(** [ConsensusState::local_authority_id]. *)
Definition local_authority_id s : option AuthorityId :=
  fst <$> List.find (λ p, has_keys (cs_keystore s) [(id_as_ref p.1, HOTSTUFF_KEY_TYPE)])
            (cs_authorities s).

(** [ConsensusState::increase_last_voted_view]. *)
Definition increase_last_voted_view s : ConsensusState :=
  set_last_voted_view (Z.max (cs_last_voted_view s) (cs_view s)) s.

(** [keystore.sign_with(ID, CRYPTO_ID, id, digest)] and then
    [AuthoritySignature::try_from(data).ok()]. *)
Definition sign_digest s (id : AuthorityId) (digest : Hash) : string + option AuthoritySignature :=
  match sign_with (cs_keystore s) HOTSTUFF_KEY_TYPE CRYPTO_ID (id_as_ref id)
          (hash_as_ref digest) with
  | inl e => inl e
  | inr data => inr (data ≫= signature_try_from)
  end.

(** [ConsensusState::make_timeout]. *)
Definition make_timeout s : outcome HotstuffError Timeout :=
  authority_id ← ok_or (local_authority_id s) NotAuthority;
  let tc := mkTimeout (cs_high_qc s) (cs_view s) authority_id None in
  signature ← map_err (sign_digest s authority_id (timeout_digest tc)) Other;
  Ok (mkTimeout (cs_high_qc s) (cs_view s) authority_id signature).

(** [ConsensusState::make_proposal]. *)
Definition make_proposal s (payload : Payload) (tc : option TC) :
    outcome HotstuffError Proposal :=
  author_id ← ok_or (local_authority_id s) NotAuthority;
  let block := proposal_new (cs_high_qc s) tc payload (cs_view s) author_id None in
  signature ← map_err (sign_digest s author_id (proposal_digest block)) Other;
  Ok (proposal_new (cs_high_qc s) tc payload (cs_view s) author_id signature).

(** [ConsensusState::make_vote]: [None] leaves the voted view advanced when
    only the signing failed. *)
Definition make_vote s (proposal : Proposal) : option Vote * ConsensusState :=
  match local_authority_id s with
  | None => (None, s)
  | Some author_id =>
      if proposal_view proposal <=? cs_last_voted_view s then (None, s)
      else
        let s' := set_last_voted_view
                    (Z.max (cs_last_voted_view s) (proposal_view proposal)) s in
        let vote := vote_new (proposal_digest proposal) (proposal_view proposal) author_id in
        match sign_digest s' author_id (vote_digest vote) with
        | inl _ => (None, s')
        | inr signature =>
            (Some (mkVote (vote_proposal_hash vote) (vote_view vote) author_id signature), s')
        end
  end.

(** [ConsensusState::verify_timeout]. *)
Definition verify_timeout s (timeout : Timeout) : outcome HotstuffError unit :=
  timeout_verify timeout (cs_authorities s).

(** [ConsensusState::view_leader]; [%] by zero and indexing panic. *)
Definition view_leader s (view : ViewNumber) : outcome HotstuffError AuthorityId :=
  let n := Z.of_nat (length (cs_authorities s)) in
  if n =? 0 then Panic "attempt to calculate the remainder with a divisor of zero"
  else
    match cs_authorities s !! Z.to_nat (view mod n) with
    | Some authority => Ok authority.1
    | None => Panic "index out of bounds"
    end.

(** [ConsensusState::verify_proposal]. *)
Definition verify_proposal s (proposal : Proposal) : outcome HotstuffError unit :=
  leader ← view_leader s (proposal_view proposal);
  if negb (bool_decide (proposal_author proposal = leader)) then Err WrongProposer
  else proposal_verify proposal (cs_authorities s).

(** [ConsensusState::verify_vote]. *)
Definition verify_vote s (vote : Vote) : outcome HotstuffError unit :=
  if vote_view vote <? cs_view s then Err ExpiredVote
  else vote_verify vote (cs_authorities s).

(** [ConsensusState::verify_tc]. *)
Definition verify_tc s (tc : TC) : outcome HotstuffError unit :=
  if tc_view tc <? cs_view s then Err InvalidTC
  else tc_verify tc (cs_authorities s).

(** [ConsensusState::add_timeout]. *)
Definition cs_add_timeout (timeout : Timeout) s :
    outcome HotstuffError (option TC) * ConsensusState :=
  let '(r, a) := add_timeout (cs_aggregator s) timeout (cs_authorities s) in
  (r, set_aggregator a s).

(** [ConsensusState::add_vote]. *)
Definition cs_add_vote (vote : Vote) s : outcome HotstuffError (option QC) * ConsensusState :=
  let '(r, a) := add_vote (cs_aggregator s) vote (cs_authorities s) in
  (r, set_aggregator a s).

(** [ConsensusState::update_high_qc]. *)
Definition update_high_qc (qc : QC) s : ConsensusState :=
  if qc_view qc >? qc_view (cs_high_qc s) then set_high_qc qc s else s.

(** [ConsensusState::advance_view_from_target]. *)
Definition advance_view_from_target (view : ViewNumber) s : ConsensusState :=
  if cs_view s >=? view then set_cs_view (view +₆₄ 1) s else s.

(** [ConsensusState::is_leader]. *)
Definition is_leader s : outcome HotstuffError bool :=
  let n := Z.of_nat (length (cs_authorities s)) in
  if n =? 0 then Panic "attempt to calculate the remainder with a divisor of zero"
  else
    match cs_authorities s !! Z.to_nat (cs_view s mod n) with
    | Some authority =>
        Ok (match local_authority_id s with
            | Some id => bool_decide (id = authority.1)
            | None => false
            end)
    | None => Panic "index out of bounds"
    end.
End operations.

(** ** Leaders *)
Section leaders.
Context `{Platform}.
Implicit Types (s : ConsensusState).

Lemma view_leader_lookup s view :
  cs_authorities s ≠ [] →
  ∃ id, view_leader s view = Ok id ∧
    (cs_authorities s).*1 !! Z.to_nat (view mod Z.of_nat (length (cs_authorities s))) = Some id.
Proof.
  intros Hne. unfold view_leader.
  assert (0 < Z.of_nat (length (cs_authorities s))) as Hn.
  { destruct (cs_authorities s); [done|simpl; lia]. }
  destruct (Z.eqb_spec (Z.of_nat (length (cs_authorities s))) 0); [lia|].
  destruct (lookup_lt_is_Some_2 (cs_authorities s)
    (Z.to_nat (view mod Z.of_nat (length (cs_authorities s))))) as [x Hx].
  { pose proof (Z.mod_pos_bound view _ Hn). lia. }
  rewrite Hx. exists x.1. split; [done|]. by rewrite list_lookup_fmap, Hx.
Qed.

Lemma view_leader_congr s s' view :
  cs_authorities s = cs_authorities s' → view_leader s view = view_leader s' view.
Proof. intros Heq. unfold view_leader. by rewrite Heq. Qed.

Lemma verify_proposal_settles s p : cs_authorities s ≠ [] → settles (verify_proposal s p).
Proof.
  intros Hne. destruct (view_leader_lookup s (proposal_view p) Hne) as (id & Hl & _).
  unfold verify_proposal. rewrite Hl. simpl. case_match; [done|]. apply signed_message_settles.
Qed.

Lemma is_leader_view_leader s :
  is_leader s = (λ l, bool_decide (local_authority_id s = Some l)) <$> view_leader s (cs_view s).
Proof.
  unfold is_leader, view_leader. cbv zeta.
  destruct (_ =? 0); [done|]. destruct (_ !! _) as [x|]; [|done]. cbn. f_equal.
  destruct (local_authority_id s) as [id|]; repeat case_bool_decide; naive_solver.
Qed.

Lemma local_authority_id_In s id :
  local_authority_id s = Some id →
  id ∈ (cs_authorities s).*1 ∧ holds_key (cs_keystore s) id.
Proof.
  unfold local_authority_id. intros (x & Hx & ->)%fmap_Some.
  apply find_Some_iff in Hx as [Hx Hk]. split; [by apply list_elem_of_fmap_2|done].
Qed.

Lemma mod_hits n i v : 0 < n → 0 <= i < n → ∃ w, v <= w < v + n ∧ w mod n = i.
Proof.
  intros Hn Hi. exists (v + (i - v) mod n).
  pose proof (Z.mod_pos_bound (i - v) n Hn). split; [lia|].
  rewrite Zplus_mod_idemp_r. replace (v + (i - v)) with i by lia. by apply Z.mod_small.
Qed.

Lemma mod_window_inj n v w w' :
  0 < n → v <= w < v + n → v <= w' < v + n → w mod n = w' mod n → w = w'.
Proof.
  intros Hn Hw Hw' Heq.
  pose proof (Z.div_mod w n ltac:(lia)). pose proof (Z.div_mod w' n ltac:(lia)).
  assert (w / n = w' / n ∨ w / n < w' / n ∨ w' / n < w / n) as [?|[?|?]] by lia; nia.
Qed.

(** C29: leaders rotate fairly: among any [n] consecutive views, with [n] the
    number of authorities, every authority leads exactly one. *)
Theorem leader_rotation s (id : AuthorityId) (v : ViewNumber) :
  NoDup (cs_authorities s).*1 → id ∈ (cs_authorities s).*1 →
  ∃ w, (v <= w < v + Z.of_nat (length (cs_authorities s)) ∧ view_leader s w = Ok id) ∧
    ∀ w', v <= w' < v + Z.of_nat (length (cs_authorities s)) →
          view_leader s w' = Ok id → w' = w.
Proof.
  intros Hnd Hin. set (n := Z.of_nat (length (cs_authorities s))).
  assert (cs_authorities s ≠ []) as Hne by (intros E; rewrite E in Hin; set_solver).
  assert (0 < n) as Hn by (subst n; destruct (cs_authorities s); [done|simpl; lia]).
  apply list_elem_of_lookup in Hin as [i Hi].
  pose proof (lookup_lt_Some _ _ _ Hi) as Hlt. rewrite length_fmap in Hlt.
  destruct (mod_hits n (Z.of_nat i) v Hn ltac:(lia)) as (w & Hw & Hmod).
  exists w. split.
  - split; [done|]. destruct (view_leader_lookup s w Hne) as (x & -> & Hx).
    fold n in Hx. rewrite Hmod, Nat2Z.id in Hx. congruence.
  - intros w' Hw' Hl. destruct (view_leader_lookup s w' Hne) as (x & Hx & Hx').
    rewrite Hl in Hx. simplify_eq. fold n in Hx'.
    pose proof (NoDup_lookup _ _ _ _ Hnd Hi Hx') as Hii.
    pose proof (Z.mod_pos_bound w' n Hn).
    apply (mod_window_inj n v); [done..|]. lia.
Qed.

Lemma consecutive_leaders_differ s v id :
  NoDup (cs_authorities s).*1 → (2 ≤ length (cs_authorities s))%nat →
  view_leader s v = Ok id → view_leader s (v + 1) ≠ Ok id.
Proof.
  intros Hnd Hlen Hl Hl'. set (n := Z.of_nat (length (cs_authorities s))).
  assert (cs_authorities s ≠ []) as Hne by (intros E; rewrite E in Hlen; simpl in Hlen; lia).
  destruct (view_leader_lookup s v Hne) as (x & Hx & Hi).
  destruct (view_leader_lookup s (v + 1) Hne) as (y & Hy & Hj).
  rewrite Hl in Hx. rewrite Hl' in Hy. simplify_eq.
  pose proof (NoDup_lookup _ _ _ _ Hnd Hi Hj) as Heq. fold n in Heq.
  pose proof (Z.mod_pos_bound v n ltac:(lia)).
  pose proof (Z.mod_pos_bound (v + 1) n ltac:(lia)).
  assert (v = v + 1); [|lia].
  apply (mod_window_inj n v); lia.
Qed.
End leaders.

(** ** Making messages *)
Section messages.
Context `{Platform}.
Implicit Types (s : ConsensusState).

Lemma make_vote_spec s p :
  match make_vote s p with
  | (Some v, s') =>
      cs_last_voted_view s < proposal_view p ∧
      vote_view v = proposal_view p ∧ vote_proposal_hash v = proposal_digest p ∧
      local_authority_id s = Some (vote_voter v) ∧
      s' = set_last_voted_view (proposal_view p) s
  | (None, s') => s' = s ∨
      cs_last_voted_view s < proposal_view p ∧ s' = set_last_voted_view (proposal_view p) s
  end.
Proof.
  unfold make_vote. destruct (local_authority_id s) as [id|] eqn:E; [|by left].
  destruct (Z.leb_spec (proposal_view p) (cs_last_voted_view s)); [by left|].
  rewrite Z.max_r by lia.
  destruct (sign_digest _ _ _); [by right|]. by simpl.
Qed.

Lemma sign_digest_verifies `{!KeystoreLaws} s id digest :
  holds_key (cs_keystore s) id →
  ∃ sig, sign_digest s id digest = inr (Some sig) ∧ authority_verify sig digest id = true.
Proof.
  intros Hk. destruct (sign_with_key _ _ (hash_as_ref digest) Hk) as (data & sig & Hs & Ht & Hv).
  exists sig. unfold sign_digest. rewrite Hs. simpl. by rewrite Ht.
Qed.

Lemma make_vote_verifies `{!KeystoreLaws} s id p :
  local_authority_id s = Some id → cs_last_voted_view s < proposal_view p →
  ∃ v, make_vote s p = (Some v, set_last_voted_view (proposal_view p) s) ∧
    vote_proposal_hash v = proposal_digest p ∧ vote_view v = proposal_view p ∧
    vote_verify v (cs_authorities s) = Ok ().
Proof.
  intros Hid Hlt. pose proof (local_authority_id_In s id Hid) as [Hin Hk].
  unfold make_vote. rewrite Hid.
  destruct (Z.leb_spec (proposal_view p) (cs_last_voted_view s)); [lia|].
  rewrite Z.max_r by lia.
  edestruct (sign_digest_verifies (set_last_voted_view (proposal_view p) s) id)
    as (sig & -> & Hv); [done|].
  eexists. do 3 (split; [done|]). apply vote_verify_Ok. split; [done|]. by exists sig.
Qed.

Lemma make_proposal_verifies `{!KeystoreLaws} s id payload tc :
  local_authority_id s = Some id → qc_accepted (cs_high_qc s) (cs_authorities s) →
  ∃ p, make_proposal s payload tc = Ok p ∧ proposal_author p = id ∧
    proposal_view p = cs_view s ∧ proposal_qc p = cs_high_qc s ∧ proposal_payload p = payload ∧
    proposal_tc p = tc ∧ (view_leader s (cs_view s) = Ok id → verify_proposal s p = Ok ()).
Proof.
  intros Hid Hqc. pose proof (local_authority_id_In s id Hid) as [Hin Hk].
  unfold make_proposal. rewrite Hid. simpl.
  edestruct (sign_digest_verifies s id) as (sig & -> & Hv); [done|]. simpl.
  eexists. do 6 (split; [done|]). intros Hl. unfold verify_proposal. simpl. rewrite Hl. simpl.
  rewrite bool_decide_eq_true_2 by done. simpl.
  apply proposal_verify_Ok. split; [|done]. split; [done|]. by exists sig.
Qed.

Lemma make_timeout_verifies `{!KeystoreLaws} s id :
  local_authority_id s = Some id → qc_accepted (cs_high_qc s) (cs_authorities s) →
  ∃ t, make_timeout s = Ok t ∧ timeout_voter t = id ∧ timeout_view t = cs_view s ∧
    timeout_high_qc t = cs_high_qc s ∧ timeout_verify t (cs_authorities s) = Ok ().
Proof.
  intros Hid Hqc. pose proof (local_authority_id_In s id Hid) as [Hin Hk].
  unfold make_timeout. rewrite Hid. simpl.
  edestruct (sign_digest_verifies s id) as (sig & -> & Hv); [done|]. simpl.
  eexists. do 4 (split; [done|]). apply timeout_verify_Ok. simpl.
  split; [|done]. split; [done|]. by exists sig.
Qed.

Lemma verify_proposal_congr s s' p :
  cs_authorities s = cs_authorities s' → verify_proposal s p = verify_proposal s' p.
Proof. intros Ha. unfold verify_proposal. by rewrite (view_leader_congr s s'), Ha. Qed.

(** C23: what a node makes verifies at every peer with the same authorities:
    when its key is in the keystore, a timeout and a proposal on an accepted
    high QC and a vote in a view it has not voted in are always made, carry the
    node's own identity, view and QC, and pass verification. *)
Theorem own_messages_verify `{!KeystoreLaws} s (id : AuthorityId) (peer : ConsensusState) :
  local_authority_id s = Some id →
  qc_accepted (cs_high_qc s) (cs_authorities s) →
  cs_authorities peer = cs_authorities s →
  (∃ t, make_timeout s = Ok t ∧ timeout_voter t = id ∧ timeout_view t = cs_view s ∧
        verify_timeout peer t = Ok ()) ∧
  (∀ payload tc, ∃ p,
     make_proposal s payload tc = Ok p ∧ proposal_author p = id ∧
     proposal_view p = cs_view s ∧ proposal_qc p = cs_high_qc s ∧
     (is_leader s = Ok true → verify_proposal peer p = Ok ())) ∧
  (∀ p, cs_last_voted_view s < proposal_view p → ∃ v,
     make_vote s p = (Some v, set_last_voted_view (proposal_view p) s) ∧
     vote_verify v (cs_authorities peer) = Ok ()).
Proof.
  intros Hid Hqc Hpeer. split_and!.
  - destruct (make_timeout_verifies s id Hid Hqc) as (t & ? & ? & ? & _ & ?). exists t.
    unfold verify_timeout. by rewrite Hpeer.
  - intros payload tc.
    destruct (make_proposal_verifies s id payload tc Hid Hqc) as (p & Hp & ? & ? & ? & _ & _ & Hver).
    exists p. do 4 (split; [done|]). rewrite is_leader_view_leader, (verify_proposal_congr peer s) by done.
    intros Hl. apply Hver.
    destruct (view_leader s (cs_view s)) as [l| | |]; simpl in *; try done.
    rewrite Hid in Hl. by case_bool_decide; simplify_eq.
  - intros p Hlt. destruct (make_vote_verifies s id p Hid Hlt) as (v & Hmv & _ & _ & Hver).
    exists v. by rewrite Hpeer.
Qed.

(** How [advance_view_from_target] moves the view.  For the target equal
    to the current view, it moves on by one.  For a target above the current
    view, which every caller but one reaches with a certificate from the
    future, it changes nothing: a node that lags behind is not moved to the
    certified view.  For a target below, it would move the view back. *)
Lemma advance_view_exact s (target : ViewNumber) :
  0 <= cs_view s < u64_max → 0 <= target →
  let v' := cs_view (advance_view_from_target target s) in
  (target = cs_view s → v' = cs_view s + 1) ∧
  (cs_view s < target → advance_view_from_target target s = s) ∧
  (target < cs_view s → v' = target + 1 ∧ v' <= cs_view s).
Proof.
  unfold advance_view_from_target, u64_max. rewrite Z.geb_leb. intros Hv Ht.
  destruct (Z.leb_spec target (cs_view s)); simpl; split_and!; try lia; try done.
  - intros ->. by apply u64_wrap_small; unfold u64_ok; lia.
  - intros ?. rewrite u64_wrap_small by (unfold u64_ok; lia). lia.
Qed.

Lemma advance_view_at s :
  cs_view s < u64_max → 0 <= cs_view s →
  advance_view_from_target (cs_view s) s = set_cs_view (cs_view s + 1) s.
Proof.
  intros ??. unfold advance_view_from_target. rewrite Z.geb_leb, Z.leb_refl.
  f_equal. apply u64_wrap_small. unfold u64_ok, u64_max in *. lia.
Qed.
End messages.

Section witnesses.
#[local] Existing Instance ref_platform.
#[local] Existing Instance ref_platform_laws.
#[local] Existing Instance ref_keystore_laws.

(** The node with identity [i] among [n] authorities. *)
Definition ref_node (n : nat) (i : Z) : ConsensusState :=
  consensus_state_new [ref_id i] (ref_authorities n).

Lemma leader_rotation_witness :
  ∃ w, (5 <= w < 9 ∧ view_leader (ref_node 4 1) w = Ok (ref_id 3)).
Proof.
  destruct (leader_rotation (ref_node 4 1) (ref_id 3) 5) as (w & Hw & _).
  - vm_decide.
  - vm_decide.
  - exists w. exact Hw.
Defined.

Lemma own_messages_verify_witness :
  ∃ t, make_timeout (ref_node 4 1) = Ok t ∧ verify_timeout (ref_node 4 2) t = Ok ().
Proof.
  destruct (own_messages_verify (ref_node 4 1) (ref_id 1) (ref_node 4 2)) as ((t & ? & _ & _ & ?) & _).
  - vm_refl.
  - left. reflexivity.
  - reflexivity.
  - eauto.
Defined.

Lemma advance_view_exact_witness :
  advance_view_from_target 9 (ref_node 4 1) = ref_node 4 1.
Proof.
  apply (advance_view_exact (ref_node 4 1) 9); [split; reflexivity || done|lia|simpl; lia].
Defined.
End witnesses.
