(* ===== verification/Import.v ===== *)
(** * Block import and the queue of blocks waiting for finality
    ([hotstuff/consensus/src/import.rs])

    [HotstuffBlockImport] wraps the client's block import, and
    [PendingFinalizeBlockQueue] follows its import and finality notifications to
    keep the blocks a leader may propose.  The queue is shared with the voter
    behind a [Mutex].  The theorems: what a poll does to the queue for any
    batches of notifications, that the queue holds exactly the best blocks above
    the finalized one, and how block import treats known and unknown blocks. *)
From S2P Require Import Prelude Codec Primitives Reference Message Synchronizer.
Local Open Scope Z_scope.
Local Open Scope machine_scope.

Record BlockInfo `{Platform} := mkBlockInfo {
  bi_hash : option Hash;
  bi_number : Number;
}.
Arguments mkBlockInfo {_} _ _.

#[export] Instance BlockInfo_eq_dec `{Platform} : EqDecision BlockInfo.
Proof. solve_decision. Defined.

(** [std::sync::Mutex]: a thread that panics while it holds the lock poisons it,
    and [lock] gives an error from then on. *)
Record Mutex (A : Type) := mkMutex { mutex_poisoned : bool; mutex_data : A }.
Arguments mkMutex {_} _ _.
Arguments mutex_poisoned {_} _.
Arguments mutex_data {_} _.

(** [mutex.lock().ok()]. *)
Definition lock_ok {A} (m : Mutex A) : option A :=
  if mutex_poisoned m then None else Some (mutex_data m).

(** [sc_client_api::BlockImportNotification] and [FinalityNotification], the
    fields the sources read. *)
Record ImportNotification `{Platform} := mkImportNotification {
  in_hash : Hash;
  in_number : Number;
  in_is_new_best : bool;
}.
Record FinalityNotification `{Platform} := mkFinalityNotification {
  fn_hash : Hash;
  fn_number : Number;
}.
Arguments mkImportNotification {_} _ _ _.
Arguments mkFinalityNotification {_} _ _.

Section queue.
Context `{Platform} {CL : Client}.

(** The loop of [PendingFinalizeBlockQueue::new]; [block_number] wraps at the
    width of a block number. *)
Fixpoint collect_unfinalized (fuel : nat) (c : client) (best block_number : Number)
    (queue : list (option Hash * Number)) :
    outcome HotstuffError (list (option Hash * Number)) :=
  match fuel with
  | O => Diverge
  | S fuel =>
      if block_number <=? best then
        block_hash ← map_err (client_block_hash c block_number) ClientError;
        collect_unfinalized fuel c best (block_number +₃₂ 1)
          (queue ++ [(block_hash, block_number)])
      else Ok queue
  end.

(** The loop looks at each number above the finalized one once. *)
Definition collect_fuel (info : Info) : nat :=
  S (Z.to_nat (info_best_number info - info_finalized_number info)).

(** [PendingFinalizeBlockQueue::new]: the collected [queue] is dropped, the
    shared queue starts empty. *)
Definition pending_queue_new (c : client) : outcome HotstuffError (Mutex (list BlockInfo)) :=
  let chain_info := client_info c in
  let block_number := info_finalized_number chain_info +₃₂ 1 in
  queue ← collect_unfinalized (collect_fuel chain_info) c (info_best_number chain_info)
            block_number [];
  Ok (mkMutex false []).

(** One import notification in [poll]. *)
Definition on_import (m : Mutex (list BlockInfo)) (n : ImportNotification) :
    Mutex (list BlockInfo) :=
  if negb (in_is_new_best n) then m
  else
    match lock_ok m with
    | Some pending => mkMutex false (pending ++ [mkBlockInfo (Some (in_hash n)) (in_number n)])
    | None => m
    end.

(** The pop loop for one finality notification; with debug logging on, the
    popped entry's hash is unwrapped for the log line. *)
Fixpoint pop_finalized (debug_log : bool) (finalized_number : Number)
    (pending : list BlockInfo) : outcome HotstuffError unit * list BlockInfo :=
  match pending with
  | [] => (Ok (), [])
  | elem :: rest =>
      if bi_number elem >? finalized_number then (Ok (), pending)
      else
        match debug_log, bi_hash elem with
        | true, None => (Panic "called Option::unwrap() on a None value", rest)
        | _, _ => pop_finalized debug_log finalized_number rest
        end
  end.

(** One finality notification in [poll]. *)
Definition on_finality (debug_log : bool) (n : FinalityNotification) :
    Comp (Mutex (list BlockInfo)) HotstuffError unit := λ m,
  match lock_ok m with
  | Some pending =>
      let '(r, pending') := pop_finalized debug_log (fn_number n) pending in
      (r, mkMutex (match r with Panic _ => true | _ => false end) pending')
  | None => (Ok (), m)
  end.

Fixpoint on_finalities (debug_log : bool) (ns : list FinalityNotification) :
    Comp (Mutex (list BlockInfo)) HotstuffError unit :=
  match ns with
  | [] => mret ()
  | n :: ns => on_finality debug_log n;; on_finalities debug_log ns
  end.

(** [PendingFinalizeBlockQueue::poll] with the notifications that are ready:
    all imports first, then all finality notifications. *)
Definition pending_queue_poll (debug_log : bool) (imports : list ImportNotification)
    (finalities : list FinalityNotification) :
    Comp (Mutex (list BlockInfo)) HotstuffError unit :=
  modify (λ m, foldl on_import m imports);;
  on_finalities debug_log finalities.
End queue.

(** ** Block import *)

(** The client's own [BlockImport]: [check_block], [import_block], the hash of a
    block to import and [justifications.take()]. *)
Class ImportClient `{Client} := {
  BlockImportParams : Type;
  BlockCheckParams : Type;
  ImportResult : Type;
  ImportedAux : Type;
  Imported : ImportedAux → ImportResult;
  imported_aux : ImportResult → option ImportedAux;
  post_hash : BlockImportParams → Hash;
  take_justifications : BlockImportParams → BlockImportParams;
  client_check_block : client → BlockCheckParams → (string + ImportResult) * client;
  client_import_block : client → BlockImportParams → (string + ImportResult) * client;
}.

(** [imported_aux] is the match on [ImportResult::Imported]. *)
Class ImportClientLaws `{ImportClient} : Prop := {
  imported_aux_spec : ∀ r aux, imported_aux r = Some aux ↔ r = Imported aux;
}.

(** [ConsensusError::ClientImport] or an error passed on from the client. *)
Inductive ImportError := ClientImport (why : string) | ClientOwn (why : string).

Section import.
Context `{ImportClient}.

(** [BlockImport::check_block]. *)
Definition check_block (block : BlockCheckParams) : Comp client ImportError ImportResult := λ c,
  let '(r, c') := client_check_block c block in (map_err r ClientOwn, c').

(** [BlockImport::import_block]. *)
Definition import_block (block : BlockImportParams) : Comp client ImportError ImportResult := λ c,
  match client_status c (post_hash block) with
  | inr InChain =>
      let '(r, c') := client_import_block c (take_justifications block) in
      (map_err r ClientOwn, c')
  | inr Unknown =>
      let '(r, c') := client_import_block c block in
      (match r with
       | inr res =>
           match imported_aux res with
           | Some aux => Ok (Imported aux)
           | None => Ok res
           end
       | inl e => Err (ClientImport e)
       end, c')
  | inl e => (Err (ClientImport e), c)
  end.

(** [HotstuffBlockImport::import_justification]: the result of
    [finalize_block] is only printed. *)
Definition import_justification (hash : Hash) (number : Number) (justification : bytes)
    (enacts_change initial_sync : bool) : Comp client ImportError unit := λ c,
  let '(_res, c') := client_finalize_block c hash in (Ok (), c').

(** [JustificationImport::import_justification]. *)
Definition justification_import (hash : Hash) (number : Number) (justification : bytes) :
    Comp client ImportError unit :=
  import_justification hash number justification false false.

(** [JustificationImport::on_start]. *)
Definition import_on_start (c : client) : list (Hash * Number) := [].
End import.

(** ** What a poll does to the queue *)
Section queue_facts.
Context `{Platform}.
Implicit Types (q : list BlockInfo) (m : Mutex (list BlockInfo)).

(** The entries for the new best blocks of a batch of import notifications. *)
Definition best_blocks (imports : list ImportNotification) : list BlockInfo :=
  (λ n, mkBlockInfo (Some (in_hash n)) (in_number n)) <$>
    filter (λ n, in_is_new_best n = true) imports.

(** Drop entries up to [n] from the front. *)
Fixpoint drop_upto (n : Number) q : list BlockInfo :=
  match q with
  | [] => []
  | b :: rest => if bi_number b <=? n then drop_upto n rest else q
  end.

(** The highest block of a batch of finality notifications. *)
Definition highest (f : FinalityNotification) (fs : list FinalityNotification) : Number :=
  foldl Z.max (fn_number f) (fn_number <$> fs).

(** Every entry has its hash, as the entries [poll] pushes do. *)
Definition hashes_known q : Prop := Forall (λ b, is_Some (bi_hash b)) q.

Lemma drop_upto_suffix n q : ∃ k, drop_upto n q = drop k q.
Proof.
  induction q as [|b q [k IH]]; simpl; [by exists 0%nat|].
  case_match; [by exists (S k)|by exists 0%nat].
Qed.

Lemma drop_upto_hashes n q : hashes_known q → hashes_known (drop_upto n q).
Proof. destruct (drop_upto_suffix n q) as [k ->]. apply Forall_drop. Qed.

Lemma drop_upto_max a b q : drop_upto b (drop_upto a q) = drop_upto (Z.max a b) q.
Proof.
  induction q as [|x q IH]; simpl; [done|].
  destruct (Z.leb_spec (bi_number x) a); simpl.
  - destruct (Z.leb_spec (bi_number x) (Z.max a b)); [done|lia].
  - destruct (Z.leb_spec (bi_number x) b), (Z.leb_spec (bi_number x) (Z.max a b));
      [|lia..|done].
    rewrite Z.max_r by lia. done.
Qed.

Lemma pop_finalized_drop debug n q :
  hashes_known q → pop_finalized debug n q = (Ok (), drop_upto n q).
Proof.
  induction 1 as [|b q [h Hb] _ IH]; simpl; [done|].
  rewrite Z.gtb_ltb, Z.ltb_antisym. destruct (bi_number b <=? n); simpl; [|done].
  rewrite Hb. by destruct debug.
Qed.

Lemma on_imports_push imports q :
  foldl on_import (mkMutex false q) imports = mkMutex false (q ++ best_blocks imports).
Proof.
  revert q. induction imports as [|n imports IH]; intros q; simpl; [by rewrite app_nil_r|].
  unfold on_import at 2, best_blocks. rewrite filter_cons. simpl.
  destruct (in_is_new_best n); simpl; rewrite IH; [by rewrite <- app_assoc|done].
Qed.

Lemma foldl_max a b l : foldl Z.max (Z.max a b) l = Z.max a (foldl Z.max b l).
Proof.
  revert a b. induction l as [|x l IH]; intros a b; simpl; [done|].
  by rewrite <- Z.max_assoc, IH.
Qed.

Lemma on_finality_drop debug f q :
  hashes_known q →
  on_finality debug f (mkMutex false q) = (Ok (), mkMutex false (drop_upto (fn_number f) q)).
Proof. intros Hq. unfold on_finality. simpl. by rewrite pop_finalized_drop. Qed.

Lemma on_finalities_drop debug f fs q :
  hashes_known q →
  on_finalities debug (f :: fs) (mkMutex false q) =
  (Ok (), mkMutex false (drop_upto (highest f fs) q)).
Proof.
  unfold highest. revert f q. induction fs as [|f' fs IH]; intros f q Hq;
    cbn [on_finalities]; unfold mbind at 1, comp_bind at 1; rewrite on_finality_drop by done;
    [done|].
  fold (on_finalities debug (f' :: fs)). simpl fmap. cbn [foldl].
  rewrite foldl_max, <- drop_upto_max. apply (IH f'). by apply drop_upto_hashes.
Qed.

Lemma drop_upto_sorted n q :
  StronglySorted Z.lt (bi_number <$> q) → drop_upto n q = filter (λ b, n < bi_number b) q.
Proof.
  induction q as [|b q IH]; [done|]. rewrite fmap_cons. intros [Hs Hlt]%StronglySorted_inv.
  cbn [drop_upto]. rewrite filter_cons.
  destruct (Z.leb_spec (bi_number b) n), (decide (n < bi_number b)); [lia|by apply IH| |lia].
  f_equal. symmetry. apply filter_all. rewrite Forall_fmap in Hlt.
  eapply Forall_impl; [done|]. simpl. lia.
Qed.

Lemma best_blocks_hashes imports : hashes_known (best_blocks imports).
Proof. apply Forall_fmap, Forall_forall. simpl. eauto. Qed.

(** C31: a poll of the queue, for any batches of notifications: new best blocks
    are appended in order and others ignored, then everything up to the highest
    finalized block is dropped from the front; no log level makes it panic and
    the lock stays usable.  When the block numbers ascend, what is left is
    exactly the best blocks above the finalized one. *)
Theorem pending_queue_poll_exact debug q (imports : list ImportNotification)
    (finalities : list FinalityNotification) :
  hashes_known q →
  let pushed := q ++ best_blocks imports in
  let left := match finalities with
              | [] => pushed
              | f :: fs => drop_upto (highest f fs) pushed
              end in
  pending_queue_poll debug imports finalities (mkMutex false q) = (Ok (), mkMutex false left) ∧
  hashes_known left ∧
  (StronglySorted Z.lt (bi_number <$> pushed) →
   ∀ f fs, finalities = f :: fs → left = filter (λ b, highest f fs < bi_number b) pushed).
Proof.
  intros Hq pushed left.
  assert (hashes_known pushed) as Hp by (apply Forall_app; split; [done|apply best_blocks_hashes]).
  split; [|split].
  - unfold pending_queue_poll, mbind, comp_bind, modify. rewrite on_imports_push.
    subst left. destruct finalities as [|f fs]; [done|]. by apply on_finalities_drop.
  - subst left. destruct finalities; [done|]. by apply drop_upto_hashes.
  - intros Hs f fs ->. by apply drop_upto_sorted.
Qed.
End queue_facts.

(** ** Starting the queue *)
Section new_facts.
Context `{Platform} {CL : Client}.

Lemma collect_unfinalized_all c (hashes : Number → option Hash) (k : nat) n acc :
  0 <= n → n + Z.of_nat k < 2 ^ 32 →
  (∀ i, n <= i < n + Z.of_nat k → client_block_hash c i = inr (hashes i)) →
  collect_unfinalized (S k) c (n + Z.of_nat k - 1) n acc =
  Ok (acc ++ ((λ i, (hashes i, i)) <$> seqZ n (Z.of_nat k))).
Proof.
  revert n acc. induction k as [|k IH]; intros n acc Hn Hmax Hh.
  - simpl. destruct (Z.leb_spec n (n + Z.of_nat 0 - 1)); [lia|]. by rewrite app_nil_r.
  - rewrite seqZ_cons by lia. remember (S k) as k'. cbn [collect_unfinalized]. subst k'.
    destruct (Z.leb_spec n (n + Z.of_nat (S k) - 1)); [|lia].
    rewrite Hh by lia. cbn [map_err mbind outcome_bind].
    rewrite u32_wrap_small by (unfold u32_ok; lia).
    replace (n + Z.of_nat (S k) - 1) with (n + 1 + Z.of_nat k - 1) by lia.
    rewrite IH; [|lia..|intros; apply Hh; lia].
    rewrite fmap_cons, <- app_assoc.
    by replace (Z.pred (Z.of_nat (S k))) with (Z.of_nat k) by lia.
Qed.

(** What [PendingFinalizeBlockQueue::new] does on a client whose blocks
    can be looked up: its loop terminates having collected every block above
    the finalized one up to the best, in order, and the queue it returns is
    nevertheless empty: unfinalized blocks of an earlier run are forgotten. *)
Lemma pending_queue_new_exact c (hashes : Number → option Hash) :
  let info := client_info c in
  0 <= info_finalized_number info <= info_best_number info →
  info_best_number info < 2 ^ 32 - 1 →
  (∀ i, info_finalized_number info < i <= info_best_number info →
        client_block_hash c i = inr (hashes i)) →
  collect_unfinalized (collect_fuel info) c (info_best_number info)
    (info_finalized_number info +₃₂ 1) [] =
    Ok ((λ i, (hashes i, i)) <$>
        seqZ (info_finalized_number info + 1)
          (info_best_number info - info_finalized_number info)) ∧
  pending_queue_new c = Ok (mkMutex false []).
Proof.
  intros info Hfin Hbest Hh.
  assert (collect_unfinalized (collect_fuel info) c (info_best_number info)
    (info_finalized_number info +₃₂ 1) [] =
    Ok ((λ i, (hashes i, i)) <$>
        seqZ (info_finalized_number info + 1)
          (info_best_number info - info_finalized_number info))) as Hc.
  { rewrite u32_wrap_small by (unfold u32_ok; lia). unfold collect_fuel.
    pose proof (collect_unfinalized_all c hashes
      (Z.to_nat (info_best_number info - info_finalized_number info))
      (info_finalized_number info + 1) []) as Hall.
    rewrite Z2Nat.id in Hall by lia.
    replace (info_finalized_number info + 1 +
      (info_best_number info - info_finalized_number info) - 1)
      with (info_best_number info) in Hall by lia.
    apply Hall; [lia..|]. intros i Hi. apply Hh. lia. }
  split; [done|]. unfold pending_queue_new. fold info. cbv zeta. by rewrite Hc.
Qed.
End new_facts.

Section import_facts.
Context `{Platform} {CL : Client} {IC : ImportClient} `{!ImportClientLaws}.

(** Block import is transparent: it runs the client's own import once, on
    the block itself or, for a block already in the chain, on the block
    without its justifications, and passes its result on; only the error of
    importing a new block is rewrapped.  When the status is not available
    nothing is imported. *)
Lemma import_block_exact (b : BlockImportParams) (c : client) :
  match client_status c (post_hash b) with
  | inl e => import_block b c = (Err (ClientImport e), c)
  | inr known =>
      let inner := match known with
                   | InChain => client_import_block c (take_justifications b)
                   | Unknown => client_import_block c b
                   end in
      (import_block b c).2 = inner.2 ∧
      (∀ r, inner.1 = inr r ↔ (import_block b c).1 = Ok r) ∧
      (∀ e, inner.1 = inl e →
        (import_block b c).1 =
          Err (match known with InChain => ClientOwn e | Unknown => ClientImport e end))
  end.
Proof.
  unfold import_block. destruct (client_status c (post_hash b)) as [e|[]]; [done| |];
    destruct (client_import_block c _) as [[e|r] c']; simpl;
    (split; [done|]); split; try naive_solver.
  intros r'. destruct (imported_aux r) as [aux|] eqn:E; [|naive_solver].
  apply imported_aux_spec in E. naive_solver.
Qed.
End import_facts.

Section witnesses.
#[local] Existing Instance ref_platform.
#[local] Existing Instance ref_client.

(** Blocks 1 to 3 queued, 4 imported as best, 5 not, 1 and 3 finalized. *)
Lemma pending_queue_poll_exact_witness :
  let info k := mkBlockInfo (Some (ref_hash (1000 + k))) k in
  (pending_queue_poll true
     [mkImportNotification (ref_hash 1004) 4 true; mkImportNotification (ref_hash 1005) 5 false]
     [mkFinalityNotification (ref_hash 1001) 1; mkFinalityNotification (ref_hash 1003) 3]
     (mkMutex false [info 1; info 2; info 3])).2 = mkMutex false [info 4].
Proof.
  intros info.
  rewrite (proj1 (pending_queue_poll_exact true [info 1; info 2; info 3] _ _
    ltac:(repeat (constructor; [eexists; reflexivity|]); constructor))).
  reflexivity.
Defined.

(** A client restarted with two of three blocks not finalized. *)
Lemma pending_queue_new_exact_witness :
  pending_queue_new (mkRefClient (rc_blocks (ref_chain 3)) 3 (ref_hash 1001, 1) ∅) =
    Ok (mkMutex false []).
Proof.
  apply (pending_queue_new_exact (CL := ref_client) _
    (λ i, Some (ref_hash (1000 + i)))); simpl;
    [unfold rc_clamp; lia|lia|].
  intros i Hi. unfold rc_clamp in Hi. assert (i = 2 ∨ i = 3) as [-> | ->] by lia; reflexivity.
Defined.

(** An import client that knows the hash of a block and counts best blocks. *)
Definition ref_import_client : @ImportClient ref_platform ref_client := {|
  BlockImportParams := Hash * option bytes;
  BlockCheckParams := Hash;
  ImportResult := option bool;
  ImportedAux := bool;
  Imported b := Some b;
  imported_aux r := r;
  post_hash b := b.1;
  take_justifications b := (b.1, None);
  client_check_block c h := (inr None, c);
  client_import_block c b :=
    (inr (Some (bool_decide (is_Some b.2))),
     mkRefClient (rc_blocks c ++ [(b.1, rc_best c + 1)]) (rc_best c + 1)
       (rc_finalized c) (rc_aux c));
|}.
#[local] Existing Instance ref_import_client.

Lemma ref_import_client_laws : ImportClientLaws.
Proof. split. intros r aux. done. Qed.
#[local] Existing Instance ref_import_client_laws.

Lemma import_block_exact_witness :
  (import_block (ref_hash 1001, Some []) (ref_chain 3)).1 = Ok (Some false) ∧
  (import_block (ref_hash 1009, Some []) (ref_chain 3)).1 = Ok (Some true).
Proof.
  split.
  - apply (import_block_exact (IC := ref_import_client) (ref_hash 1001, Some []) (ref_chain 3)).
    reflexivity.
  - apply (import_block_exact (IC := ref_import_client) (ref_hash 1009, Some []) (ref_chain 3)).
    reflexivity.
Defined.
End witnesses.
