(* ===== verification/Worker.v ===== *)
(** * The voter ([ConsensusWorker] of [hotstuff/consensus/src/consensus.rs])

    The worker owns the consensus state and handles timers, proposals, votes,
    timeouts and timeout certificates.  Each handler is a [Comp] on the worker:
    its state changes stay when it returns an error.  Calls that leave the node
    (gossip, timer resets, sync requests, finalization) are recorded in order in
    the worker's log, and so is each vote the worker makes. *)
From S2P Require Import Prelude Codec Primitives Reference Message Aggregator.
From S2P Require Import Synchronizer Network ConsensusState Import.
Local Open Scope Z_scope.
Local Open Scope machine_scope.

(** What the worker does to the outside. *)
Inductive Effect `{Platform} :=
| EGossip (topic : Hash) (message : bytes) (force : bool)
| ETimerReset
| ESyncFork (hash : Hash) (number : Number)
| EFinalize (hash : Hash)
| EVoted (vote : Vote).

#[export] Instance Effect_eq_dec `{Platform} : EqDecision Effect.
Proof. solve_decision. Defined.

Record Worker `{Platform} {CL : Client} := mkWorker {
  w_state : ConsensusState;
  w_client : client;
  w_gossip : GossipValidator;
  w_processing_block : option BlockInfo;
  w_pending_queue : Mutex (list BlockInfo);
  w_proposal_hash_queue : list Hash;
  w_log : list Effect;
}.
Arguments mkWorker {_ _} _ _ _ _ _ _ _.

Section operations.
Context `{Platform} {CL : Client}.
Abbreviation M := (Comp Worker HotstuffError).

(** Field assignment. *)
Definition set_state (s : ConsensusState) (w : Worker) : Worker :=
  mkWorker s (w_client w) (w_gossip w) (w_processing_block w) (w_pending_queue w)
    (w_proposal_hash_queue w) (w_log w).
Definition set_client (c : client) (w : Worker) : Worker :=
  mkWorker (w_state w) c (w_gossip w) (w_processing_block w) (w_pending_queue w)
    (w_proposal_hash_queue w) (w_log w).
Definition set_gossip (g : GossipValidator) (w : Worker) : Worker :=
  mkWorker (w_state w) (w_client w) g (w_processing_block w) (w_pending_queue w)
    (w_proposal_hash_queue w) (w_log w).
Definition set_processing (b : option BlockInfo) (w : Worker) : Worker :=
  mkWorker (w_state w) (w_client w) (w_gossip w) b (w_pending_queue w)
    (w_proposal_hash_queue w) (w_log w).
Definition set_hash_queue (q : list Hash) (w : Worker) : Worker :=
  mkWorker (w_state w) (w_client w) (w_gossip w) (w_processing_block w) (w_pending_queue w)
    q (w_log w).
Definition log_effect (e : Effect) (w : Worker) : Worker :=
  mkWorker (w_state w) (w_client w) (w_gossip w) (w_processing_block w) (w_pending_queue w)
    (w_proposal_hash_queue w) (w_log w ++ [e]).

Definition emit (e : Effect) : M unit := modify (log_effect e).
Definition gossip (m : ConsensusMessage) (force : bool) : M unit :=
  emit (EGossip gossip_topic (scale_encode m) force).

(** Methods of the [state] and [client] fields. *)
Definition on_state {A} (f : ConsensusState → outcome HotstuffError A * ConsensusState) : M A :=
  zoom w_state set_state f.
Definition on_client {A} (f : client → outcome HotstuffError A * client) : M A :=
  zoom w_client set_client f.

(** [ConsensusWorker::new] on a fresh gossip validator. *)
Definition worker_new (s : ConsensusState) (c : client)
    (pending_finalize_queue : Mutex (list BlockInfo)) : Worker :=
  let pending_block := lock_ok pending_finalize_queue ≫= head in
  mkWorker s c gossip_validator_new pending_block pending_finalize_queue [] [].

(** The marker of a proposal without a block, and
    [ConsensusWorker::empty_payload_hash]. *)
Definition EMPTY_PAYLOAD : list byte := byte_string "hotstuff/empty_payload".
Definition empty_payload_hash : Hash := hashing EMPTY_PAYLOAD.

(** [ConsensusWorker::advance_view]. *)
Definition advance_view (view : ViewNumber) : M unit :=
  modify (λ w, set_state (advance_view_from_target view (w_state w)) w);;
  modify (λ w, set_gossip (gv_set_view (cs_view (w_state w)) (w_gossip w)) w).

(** [ConsensusWorker::handle_qc]. *)
Definition handle_qc (qc : QC) : M unit :=
  s ← gets w_state;
  if qc_view qc >=? cs_view s then
    advance_view (qc_view qc);;
    modify (λ w, set_state (update_high_qc qc (w_state w)) w);;
    emit ETimerReset
  else mret ().

(** [ConsensusWorker::get_proposal_payload]. *)
Definition get_proposal_payload : M (option Payload) :=
  w ← get;
  match lock_ok (w_pending_queue w) with
  | None => mret None
  | Some queue =>
      match w_processing_block w with
      | Some processing =>
          let finalized_number := info_finalized_number (client_info (w_client w)) in
          if bi_number processing >? finalized_number then
            mret (Some (mkPayload empty_payload_hash (bi_number processing)))
          else
            match List.find (λ elem, bi_number elem >? finalized_number) queue with
            | Some find =>
                modify (set_processing (Some find));;
                mret (Some (mkPayload (default empty_payload_hash (bi_hash find))
                              (bi_number find)))
            | None => mret (Some (mkPayload empty_payload_hash (bi_number processing)))
            end
      | None =>
          match head queue with
          | Some info =>
              modify (set_processing (Some info));;
              mret (Some (mkPayload (default empty_payload_hash (bi_hash info))
                            (bi_number info)))
          | None => mret None
          end
      end
  end.

(** The closure that finalizes the grandparent of [proposal]. *)
Definition commit_grandparent (ancestors : Proposal * Proposal) : M unit :=
  let '(parent, grandpa) := ancestors in
  w ← get;
  if proposal_view parent =? proposal_view grandpa +₆₄ 1 then
    let hash := block_hash (proposal_payload grandpa) in
    if negb (bool_decide (hash = empty_payload_hash)) &&
       negb (bool_decide (hash = info_finalized_hash (client_info (w_client w))))
    then
      emit (EFinalize hash);;
      on_client (λ c, let '(r, c') := client_finalize_block c hash in
                      (map_err r FinalizeBlock, c'))
    else mret ()
  else mret ().

Definition is_local (w : Worker) (id : AuthorityId) : bool :=
  match local_authority_id (w_state w) with
  | Some local => bool_decide (local = id)
  | None => false
  end.

(** The status check that opens [handle_proposal]: [true] to go on. *)
Definition check_payload (proposal : Proposal) : M bool :=
  let hash := block_hash (proposal_payload proposal) in
  if negb (bool_decide (hash = empty_payload_hash)) then
    w ← get;
    status ← lift (map_err (client_status (w_client w) hash) ClientError);
    if bool_decide (status = Unknown) then
      emit (ESyncFork hash (block_number (proposal_payload proposal)));; mret false
    else mret true
  else mret true.

(** [if let Some(tc) = proposal.tc.as_ref() { .. }]. *)
Definition process_proposal_tc (proposal : Proposal) : M unit :=
  match proposal_tc proposal with
  | Some tc =>
      s ← gets w_state;
      if tc_view tc >? cs_view s then advance_view (tc_view tc);; emit ETimerReset
      else mret ()
  | None => mret ()
  end.

(** [self.synchronizer.get_proposal_ancestors(proposal).and_then(..)], whose
    error is only logged. *)
Definition try_commit (proposal : Proposal) : M unit :=
  _ ← catch (
    w ← get;
    ancestors ← lift (get_proposal_ancestors (w_client w) proposal);
    commit_grandparent ancestors);
  mret ().

(** The tail of [handle_proposal]: vote, and give the vote to the next leader. *)
Definition vote_proposal (handle_vote : Vote → M unit) (proposal : Proposal) : M unit :=
  vote ← on_state (λ s, let '(v, s') := make_vote s proposal in (Ok v, s'));
  match vote with
  | None => mret ()
  | Some vote =>
      emit (EVoted vote);;
      modify (λ w, set_hash_queue
        (w_proposal_hash_queue w ++ [block_hash (proposal_payload proposal)]) w);;
      modify (set_processing (Some (mkBlockInfo (Some (block_hash (proposal_payload proposal)))
        (block_number (proposal_payload proposal)))));;
      w ← get;
      next_leader_id ← lift (view_leader (w_state w) (cs_view (w_state w) +₆₄ 1));
      if is_local w next_leader_id then handle_vote vote
      else gossip (CM_Vote vote) false
  end.

(** [ConsensusWorker::handle_proposal], given [handle_vote]. *)
Definition handle_proposal_with (handle_vote : Vote → M unit) (proposal : Proposal) : M unit :=
  known ← check_payload proposal;
  if negb known then mret ()
  else
    s ← gets w_state;
    lift (verify_proposal s proposal);;
    handle_qc (proposal_qc proposal);;
    process_proposal_tc proposal;;
    on_client (save_proposal proposal);;
    try_commit proposal;;
    s ← gets w_state;
    if negb (proposal_view proposal =? cs_view s) then mret ()
    else vote_proposal handle_vote proposal.

(** The loop over [proposal_hash_queue.iter().rev()] in [handle_vote]: [true]
    when it returns early because the last two proposals were empty and this
    one is too. *)
Fixpoint third_empty (payload_hash : Hash) (count : Z) (items : list Hash) : bool :=
  match items with
  | [] => false
  | item :: rest =>
      if negb (bool_decide (item = empty_payload_hash)) then false
      else if (count + 1 =? 2) && bool_decide (payload_hash = empty_payload_hash) then true
      else third_empty payload_hash (count + 1) rest
  end.

(** Make a proposal, gossip it and handle it locally. *)
Definition propose (handle_proposal : Proposal → M unit) (payload : Payload) (tc : option TC) :
    M unit :=
  s ← gets w_state;
  proposal ← lift (make_proposal s payload tc);
  gossip (CM_Propose proposal) false;;
  handle_proposal proposal.

(** The leader's part of [handle_vote] once a QC is made. *)
Definition propose_next (handle_proposal : Proposal → M unit) : M unit :=
  payload ← get_proposal_payload;
  match payload with
  | None => mret ()
  | Some payload =>
      w ← get;
      if third_empty (block_hash payload) 0 (rev (w_proposal_hash_queue w)) then mret ()
      else
        modify (λ w, if (3 <? length (w_proposal_hash_queue w))%nat
                     then set_hash_queue [] w else w);;
        modify (λ w, set_hash_queue (w_proposal_hash_queue w ++ [block_hash payload]) w);;
        propose handle_proposal payload None
  end.

(** [ConsensusWorker::handle_vote], given [handle_proposal]. *)
Definition handle_vote_with (handle_proposal : Proposal → M unit) (vote : Vote) : M unit :=
  s ← gets w_state;
  lift (verify_vote s vote);;
  made ← on_state (cs_add_vote vote);
  match made with
  | None => mret ()
  | Some qc =>
      handle_qc qc;;
      w ← get;
      current_leader ← lift (view_leader (w_state w) (cs_view (w_state w)));
      if is_local w current_leader then propose_next handle_proposal else mret ()
  end.

(** [handle_proposal] and [handle_vote] call each other ([#[async_recursion]]):
    [fuel] bounds the nested calls of [handle_proposal]. *)
Fixpoint handle_proposal (fuel : nat) (proposal : Proposal) : M unit :=
  match fuel with
  | O => diverge
  | S fuel => handle_proposal_with (handle_vote_with (handle_proposal fuel)) proposal
  end.
Definition handle_vote (fuel : nat) (vote : Vote) : M unit :=
  handle_vote_with (handle_proposal fuel) vote.

(** [ConsensusWorker::generate_proposal]. *)
Definition generate_proposal (fuel : nat) (tc : option TC) : M unit :=
  payload ← get_proposal_payload;
  match payload with
  | Some payload => propose (handle_proposal fuel) payload tc
  | None => mret ()
  end.

(** [ConsensusWorker::handle_timeout]. *)
Definition handle_timeout (fuel : nat) (timeout : Timeout) : M unit :=
  s ← gets w_state;
  if cs_view s >? timeout_view timeout then mret ()
  else
    lift (verify_timeout s timeout);;
    handle_qc (timeout_high_qc timeout);;
    made ← on_state (cs_add_timeout timeout);
    match made with
    | None => mret ()
    | Some tc =>
        s ← gets w_state;
        (if tc_view tc >=? cs_view s then advance_view (tc_view tc);; emit ETimerReset
         else mret ());;
        gossip (CM_TC tc) true;;
        s ← gets w_state;
        leader ← lift (is_leader s);
        if leader : bool then
          modify (set_processing None);;
          generate_proposal fuel (Some tc)
        else mret ()
    end.

(** [ConsensusWorker::handle_tc]. *)
Definition handle_tc (fuel : nat) (tc : TC) : M unit :=
  s ← gets w_state;
  lift (verify_tc s tc);;
  advance_view (tc_view tc);;
  emit ETimerReset;;
  modify (set_processing None);;
  s ← gets w_state;
  leader ← lift (is_leader s);
  if leader : bool then generate_proposal fuel None else mret ().

(** [ConsensusWorker::handle_local_timer]. *)
Definition handle_local_timer (fuel : nat) : M unit :=
  emit ETimerReset;;
  modify (λ w, set_state (increase_last_voted_view (w_state w)) w);;
  s ← gets w_state;
  timeout ← lift (make_timeout s);
  gossip (CM_Timeout timeout) true;;
  handle_timeout fuel timeout.

(** What [run] selects: the timer, or a message from the channel. *)
Inductive Event := TimerFired | Received (m : ConsensusMessage).

(** One iteration of [run]; the handler's [Result] is logged and dropped. *)
Definition run_handler (fuel : nat) (e : Event) : M unit :=
  match e with
  | TimerFired => handle_local_timer fuel
  | Received (CM_Propose proposal) => handle_proposal fuel proposal
  | Received (CM_Vote vote) => handle_vote fuel vote
  | Received (CM_Timeout timeout) => handle_timeout fuel timeout
  | Received (CM_TC tc) => handle_tc fuel tc
  | Received _ => mret ()
  end.
Definition run_once (fuel : nat) (e : Event) : M unit := _ ← catch (run_handler fuel e); mret ().

Fixpoint run (fuel : nat) (es : list Event) : M unit :=
  match es with
  | [] => mret ()
  | e :: es => run_once fuel e;; run fuel es
  end.
End operations.

(** ** What a leader proposes *)
Section payloads.
Context `{Platform} {CL : Client}.

(** What a leader proposes: while the block in process is not finalized,
    or no queued block is above the finalized one, the empty marker; otherwise
    a block of the pending queue, above the finalized one or, when none is in
    process, the first; nothing when there is neither, or the queue's lock is
    poisoned.  Only the block in process changes. *)
Lemma proposal_payload_exact w :
  let queue := mutex_data (w_pending_queue w) in
  let finalized := info_finalized_number (client_info (w_client w)) in
  ∃ o b', get_proposal_payload w = (Ok o, set_processing b' w) ∧
  match o with
  | None => mutex_poisoned (w_pending_queue w) = true ∨ queue = [] ∧ w_processing_block w = None
  | Some pl =>
      mutex_poisoned (w_pending_queue w) = false ∧
      ((∃ b, w_processing_block w = Some b ∧ b' = Some b ∧
          pl = mkPayload empty_payload_hash (bi_number b) ∧
          (finalized < bi_number b ∨ Forall (λ x, bi_number x <= finalized) queue)) ∨
       (∃ b, b ∈ queue ∧ b' = Some b ∧
          pl = mkPayload (default empty_payload_hash (bi_hash b)) (bi_number b) ∧
          match w_processing_block w with
          | Some x => bi_number x <= finalized < bi_number b
          | None => head queue = Some b
          end))
  end.
Proof.
  intros queue finalized. unfold get_proposal_payload, get, mbind, comp_bind, lock_ok.
  fold queue finalized.
  assert (w = set_processing (w_processing_block w) w) as Hw by by destruct w.
  destruct (mutex_poisoned (w_pending_queue w)); [by exists None, (w_processing_block w); rewrite <- Hw; auto|].
  destruct (w_processing_block w) as [b|] eqn:Eb.
  - rewrite Z.gtb_ltb. destruct (Z.ltb_spec finalized (bi_number b)).
    { eexists (Some _), _. rewrite <- Hw. split; [done|]. split; [done|]. left. eauto 10. }
    destruct (List.find _ queue) as [x|] eqn:E.
    + apply find_Some_iff in E as [Hx Hgt]. rewrite Z.gtb_lt in Hgt.
      eexists (Some _), (Some x). split; [reflexivity|]. split; [done|]. right. eauto 10.
    + eexists (Some _), _. rewrite <- Hw. split; [done|]. split; [done|]. left.
      exists b. do 3 (split; [done|]). right. apply Forall_forall. intros x Hx.
      rewrite find_None_iff in E. specialize (E x Hx). rewrite Z.gtb_ltb, Z.ltb_ge in E. done.
  - destruct (head queue) as [x|] eqn:E.
    + eexists (Some _), (Some x). split; [reflexivity|]. split; [done|]. right. exists x.
      split; [|done]. destruct queue; simplify_eq/=. by left.
    + exists None, None. rewrite <- Hw. split; [done|]. right. by destruct queue.
Qed.

(** The throttle on empty proposals: the leader stays silent exactly when
    the payload is the empty marker and the last two entries of the proposal
    history are empty markers too. *)
Lemma third_empty_exact (h : Hash) (history : list Hash) :
  third_empty h 0 (rev history) = true ↔
  h = empty_payload_hash ∧
  ∃ older, history = older ++ [empty_payload_hash; empty_payload_hash].
Proof.
  assert (∀ l k, 2 <= k → third_empty h k l = false) as Hlate.
  { intros l. induction l as [|x l IH]; intros k Hk; simpl; [done|].
    case_bool_decide; simpl; [|done]. destruct (Z.eqb_spec (k + 1) 2); [lia|]. simpl. apply IH. lia. }
  assert (third_empty h 0 (rev history) = true ↔ h = empty_payload_hash ∧
    ∃ l, rev history = [empty_payload_hash; empty_payload_hash] ++ l) as ->.
  { destruct (rev history) as [|x [|y l]]; simpl.
    - naive_solver.
    - case_bool_decide; simpl; naive_solver.
    - repeat (case_bool_decide; simpl); rewrite ?Hlate by lia; naive_solver. }
  apply and_iff_compat_l. split.
  - intros [l Hl]. exists (rev l). rewrite <- (rev_involutive history), Hl.
    by rewrite rev_app_distr.
  - intros [older ->]. exists (rev older). by rewrite rev_app_distr.
Qed.
End payloads.
