(* ===== verification/WorkerFacts.v ===== *)
(** * The voter's invariant

    A small program logic for the handlers of [Worker] ([spec]: an invariant on
    every outcome, a two-state relation, a postcondition on success and a bound
    on how far the view moves), the worker's invariant, and a specification of
    every handler in it.  [WorkerSafety] draws the theorems from them. *)
From S2P Require Import Prelude Codec Primitives Reference Message Aggregator.
From S2P Require Import Synchronizer Network ConsensusState Import Worker.
Local Open Scope Z_scope.
Local Open Scope machine_scope.

Section invariant.
Context `{Platform} {CL : Client}.
Implicit Types (w : Worker) (s : ConsensusState) (l : list Effect).

Definition votes_of l : list Vote :=
  omap (λ e, match e with EVoted v => Some v | _ => None end) l.
Definition finalized_of l : list Hash :=
  omap (λ e, match e with EFinalize h => Some h | _ => None end) l.

Definition gossiped_of l : list bytes :=
  omap (λ e, match e with EGossip _ data _ => Some data | _ => None end) l.

(** A proposal its view's leader made, which every authority accepts. *)
Definition authentic s (p : Proposal) : Prop := verify_proposal s p = Ok ().

(** The high QC starts as the default one and is replaced by verified ones. *)
Definition high_qc_ok s (qc : QC) : Prop :=
  qc_ok qc ∧ (qc = qc_default ∨ qc_verify qc (cs_authorities s) = Ok ()).

(** Votes are made in strictly increasing views, up to the last voted one, by
    the local authority, each for an authentic proposal of its view. *)
Definition votes_ok s l : Prop :=
  StronglySorted Z.lt (vote_view <$> votes_of l) ∧
  Forall (λ v, vote_view v <= cs_last_voted_view s ∧
               local_authority_id s = Some (vote_voter v) ∧
               ∃ p, authentic s p ∧ vote_proposal_hash v = proposal_digest p ∧
                    vote_view v = proposal_view p) (votes_of l).

(** The commit rule: [hash] is the block of an authentic proposal with an
    authentic child in the next view, which in turn has an authentic child. *)
Definition committable s (hash : Hash) : Prop :=
  hash ≠ empty_payload_hash ∧
  ∃ p parent grandpa,
    authentic s p ∧ authentic s parent ∧ authentic s grandpa ∧
    proposal_parent_hash p = proposal_digest parent ∧
    proposal_parent_hash parent = proposal_digest grandpa ∧
    proposal_view parent = proposal_view grandpa +₆₄ 1 ∧
    block_hash (proposal_payload grandpa) = hash.

(** Under a hash the store holds the authentic proposal with that digest. *)
Definition store_ok s (c : client) : Prop :=
  ∀ h data, client_get_aux c (hash_as_ref h) = inr (Some data) →
  ∃ p, proposal_ok p ∧ data = scale_encode p ∧ proposal_digest p = h ∧ authentic s p.

Definition blocks_ok w : Prop :=
  Forall (λ b, u32_ok (bi_number b)) (mutex_data (w_pending_queue w)) ∧
  option_ok (λ b, u32_ok (bi_number b)) (w_processing_block w).

(** What leaves on the gossip topic is the encoding of a well-formed message. *)
Definition announced (e : Effect) : Prop :=
  match e with
  | EGossip topic data _ =>
      topic = gossip_topic ∧ ∃ m, message_ok m ∧ data = scale_encode m
  | _ => True
  end.

Record winv w : Prop := {
  wi_some : cs_authorities (w_state w) ≠ [];
  wi_small : Z.of_nat (length (cs_authorities (w_state w))) < 2 ^ 32;
  wi_aggregator : aggregator_ok (cs_authorities (w_state w)) (cs_aggregator (w_state w));
  wi_gossip : gv_view (w_gossip w) = cs_view (w_state w);
  wi_view : 0 <= cs_last_voted_view (w_state w) <= cs_view (w_state w) ∧
            cs_view (w_state w) <= u64_max;
  wi_high_qc : high_qc_ok (w_state w) (cs_high_qc (w_state w));
  wi_blocks : blocks_ok w;
  wi_store : store_ok (w_state w) (w_client w);
  wi_votes : votes_ok (w_state w) (w_log w);
  wi_commits : Forall (committable (w_state w)) (finalized_of (w_log w));
  wi_wire : Forall announced (w_log w);
}.

(** The number of the last finalized block. *)
Definition finalized_number w : Z := info_finalized_number (client_info (w_client w)).

(** What every handler does to the worker: the invariant, the configuration
    unchanged, and the view moving up by at most [k]. *)
Record step_ok (k : Z) w w' : Prop := {
  so_inv : winv w';
  so_authorities : cs_authorities (w_state w') = cs_authorities (w_state w);
  so_keystore : cs_keystore (w_state w') = cs_keystore (w_state w);
  so_queue : w_pending_queue w' = w_pending_queue w;
  so_view : cs_view (w_state w) <= cs_view (w_state w') <= cs_view (w_state w) + k;
  so_voted : cs_last_voted_view (w_state w) <= cs_last_voted_view (w_state w');
  so_high_qc : qc_view (cs_high_qc (w_state w)) <= qc_view (cs_high_qc (w_state w'));
  so_finalized : finalized_number w <= finalized_number w';
  so_log : w_log w `prefix_of` w_log w';
}.

Lemma step_ok_trans k k' w w' w'' :
  step_ok k w w' → step_ok k' w' w'' → step_ok (k + k') w w''.
Proof. intros [] []. split; [done|congruence..|lia|lia|lia|lia|by etrans]. Qed.

Lemma step_ok_refl k w : winv w → 0 <= k → step_ok k w w.
Proof. intros ??. by split; try lia. Qed.

Lemma step_ok_weaken k k' w w' : k <= k' → step_ok k w w' → step_ok k' w w'.
Proof. intros ? []. by split; try lia. Qed.

Lemma step_ok_local k w w' :
  step_ok k w w' → local_authority_id (w_state w') = local_authority_id (w_state w).
Proof.
  intros Hs. unfold local_authority_id.
  by rewrite (so_keystore _ _ _ Hs), (so_authorities _ _ _ Hs).
Qed.

Lemma step_ok_leader k w w' view :
  step_ok k w w' → view_leader (w_state w') view = view_leader (w_state w) view.
Proof. intros []. by apply view_leader_congr. Qed.

(** Appending other effects than votes and finalizations. *)
Definition neutral (e : Effect) : Prop :=
  match e with EVoted _ | EFinalize _ => False | _ => True end.

Lemma elem_of_votes v l : v ∈ votes_of l ↔ EVoted v ∈ l.
Proof.
  unfold votes_of. rewrite list_elem_of_omap. split; [|intros Hv; by exists (EVoted v)].
  intros (e & He & Hv). by destruct e; simplify_eq.
Qed.

Lemma votes_of_snoc l e :
  votes_of (l ++ [e]) = votes_of l ++ match e with EVoted v => [v] | _ => [] end.
Proof. unfold votes_of. rewrite omap_app. by destruct e. Qed.
Lemma finalized_of_snoc l e :
  finalized_of (l ++ [e]) = finalized_of l ++ match e with EFinalize h => [h] | _ => [] end.
Proof. unfold finalized_of. rewrite omap_app. by destruct e. Qed.

Lemma gossiped_of_snoc l e :
  gossiped_of (l ++ [e]) = gossiped_of l ++ match e with EGossip _ data _ => [data] | _ => [] end.
Proof. unfold gossiped_of. rewrite omap_app. by destruct e. Qed.

Lemma neutral_snoc l e :
  neutral e → votes_of (l ++ [e]) = votes_of l ∧ finalized_of (l ++ [e]) = finalized_of l.
Proof.
  rewrite votes_of_snoc, finalized_of_snoc. by destruct e; simpl; rewrite ?app_nil_r.
Qed.
End invariant.

(** ** The program logic *)
Section logic.
Context `{Platform} {CL : Client}.
(** Whether running out of fuel is allowed. *)
Context (D : Prop).
Implicit Types (w : Worker).

Definition settled {A} (Q : A → Worker → Prop) (o : outcome HotstuffError A) w' : Prop :=
  match o with
  | Ok a => Q a w'
  | Err _ => True
  | Panic _ => False
  | Diverge => D
  end.

Definition spec {A} (k : Z) (m : Comp Worker HotstuffError A) (Q : A → Worker → Prop) w : Prop :=
  winv w → 0 <= k → cs_view (w_state w) + k <= u64_max →
  wp m (λ o w', step_ok k w w' ∧ settled Q o w') w.

Lemma spec_bind {A B} k1 k2 k (m : Comp Worker HotstuffError A) (f : A → Comp Worker HotstuffError B)
    Q Q' w :
  0 <= k1 → 0 <= k2 → k = k1 + k2 →
  spec k1 m Q w →
  (∀ a w', step_ok k1 w w' → Q a w' → spec k2 (f a) Q' w') →
  spec k (m ≫= f) Q' w.
Proof.
  intros ?? -> Hm Hf Hw _ Hk. apply wp_bind.
  eapply wp_mono; [apply Hm; [done|lia..]|]. intros o w' [Hs Ho].
  destruct o as [a|e|p|]; simpl in *; try done.
  - pose proof (so_view _ _ _ Hs).
    eapply wp_mono; [apply (Hf a w' Hs Ho); [apply Hs|lia..]|].
    intros o w'' [Hs' ?]. split; [by eapply step_ok_trans|done].
  - split; [by eapply step_ok_weaken; [|done]; lia|done].
  - split; [by eapply step_ok_weaken; [|done]; lia|done].
Qed.

Lemma spec_seq {A B} k1 k2 k (m : Comp Worker HotstuffError A) (f : A → Comp Worker HotstuffError B)
    Q' w :
  0 <= k1 → 0 <= k2 → k = k1 + k2 →
  spec k1 m (λ _ _, True) w →
  (∀ a w', step_ok k1 w w' → spec k2 (f a) Q' w') →
  spec k (m ≫= f) Q' w.
Proof. intros ???? Hf. apply (spec_bind k1 k2 k m f (λ _ _, True)); [done..|]. intros. by apply Hf. Qed.

Lemma spec_mono {A} k k' (m : Comp Worker HotstuffError A) (Q Q' : A → Worker → Prop) w :
  0 <= k <= k' → spec k m Q w →
  (∀ a w', step_ok k w w' → Q a w' → Q' a w') → spec k' m Q' w.
Proof.
  intros ? Hm HQ Hw _ Hk. eapply wp_mono; [apply Hm; [done|lia..]|].
  intros o w' [Hs Ho]. split; [by eapply step_ok_weaken; [|done]; lia|].
  destruct o; simpl in *; try done. by apply HQ.
Qed.

Lemma spec_inv {A} k (m : Comp Worker HotstuffError A) Q w :
  (winv w → cs_view (w_state w) + k <= u64_max → spec k m Q w) → spec k m Q w.
Proof. intros Hm Hw ??. by apply Hm. Qed.

Lemma settled_intro {A} (Q : A → Worker → Prop) o w :
  settles o → (∀ a, o = Ok a → Q a w) → settled Q o w.
Proof. destruct o; simpl; auto. by intros []. Qed.

Lemma spec_ret {A} k (a : A) (Q : A → Worker → Prop) w : Q a w → spec k (mret a) Q w.
Proof. intros HQ Hw ??. apply wp_ret. split; [by apply step_ok_refl|done]. Qed.

Lemma spec_gets {A} k (f : Worker → A) (Q : A → Worker → Prop) w :
  Q (f w) w → spec k (gets f) Q w.
Proof. intros HQ Hw ??. apply wp_gets. split; [by apply step_ok_refl|done]. Qed.

Lemma spec_get k (Q : Worker → Worker → Prop) w : Q w w → spec k get Q w.
Proof. apply (spec_gets k (λ w, w)). Qed.

Lemma spec_lift {A} k (o : outcome HotstuffError A) (Q : A → Worker → Prop) w :
  settled Q o w → spec k (lift o) Q w.
Proof. intros HQ Hw ??. apply wp_lift. split; [by apply step_ok_refl|done]. Qed.

Lemma spec_modify k f (Q : unit → Worker → Prop) w :
  (winv w → step_ok k w (f w)) → Q () (f w) → spec k (modify f) Q w.
Proof. intros ?? Hw ??. apply wp_modify. split; [auto|done]. Qed.

Lemma spec_catch {A} k (m : Comp Worker HotstuffError A) (Q : A → Worker → Prop) w :
  spec k m Q w → spec k (catch m) (λ _ _, True) w.
Proof.
  intros Hm Hw ??. apply wp_catch. eapply wp_mono; [by apply Hm|].
  intros o w' [? Ho]. destruct o; done.
Qed.

(** Running [m] from [w] is running [m'] from a worker reached in one step. *)
Lemma spec_run {A} k (m m' : Comp Worker HotstuffError A) Q w w' :
  m w = m' w' → (winv w → step_ok 0 w w') → spec k m' Q w' → spec k m Q w.
Proof.
  intros Heq Hs Hm Hw Hk Hmax. specialize (Hs Hw). pose proof (so_view _ _ _ Hs).
  unfold wp. rewrite Heq.
  destruct (Hm (so_inv _ _ _ Hs) Hk) as [Hs' Ho]; [lia|]. split; [|done].
  replace k with (0 + k) by lia. by eapply step_ok_trans.
Qed.

(** The first command only reads the worker. *)
Lemma spec_read {A B} k (f : Worker → A) (g : A → Comp Worker HotstuffError B) Q w :
  spec k (g (f w)) Q w → spec k (gets f ≫= g) Q w.
Proof. done. Qed.
Lemma spec_read_all {B} k (g : Worker → Comp Worker HotstuffError B) Q w :
  spec k (g w) Q w → spec k (get ≫= g) Q w.
Proof. done. Qed.

(** A command that leaves the worker as it is. *)
Lemma spec_lift_bind {A B} k (o : outcome HotstuffError A) (g : A → Comp Worker HotstuffError B) Q w :
  settled (λ a w, spec k (g a) Q w) o w → spec k (lift o ≫= g) Q w.
Proof.
  intros Ho Hw Hk Hv. unfold wp, lift, mbind, comp_bind. destruct o; simpl in *; try done.
  - by apply Ho.
  - split; [by apply step_ok_refl|done].
  - split; [by apply step_ok_refl|done].
Qed.
End logic.

(** ** Commands that keep the pending work

    The block in process and the history of proposals change in few places. *)
Section keeps.
Context `{Platform} {CL : Client}.
Implicit Types (w : Worker).

Definition pending w : option BlockInfo * list Hash :=
  (w_processing_block w, w_proposal_hash_queue w).
Definition keeps {A} (m : Comp Worker HotstuffError A) : Prop :=
  ∀ w, pending (m w).2 = pending w.

Lemma keeps_bind {A B} (m : Comp Worker HotstuffError A) (f : A → Comp Worker HotstuffError B) :
  keeps m → (∀ a, keeps (f a)) → keeps (m ≫= f).
Proof.
  intros Hm Hf w. unfold mbind, comp_bind. specialize (Hm w).
  destruct (m w) as [[a| | |] w']; simpl in *; try done. by rewrite Hf.
Qed.
Lemma keeps_ret {A} (a : A) : keeps (mret a).
Proof. done. Qed.
Lemma keeps_gets {A} (f : Worker → A) : keeps (gets f).
Proof. done. Qed.
Lemma keeps_get : keeps get.
Proof. done. Qed.
Lemma keeps_lift {A} (o : outcome HotstuffError A) : keeps (lift o).
Proof. done. Qed.
Lemma keeps_modify f : (∀ w, pending (f w) = pending w) → keeps (modify f).
Proof. intros Hf w. apply Hf. Qed.
Lemma keeps_emit e : keeps (emit e).
Proof. done. Qed.
Lemma keeps_on_state {A} (f : ConsensusState → outcome HotstuffError A * ConsensusState) :
  keeps (on_state f).
Proof. intros w. unfold on_state, zoom. by destruct (f (w_state w)). Qed.
Lemma keeps_on_client {A} (f : client → outcome HotstuffError A * client) : keeps (on_client f).
Proof. intros w. unfold on_client, zoom. by destruct (f (w_client w)). Qed.
Lemma keeps_catch {A} (m : Comp Worker HotstuffError A) : keeps m → keeps (catch m).
Proof. intros Hm w. unfold catch. specialize (Hm w). by destruct (m w) as [[] w']. Qed.

(** A command that keeps the pending work hands it to what follows. *)
Lemma spec_bind_keeps D {A B} k1 k2 k (m : Comp Worker HotstuffError A)
    (f : A → Comp Worker HotstuffError B) Q Q' w :
  keeps m → 0 <= k1 → 0 <= k2 → k = k1 + k2 → spec D k1 m Q w →
  (∀ a w', step_ok k1 w w' → pending w' = pending w → Q a w' → spec D k2 (f a) Q' w') →
  spec D k (m ≫= f) Q' w.
Proof.
  intros Hkeeps ??? Hm Hf. apply (spec_bind D k1 k2 k m f (λ a w', Q a w' ∧ pending w' = pending w)); [done..| |].
  - intros Hw Hk Hv. pose proof (Hm Hw Hk Hv) as Hwp. unfold wp in *. specialize (Hkeeps w).
    destruct (m w) as [o w']. destruct Hwp as [Hs Ho]. split; [done|].
    destruct o; simpl in *; done.
  - intros a w' Hs [HQ Hp]. by apply Hf.
Qed.
End keeps.

Create HintDb worker_keeps.
#[export] Hint Resolve keeps_ret keeps_gets keeps_get keeps_lift keeps_emit keeps_on_state
  keeps_on_client : worker_keeps.

Ltac keeps :=
  repeat first
    [ progress intros
    | solve [eauto with worker_keeps]
    | apply keeps_bind
    | apply keeps_catch
    | apply keeps_modify; intros; reflexivity
    | case_match ].

Section keeps_parts.
Context `{Platform} {CL : Client}.

Lemma keeps_advance_view v : keeps (advance_view v).
Proof. unfold advance_view. keeps. Qed.
#[local] Hint Resolve keeps_advance_view : worker_keeps.
Lemma keeps_handle_qc qc : keeps (handle_qc qc).
Proof. unfold handle_qc. keeps. Qed.
Lemma keeps_process_proposal_tc p : keeps (process_proposal_tc p).
Proof. unfold process_proposal_tc. keeps. Qed.
Lemma keeps_check_payload p : keeps (check_payload p).
Proof. unfold check_payload. keeps. Qed.
Lemma keeps_try_commit p : keeps (try_commit p).
Proof. unfold try_commit, commit_grandparent. keeps. Qed.
End keeps_parts.
#[export] Hint Resolve keeps_handle_qc keeps_process_proposal_tc keeps_check_payload
  keeps_try_commit : worker_keeps.

(** ** State updates *)
Section updates.
Context `{Platform} {CL : Client}.
Implicit Types (w : Worker).

Lemma step_log e w : neutral e → announced e → winv w → step_ok 0 w (log_effect e w).
Proof.
  intros He Ha Hw. destruct (neutral_snoc (w_log w) e He) as [Hv Hf]. destruct Hw.
  split; [|done..|simpl; lia|simpl; lia|simpl; lia|done|by apply prefix_app_r].
  split; simpl; try done.
  - unfold votes_ok. by rewrite Hv.
  - by rewrite Hf.
  - apply Forall_app. by split; [|apply Forall_singleton].
Qed.

Lemma step_processing b w :
  option_ok (λ b, u32_ok (bi_number b)) b → winv w → step_ok 0 w (set_processing b w).
Proof.
  intros Hb Hw. pose proof Hw as []. split; simpl; try done; try lia.
  split; simpl; try done. split; [|done]. apply Hw.
Qed.

Lemma step_hash_queue q w : winv w → step_ok 0 w (set_hash_queue q w).
Proof. intros Hw. pose proof Hw as []. by split; simpl; try done; try lia; split. Qed.

Lemma step_view v w :
  winv w → v = cs_view (w_state w) + 1 → v <= u64_max →
  step_ok 1 w (set_gossip (mkGossipValidator v) (set_state (set_cs_view v (w_state w)) w)).
Proof.
  intros Hw -> Hmax. pose proof Hw as []. split; simpl; try done; try lia.
  split; simpl; try done. lia.
Qed.

Lemma step_high_qc qc w :
  qc_ok qc → qc_accepted qc (cs_authorities (w_state w)) → winv w →
  step_ok 0 w (set_state (update_high_qc qc (w_state w)) w).
Proof.
  intros Hok Hacc Hw. unfold update_high_qc. rewrite Z.gtb_ltb.
  destruct (Z.ltb_spec (qc_view (cs_high_qc (w_state w))) (qc_view qc)) as [Hlt|].
  2: { destruct w. by apply step_ok_refl. }
  pose proof Hw as []. destruct wi_high_qc0 as [[Hh _] _].
  split; simpl; try done; try lia. split; simpl; try done.
  split; [done|]. right. destruct Hacc as [Hd|?]; [|by apply qc_verify_Ok].
  unfold qc_eqb in Hd. apply andb_true_iff in Hd as [_ Hd%Z.eqb_eq]. simpl in Hd.
  unfold u64_ok in Hh. lia.
Qed.

Lemma step_aggregator a w :
  aggregator_ok (cs_authorities (w_state w)) a → winv w →
  step_ok 0 w (set_state (set_aggregator a (w_state w)) w).
Proof. intros Ha Hw. pose proof Hw as []. by split; simpl; try done; try lia; split. Qed.

Lemma step_last_voted v w :
  cs_last_voted_view (w_state w) <= v <= cs_view (w_state w) → winv w →
  step_ok 0 w (set_state (set_last_voted_view v (w_state w)) w).
Proof.
  intros Hv Hw. pose proof Hw as []. split; simpl; try done; try lia.
  split; simpl; try done; [lia|]. destruct wi_votes0 as [Hs Hall]. split; [done|].
  eapply Forall_impl; [done|]. simpl. intros x (? & ? & ?). split; [lia|done].
Qed.

Lemma step_client c w :
  store_ok (w_state w) c → finalized_number w <= info_finalized_number (client_info c) →
  winv w → step_ok 0 w (set_client c w).
Proof. intros Hc Hf Hw. pose proof Hw as []. by split; simpl; try done; try lia; split. Qed.

(** Recording a vote that [make_vote] has just made. *)
Lemma step_voted v p w :
  winv w → authentic (w_state w) p → proposal_view p = cs_view (w_state w) →
  cs_last_voted_view (w_state w) < proposal_view p →
  vote_proposal_hash v = proposal_digest p → vote_view v = proposal_view p →
  local_authority_id (w_state w) = Some (vote_voter v) →
  step_ok 0 w (log_effect (EVoted v)
    (set_state (set_last_voted_view (proposal_view p) (w_state w)) w)).
Proof.
  intros Hw Hp Hview Hlt Hh Hv Hl. pose proof Hw as []. destruct wi_votes0 as [Hs Hall].
  split; simpl; try done; try lia; [|by apply prefix_app_r].
  split; simpl; try done; [lia| | |].
  - unfold votes_ok. rewrite votes_of_snoc. split.
    + rewrite fmap_app. apply StronglySorted_app. split_and!; [|done|repeat constructor].
      simpl. intros x1 x2 (y & -> & Hy)%list_elem_of_fmap ->%list_elem_of_singleton.
      rewrite Forall_forall in Hall. destruct (Hall y Hy). lia.
    + apply Forall_app. split.
      * eapply Forall_impl; [done|]. simpl. intros x (? & ? & ?). split; [lia|done].
      * repeat constructor; simpl; [lia|done|]. by exists p.
  - rewrite finalized_of_snoc, app_nil_r. done.
  - apply Forall_app. by split; [|apply Forall_singleton].
Qed.

Lemma step_finalized h w :
  committable (w_state w) h → winv w → step_ok 0 w (log_effect (EFinalize h) w).
Proof.
  intros Hc Hw. pose proof Hw as []. split; simpl; try done; try lia; [|by apply prefix_app_r].
  split; simpl; try done.
  - unfold votes_ok. by rewrite votes_of_snoc, app_nil_r.
  - rewrite finalized_of_snoc. apply Forall_app. split; [done|]. by apply Forall_singleton.
  - apply Forall_app. by split; [|apply Forall_singleton].
Qed.
End updates.

(** ** Specifications of the handlers' parts *)
Section parts.
Context `{Platform} {CL : Client} `{!PlatformLaws} `{!ClientLaws}.
Context (D : Prop).
Implicit Types (w : Worker).
Abbreviation any := (λ _ _, True) (only parsing).

Lemma emit_spec k e w : neutral e → announced e → spec D k (emit e) any w.
Proof.
  intros He Ha Hw ??. apply spec_modify; [|done..].
  intros _. eapply step_ok_weaken; [|by apply step_log]. lia.
Qed.

Lemma gossip_spec k m force w : message_ok m → spec D k (gossip m force) any w.
Proof. intros Hm. apply emit_spec; [done|]. split; [done|]. by exists m. Qed.

Lemma processing_spec k b w :
  option_ok (λ b, u32_ok (bi_number b)) b → spec D k (modify (set_processing b)) any w.
Proof.
  intros He Hw ??. apply spec_modify; [|done..].
  intros _. eapply step_ok_weaken; [|by apply step_processing]. lia.
Qed.

Lemma advance_view_spec target w :
  cs_view (w_state w) <= target → spec D 1 (advance_view target) any w.
Proof.
  intros Ht Hw _ Hk. pose proof (wi_view _ Hw). unfold wp, advance_view, mbind, comp_bind, modify.
  simpl. split; [|done]. unfold gv_set_view, advance_view_from_target. rewrite Z.geb_leb.
  destruct (Z.leb_spec target (cs_view (w_state w))) as [Hle|].
  - assert (target = cs_view (w_state w)) as -> by lia.
    rewrite u64_wrap_small by (unfold u64_ok, u64_max in *; lia). by apply step_view; [| |lia].
  - rewrite <- (wi_gossip _ Hw). destruct w as [s c [g] b q hq l]. simpl.
    by apply step_ok_refl.
Qed.

Lemma handle_qc_spec qc w :
  qc_ok qc → qc_accepted qc (cs_authorities (w_state w)) → spec D 1 (handle_qc qc) any w.
Proof.
  intros Hok Hacc. unfold handle_qc. apply spec_read. rewrite Z.geb_leb.
  destruct (Z.leb_spec (cs_view (w_state w)) (qc_view qc)); [|by apply spec_ret].
  eapply (spec_seq D 1 0); [lia..|by apply advance_view_spec|]. intros [] w1 Hs1.
  eapply (spec_seq D 0 0); [lia..| |intros; by apply emit_spec].
  apply spec_modify; [|done]. intros Hw1. apply step_high_qc; [done| |done].
  by rewrite (so_authorities _ _ _ Hs1).
Qed.

Lemma process_proposal_tc_spec p w : spec D 1 (process_proposal_tc p) any w.
Proof.
  unfold process_proposal_tc. destruct (proposal_tc p) as [tc|]; [|by apply spec_ret].
  apply spec_read. rewrite Z.gtb_ltb.
  destruct (Z.ltb_spec (cs_view (w_state w)) (tc_view tc)); [|by apply spec_ret].
  eapply (spec_seq D 1 0); [lia..|apply advance_view_spec; lia|intros; by apply emit_spec].
Qed.

(** A payload that may follow the block in process: at or above it, and a real
    block only from the queue, above the finalized one, once that has reached the
    block in process. *)
Definition succeeds w (pl : Payload) : Prop :=
  ∀ b, w_processing_block w = Some b →
  bi_number b <= Z.max (block_number pl) (finalized_number w) ∧
  (block_hash pl ≠ empty_payload_hash →
     bi_number b <= finalized_number w < block_number pl ∧
     block_number pl ∈ bi_number <$> mutex_data (w_pending_queue w)).

Lemma succeeds_marker w b :
  w_processing_block w = Some b → succeeds w (mkPayload empty_payload_hash (bi_number b)).
Proof. intros Hb b' ?. simplify_eq/=. split; [lia|done]. Qed.

Lemma succeeds_queued w b h :
  b ∈ mutex_data (w_pending_queue w) →
  (∀ b', w_processing_block w = Some b' → bi_number b' <= finalized_number w < bi_number b) →
  succeeds w (mkPayload h (bi_number b)).
Proof.
  intros Hin Hb b' Hb'. specialize (Hb b' Hb'). simpl. split; [lia|]. intros _. split; [done|].
  by apply list_elem_of_fmap_2.
Qed.

(** What choosing a payload leaves as it is. *)
Definition chosen w (o : option Payload) w' : Prop :=
  option_ok (λ pl, payload_ok pl ∧ succeeds w pl) o ∧
  w_client w' = w_client w ∧ w_proposal_hash_queue w' = w_proposal_hash_queue w.

Lemma get_proposal_payload_spec w : spec D 0 get_proposal_payload (chosen w) w.
Proof.
  apply spec_inv. intros Hw Hmax. pose proof (wi_blocks _ Hw) as [Hq Hb].
  assert (∀ b h, b ∈ mutex_data (w_pending_queue w) →
    (∀ b', w_processing_block w = Some b' → bi_number b' <= finalized_number w < bi_number b) →
    spec D 0 (modify (set_processing (Some b));; mret (Some (mkPayload h (bi_number b)))) (chosen w) w)
    as Htake.
  { intros b h Hin Hlt. rewrite Forall_forall in Hq.
    eapply (spec_bind D 0 0 _ _ _ (λ _ w', w' = set_processing (Some b) w)); [lia..| |].
    - apply spec_modify; [|done]. by apply step_processing, Hq.
    - intros [] w' _ ->. apply spec_ret. split; [|done]. split; [by apply Hq|].
      by apply succeeds_queued. }
  unfold get_proposal_payload. apply spec_read_all. unfold lock_ok.
  destruct (mutex_poisoned _); [by apply spec_ret|]. fold (finalized_number w).
  destruct (w_processing_block w) as [b|] eqn:Eb; simpl in Hb.
  - assert (spec D 0 (mret (Some (mkPayload empty_payload_hash (bi_number b)))) (chosen w) w) as Hm.
    { apply spec_ret. split; [|done]. split; [done|by apply succeeds_marker]. }
    rewrite Z.gtb_ltb. destruct (Z.ltb_spec (finalized_number w) (bi_number b)); [done|].
    destruct (List.find _ _) as [b'|] eqn:E; [|done].
    apply find_Some_iff in E as [Hin Hgt%Z.gtb_lt]. apply Htake; [done|]. intros x ?.
    simplify_eq. lia.
  - destruct (mutex_data _) as [|b' q]; [by apply spec_ret|]. apply Htake; [by left|done].
Qed.

Lemma store_ok_save s c p :
  store_ok s c → proposal_ok p → authentic s p → store_ok s (save_proposal p c).2.
Proof.
  intros Hc Hp Ha h data. unfold save_proposal, store_set.
  destruct (client_insert_aux c _ _) as [[e|[]] c'] eqn:E; simpl.
  - rewrite (get_insert_aux_fails _ _ _ _ _ (hash_as_ref h) E). apply Hc.
  - destruct (get_insert_aux _ _ _ _ E) as [Hk Hother].
    destruct (decide (proposal_digest p = h)) as [<-|Hne].
    + rewrite Hk. intros [= <-]. by exists p.
    + rewrite Hother; [apply Hc|]. by intros ?%(inj hash_as_ref).
Qed.

Lemma save_proposal_spec p w :
  proposal_ok p → authentic (w_state w) p → spec D 0 (on_client (save_proposal p)) any w.
Proof.
  intros Hp Ha Hw _ Hv. unfold wp, on_client, zoom.
  pose proof (store_ok_save _ _ _ (wi_store _ Hw) Hp Ha) as Hs.
  assert (∀ o, (save_proposal p (w_client w)).1 = o → settled D any o w) as Ho.
  { unfold save_proposal. destruct (store_set _ _ _) as [[] ?]; simpl; by intros ? <-. }
  assert (client_info (save_proposal p (w_client w)).2 = client_info (w_client w)) as Hinfo.
  { unfold save_proposal, store_set. pose proof (insert_aux_info (w_client w)) as Hi.
    specialize (Hi [(hash_as_ref (proposal_digest p), scale_encode p)] []).
    by destruct (client_insert_aux _ _ _). }
  destruct (save_proposal p (w_client w)) as [o c]. simpl in *. split.
  - apply step_client; [done| |done]. unfold finalized_number. rewrite Hinfo. lia.
  - by specialize (Ho o eq_refl); destruct o.
Qed.

Lemma stored_parent s c p :
  store_ok s c →
  match get_proposal_parent c p with
  | Ok parent => authentic s parent ∧ proposal_digest parent = proposal_parent_hash p
  | Err _ => True
  | _ => False
  end.
Proof.
  intros Hc. unfold get_proposal_parent, store_get.
  destruct (client_get_aux _ _) as [e|[data|]] eqn:E; simpl; try done.
  destruct (Hc _ _ E) as (q & Hq & -> & Hd & Ha).
  by rewrite (decode_all_encode (ok := proposal_ok)).
Qed.

Lemma finalize_spec h w :
  spec D 0 (on_client (λ c, let '(r, c') := client_finalize_block c h in
    (map_err r FinalizeBlock, c'))) any w.
Proof.
  intros Hw _ Hv. unfold wp, on_client, zoom.
  pose proof (finalize_get_aux (w_client w) h) as Hg.
  pose proof (finalize_number (w_client w) h) as Hf.
  destruct (client_finalize_block _ _) as [r c]. simpl in *. split; [|by destruct r].
  apply step_client; [|done|done]. intros h' data. rewrite Hg. apply (wi_store _ Hw).
Qed.

Lemma try_commit_spec p w : authentic (w_state w) p → spec D 0 (try_commit p) any w.
Proof.
  intros Hp. apply spec_inv. intros Hw Hmax. unfold try_commit.
  eapply (spec_seq D 0 0); [lia..| |intros; by apply spec_ret].
  apply (spec_catch D 0 _ any). apply spec_read_all, spec_lift_bind.
  pose proof (stored_parent (w_state w) (w_client w) p (wi_store _ Hw)) as Hparent.
  unfold get_proposal_ancestors.
  destruct (get_proposal_parent (w_client w) p) as [parent| | |]; try done. simpl.
  pose proof (stored_parent (w_state w) (w_client w) parent (wi_store _ Hw)) as Hgrandpa.
  destruct (get_proposal_parent (w_client w) parent) as [grandpa| | |]; try done. simpl.
  destruct Hparent as [Ha1 Hd1], Hgrandpa as [Ha2 Hd2].
  apply spec_read_all.
  destruct (Z.eqb_spec (proposal_view parent) (proposal_view grandpa +₆₄ 1));
    [|by apply spec_ret].
  do 2 (case_bool_decide; [by apply spec_ret|]). simpl.
  eapply (spec_seq D 0 0); [lia..| |intros; by apply finalize_spec].
  apply spec_modify; [|done]. apply step_finalized. split; [done|].
  by exists p, parent, grandpa.
Qed.

Lemma view_leader_settled w view (Q : AuthorityId → Worker → Prop) :
  winv w → (∀ id, view_leader (w_state w) view = Ok id → Q id w) →
  settled D Q (view_leader (w_state w) view) w.
Proof.
  intros Hw HQ. destruct (view_leader_lookup (w_state w) view) as (id & Hl & _); [apply Hw|].
  rewrite Hl in *. by apply HQ.
Qed.

(** Giving a vote to [handle_vote] or gossiping it. *)
Lemma send_vote_spec k handle_vote v w :
  0 <= k → vote_ok v →
  (∀ id, local_authority_id (w_state w) = Some id →
         view_leader (w_state w) (cs_view (w_state w) +₆₄ 1) = Ok id →
         spec D k (handle_vote v) any w) →
  spec D k (
    w ← get;
    next_leader_id ← lift (view_leader (w_state w) (cs_view (w_state w) +₆₄ 1));
    if is_local w next_leader_id then handle_vote v else gossip (CM_Vote v) false) any w.
Proof.
  intros Hk Hvok Hv. apply spec_inv. intros Hw Hmax. apply spec_read_all, spec_lift_bind.
  apply view_leader_settled; [done|]. intros id Hl. unfold is_local.
  destruct (local_authority_id (w_state w)) as [local|]; [|by apply gossip_spec].
  case_bool_decide; [|by apply gossip_spec]. subst. by apply (Hv id).
Qed.

Lemma vote_proposal_run handle_vote p w :
  vote_proposal handle_vote p w =
  match make_vote (w_state w) p with
  | (Some v, s') =>
      (modify (λ w, set_hash_queue
        (w_proposal_hash_queue w ++ [block_hash (proposal_payload p)]) w);;
      modify (set_processing (Some (mkBlockInfo (Some (block_hash (proposal_payload p)))
        (block_number (proposal_payload p)))));;
      w ← get;
      next_leader_id ← lift (view_leader (w_state w) (cs_view (w_state w) +₆₄ 1));
      if is_local w next_leader_id then handle_vote v else gossip (CM_Vote v) false)
      (log_effect (EVoted v) (set_state s' w))
  | (None, s') => (Ok (), set_state s' w)
  end.
Proof.
  unfold vote_proposal, mbind at 1, comp_bind at 1, on_state, zoom.
  by destruct (make_vote (w_state w) p) as [[v|] s'].
Qed.

(** The pending work once a proposal has been voted for. *)
Definition after_vote p w : option BlockInfo * list Hash :=
  let h := block_hash (proposal_payload p) in
  (Some (mkBlockInfo (Some h) (block_number (proposal_payload p))), w_proposal_hash_queue w ++ [h]).

Lemma vote_proposal_spec k handle_vote p w :
  0 <= k → proposal_ok p → authentic (w_state w) p → proposal_view p = cs_view (w_state w) →
  (∀ v id w', step_ok 0 w w' → vote_ok v → cs_view (w_state w') = cs_view (w_state w) →
     local_authority_id (w_state w) = Some id →
     view_leader (w_state w) (cs_view (w_state w) +₆₄ 1) = Ok id →
     pending w' = after_vote p w →
     spec D k (handle_vote v) any w') →
  spec D k (vote_proposal handle_vote p) any w.
Proof.
  intros Hk Hp Ha Hview Hv. apply spec_inv. intros Hw Hmax.
  pose proof (make_vote_spec (w_state w) p) as Hmv.
  pose proof (vote_proposal_run handle_vote p w) as Hrun.
  destruct (make_vote (w_state w) p) as [[v|] s'].
  - destruct Hmv as (Hlt & Hvv & Hvh & Hl & ->).
    pose proof (step_voted v p w Hw Ha Hview Hlt Hvh Hvv Hl) as Hs0.
    eapply spec_run; [exact Hrun|done|].
    match goal with |- context [log_effect (EVoted v) ?w0] => set (wv := log_effect (EVoted v) w0) end.
    eapply (spec_bind D 0 k _ _ _ (λ _ w1, w_proposal_hash_queue w1 =
      w_proposal_hash_queue w ++ [block_hash (proposal_payload p)])); [lia..| |].
    { apply spec_modify; [apply step_hash_queue|done]. }
    intros _ w1 Hs1 Hq1. eapply (spec_bind D 0 k _ _ _ (λ _ w2, pending w2 = after_vote p w));
      [lia..| |].
    { apply spec_modify; [apply step_processing, Hp|]. unfold pending, after_vote. by rewrite <- Hq1. }
    intros _ w2 Hs2 Hq2.
    pose proof (step_ok_trans _ _ _ _ _ Hs0 (step_ok_trans _ _ _ _ _ Hs1 Hs2)) as Hs12.
    pose proof (so_view _ _ _ Hs12) as Hv12. simpl in Hv12.
    assert (vote_ok v) as Hvok by by unfold vote_ok; rewrite Hvv; apply Hp.
    apply send_vote_spec; [done..|]. intros id Hl' Hle.
    replace (cs_view (w_state w2)) with (cs_view (w_state w)) in Hle by lia.
    rewrite (step_ok_leader _ _ _ _ Hs12) in Hle.
    rewrite (step_ok_local _ _ _ Hs12) in Hl'.
    apply (Hv v id w2); [done|done|lia|done|done|done].
  - eapply (spec_run _ _ _ (mret ())); [exact Hrun| |by apply spec_ret].
    intros _. destruct Hmv as [->|[Hlt ->]]; [destruct w; by apply step_ok_refl|].
    apply step_last_voted; [lia|done].
Qed.
Lemma check_payload_spec p w : spec D 0 (check_payload p) any w.
Proof.
  unfold check_payload. case_match; [|by apply spec_ret].
  apply spec_read_all, spec_lift_bind. apply settled_intro; [apply settles_map_err|].
  intros status _. case_match; [|by apply spec_ret].
  eapply (spec_seq D 0 0); [lia..|by apply emit_spec|]. intros. by apply spec_ret.
Qed.

Lemma authentic_step k w w' p :
  step_ok k w w' → authentic (w_state w) p → authentic (w_state w') p.
Proof.
  intros Hs. unfold authentic, verify_proposal.
  by rewrite (step_ok_leader _ _ _ _ Hs), (so_authorities _ _ _ Hs).
Qed.

Lemma authentic_qc w p :
  authentic (w_state w) p → qc_accepted (proposal_qc p) (cs_authorities (w_state w)).
Proof.
  unfold authentic, verify_proposal. destruct (view_leader _ _); simpl; try done.
  case_match; [done|]. by intros [_ ?]%proposal_verify_Ok.
Qed.

(** [handle_proposal] up to the vote. *)
Lemma handle_proposal_with_spec k handle_vote p w :
  0 <= k → proposal_ok p →
  (∀ w', step_ok 2 w w' → pending w' = pending w →
         authentic (w_state w') p → proposal_view p = cs_view (w_state w') →
         spec D k (vote_proposal handle_vote p) any w') →
  spec D (2 + k) (handle_proposal_with handle_vote p) any w.
Proof.
  intros Hk Hp Hvote. apply spec_inv. intros Hw Hmax. unfold handle_proposal_with.
  eapply (spec_bind_keeps D 0 (2 + k)); [keeps|lia..|apply check_payload_spec|].
  intros known w1 Hs1 Hp1 _. destruct known; [|by apply spec_ret]. simpl.
  apply spec_read, spec_lift_bind. apply settled_intro.
  { apply verify_proposal_settles. apply Hs1. }
  intros [] Ha.
  eapply (spec_bind_keeps D 1 (1 + k)); [keeps|lia..|apply handle_qc_spec; [apply Hp|by apply authentic_qc]|].
  intros _ w2 Hs2 Hp2 _.
  eapply (spec_bind_keeps D 1 k); [keeps|lia..|apply process_proposal_tc_spec|]. intros _ w3 Hs3 Hp3 _.
  pose proof (step_ok_trans _ _ _ _ _ Hs2 Hs3) as Hs23.
  pose proof (authentic_step _ _ _ _ Hs23 Ha) as Ha3.
  eapply (spec_bind_keeps D 0 k); [keeps|lia..|by apply save_proposal_spec|]. intros _ w4 Hs4 Hp4 _.
  pose proof (authentic_step _ _ _ _ Hs4 Ha3) as Ha4.
  eapply (spec_bind_keeps D 0 k); [keeps|lia..|by apply try_commit_spec|]. intros _ w5 Hs5 Hp5 _.
  apply spec_read. destruct (Z.eqb_spec (proposal_view p) (cs_view (w_state w5)));
    [|by apply spec_ret]. simpl.
  apply Hvote; [|congruence|by eapply authentic_step|done].
  pose proof (step_ok_trans _ _ _ _ _ (step_ok_trans _ _ _ _ _ Hs1 Hs23)
    (step_ok_trans _ _ _ _ _ Hs4 Hs5)) as Hs. done.
Qed.

(** The proposal of a node that leads its view, in a committee where the next
    leader is another node, needs no nested [handle_vote]. *)
Lemma handle_own_proposal_spec handle_vote p id w :
  NoDup (cs_authorities (w_state w)).*1 → (2 ≤ length (cs_authorities (w_state w)))%nat →
  proposal_ok p → local_authority_id (w_state w) = Some id →
  view_leader (w_state w) (proposal_view p) = Ok id →
  spec D 3 (handle_proposal_with handle_vote p) any w.
Proof.
  intros Hnd Hlen Hp Hl Hle. apply (handle_proposal_with_spec 1); [lia|done|].
  intros w' Hs _ Ha Hview. apply spec_inv. intros Hw' Hmax.
  apply vote_proposal_spec; [lia|done..|]. intros v id' w'' Hs' _ _ Hl' Hle' _. exfalso.
  rewrite (step_ok_local _ _ _ Hs) in Hl'. rewrite (step_ok_leader _ _ _ _ Hs) in Hle'.
  simplify_eq. pose proof (wi_view _ Hw').
  rewrite u64_wrap_small in Hle' by (unfold u64_ok, u64_max in *; lia).
  rewrite <- Hview in Hle'.
  by apply (consecutive_leaders_differ (w_state w) (proposal_view p) id).
Qed.

Lemma authorities_small w : winv w → authorities_ok (cs_authorities (w_state w)).
Proof. intros Hw. pose proof (wi_small _ Hw). unfold authorities_ok. lia. Qed.

(** Certificates the aggregator makes fit the wire. *)
Lemma aggregated_qc_ok authorities (qc : QC) :
  Z.of_nat (length authorities) < 2 ^ 32 → qc_verify qc authorities = Ok () →
  Forall (λ x, x.1 ∈ authorities.*1) (qc_votes qc) → u64_ok (qc_view qc) → qc_ok qc.
Proof.
  intros Hsmall (Hnd & _ & _)%qc_verify_Ok Hin Hview. split; [done|].
  pose proof (voters_bounded _ fst (qc_votes qc) Hnd Hin). split; [by apply Forall_true|lia].
Qed.

Lemma aggregated_tc_ok authorities a t (tc : TC) :
  Z.of_nat (length authorities) < 2 ^ 32 → aggregator_ok authorities a → timeout_ok t →
  timeout_verify t authorities = Ok () → (add_timeout a t authorities).1 = Ok (Some tc) → tc_ok tc.
Proof.
  intros Hsmall Hagg Hok Hv Htc.
  assert (authorities_ok authorities) as Hlen by (unfold authorities_ok; lia).
  destruct (add_timeout_tc _ _ _ _ Hlen Hagg Hv Htc) as (sig & _ & Hview & _ & Hvotes & Hnd & _).
  destruct (add_timeout_ok _ _ _ Hlen Hagg Hv) as [_ Ha].
  destruct (Ha (timeout_view t)) as (_ & _ & Hall).
  rewrite <- Hvotes in Hall. split; [rewrite Hview; apply Hok|]. split.
  - eapply Forall_impl; [done|]. simpl. intros x (_ & -> & _). apply Hok.
  - pose proof (voters_bounded authorities (λ x, x.1.1) (tc_votes tc) Hnd) as Hb.
    assert (length (tc_votes tc) ≤ length authorities)%nat; [|lia].
    apply Hb. eapply Forall_impl; [done|naive_solver].
Qed.

(** Adding a verified vote: a QC made from it verifies and fits the wire. *)
Lemma cs_add_vote_spec v w :
  vote_ok v → vote_verify v (cs_authorities (w_state w)) = Ok () →
  spec D 0 (on_state (cs_add_vote v))
    (λ made w', ∀ qc, made = Some qc →
       qc_ok qc ∧ qc_accepted qc (cs_authorities (w_state w'))) w.
Proof.
  intros Hok Hv Hw _ _. unfold wp, on_state, zoom, cs_add_vote.
  pose proof (authorities_small _ Hw) as Hlen. pose proof (wi_small _ Hw) as Hsmall.
  pose proof (add_vote_ok _ _ _ Hlen (wi_aggregator _ Hw) Hv) as Ha.
  pose proof (λ qc, add_vote_qc _ _ _ qc Hlen (wi_aggregator _ Hw) Hv) as Hqc.
  pose proof (add_vote_settles (cs_aggregator (w_state w)) v (cs_authorities (w_state w))) as Ho.
  destruct (add_vote _ _ _) as [o a]. simpl in *. split; [by apply step_aggregator|].
  apply settled_intro; [done|]. intros made -> qc ->.
  destruct (Hqc qc eq_refl) as (Hver & Hin & _ & Hview). split; [|by right; apply qc_verify_Ok].
  apply (aggregated_qc_ok (cs_authorities (w_state w))); [done..|by rewrite Hview].
Qed.

Lemma cs_add_timeout_spec t w :
  timeout_ok t → timeout_verify t (cs_authorities (w_state w)) = Ok () →
  spec D 0 (on_state (cs_add_timeout t)) (λ made _, option_ok tc_ok made) w.
Proof.
  intros Hok Hv Hw _ _. unfold wp, on_state, zoom, cs_add_timeout.
  pose proof (authorities_small _ Hw) as Hlen. pose proof (wi_small _ Hw) as Hsmall.
  pose proof (add_timeout_ok _ _ _ Hlen (wi_aggregator _ Hw) Hv) as Ha.
  pose proof (λ tc, aggregated_tc_ok _ _ _ tc Hsmall (wi_aggregator _ Hw) Hok Hv) as Htc.
  pose proof (add_timeout_settles (cs_aggregator (w_state w)) t (cs_authorities (w_state w))) as Ho.
  destruct (add_timeout _ _ _) as [o a]. simpl in *. split; [by apply step_aggregator|].
  apply settled_intro; [done|]. intros made ->. destruct made as [tc|]; [|done]. by apply Htc.
Qed.

Lemma propose_spec k handle_proposal payload tc w :
  0 <= k → payload_ok payload → option_ok tc_ok tc →
  (∀ p w', step_ok 0 w w' → proposal_ok p → proposal_view p = cs_view (w_state w) →
           proposal_payload p = payload → w_client w' = w_client w → pending w' = pending w →
           spec D k (handle_proposal p) any w') →
  spec D k (propose handle_proposal payload tc) any w.
Proof.
  intros Hk Hpl Htc Hp. apply spec_inv. intros Hw Hmax. unfold propose.
  apply spec_read, spec_lift_bind. apply settled_intro.
  { unfold make_proposal. settle. }
  intros p Hmp.
  unfold make_proposal in Hmp. apply outcome_bind_Ok in Hmp as (id & _ & Hmp).
  apply outcome_bind_Ok in Hmp as (sig & _ & [= <-]).
  match goal with |- context [CM_Propose ?p] => assert (proposal_ok p) as Hpok end.
  { pose proof (wi_view _ Hw). destruct (wi_high_qc _ Hw) as [Hq _].
    split; [done|]. split; [done|]. split; [done|]. unfold u64_ok, u64_max in *. simpl. lia. }
  eapply (spec_bind D 0 k _ _ _ (λ _ w', w_client w' = w_client w ∧ pending w' = pending w)); [lia..| |].
  { apply spec_modify; [|done]. apply step_log; [done|]. split; [done|]. by eexists (CM_Propose _). }
  intros _ w1 Hs1 [Hc1 Hp1]. by apply Hp.
Qed.

Lemma third_empty_two q :
  third_empty empty_payload_hash 0
    (rev (q ++ [empty_payload_hash; empty_payload_hash])) = true.
Proof. rewrite rev_app_distr. simpl. by rewrite !bool_decide_eq_true_2. Qed.

(** How the proposal [p] a leader makes in [w'], on a QC it formed from [w],
    depends on the block in process and on the history in [w]. *)
Record follows w w' (p : Proposal) : Prop := {
  fo_finalized : finalized_number w <= finalized_number w';
  fo_number b : w_processing_block w = Some b →
    bi_number b <= Z.max (block_number (proposal_payload p)) (finalized_number w');
  fo_block b : w_processing_block w = Some b →
    block_hash (proposal_payload p) ≠ empty_payload_hash →
    bi_number b <= finalized_number w' < block_number (proposal_payload p) ∧
    block_number (proposal_payload p) ∈ bi_number <$> mutex_data (w_pending_queue w);
  fo_empty q : block_hash (proposal_payload p) = empty_payload_hash →
    w_proposal_hash_queue w ≠ q ++ [empty_payload_hash; empty_payload_hash];
  fo_history : ∃ q, w_proposal_hash_queue w' = q ++ [block_hash (proposal_payload p)];
}.

Lemma follows_pending w1 w w' p :
  pending w1 = pending w → w_pending_queue w = w_pending_queue w1 →
  finalized_number w <= finalized_number w1 → follows w1 w' p → follows w w' p.
Proof.
  intros [= Hb Hq] Hqueue Hfin []. split; rewrite ?Hqueue, <- ?Hb, <- ?Hq; try done. lia.
Qed.

Lemma propose_next_spec k handle_proposal w :
  0 <= k →
  (∀ p w', step_ok 0 w w' → proposal_ok p → proposal_view p = cs_view (w_state w) →
           follows w w' p → spec D k (handle_proposal p) any w') →
  spec D k (propose_next handle_proposal) any w.
Proof.
  intros Hk Hp. unfold propose_next.
  eapply (spec_bind D 0 k); [lia..|apply get_proposal_payload_spec|].
  intros [payload|] w1 Hs1 Hok; [|by apply spec_ret].
  destruct Hok as ([Hok Hsucc] & Hc1 & Hq1).
  apply spec_read_all. destruct (third_empty _ _ _) eqn:Ethird; [by apply spec_ret|].
  eapply (spec_bind D 0 k _ _ _ (λ _ w2, w_client w2 = w_client w1)); [lia..| |].
  { apply spec_modify; [|by case_match]. intros Hw. case_match; [by apply step_hash_queue|].
    by apply step_ok_refl. }
  intros _ w2 Hs2 Hc2.
  eapply (spec_bind D 0 k _ _ _ (λ _ w3, w_client w3 = w_client w2 ∧
    ∃ q, w_proposal_hash_queue w3 = q ++ [block_hash payload])); [lia..| |].
  { apply spec_modify; [apply step_hash_queue|]. eauto. }
  intros _ w3 Hs3 [Hc3 [q Hq3]].
  pose proof (step_ok_trans _ _ _ _ _ Hs1 (step_ok_trans _ _ _ _ _ Hs2 Hs3)) as Hs.
  apply propose_spec; [done..|]. intros p w4 Hs4 Hpok Hview Hpl Hc4 Hpend.
  assert (finalized_number w4 = finalized_number w) as Hfin by (unfold finalized_number; congruence).
  apply Hp; [by apply (step_ok_trans _ _ _ _ _ Hs Hs4)|done| |].
  - pose proof (so_view _ _ _ Hs). lia.
  - split; rewrite ?Hfin, ?Hpl; [lia| | | |].
    + intros b Hb. by apply Hsucc.
    + intros b Hb. by apply Hsucc.
    + intros q' Hm Hq'. rewrite Hq1, Hq', Hm, third_empty_two in Ethird. done.
    + exists q. injection Hpend as _ ->. done.
Qed.

Lemma handle_vote_with_spec k handle_proposal v w :
  0 <= k → vote_ok v →
  (∀ p id w', step_ok 1 w w' → proposal_ok p → local_authority_id (w_state w) = Some id →
     view_leader (w_state w) (proposal_view p) = Ok id → follows w w' p →
     spec D k (handle_proposal p) any w') →
  spec D (1 + k) (handle_vote_with handle_proposal v) any w.
Proof.
  intros Hk Hv Hp. unfold handle_vote_with. apply spec_read, spec_lift_bind.
  apply settled_intro.
  { unfold verify_vote. settle. }
  intros [] Hver. unfold verify_vote in Hver. case_match; [done|].
  eapply (spec_bind_keeps D 0 (1 + k)); [keeps|lia..|by apply cs_add_vote_spec|].
  intros [qc|] w1 Hs1 Hp1 Hqc; [|by apply spec_ret].
  destruct (Hqc qc eq_refl) as [Hqok Hacc].
  eapply (spec_bind_keeps D 1 k); [keeps|lia..|by apply handle_qc_spec|]. intros _ w2 Hs2 Hp2 _.
  apply spec_inv. intros Hw2 Hmax.
  apply spec_read_all, spec_lift_bind. apply view_leader_settled; [done|]. intros id Hle.
  pose proof (step_ok_trans _ _ _ _ _ Hs1 Hs2) as Hs12.
  unfold is_local. destruct (local_authority_id (w_state w2)) as [local|] eqn:Hl;
    [|by apply spec_ret]. case_bool_decide; [|by apply spec_ret]. subst.
  rewrite (step_ok_leader _ _ _ _ Hs12) in Hle. rewrite (step_ok_local _ _ _ Hs12) in Hl.
  apply propose_next_spec; [done|]. intros p w3 Hs3 Hpok Hview Hf.
  apply (Hp p id); [by apply (step_ok_trans _ _ _ _ _ Hs12 Hs3)|done|done|by rewrite Hview|].
  apply (follows_pending w2); [congruence|symmetry; apply Hs12|apply Hs12|done].
Qed.
End parts.

(** ** Specifications of the handlers *)
Section handlers.
Context `{Platform} {CL : Client} `{!PlatformLaws} `{!ClientLaws}.
Context (D : Prop).
Implicit Types (w : Worker).
Abbreviation any := (λ _ _, True) (only parsing).

(** [handle_proposal] with [fuel] handles the node's own proposals, in every
    worker with the configuration of [w]. *)
Definition handles_own (k : Z) (fuel : nat) w : Prop :=
  ∀ p id w', cs_authorities (w_state w') = cs_authorities (w_state w) →
    cs_keystore (w_state w') = cs_keystore (w_state w) →
    w_pending_queue w' = w_pending_queue w →
    proposal_ok p → local_authority_id (w_state w') = Some id →
    view_leader (w_state w') (proposal_view p) = Ok id →
    spec D k (handle_proposal fuel p) any w'.

Lemma handles_own_step k j fuel w w' :
  step_ok j w w' → handles_own k fuel w → handles_own k fuel w'.
Proof.
  intros Hs Ho p id w'' Ha Hk Hq. apply Ho.
  - by rewrite Ha, (so_authorities _ _ _ Hs).
  - by rewrite Hk, (so_keystore _ _ _ Hs).
  - by rewrite Hq, (so_queue _ _ _ Hs).
Qed.

Lemma is_leader_settled w (Q : bool → Worker → Prop) :
  winv w →
  (∀ id, local_authority_id (w_state w) = Some id →
         view_leader (w_state w) (cs_view (w_state w)) = Ok id → Q true w) →
  Q false w → settled D Q (is_leader (w_state w)) w.
Proof.
  intros Hw Ht Hf. rewrite is_leader_view_leader.
  destruct (view_leader_lookup (w_state w) (cs_view (w_state w))) as (id & Hl & _); [apply Hw|].
  rewrite Hl. simpl. case_bool_decide; [by apply (Ht id)|done].
Qed.

Lemma generate_proposal_spec k fuel tc id w :
  0 <= k → handles_own k fuel w → option_ok tc_ok tc →
  local_authority_id (w_state w) = Some id →
  view_leader (w_state w) (cs_view (w_state w)) = Ok id →
  spec D k (generate_proposal fuel tc) any w.
Proof.
  intros Hk Ho Htc Hl Hle. unfold generate_proposal.
  eapply (spec_bind D 0 k); [lia..|apply get_proposal_payload_spec|].
  intros [payload|] w1 Hs1 Hok; [|by apply spec_ret]. destruct Hok as [[Hok _] _].
  apply propose_spec; [done..|]. intros p w2 Hs2 Hp Hview _ _ _.
  pose proof (step_ok_trans _ _ _ _ _ Hs1 Hs2) as Hs.
  pose proof (so_view _ _ _ Hs1).
  apply (Ho p id); [apply Hs..|done| |].
  - by rewrite (step_ok_local _ _ _ Hs).
  - rewrite (step_ok_leader _ _ _ _ Hs). rewrite <- Hle. f_equal. lia.
Qed.

(** The end of [handle_timeout] and [handle_tc]. *)
Lemma lead_spec k fuel (clear : bool) tc w :
  0 <= k → handles_own k fuel w → option_ok tc_ok tc →
  spec D k (
    s ← gets w_state;
    leader ← lift (is_leader s);
    if leader : bool then
      modify (λ w, if clear then set_processing None w else w);; generate_proposal fuel tc
    else mret ()) any w.
Proof.
  intros Hk Ho Htc. apply spec_inv. intros Hw Hmax. apply spec_read, spec_lift_bind.
  apply is_leader_settled; [done| |by apply spec_ret]. intros id Hl Hle.
  eapply (spec_seq D 0 k); [lia..| |].
  { apply spec_modify; [|done]. intros _. destruct clear; [by apply step_processing|].
    by apply step_ok_refl. }
  intros _ w1 Hs1. pose proof (so_view _ _ _ Hs1).
  apply (generate_proposal_spec _ _ _ id); [done|by eapply handles_own_step|done| |].
  - by rewrite (step_ok_local _ _ _ Hs1).
  - rewrite (step_ok_leader _ _ _ _ Hs1), <- Hle. f_equal. lia.
Qed.

Lemma handle_timeout_spec k fuel t w :
  0 <= k → handles_own k fuel w → timeout_ok t →
  spec D (2 + k) (handle_timeout fuel t) any w.
Proof.
  intros Hk Ho Ht. unfold handle_timeout. apply spec_read.
  case_match; [by apply spec_ret|]. apply spec_lift_bind.
  apply settled_intro; [apply signed_message_settles|]. intros [] Hver.
  pose proof Hver as [_ Hacc]%timeout_verify_Ok.
  eapply (spec_seq D 1 (1 + k)); [lia..|by apply handle_qc_spec; [apply Ht|]|]. intros _ w1 Hs1.
  eapply (spec_bind D 0 (1 + k)); [lia..|apply cs_add_timeout_spec; [done|]|].
  { by rewrite (so_authorities _ _ _ Hs1). }
  intros [tc|] w2 Hs2 Htc; [|by apply spec_ret]. simpl in Htc.
  apply spec_read. eapply (spec_seq D 1 k); [lia..| |].
  { rewrite Z.geb_leb. destruct (Z.leb_spec (cs_view (w_state w2)) (tc_view tc));
      [|by apply spec_ret].
    eapply (spec_seq D 1 0); [lia..|by apply advance_view_spec|intros; by apply emit_spec]. }
  intros _ w3 Hs3. eapply (spec_seq D 0 k); [lia..|by apply gossip_spec|]. intros _ w4 Hs4.
  apply (lead_spec k fuel true (Some tc)); [done| |done].
  eapply handles_own_step; [exact (step_ok_trans _ _ _ _ _ Hs3 Hs4)|].
  eapply handles_own_step; [exact (step_ok_trans _ _ _ _ _ Hs1 Hs2)|done].
Qed.

Lemma handle_tc_spec k fuel tc w :
  0 <= k → handles_own k fuel w → spec D (1 + k) (handle_tc fuel tc) any w.
Proof.
  intros Hk Ho. unfold handle_tc. apply spec_read, spec_lift_bind. apply settled_intro.
  { unfold verify_tc. settle. }
  intros [] Hver. unfold verify_tc in Hver.
  destruct (Z.ltb_spec (tc_view tc) (cs_view (w_state w))); [done|].
  eapply (spec_seq D 1 k); [lia..|by apply advance_view_spec|]. intros _ w1 Hs1.
  eapply (spec_seq D 0 k); [lia..|by apply emit_spec|]. intros _ w2 Hs2.
  eapply (spec_seq D 0 k); [lia..|by apply processing_spec|]. intros _ w3 Hs3.
  apply (lead_spec k fuel false None); [done| |done].
  eapply handles_own_step; [exact Hs3|].
  by eapply handles_own_step; [exact (step_ok_trans _ _ _ _ _ Hs1 Hs2)|].
Qed.

Lemma handle_local_timer_spec k fuel w :
  0 <= k → handles_own k fuel w → spec D (2 + k) (handle_local_timer fuel) any w.
Proof.
  intros Hk Ho. unfold handle_local_timer.
  eapply (spec_seq D 0 (2 + k)); [lia..|by apply emit_spec|]. intros _ w1 Hs1.
  eapply (spec_seq D 0 (2 + k)); [lia..| |].
  { apply spec_modify; [|done]. intros Hw1. pose proof (wi_view _ Hw1).
    apply step_last_voted; [|done]. lia. }
  intros _ w2 Hs2. apply spec_inv. intros Hw2 Hmax. apply spec_read, spec_lift_bind.
  apply settled_intro.
  { unfold make_timeout. settle. }
  intros t Hmt. unfold make_timeout in Hmt. apply outcome_bind_Ok in Hmt as (id & _ & Hmt).
  apply outcome_bind_Ok in Hmt as (sig & _ & [= <-]).
  match goal with |- context [CM_Timeout ?t] => assert (timeout_ok t) as Htok end.
  { pose proof (wi_view _ Hw2). destruct (wi_high_qc _ Hw2) as [Hq _].
    split; [done|]. unfold u64_ok, u64_max in *. simpl. lia. }
  eapply (spec_seq D 0 (2 + k)); [lia..|by apply gossip_spec|]. intros _ w3 Hs3.
  apply handle_timeout_spec; [done| |done].
  eapply handles_own_step; [exact Hs3|].
  by eapply handles_own_step; [exact (step_ok_trans _ _ _ _ _ Hs1 Hs2)|].
Qed.

(** Events whose message came off the wire. *)
Definition event_ok (e : Event) : Prop :=
  match e with TimerFired => True | Received m => message_ok m end.

Lemma run_handler_spec k fuel e w :
  0 <= k → handles_own k fuel w → event_ok e →
  (∀ p, proposal_ok p → spec D (3 + k) (handle_proposal fuel p) any w) →
  spec D (3 + k) (run_handler fuel e) any w.
Proof.
  intros Hk Ho He Hp.
  assert (∀ j (m : Comp Worker HotstuffError unit), 0 <= j <= 3 → spec D (j + k) m any w → spec D (3 + k) m any w) as Hweak.
  { intros j m Hj Hm. eapply (spec_mono D (j + k)); [lia|exact Hm|done]. }
  destruct e as [|[p|v|t|tc|h id|]]; simpl in *; try by apply spec_ret.
  - apply (Hweak 2); [lia|]. by apply handle_local_timer_spec.
  - by apply Hp.
  - apply (Hweak 1); [lia|]. apply handle_vote_with_spec; [done..|].
    intros p id w' Hs Hpok Hl Hle _. apply (Ho p id); [apply Hs..|done| |].
    + by rewrite (step_ok_local _ _ _ Hs).
    + by rewrite (step_ok_leader _ _ _ _ Hs).
  - apply (Hweak 2); [lia|]. by apply handle_timeout_spec.
  - apply (Hweak 1); [lia|]. by apply handle_tc_spec.
Qed.

Lemma run_once_spec k fuel e w :
  0 <= k → spec D k (run_handler fuel e) any w → spec D k (run_once fuel e) any w.
Proof.
  intros Hk Hr. apply (spec_seq D k 0); [lia..|by apply (spec_catch D k _ any)|].
  intros. by apply spec_ret.
Qed.

(** *** Two or more authorities: two nested calls are enough *)

Definition committee w : Prop :=
  NoDup (cs_authorities (w_state w)).*1 ∧ (2 ≤ length (cs_authorities (w_state w)))%nat.

Lemma committee_handles_own fuel w : committee w → handles_own 3 (S fuel) w.
Proof.
  intros [Hnd Hlen] p id w' Ha _ _ Hp Hl Hle.
  apply (handle_own_proposal_spec D _ p id); by rewrite ?Ha.
Qed.

Lemma committee_handle_proposal fuel p w :
  committee w → proposal_ok p → spec D 6 (handle_proposal (S (S fuel)) p) any w.
Proof.
  intros Hc Hp. apply (handle_proposal_with_spec D 4); [lia|done|]. intros w' Hs _ Ha Hview.
  apply vote_proposal_spec; [lia|done..|]. intros v _ w'' Hs' Hv _ _ _ _.
  apply (handle_vote_with_spec D 3); [lia|done|]. intros q id w3 Hs3 Hq Hl Hle _.
  pose proof (step_ok_trans _ _ _ _ _ Hs (step_ok_trans _ _ _ _ _ Hs' Hs3)) as Hs03.
  apply (committee_handles_own fuel w Hc q id); [apply Hs03..|done| |].
  - by rewrite (step_ok_local _ _ _ Hs3).
  - by rewrite (step_ok_leader _ _ _ _ Hs3).
Qed.

Lemma committee_run_once fuel e w :
  committee w → event_ok e → spec D 6 (run_once (S (S fuel)) e) any w.
Proof.
  intros Hc He. apply run_once_spec; [lia|]. apply (run_handler_spec 3); [lia| |done|].
  - by apply committee_handles_own.
  - intros. by apply committee_handle_proposal.
Qed.

(** *** Any number of authorities, when running out of fuel is allowed *)

Lemma fuelled_handle_proposal (fuel : nat) p w :
  D → proposal_ok p → spec D (3 * Z.of_nat fuel) (handle_proposal fuel p) any w.
Proof.
  intros HD. revert p w. induction fuel as [|fuel IH]; intros p w Hp; simpl handle_proposal.
  { by apply spec_lift. }
  replace (3 * Z.of_nat (S fuel)) with (2 + (1 + 3 * Z.of_nat fuel)) by lia.
  apply handle_proposal_with_spec; [lia|done|]. intros w' Hs _ Ha Hview.
  apply vote_proposal_spec; [lia|done..|]. intros v _ w'' Hs' Hv _ _ _ _.
  apply handle_vote_with_spec; [lia|done|]. intros. by apply IH.
Qed.

Lemma fuelled_run_once (fuel : nat) e w :
  D → event_ok e → spec D (3 + 3 * Z.of_nat fuel) (run_once fuel e) any w.
Proof.
  intros HD He. apply run_once_spec; [lia|]. apply run_handler_spec; [lia| |done|].
  - intros p id w' _ _ _ Hp _ _. by apply fuelled_handle_proposal.
  - intros p Hp. eapply (spec_mono D); [|by apply fuelled_handle_proposal|done]. lia.
Qed.

(** *** Any number of authorities: the pending queue bounds the nested calls

    A lone authority leads every view, so each vote it makes can lead to the
    next proposal.  It stops because an empty proposal is never followed by
    another one, and a block of the queue only by one further up. *)

(** The queued blocks above [x]. *)
Definition above (x : Z) w : nat :=
  length (filter (λ n, x < n) (bi_number <$> mutex_data (w_pending_queue w))).

Lemma above_bound x w : (above x w ≤ length (mutex_data (w_pending_queue w)))%nat.
Proof. unfold above. rewrite length_filter, length_fmap. done. Qed.

Lemma filter_gt_mono (x y : Z) (l : list Z) :
  x <= y → (length (filter (λ n : Z, (y < n)%Z) l) ≤ length (filter (λ n : Z, (x < n)%Z) l))%nat.
Proof.
  intros. induction l as [|m l IH]; [done|]. rewrite !filter_cons. repeat case_decide; simpl; lia.
Qed.

Lemma above_mono x y w : x <= y → (above y w ≤ above x w)%nat.
Proof. apply filter_gt_mono. Qed.

Lemma above_lt x y n w :
  x < n <= y → n ∈ bi_number <$> mutex_data (w_pending_queue w) → (above y w < above x w)%nat.
Proof.
  intros Hn (l1 & l2 & Hl)%list_elem_of_split. unfold above. rewrite Hl, !filter_app, !filter_cons.
  rewrite decide_False, decide_True by lia. rewrite !length_app. simpl.
  pose proof (filter_gt_mono x y l1). pose proof (filter_gt_mono x y l2). lia.
Qed.

(** How many proposals can still follow the leader's own proposal [p]. *)
Definition proposal_rank w (p : Proposal) : nat :=
  let n := block_number (proposal_payload p) in
  if bool_decide (block_hash (proposal_payload p) = empty_payload_hash)
  then 2 * above (Z.max n (finalized_number w)) w + 1
  else 2 * above (finalized_number w) w.

(** The leader's own proposal, as [handle_vote] makes it. *)
Definition own_proposal w (p : Proposal) : Prop :=
  (∃ q, w_proposal_hash_queue w = q ++ [block_hash (proposal_payload p)]) ∧
  (block_hash (proposal_payload p) ≠ empty_payload_hash →
     finalized_number w < block_number (proposal_payload p) ∧
     block_number (proposal_payload p) ∈ bi_number <$> mutex_data (w_pending_queue w)).

Lemma proposal_rank_bound w p :
  (proposal_rank w p ≤ 2 * length (mutex_data (w_pending_queue w)) + 1)%nat.
Proof.
  unfold proposal_rank. case_bool_decide; pose proof (λ x, above_bound x w) as Hb.
  - specialize (Hb (Z.max (block_number (proposal_payload p)) (finalized_number w))). lia.
  - specialize (Hb (finalized_number w)). lia.
Qed.

(** The proposal that follows a voted one is an own proposal. *)
Lemma follows_own k p q w1 w2 w3 :
  step_ok k w2 w3 → pending w2 = after_vote p w1 → follows w2 w3 q → own_proposal w3 q.
Proof.
  intros Hs [= Hb _] []. split; [done|]. intros Hne. rewrite (so_queue _ _ _ Hs).
  destruct (fo_block0 _ Hb Hne) as [[_ ?] ?]. done.
Qed.

(** The rank decreases from an own proposal to the one that follows it. *)
Lemma proposal_rank_decreases k p q w w1 w2 w3 :
  own_proposal w p → step_ok k w w3 → finalized_number w <= finalized_number w2 →
  pending w1 = pending w → pending w2 = after_vote p w1 →
  w_pending_queue w2 = w_pending_queue w → follows w2 w3 q →
  (proposal_rank w3 q < proposal_rank w p)%nat.
Proof.
  intros [[hs Hhs] Hown] Hs Hfin [= _ Hq1] [= Hb Hq2] Hqueue [Hfin' Hnum Hblock Hempty _].
  specialize (Hnum _ Hb). specialize (Hblock _ Hb). simpl in Hnum, Hblock.
  rewrite Hq1, Hhs, <- app_assoc in Hq2.
  assert (∀ x, above x w3 = above x w) as Habove.
  { intros x. unfold above. by rewrite (so_queue _ _ _ Hs). }
  unfold proposal_rank. rewrite !Habove.
  set (h := block_hash (proposal_payload p)) in *. set (n := block_number (proposal_payload p)) in *.
  set (h' := block_hash (proposal_payload q)) in *. set (n' := block_number (proposal_payload q)) in *.
  destruct (bool_decide_reflect (h' = empty_payload_hash)) as [He'|Hne'].
  - rewrite bool_decide_eq_false_2.
    2: { intros He. apply (Hempty hs He'). by rewrite Hq2, He. }
    destruct Hown as [Hlt Hin].
    { intros He. apply (Hempty hs He'). by rewrite Hq2, He. }
    pose proof (above_lt (finalized_number w) (Z.max n' (finalized_number w3)) n w) as Hl.
    specialize (Hl ltac:(lia) Hin). lia.
  - destruct (Hblock Hne') as [[Hle Hlt'] _].
    destruct (bool_decide_reflect (h = empty_payload_hash)) as [He|Hne].
    + pose proof (above_mono (Z.max n (finalized_number w)) (finalized_number w3) w ltac:(lia)). lia.
    + destruct (Hown Hne) as [Hlt Hin].
      pose proof (above_lt (finalized_number w) (finalized_number w3) n w ltac:(lia) Hin). lia.
Qed.

(** With more fuel than its rank, the own proposal is handled to the end. *)
Lemma own_handle_proposal (fuel : nat) p w :
  proposal_ok p → own_proposal w p → (proposal_rank w p < fuel)%nat →
  spec D (3 * Z.of_nat fuel) (handle_proposal fuel p) any w.
Proof.
  revert p w. induction fuel as [|fuel IH]; intros p w Hp Hown Hfuel; [lia|]. simpl handle_proposal.
  replace (3 * Z.of_nat (S fuel)) with (2 + (1 + 3 * Z.of_nat fuel)) by lia.
  apply handle_proposal_with_spec; [lia|done|]. intros w1 Hs1 Hp1 Ha Hview.
  apply vote_proposal_spec; [lia|done..|]. intros v _ w2 Hs2 Hv _ _ _ Hp2.
  apply handle_vote_with_spec; [lia|done|]. intros q id w3 Hs3 Hq _ _ Hf.
  pose proof (step_ok_trans _ _ _ _ _ Hs1 Hs2) as Hs12.
  apply IH; [done|by eapply follows_own|].
  pose proof (proposal_rank_decreases _ p q w w1 w2 w3 Hown (step_ok_trans _ _ _ _ _ Hs12 Hs3)
    (so_finalized _ _ _ Hs12) Hp1 Hp2 (so_queue _ _ _ Hs12) Hf). lia.
Qed.

(** The calls that the pending queue of [w] allows. *)
Definition enough (fuel : nat) w : Prop :=
  (2 * length (mutex_data (w_pending_queue w)) + 3 ≤ fuel)%nat.

Lemma enough_handle_proposal (fuel : nat) p w :
  proposal_ok p → enough fuel w → spec D (3 * Z.of_nat fuel) (handle_proposal fuel p) any w.
Proof.
  intros Hp Hfuel. destruct fuel as [|fuel]; [unfold enough in Hfuel; lia|]. simpl handle_proposal.
  replace (3 * Z.of_nat (S fuel)) with (2 + (1 + 3 * Z.of_nat fuel)) by lia.
  apply handle_proposal_with_spec; [lia|done|]. intros w1 Hs1 Hp1 Ha Hview.
  apply vote_proposal_spec; [lia|done..|]. intros v _ w2 Hs2 Hv _ _ _ Hp2.
  apply handle_vote_with_spec; [lia|done|]. intros q id w3 Hs3 Hq _ _ Hf.
  apply own_handle_proposal; [done|by eapply follows_own|].
  pose proof (step_ok_trans _ _ _ _ _ (step_ok_trans _ _ _ _ _ Hs1 Hs2) Hs3) as Hs13.
  pose proof (proposal_rank_bound w3 q). rewrite (so_queue _ _ _ Hs13) in *.
  unfold enough in Hfuel. lia.
Qed.

Lemma enough_run_handler (fuel : nat) e w :
  enough fuel w → event_ok e → spec D (3 + 3 * Z.of_nat fuel) (run_handler fuel e) any w.
Proof.
  intros Hfuel He. apply run_handler_spec; [lia| |done|].
  - intros p id w' _ _ Hq Hp _ _. apply enough_handle_proposal; [done|].
    unfold enough. by rewrite Hq.
  - intros p Hp. eapply (spec_mono D); [|by apply enough_handle_proposal|done]. lia.
Qed.
End handlers.

(** ** Fuel does not change results

    A command with more fuel extends one with less: it agrees wherever the
    latter does not run out. *)
Section fuel.
Context `{Platform} {CL : Client}.
Implicit Types (w : Worker).

Definition extends {A} (m m' : Comp Worker HotstuffError A) : Prop :=
  ∀ w, (m w).1 ≠ Diverge → m' w = m w.

Lemma extends_refl {A} (m : Comp Worker HotstuffError A) : extends m m.
Proof. done. Qed.
Lemma extends_trans {A} (m m' m'' : Comp Worker HotstuffError A) :
  extends m m' → extends m' m'' → extends m m''.
Proof. intros H1 H2 w Hw. rewrite H2; rewrite H1; done. Qed.
Lemma extends_bind {A B} (m m' : Comp Worker HotstuffError A)
    (f f' : A → Comp Worker HotstuffError B) :
  extends m m' → (∀ a, extends (f a) (f' a)) → extends (m ≫= f) (m' ≫= f').
Proof.
  intros Hm Hf w. unfold mbind, comp_bind. specialize (Hm w).
  destruct (m w) as [[a| | |] w1]; simpl in *; intros Hw; try (by rewrite Hm by done).
  rewrite Hm by done. by apply Hf.
Qed.
Lemma extends_catch {A} (m m' : Comp Worker HotstuffError A) :
  extends m m' → extends (catch m) (catch m').
Proof.
  intros Hm w. unfold catch. specialize (Hm w).
  destruct (m w) as [[] w1]; simpl in *; intros Hw; by rewrite Hm by done.
Qed.
Lemma extends_diverge {A} (m : Comp Worker HotstuffError A) : extends diverge m.
Proof. intros w Hw. done. Qed.
End fuel.

Create HintDb worker_fuel.
#[export] Hint Resolve extends_refl extends_diverge : worker_fuel.

Ltac extends :=
  repeat first
    [ progress intros
    | solve [eauto with worker_fuel]
    | apply extends_catch
    | apply extends_bind
    | case_match ].

Section fuel_handlers.
Context `{Platform} {CL : Client}.
Implicit Types (w : Worker).

Lemma extends_propose hp hp' payload tc :
  (∀ p, extends (hp p) (hp' p)) → extends (propose hp payload tc) (propose hp' payload tc).
Proof. intros. unfold propose. extends. Qed.
#[local] Hint Resolve extends_propose : worker_fuel.

Lemma extends_handle_vote_with hp hp' v :
  (∀ p, extends (hp p) (hp' p)) → extends (handle_vote_with hp v) (handle_vote_with hp' v).
Proof. intros. unfold handle_vote_with, propose_next. extends. Qed.
#[local] Hint Resolve extends_handle_vote_with : worker_fuel.

Lemma extends_handle_proposal_with hv hv' p :
  (∀ v, extends (hv v) (hv' v)) → extends (handle_proposal_with hv p) (handle_proposal_with hv' p).
Proof. intros. unfold handle_proposal_with, vote_proposal. extends. Qed.

Lemma extends_handle_proposal (n m : nat) p :
  (n ≤ m)%nat → extends (handle_proposal n p) (handle_proposal m p).
Proof.
  revert m p. induction n as [|n IH]; intros m p Hle; simpl handle_proposal; [apply extends_diverge|].
  destruct m as [|m]; [lia|]. simpl handle_proposal.
  apply extends_handle_proposal_with. intros v. apply extends_handle_vote_with. intros q.
  apply IH. lia.
Qed.
#[local] Hint Resolve extends_handle_proposal : worker_fuel.

Lemma extends_generate_proposal (n m : nat) tc :
  (n ≤ m)%nat → extends (generate_proposal n tc) (generate_proposal m tc).
Proof. intros. unfold generate_proposal. extends. Qed.
#[local] Hint Resolve extends_generate_proposal : worker_fuel.

Lemma extends_handle_timeout (n m : nat) t :
  (n ≤ m)%nat → extends (handle_timeout n t) (handle_timeout m t).
Proof. intros. unfold handle_timeout. extends. Qed.
#[local] Hint Resolve extends_handle_timeout : worker_fuel.

Lemma extends_run_handler (n m : nat) e :
  (n ≤ m)%nat → extends (run_handler n e) (run_handler m e).
Proof.
  intros Hle. unfold run_handler, handle_local_timer, handle_vote, handle_tc.
  destruct e as [|[]]; extends.
Qed.
End fuel_handlers.
