(* ===== verification/WorkerSafety.v ===== *)
(** * Theorems about the voter

    A node as a state machine: it handles events from its channel and timer, the
    pending queue is polled and the client moves on by itself.  The theorems hold
    in every reachable state, by rule induction over [node_step] with the
    specifications of [WorkerFacts]. *)
From S2P Require Import Prelude Codec Primitives Reference Message Aggregator.
From S2P Require Import Synchronizer Network ConsensusState Import Worker WorkerFacts.
Local Open Scope Z_scope.
Local Open Scope machine_scope.

Section machine.
Context `{Platform} {CL : Client}.

Definition set_queue (q : Mutex (list BlockInfo)) (w : Worker) : Worker :=
  mkWorker (w_state w) (w_client w) (w_gossip w) (w_processing_block w) q
    (w_proposal_hash_queue w) (w_log w).

(** How far one event may move the view with [fuel] nested calls. *)
Definition room (fuel : nat) : Z := 3 + 3 * Z.of_nat fuel.

(** What happens around the worker between two events. *)
Inductive background (w : Worker) : Worker → Prop :=
(** [ConsensusNetwork::poll] polls the pending queue. *)
| BPoll debug imports finalities :
    Forall (λ n, u32_ok (in_number n)) imports →
    background w (set_queue
      (pending_queue_poll debug imports finalities (w_pending_queue w)).2 w)
(** The client imports and finalizes blocks; auxiliary data stays. *)
| BClient c :
    (∀ k, client_get_aux c k = client_get_aux (w_client w) k) →
    background w (set_client c w).

Inductive node_step (fuel : nat) (w : Worker) : Worker → Prop :=
(** [run] handles an event, while the view counter is not at its end. *)
| NEvent e :
    event_ok e → cs_view (w_state w) + room fuel <= u64_max →
    node_step fuel w (run_once fuel e w).2
| NBackground w' : background w w' → node_step fuel w w'.

(** A node as [start_hotstuff] builds it: with an empty queue, and a store that
    is empty or holds what an earlier run of the node has left, proposals that
    its authorities have signed. *)
Record initial (w : Worker) : Prop := {
  in_worker : ∃ ks authorities c,
    w = worker_new (consensus_state_new ks authorities) c (mkMutex false []);
  in_authorities : cs_authorities (w_state w) ≠ [] ∧
    Z.of_nat (length (cs_authorities (w_state w))) < 2 ^ 32;
  in_store : store_ok (w_state w) (w_client w);
}.

(** A node that has handled no event yet. *)
Definition idle (w : Worker) : Prop := ∃ w0, initial w0 ∧ rtc background w0 w.

Definition reachable (fuel : nat) (w : Worker) : Prop :=
  ∃ w0, initial w0 ∧ rtc (node_step fuel) w0 w.

Lemma initial_winv w : initial w → winv w.
Proof.
  intros [(ks & authorities & c & ->) [Hne Hlen] Hstore]. simpl in *.
  split; simpl; try done.
  - apply aggregator_new_ok.
  - split; [|by left]. split; [done|]. by split.
  - by split; constructor.
Qed.

Lemma background_steps fuel w w' : rtc background w w' → rtc (node_step fuel) w w'.
Proof. induction 1 as [|w w1 w' Hb _ IH]; [done|]. eapply rtc_l; [by apply NBackground|done]. Qed.

Lemma idle_reachable fuel w : idle w → reachable fuel w.
Proof. intros (w0 & Hi & Hb). exists w0. split; [done|]. by apply background_steps. Qed.

(** Before the first event only the queue and the client have changed. *)
Lemma idle_new w : idle w → ∃ ks authorities c q,
  w = set_queue q (worker_new (consensus_state_new ks authorities) c (mkMutex false [])).
Proof.
  intros (w0 & [(ks & au & c & ->) _ _] & Hb).
  cut (∃ c q, w = set_queue q (worker_new (consensus_state_new ks au) c (mkMutex false []))).
  { intros (c' & q & ->). by exists ks, au, c', q. }
  revert w Hb. apply rtc_ind_r; [by exists c, (mkMutex false [])|].
  intros w1 w2 _ Hs (c1 & q & ->). destruct Hs as [debug imports finalities|c' _].
  - by exists c1, (pending_queue_poll debug imports finalities q).2.
  - by exists c', q.
Qed.

(** The first poll fills the queue with the blocks that were imported. *)
Lemma idle_filled w imports :
  initial w → Forall (λ n, u32_ok (in_number n)) imports →
  idle (set_queue (mkMutex false (best_blocks imports)) w).
Proof.
  intros Hi Hu. exists w. split; [done|]. apply rtc_once.
  destruct (in_worker _ Hi) as (ks & au & c & ->).
  assert ((pending_queue_poll false imports [] (mkMutex false [])).2 = mkMutex false (best_blocks imports))
    as <-; [|exact (BPoll (worker_new _ c (mkMutex false [])) false imports [] Hu)].
  unfold pending_queue_poll, modify, mbind, comp_bind. simpl. by rewrite on_imports_push.
Qed.
End machine.

Section reachability.
Context `{Platform} {CL : Client} `{!PlatformLaws} `{!ClientLaws}.
Implicit Types (w : Worker).

Lemma poll_blocks_ok debug imports finalities q :
  Forall (λ n, u32_ok (in_number n)) imports →
  Forall (λ b, u32_ok (bi_number b)) (mutex_data q) →
  Forall (λ b, u32_ok (bi_number b))
    (mutex_data (pending_queue_poll debug imports finalities q).2).
Proof.
  intros Hi Hq. unfold pending_queue_poll, mbind, comp_bind, modify.
  assert (Forall (λ b, u32_ok (bi_number b)) (mutex_data (foldl on_import q imports))) as Hq'.
  { revert q Hq. induction Hi as [|n imports Hn _ IH]; intros q Hq; simpl; [done|].
    apply IH. unfold on_import, lock_ok. repeat case_match; simplify_eq; simpl; try done.
    apply Forall_app. split; [done|]. by apply Forall_singleton. }
  revert Hq'. generalize (foldl on_import q imports). clear.
  induction finalities as [|f fs IH]; intros q Hq; [done|].
  cbn [on_finalities]. unfold mbind, comp_bind, on_finality, lock_ok.
  destruct q as [[] data]; simpl in *; [by apply IH|].
  assert (Forall (λ b, u32_ok (bi_number b)) (pop_finalized debug (fn_number f) data).2) as Hd.
  { induction Hq as [|b data ? ? IHq]; simpl; [done|].
    repeat case_match; simpl; try done. by constructor. }
  destruct (pop_finalized debug (fn_number f) data) as [[] data']; simpl in *; try done.
  by apply IH.
Qed.

Lemma node_step_ok fuel w w' :
  winv w → node_step fuel w w' →
  winv w' ∧ cs_view (w_state w) <= cs_view (w_state w') <= cs_view (w_state w) + room fuel ∧
  cs_last_voted_view (w_state w) <= cs_last_voted_view (w_state w') ∧
  qc_view (cs_high_qc (w_state w)) <= qc_view (cs_high_qc (w_state w')) ∧
  cs_authorities (w_state w') = cs_authorities (w_state w) ∧
  cs_keystore (w_state w') = cs_keystore (w_state w) ∧
  w_log w `prefix_of` w_log w'.
Proof.
  intros Hw [e He Hmax|w1 [debug imports finalities Hi|c Hc]]; unfold room in *.
  - destruct (fuelled_run_once True fuel e w I He Hw) as [Hs _]; [lia|lia|].
    destruct Hs. split_and!; try done; lia.
  - pose proof Hw as []. split_and!; simpl; try done; try lia.
    split; simpl; try done. destruct wi_blocks as [Hq Hp].
    split; [|done]. by apply poll_blocks_ok.
  - pose proof Hw as []. split_and!; simpl; try done; try lia.
    split; simpl; try done. intros h data. rewrite Hc. apply wi_store.
Qed.

Lemma steps_winv fuel w w' : winv w → rtc (node_step fuel) w w' → winv w'.
Proof.
  intros Hw Hr. induction Hr as [|w w1 w' Hs _ IH]; [done|]. apply IH.
  by apply (node_step_ok fuel w).
Qed.

Lemma steps_authorities fuel w w' :
  winv w → rtc (node_step fuel) w w' → cs_authorities (w_state w') = cs_authorities (w_state w).
Proof.
  intros Hw Hr. induction Hr as [|w w1 w' Hs _ IH]; [done|].
  destruct (node_step_ok fuel w w1 Hw Hs) as (Hw1 & _ & _ & _ & Ha & _).
  by rewrite (IH Hw1).
Qed.

Lemma steps_local fuel w w' :
  winv w → rtc (node_step fuel) w w' →
  local_authority_id (w_state w') = local_authority_id (w_state w).
Proof.
  intros Hw Hr. induction Hr as [|w w1 w' Hs _ IH]; [done|].
  destruct (node_step_ok fuel w w1 Hw Hs) as (Hw1 & _ & _ & _ & Ha & Hk & _).
  rewrite (IH Hw1). unfold local_authority_id. by rewrite Ha, Hk.
Qed.

(** Whether a store may be started on depends on the authorities only. *)
Lemma store_ok_congr s s' c :
  cs_authorities s' = cs_authorities s → store_ok s c → store_ok s' c.
Proof.
  intros Ha Hs h data Hd. destruct (Hs h data Hd) as (p & ? & ? & ? & Hp). exists p.
  split_and!; try done. unfold authentic in *. by rewrite (verify_proposal_congr s' s).
Qed.

Lemma reachable_winv fuel w : reachable fuel w → winv w.
Proof.
  intros (w0 & Hi & Hr). eapply steps_winv; [by apply initial_winv|done].
Qed.
End reachability.

(** ** The parts of [handle_proposal] before the store is written *)
Section prefix.
Context `{Platform} {CL : Client}.
Implicit Types (w : Worker).

(** What stays the same until the proposal is stored. *)
Record quiet w w' : Prop := {
  qu_client : w_client w' = w_client w;
  qu_votes : votes_of (w_log w') = votes_of (w_log w);
  qu_gossiped : gossiped_of (w_log w') = gossiped_of (w_log w);
  qu_pending : pending w' = pending w;
  qu_queue : w_pending_queue w' = w_pending_queue w;
  qu_aggregator : cs_aggregator (w_state w') = cs_aggregator (w_state w);
  qu_authorities : cs_authorities (w_state w') = cs_authorities (w_state w);
  qu_keystore : cs_keystore (w_state w') = cs_keystore (w_state w);
  qu_voted : cs_last_voted_view (w_state w') = cs_last_voted_view (w_state w);
}.

#[local] Instance quiet_refl : Reflexive quiet.
Proof. by split. Qed.
#[local] Instance quiet_trans : Transitive quiet.
Proof. intros w w' w'' [] []. split; congruence. Qed.

(** Effects that neither vote, finalize nor gossip. *)
Definition silent (e : Effect) : Prop :=
  match e with ETimerReset | ESyncFork _ _ => True | _ => False end.

Lemma quiet_log e w : silent e → quiet w (log_effect e w).
Proof.
  intros He. split; try done; simpl; rewrite ?votes_of_snoc, ?gossiped_of_snoc;
    by destruct e; rewrite ?app_nil_r.
Qed.

(** The view after a certificate for [target] has been handled. *)
Definition advanced (target view : ViewNumber) : ViewNumber :=
  if target =? view then view +₆₄ 1 else view.

Lemma advance_view_run target w :
  cs_view (w_state w) <= target →
  ∃ w', advance_view target w = (Ok (), w') ∧ quiet w w' ∧
    cs_view (w_state w') = advanced target (cs_view (w_state w)) ∧
    cs_high_qc (w_state w') = cs_high_qc (w_state w).
Proof.
  intros Hle. eexists. split; [reflexivity|]. unfold advance_view_from_target, advanced.
  rewrite Z.geb_leb.
  destruct (Z.leb_spec target (cs_view (w_state w))), (Z.eqb_spec target (cs_view (w_state w)));
    subst; try lia; (split; [by split|done]).
Qed.

Lemma handle_qc_run qc w :
  ∃ w', handle_qc qc w = (Ok (), w') ∧ quiet w w' ∧
    cs_view (w_state w') = advanced (qc_view qc) (cs_view (w_state w)) ∧
    qc_view (cs_high_qc (w_state w')) <= Z.max (qc_view (cs_high_qc (w_state w))) (qc_view qc) ∧
    (qc_view qc <= qc_view (cs_high_qc (w_state w)) →
     cs_high_qc (w_state w') = cs_high_qc (w_state w)) ∧
    (cs_high_qc (w_state w') = cs_high_qc (w_state w) ∨ cs_high_qc (w_state w') = qc).
Proof.
  unfold handle_qc, gets, mbind, comp_bind. rewrite Z.geb_leb.
  destruct (Z.leb_spec (cs_view (w_state w)) (qc_view qc)) as [Hle|Hlt].
  - destruct (advance_view_run (qc_view qc) w Hle) as (w1 & -> & Hq & Hv & Hh).
    eexists. split; [reflexivity|]. unfold update_high_qc. rewrite Hh.
    split; [etrans; [exact Hq|]; etrans; [|by apply quiet_log]; split; simpl; try done; by case_match|].
    simpl. split; [by case_match|]. rewrite Z.gtb_ltb.
    destruct (Z.ltb_spec (qc_view (cs_high_qc (w_state w))) (qc_view qc)); simpl; rewrite ?Hh;
      (split; [lia|]); (split; [|by auto]); [lia|done].
  - eexists. split; [reflexivity|]. split; [done|]. split; [|split; [lia|by auto]]. unfold advanced.
    destruct (Z.eqb_spec (qc_view qc) (cs_view (w_state w))); [lia|done].
Qed.

Lemma process_proposal_tc_run p w :
  ∃ w', process_proposal_tc p w = (Ok (), w') ∧ quiet w w' ∧
    cs_view (w_state w') = cs_view (w_state w) ∧
    cs_high_qc (w_state w') = cs_high_qc (w_state w).
Proof.
  unfold process_proposal_tc. destruct (proposal_tc p) as [tc|]; [|by exists w].
  unfold gets, mbind, comp_bind. rewrite Z.gtb_ltb.
  destruct (Z.ltb_spec (cs_view (w_state w)) (tc_view tc)) as [Hlt|]; [|by exists w].
  destruct (advance_view_run (tc_view tc) w) as (w1 & -> & Hq & Hv & Hh); [lia|].
  eexists. split; [reflexivity|]. split; [etrans; [exact Hq|by apply quiet_log]|].
  simpl. rewrite Hv. split; [|done]. unfold advanced.
  destruct (Z.eqb_spec (tc_view tc) (cs_view (w_state w))); [lia|done].
Qed.

(** The proposed block is empty or known to the client. *)
Definition payload_known w (p : Proposal) : Prop :=
  block_hash (proposal_payload p) = empty_payload_hash ∨
  client_status (w_client w) (block_hash (proposal_payload p)) = inr InChain.

(** The rest of [handle_proposal]: store, commit, vote. *)
Definition store_and_vote (handle_vote : Vote → Comp Worker HotstuffError unit) (p : Proposal) :
    Comp Worker HotstuffError unit :=
  on_client (save_proposal p);;
  try_commit p;;
  s ← gets w_state;
  if negb (proposal_view p =? cs_view s) then mret () else vote_proposal handle_vote p.

(** [handle_proposal] either stops early, having changed only the log, or
    handles the proposal's certificates and goes on to store it; it goes on
    when the proposal is authentic and its block known. *)
Lemma handle_proposal_prefix handle_vote p w :
  (∃ o w', handle_proposal_with handle_vote p w = (o, w') ∧ quiet w w' ∧
     w_state w' = w_state w ∧
     ¬ (authentic (w_state w) p ∧ payload_known w p)) ∨
  (∃ w', handle_proposal_with handle_vote p w = store_and_vote handle_vote p w' ∧ quiet w w' ∧
     cs_view (w_state w') = advanced (qc_view (proposal_qc p)) (cs_view (w_state w)) ∧
     qc_view (cs_high_qc (w_state w')) <=
       Z.max (qc_view (cs_high_qc (w_state w))) (qc_view (proposal_qc p)) ∧
     (cs_high_qc (w_state w') = cs_high_qc (w_state w) ∨
      cs_high_qc (w_state w') = proposal_qc p)).
Proof.
  assert ((∃ o w', check_payload p w = (o, w') ∧ quiet w w' ∧
     w_state w' = w_state w ∧ o ≠ Ok true ∧ ¬ payload_known w p) ∨
     check_payload p w = (Ok true, w)) as [(o & w' & Hc & Hq & Hv & Ho & Hn)|Hc].
  { unfold check_payload, payload_known, get, lift, mbind, comp_bind.
    case_bool_decide; simpl; [by right|].
    destruct (client_status _ _) as [e|[]]; simpl; [left|by right|left].
    - eexists _, w. split; [done|]. split; [done|]. split; [done|]. split; [done|]. naive_solver.
    - eexists _, _. split; [reflexivity|]. split; [by apply quiet_log|].
      split; [done|]. split; [done|]. naive_solver. }
  { left. exists (match o with Ok _ => Ok () | Err e => Err e | Panic m => Panic m | Diverge => Diverge end), w'.
    split; [|naive_solver]. unfold handle_proposal_with, mbind at 1, comp_bind at 1.
    rewrite Hc. by destruct o as [[]|e|m|]. }
  destruct (handle_qc_run (proposal_qc p) w) as (w1 & Eqc & Hq1 & Hv1 & Hh1 & _ & Hor).
  destruct (process_proposal_tc_run p w1) as (w2 & Etc & Hq2 & Hv2 & Hh2).
  assert (handle_proposal_with handle_vote p w =
    match verify_proposal (w_state w) p with
    | Ok _ => store_and_vote handle_vote p w2
    | Err e => (Err e, w) | Panic m => (Panic m, w) | Diverge => (Diverge, w)
    end) as ->.
  { unfold handle_proposal_with, mbind at 1, comp_bind at 1. rewrite Hc.
    unfold gets, lift, mbind, comp_bind. simpl.
    destruct (verify_proposal (w_state w) p); try done. by rewrite Eqc, Etc. }
  destruct (verify_proposal (w_state w) p) as [[]|e|m|] eqn:E;
    [right|left; eexists _, w; do 2 (split; [reflexivity|]); split; [done|];
           unfold authentic; intros [??]; congruence..].
  exists w2. split; [reflexivity|]. split; [by etrans|]. rewrite Hh2. split; [congruence|done].
Qed.

(** [try_commit] only calls the client and logs it. *)
Lemma try_commit_run p w :
  ∃ w', try_commit p w = (Ok (), w') ∧ votes_of (w_log w') = votes_of (w_log w) ∧
    w_state w' = w_state w ∧
    (∀ parent grandpa, get_proposal_ancestors (w_client w) p = Ok (parent, grandpa) →
       proposal_view parent = proposal_view grandpa +₆₄ 1 →
       block_hash (proposal_payload grandpa) ≠ empty_payload_hash →
       block_hash (proposal_payload grandpa) ≠ info_finalized_hash (client_info (w_client w)) →
       EFinalize (block_hash (proposal_payload grandpa)) ∈ w_log w' ∧
       w_client w' = (client_finalize_block (w_client w) (block_hash (proposal_payload grandpa))).2).
Proof.
  unfold try_commit, get, lift, catch, mbind, comp_bind.
  pose proof (get_proposal_ancestors_settles (w_client w) p) as Hset.
  destruct (get_proposal_ancestors (w_client w) p) as [[parent grandpa]|e|m|]; try done;
    [|by exists w].
  cbn -[u64_wrap empty_payload_hash]. unfold get, mbind, comp_bind.
  destruct (Z.eqb_spec (proposal_view parent) (proposal_view grandpa +₆₄ 1));
    [|exists w; naive_solver].
  case_bool_decide; simpl; [exists w; naive_solver|].
  case_bool_decide; simpl; [exists w; naive_solver|].
  unfold emit, modify, on_client, zoom, log_effect. simpl.
  destruct (client_finalize_block _ _) as [[e'|[]] c] eqn:E; simpl;
    (eexists; split; [reflexivity|]; simpl; rewrite votes_of_snoc, app_nil_r;
     do 2 (split; [done|]); intros ?? [= <- <-] _ _ _;
     split; [by apply elem_of_app; right; left|by rewrite E]).
Qed.

(** The worker after [try_commit]. *)
Definition committed p w : Worker :=
  match get_proposal_ancestors (w_client w) p with
  | Ok (parent, grandpa) =>
      let hash := block_hash (proposal_payload grandpa) in
      if (proposal_view parent =? proposal_view grandpa +₆₄ 1) &&
         (negb (bool_decide (hash = empty_payload_hash)) &&
          negb (bool_decide (hash = info_finalized_hash (client_info (w_client w)))))
      then set_client (client_finalize_block (w_client w) hash).2 (log_effect (EFinalize hash) w)
      else w
  | _ => w
  end.

Lemma try_commit_exact p w : try_commit p w = (Ok (), committed p w).
Proof.
  unfold try_commit, committed, get, lift, catch, mbind, comp_bind.
  pose proof (get_proposal_ancestors_settles (w_client w) p) as Hset.
  destruct (get_proposal_ancestors (w_client w) p) as [[parent grandpa]|e|m|]; try done.
  cbn -[u64_wrap empty_payload_hash]. unfold get, mbind, comp_bind.
  destruct (_ =? _); [|done]. simpl.
  case_bool_decide; simpl; [done|]. case_bool_decide; simpl; [done|].
  unfold emit, modify, on_client, zoom, log_effect. simpl.
  by destruct (client_finalize_block _ _) as [[e'|[]] c].
Qed.

Lemma store_and_vote_run handle_vote p w o c w' :
  save_proposal p (w_client w) = (o, c) → try_commit p (set_client c w) = (Ok (), w') →
  store_and_vote handle_vote p w =
  match o with
  | Ok _ => if proposal_view p =? cs_view (w_state w') then vote_proposal handle_vote p w'
            else (Ok (), w')
  | Err e => (Err e, set_client c w)
  | Panic m => (Panic m, set_client c w)
  | Diverge => (Diverge, set_client c w)
  end.
Proof.
  intros Hsave Hcommit. unfold store_and_vote, on_client, zoom, mbind, comp_bind.
  rewrite Hsave. destruct o; try done. rewrite Hcommit. unfold gets.
  by destruct (_ =? _).
Qed.
End prefix.

(** ** The log only grows *)
Section grows.
Context `{Platform} {CL : Client}.

Definition grows {A} (m : Comp Worker HotstuffError A) : Prop :=
  ∀ w, w_log w `prefix_of` w_log (m w).2.

Lemma grows_bind {A B} (m : Comp Worker HotstuffError A) (f : A → Comp Worker HotstuffError B) :
  grows m → (∀ a, grows (f a)) → grows (m ≫= f).
Proof.
  intros Hm Hf w. specialize (Hm w). unfold mbind, comp_bind.
  destruct (m w) as [[a| | |] w']; simpl in *; try done. etrans; [done|apply Hf].
Qed.
Lemma grows_ret {A} (a : A) : grows (mret a).
Proof. intros w. simpl. reflexivity. Qed.
Lemma grows_get : grows get.
Proof. intros w. simpl. reflexivity. Qed.
Lemma grows_gets {A} (f : Worker → A) : grows (gets f).
Proof. intros w. simpl. reflexivity. Qed.
Lemma grows_lift {A} (o : outcome HotstuffError A) : grows (lift o).
Proof. intros w. simpl. reflexivity. Qed.
Lemma grows_modify f : (∀ w, w_log w `prefix_of` w_log (f w)) → grows (modify f).
Proof. intros Hf w. apply Hf. Qed.
Lemma grows_emit e : grows (emit e).
Proof. intros w. by apply prefix_app_r. Qed.
Lemma grows_on_state {A} (f : ConsensusState → outcome HotstuffError A * ConsensusState) :
  grows (on_state f).
Proof. intros w. unfold on_state, zoom. by destruct (f _). Qed.
Lemma grows_on_client {A} (f : client → outcome HotstuffError A * client) : grows (on_client f).
Proof. intros w. unfold on_client, zoom. by destruct (f _). Qed.
Lemma grows_catch {A} (m : Comp Worker HotstuffError A) : grows m → grows (catch m).
Proof. intros Hm w. specialize (Hm w). unfold catch. by destruct (m w) as [[] ?]. Qed.
End grows.

Create HintDb worker_log.
#[export] Hint Resolve grows_ret grows_get grows_gets grows_lift grows_emit
  grows_on_state grows_on_client : worker_log.

(** Follow the shape of a handler. *)
Ltac grows_step :=
  lazymatch goal with
  | |- grows (_ ≫= _) => apply grows_bind; [|intros ?]
  | |- grows (catch _) => apply grows_catch
  | |- grows (modify _) => apply grows_modify; intros ?
  | |- grows (match _ with _ => _ end) => case_match
  | |- grows _ => solve [eauto with worker_log]
  | |- w_log _ `prefix_of` w_log (match _ with _ => _ end) => case_match
  | |- _ `prefix_of` _ => reflexivity
  end.
Ltac grows := repeat grows_step.

Section grows_handlers.
Context `{Platform} {CL : Client}.

Lemma grows_handle_qc qc : grows (handle_qc qc).
Proof. unfold handle_qc, advance_view. grows. Qed.
Lemma grows_get_proposal_payload : grows get_proposal_payload.
Proof. unfold get_proposal_payload. grows. Qed.
Lemma grows_try_commit p : grows (try_commit p).
Proof. unfold try_commit, commit_grandparent. grows. Qed.

Lemma grows_handle_proposal_with hv p : (∀ v, grows (hv v)) → grows (handle_proposal_with hv p).
Proof.
  intros Hv. unfold handle_proposal_with, check_payload, process_proposal_tc, advance_view,
    vote_proposal, gossip.
  pose proof grows_handle_qc. pose proof grows_try_commit. grows.
Qed.
Lemma grows_handle_vote_with hp v : (∀ p, grows (hp p)) → grows (handle_vote_with hp v).
Proof.
  intros Hp. unfold handle_vote_with, propose_next, propose, gossip.
  pose proof grows_handle_qc. pose proof grows_get_proposal_payload. grows.
Qed.
Lemma grows_handle_proposal fuel p : grows (handle_proposal fuel p).
Proof.
  revert p. induction fuel as [|fuel IH]; intros p; simpl; [apply grows_lift|].
  apply grows_handle_proposal_with. intros v. by apply grows_handle_vote_with.
Qed.
Lemma grows_vote_proposal fuel p :
  grows (vote_proposal (handle_vote_with (handle_proposal fuel)) p).
Proof.
  pose proof (λ v, grows_handle_vote_with _ v (grows_handle_proposal fuel)).
  unfold vote_proposal, gossip. grows.
Qed.
Lemma grows_generate_proposal fuel tc : grows (generate_proposal fuel tc).
Proof.
  pose proof grows_get_proposal_payload. pose proof (grows_handle_proposal fuel).
  unfold generate_proposal, propose, gossip. grows.
Qed.

Lemma grows_run_handler fuel e : grows (run_handler fuel e).
Proof.
  pose proof grows_handle_qc. pose proof (grows_handle_proposal fuel).
  pose proof (λ v, grows_handle_vote_with _ v (grows_handle_proposal fuel)) as Hvote.
  pose proof (grows_generate_proposal fuel) as Hgen.
  assert (∀ t, grows (handle_timeout fuel t)) as Htimeout.
  { intros t. unfold handle_timeout, advance_view, gossip. grows. }
  destruct e as [|[p|v|t|tc|h id|]]; simpl; auto;
    unfold handle_local_timer, handle_vote, handle_tc, advance_view, gossip; grows.
Qed.
End grows_handlers.

(** ** Running a list of events *)
Section run_events.
Context `{Platform} {CL : Client} `{!PlatformLaws} `{!ClientLaws}.

(** The worker after the loop of [run] has handled the events; the loop stops
    where a handler panics. *)
Definition run_events (fuel : nat) (es : list Event) (w : Worker) : Worker := (run fuel es w).2.

Lemma run_once_snd fuel e w : (run_once fuel e w).2 = (run_handler fuel e w).2.
Proof.
  unfold run_once, catch, mbind, comp_bind. by destruct (run_handler fuel e w) as [[] ?].
Qed.

(** The first event either stops the loop or hands its worker to the rest. *)
Lemma run_events_cons fuel e es w :
  let w' := (run_once fuel e w).2 in
  run_events fuel (e :: es) w = w' ∨ run_events fuel (e :: es) w = run_events fuel es w'.
Proof.
  unfold run_events. simpl. unfold mbind, comp_bind.
  destruct (run_once fuel e w) as [[] w'] eqn:E; simpl; auto.
Qed.

Lemma run_events_reachable fuel es w :
  reachable fuel w → Forall event_ok es →
  cs_view (w_state w) + room fuel * Z.of_nat (length es) <= u64_max →
  reachable fuel (run_events fuel es w).
Proof.
  intros Hr Hes. revert w Hr. induction Hes as [|e es He _ IH]; intros w Hr Hmax; [done|].
  simpl length in Hmax. pose proof (reachable_winv fuel w Hr) as Hw.
  assert (node_step fuel w (run_once fuel e w).2) as Hs by (constructor; [done|unfold room in *; lia]).
  assert (reachable fuel (run_once fuel e w).2) as Hr'.
  { destruct Hr as (w0 & Hi & Hrtc). exists w0. split; [done|]. by eapply rtc_r. }
  destruct (run_events_cons fuel e es w) as [->| ->]; [done|]. apply IH; [done|].
  destruct (node_step_ok fuel w _ Hw Hs) as (_ & ? & _). lia.
Qed.
End run_events.

(** ** Theorems *)
Section theorems.
Context `{Platform} {CL : Client} `{!PlatformLaws} `{!ClientLaws}.
Implicit Types (w : Worker).

(** C12: in every reachable state the aggregator is well formed, the gossip
    validator filters by the node's own view, the last voted view is at most
    the current one, and the high QC is the default one or verifies. *)
Theorem reachable_invariant fuel w :
  reachable fuel w →
  let s := w_state w in
  aggregator_ok (cs_authorities s) (cs_aggregator s) ∧
  gv_view (w_gossip w) = cs_view s ∧
  0 <= cs_last_voted_view s <= cs_view s ∧ u64_ok (cs_view s) ∧
  (cs_high_qc s = qc_default ∨ qc_verify (cs_high_qc s) (cs_authorities s) = Ok ()).
Proof.
  intros Hr. apply reachable_winv in Hr as []. destruct wi_high_qc.
  unfold u64_ok, u64_max in *. split_and!; try done; lia.
Qed.

(** C13: every step of a reachable node, whatever the event and whether or not
    its handler fails, keeps the authorities and the keystore, never moves the
    view, the last voted view or the high QC back, and only appends to the log. *)
Theorem node_step_monotone fuel w w' :
  reachable fuel w → node_step fuel w w' →
  cs_view (w_state w) <= cs_view (w_state w') <= cs_view (w_state w) + room fuel ∧
  cs_last_voted_view (w_state w) <= cs_last_voted_view (w_state w') ∧
  qc_view (cs_high_qc (w_state w)) <= qc_view (cs_high_qc (w_state w')) ∧
  cs_authorities (w_state w') = cs_authorities (w_state w) ∧
  cs_keystore (w_state w') = cs_keystore (w_state w) ∧
  w_log w `prefix_of` w_log w'.
Proof.
  intros Hr%reachable_winv Hs. destruct (node_step_ok fuel w w' Hr Hs) as (_ & ? & ? & ? & ? & ? & ?).
  done.
Qed.

Lemma committee_settles (fuel : nat) e w :
  winv w → committee w → event_ok e → (2 ≤ fuel)%nat → cs_view (w_state w) + 6 <= u64_max →
  settles (run_handler fuel e w).1.
Proof.
  intros Hw Hc He Hf Hmax. destruct fuel as [|[|fuel]]; [lia..|].
  by destruct (run_handler_spec False 3 (S (S fuel)) e w) as [_ Ho];
    [lia|by apply committee_handles_own|done|intros; by apply committee_handle_proposal|
     done|lia|done|destruct (run_handler _ e w) as [[] ?]].
Qed.

(** C6: every event handler returns: no message, valid or not, makes it panic,
    and the mutual recursion of [handle_proposal] and [handle_vote] ends.  In a
    committee of at least two distinct authorities two nested calls are enough,
    because consecutive views have different leaders; in any committee, a lone
    authority included, twice the number of blocks in the pending queue and
    three are, because an empty proposal is never followed by another one and a
    block only by a higher one once it is final.  Above either bound the fuel of
    the model changes nothing. *)
Theorem handlers_return fuel (bound fuel' : nat) e w :
  reachable fuel w → event_ok e → cs_view (w_state w) + room bound <= u64_max →
  (committee w ∧ 2 ≤ bound)%nat ∨
  (2 * length (mutex_data (w_pending_queue w)) + 3 ≤ bound)%nat →
  (bound ≤ fuel')%nat →
  settles (run_handler fuel' e w).1 ∧ run_handler fuel' e w = run_handler bound e w ∧
  ∃ w', run_once fuel' e w = (Ok (), w').
Proof.
  intros Hr%reachable_winv He Hmax Hbound Hle.
  assert (settles (run_handler bound e w).1) as Hs.
  { destruct Hbound as [[Hc Hb]|Hb].
    - by apply committee_settles; [..|unfold room in *; lia].
    - destruct (enough_run_handler False bound e w) as [_ Ho]; [done|done|done|unfold room in *; lia..|].
      by destruct (run_handler bound e w) as [[] ?]. }
  rewrite (extends_run_handler bound fuel' e Hle w) by (intros Hd; by rewrite Hd in Hs).
  split; [done|]. split; [done|].
  unfold run_once, catch, mbind, comp_bind.
  rewrite (extends_run_handler bound fuel' e Hle w) by (intros Hd; by rewrite Hd in Hs).
  destruct (run_handler bound e w) as [[] w']; try done; by exists w'.
Qed.

(** C1: a node never equivocates: in any history of a reachable node since it was
    started, two votes it made in the same view are the same vote, and every vote
    is its own and for an authentic proposal of that view. *)
Theorem votes_never_equivocate fuel w (v v' : Vote) :
  reachable fuel w → v ∈ votes_of (w_log w) → v' ∈ votes_of (w_log w) →
  (vote_view v = vote_view v' → v = v') ∧
  local_authority_id (w_state w) = Some (vote_voter v) ∧
  ∃ p, authentic (w_state w) p ∧ vote_proposal_hash v = proposal_digest p ∧
       vote_view v = proposal_view p.
Proof.
  intros Hr%reachable_winv Hv Hv'. destruct (wi_votes _ Hr) as [Hs Hall].
  split; [intros Heq; by apply (sorted_fmap_inj vote_view (votes_of (w_log w)))|].
  rewrite Forall_forall in Hall. by destruct (Hall v Hv) as (_ & ? & ?).
Qed.

(** C5: a block is finalized only by the commit rule: whenever a reachable node
    has asked its client to finalize a block, the block belongs to an
    authentic proposal with an authentic child in the very next view and an
    authentic grandchild, each carrying an accepted certificate of the one
    before; the marker of empty proposals is never finalized. *)
Theorem finalized_blocks_committable fuel w (h : Hash) :
  reachable fuel w → h ∈ finalized_of (w_log w) → committable (w_state w) h.
Proof.
  intros Hr%reachable_winv Hh. pose proof (wi_commits _ Hr) as Hall.
  rewrite Forall_forall in Hall. by apply Hall.
Qed.

(** C15: what a node sends, a peer can read: every gossip message of a reachable
    node goes out on the one topic, decodes as a whole at the receiver to the
    message that was encoded, and that message is within the wire's bounds, so
    it is an event the receiver's handlers are specified for. *)
Theorem gossiped_messages_decode fuel w topic data force :
  reachable fuel w → EGossip topic data force ∈ w_log w →
  topic = gossip_topic ∧
  ∃ m, decode_all data = Some m ∧ scale_encode m = data ∧ event_ok (Received m).
Proof.
  intros Hr%reachable_winv Hin. pose proof (wi_wire _ Hr) as Hall. rewrite Forall_forall in Hall.
  destruct (Hall _ Hin) as [-> (m & Hm & ->)]. split; [done|]. exists m.
  by rewrite (decode_all_encode (ok := message_ok)).
Qed.

(** C11: the commit rule is complete: when a node gets an authentic proposal
    whose block it knows and which it can store, and the store holds its parent and
    grandparent, with other digests and consecutive views, then handling it asks the
    client to finalize the grandparent's block, unless that is the empty marker or
    already the last finalized block. *)
Theorem certified_chain_commits fuel p parent grandpa c w :
  authentic (w_state w) p → payload_known w p →
  stored (w_client w) parent → stored (w_client w) grandpa →
  proposal_ok parent → proposal_ok grandpa →
  proposal_parent_hash p = proposal_digest parent →
  proposal_parent_hash parent = proposal_digest grandpa →
  proposal_digest parent ≠ proposal_digest p → proposal_digest grandpa ≠ proposal_digest p →
  proposal_view parent = proposal_view grandpa +₆₄ 1 →
  save_proposal p (w_client w) = (Ok (), c) →
  let h := block_hash (proposal_payload grandpa) in
  h ≠ empty_payload_hash → h ≠ info_finalized_hash (client_info (w_client w)) →
  EFinalize h ∈ w_log (handle_proposal (S fuel) p w).2.
Proof.
  intros Ha Hk Hs1 Hs2 Hok1 Hok2 Hd1 Hd2 Hn1 Hn2 Hview Hsave h Hne Hnf. simpl handle_proposal.
  destruct (handle_proposal_prefix (handle_vote_with (handle_proposal fuel)) p w)
    as [(o & w1 & _ & _ & _ & Hno)|(w1 & -> & Hq & _)]; [tauto|].
  destruct (save_proposal_stored _ _ _ Hsave) as (_ & Hother & Hinfo).
  destruct (try_commit_run p (set_client c w1)) as (w2 & Hcommit & _ & _ & Hfin).
  rewrite <- (qu_client _ _ Hq) in Hsave.
  rewrite (store_and_vote_run _ _ _ _ _ _ Hsave Hcommit).
  destruct (Hfin parent grandpa) as [Hin _]; [|done|done|simpl; by rewrite Hinfo|].
  { simpl. unfold get_proposal_ancestors.
    rewrite (get_proposal_parent_stored c p parent); [simpl|done|by apply Hother|done].
    by rewrite (get_proposal_parent_stored c parent grandpa); [|done|by apply Hother|done]. }
  case_match; [|done].
  destruct (grows_vote_proposal fuel p w2) as [l ->]. apply elem_of_app. by left.
Qed.

(** A node votes on every authentic proposal of its view: with its key in
    the keystore, a known block and no vote in this or a later view yet, it
    makes a valid vote, whatever high QC it holds and whatever certificate
    the proposal extends.  The locking rule of HotStuff is not part of the
    voting rule. *)
Lemma vote_depends_on_views_only `{!KeystoreLaws} fuel p c id w :
  authentic (w_state w) p → payload_known w p →
  local_authority_id (w_state w) = Some id →
  advanced (qc_view (proposal_qc p)) (cs_view (w_state w)) = proposal_view p →
  cs_last_voted_view (w_state w) < proposal_view p →
  save_proposal p (w_client w) = (Ok (), c) →
  ∃ v, EVoted v ∈ w_log (handle_proposal (S fuel) p w).2 ∧
    vote_proposal_hash v = proposal_digest p ∧ vote_view v = proposal_view p ∧
    vote_verify v (cs_authorities (w_state w)) = Ok ().
Proof.
  intros Ha Hk Hid Hview Hlt Hsave. simpl handle_proposal.
  destruct (handle_proposal_prefix (handle_vote_with (handle_proposal fuel)) p w)
    as [(o & w1 & _ & _ & _ & Hno)|(w1 & -> & Hq & Hv & _)]; [tauto|].
  destruct (try_commit_run p (set_client c w1)) as (w2 & Hcommit & _ & Hst & _).
  rewrite <- (qu_client _ _ Hq) in Hsave.
  rewrite (store_and_vote_run _ _ _ _ _ _ Hsave Hcommit), Hst. simpl.
  rewrite Hv, Hview, Z.eqb_refl.
  destruct (make_vote_verifies (w_state w1) id p) as (v & Hmv & Hh & Hvv & Hver).
  { unfold local_authority_id. by rewrite (qu_keystore _ _ Hq), (qu_authorities _ _ Hq). }
  { by rewrite (qu_voted _ _ Hq). }
  rewrite (qu_authorities _ _ Hq) in Hver. exists v. split; [|done].
  rewrite vote_proposal_run, Hst. simpl. rewrite Hmv.
  match goal with |- _ ∈ w_log (?m ?w0).2 => assert (grows m) as Hg; [|specialize (Hg w0)] end.
  { pose proof (λ v, grows_handle_vote_with _ v (grows_handle_proposal fuel)). unfold gossip. grows. }
  destruct Hg as [l ->]. simpl. apply elem_of_app. left. apply elem_of_app. right. by left.
Qed.

End theorems.

Section witnesses.
#[local] Existing Instance ref_platform.
#[local] Existing Instance ref_platform_laws.
#[local] Existing Instance ref_keystore_laws.
#[local] Existing Instance ref_client.
#[local] Existing Instance ref_client_laws.

(** Authority [i] of [n], started on [c]; and with three blocks waiting. *)
Definition ref_new (n : nat) (i : Z) (c : ref_client_state) : Worker :=
  worker_new (ref_node n i) c (mkMutex false []).
Definition ref_worker (n : nat) (i : Z) : Worker :=
  set_queue (mkMutex false ((λ k, mkBlockInfo (Some (ref_hash (1000 + k))) k) <$> [1; 2; 3]))
    (ref_new n i (ref_chain 3)).

Lemma ref_worker_initial n i c :
  0 < Z.of_nat n < 2 ^ 32 → rc_aux c = ∅ → initial (ref_new n i c).
Proof.
  intros Hn Hc. split.
  - eexists _, _, _. reflexivity.
  - change (cs_authorities _) with (ref_authorities n). unfold ref_authorities.
    rewrite length_fmap, length_seq. split; [|lia]. destruct n; [lia|done].
  - intros h data. simpl. by rewrite Hc.
Qed.

Lemma ref_worker_idle n i : 0 < Z.of_nat n < 2 ^ 32 → idle (ref_worker n i).
Proof.
  intros Hn.
  set (imports := (λ k, mkImportNotification (ref_hash (1000 + k)) k true) <$> [1; 2; 3]).
  change (idle (set_queue (mkMutex false (best_blocks imports)) (ref_new n i (ref_chain 3)))).
  apply idle_filled.
  - by apply ref_worker_initial.
  - repeat (constructor; [split; simpl; lia|]). constructor.
Qed.

Lemma ref_worker_reachable i : reachable 2 (ref_worker 4 i).
Proof. by apply idle_reachable, ref_worker_idle. Qed.

Lemma ref_p3_ok : proposal_ok ref_p3.
Proof. repeat split; simpl; try lia; by repeat constructor. Qed.

Definition ref_events : list Event :=
  (λ p, Received (CM_Propose p)) <$> [ref_p1; ref_p2; ref_p3].

Lemma ref_events_ok : Forall event_ok ref_events.
Proof.
  constructor; [apply ref_p1_ok|]. constructor; [apply ref_p2_ok|].
  constructor; [apply ref_p3_ok|constructor].
Qed.

(** Authority 1 after the three proposals, each on the one before. *)
Definition ref_voter : Worker := run_events 2 ref_events (ref_worker 4 1).

Lemma ref_voter_reachable : reachable 2 ref_voter.
Proof.
  apply run_events_reachable; [apply ref_worker_reachable|apply ref_events_ok|].
  unfold u64_max, room. simpl. lia.
Qed.

Lemma reachable_invariant_witness : gv_view (w_gossip ref_voter) = cs_view (w_state ref_voter).
Proof.
  destruct (reachable_invariant 2 ref_voter ref_voter_reachable) as (_ & Hg & _). exact Hg.
Defined.

Lemma node_step_monotone_witness :
  cs_view (w_state ref_voter) <= cs_view (w_state (run_once 2 TimerFired ref_voter).2).
Proof.
  assert (cs_view (w_state ref_voter) + room 2 <= u64_max) as Hroom by (apply Z.leb_le; vm_refl).
  destruct (node_step_monotone 2 ref_voter _ ref_voter_reachable
    (NEvent 2 ref_voter TimerFired I Hroom)) as [[Hv _] _]. exact Hv.
Defined.

(** A member of a committee of four, with two nested calls; and a lone authority
    whose three blocks wait for finality: its timer makes it propose the first
    block and then, on its own vote, an empty one. *)
Lemma handlers_return_witness :
  (∃ w', run_once 2 (Received (CM_Propose ref_p1)) ref_voter = (Ok (), w')) ∧
  (∃ w', run_once 100 TimerFired (ref_worker 1 1) = (Ok (), w')) ∧
  vote_view <$> votes_of (w_log (run_once 9 TimerFired (ref_worker 1 1)).2) = [1; 2].
Proof.
  split; [|split; [|vm_refl]].
  - refine (proj2 (proj2 (handlers_return 2 2 2 (Received (CM_Propose ref_p1)) ref_voter
      ref_voter_reachable ref_p1_ok _ (or_introl _) _))).
    + apply Z.leb_le. vm_refl.
    + split; [split; [vm_decide|apply Nat.leb_le; vm_refl]|done].
    + done.
  - refine (proj2 (proj2 (handlers_return 2 9 100 TimerFired (ref_worker 1 1) _ I _
      (or_intror _) _))).
    + by apply idle_reachable, ref_worker_idle.
    + apply Z.leb_le. vm_refl.
    + apply Nat.leb_le. vm_refl.
    + apply Nat.leb_le. vm_refl.
Defined.

(** The votes of views 1, 2 and 3. *)
Lemma votes_never_equivocate_witness :
  ∃ v, votes_of (w_log ref_voter) !! 2%nat = Some v ∧ vote_view v = 3 ∧
       local_authority_id (w_state ref_voter) = Some (vote_voter v).
Proof.
  exists (ref_vote 1 3 (proposal_digest ref_p3)). split; [vm_refl|]. split; [vm_refl|].
  destruct (votes_never_equivocate 2 ref_voter (ref_vote 1 3 (proposal_digest ref_p3))
    (ref_vote 1 3 (proposal_digest ref_p3)) ref_voter_reachable) as (_ & Hl & _);
    [vm_decide|vm_decide|exact Hl].
Defined.

(** The block of the first proposal has been finalized. *)
Lemma finalized_blocks_committable_witness :
  committable (w_state ref_voter) (ref_hash 1001).
Proof.
  refine (finalized_blocks_committable 2 ref_voter (ref_hash 1001) ref_voter_reachable _).
  vm_decide.
Defined.

(** The vote that authority 1 gave to the leader of view 2. *)
Lemma gossiped_messages_decode_witness :
  let data := scale_encode (CM_Vote (ref_vote 1 2 (proposal_digest ref_p2))) in
  EGossip gossip_topic data false ∈ w_log ref_voter ∧
  ∃ m, decode_all data = Some m ∧ scale_encode m = data ∧ event_ok (Received m).
Proof.
  cbv zeta.
  assert (EGossip gossip_topic (scale_encode (CM_Vote (ref_vote 1 2 (proposal_digest ref_p2))))
    false ∈ w_log ref_voter) as Hin by vm_decide.
  split; [exact Hin|].
  exact (proj2 (gossiped_messages_decode 2 ref_voter _ _ _ ref_voter_reachable Hin)).
Defined.

(** The third proposal after the first two. *)
Lemma certified_chain_commits_witness :
  let w := run_events 2 (take 2 ref_events) (ref_worker 4 1) in
  EFinalize (ref_hash 1001) ∈ w_log (handle_proposal 2 ref_p3 w).2.
Proof.
  intros w.
  refine (certified_chain_commits 1 ref_p3 ref_p2 ref_p1 (save_proposal ref_p3 (w_client w)).2 w
    _ _ _ _ _ _ _ _ _ _ _ _ _ _);
    [red; vm_refl|right; vm_refl|red; vm_refl|red; vm_refl|apply ref_p2_ok|apply ref_p1_ok|reflexivity|
     reflexivity|vm_decide|vm_decide|vm_refl|vm_refl|vm_decide|vm_decide].
Defined.

(** The first proposal at a fresh node. *)
Lemma vote_depends_on_views_only_witness :
  ∃ v, EVoted v ∈ w_log (handle_proposal 2 ref_p1 (ref_worker 4 3)).2 ∧ vote_view v = 1.
Proof.
  edestruct (vote_depends_on_views_only 1 ref_p1
    (save_proposal ref_p1 (w_client (ref_worker 4 3))).2 (ref_id 3) (ref_worker 4 3))
    as (v & Hv & _ & Hview & _); [red; vm_refl|right; vm_refl|vm_refl|vm_refl|reflexivity|vm_refl|].
  exists v. split; [exact Hv|exact Hview].
Defined.
End witnesses.
