(* ===== verification/Liveness.v ===== *)
(** * A quorum of votes makes the next leader propose

    The happy path of one view at the leader of the next one: votes of distinct
    authorities for one proposal arrive in any order; up to the quorum each only
    changes the aggregator, and the vote that completes it advances the view,
    resets the timer and makes the node gossip its own proposal on the new
    certificate ([handle_vote] of [hotstuff/consensus/src/consensus.rs]). *)
From S2P Require Import Prelude Codec Primitives Reference Message Aggregator.
From S2P Require Import Synchronizer Network ConsensusState Import Worker WorkerFacts WorkerSafety.
Local Open Scope Z_scope.
Local Open Scope machine_scope.

Section liveness.
Context `{Platform} {CL : Client} `{!PlatformLaws} `{!ClientLaws}.
Implicit Types (w : Worker) (v : Vote).

(** The worker with another aggregator. *)
Definition with_aggregator (a : Aggregator) w : Worker :=
  set_state (set_aggregator a (w_state w)) w.

Definition vote_event v : Event := Received (CM_Vote v).

(** A valid vote for the proposal [h] of the node's view. *)
Definition vote_for w (h : Hash) v : Prop :=
  vote_verify v (cs_authorities (w_state w)) = Ok () ∧ vote_view v = cs_view (w_state w) ∧
  vote_proposal_hash v = h.

(** The authorities whose vote for [h] in its view the node has. *)
Definition voters w (h : Hash) : gset AuthorityId :=
  supporters (cs_aggregator (w_state w)) (cs_view (w_state w))
    (hash_of (scale_encode h ++ encode_u64 (cs_view (w_state w)))).

(** A vote that does not complete a quorum is only collected. *)
Lemma handle_vote_waits hp v w :
  verify_vote (w_state w) v = Ok () →
  (add_vote (cs_aggregator (w_state w)) v (cs_authorities (w_state w))).1 = Ok None →
  handle_vote_with hp v w = (Ok (), with_aggregator
    (add_vote (cs_aggregator (w_state w)) v (cs_authorities (w_state w))).2 w).
Proof.
  intros Hv Hn. unfold handle_vote_with, gets, lift, on_state, zoom, cs_add_vote, mbind, comp_bind.
  rewrite Hv. unfold with_aggregator. destruct (add_vote _ _ _) as [o a]. simpl in *. by rewrite Hn.
Qed.

Lemma vote_waits fuel v es w :
  verify_vote (w_state w) v = Ok () →
  (add_vote (cs_aggregator (w_state w)) v (cs_authorities (w_state w))).1 = Ok None →
  run fuel (vote_event v :: es) w =
  run fuel es (with_aggregator
    (add_vote (cs_aggregator (w_state w)) v (cs_authorities (w_state w))).2 w).
Proof.
  intros Hv Hn. simpl. unfold run_once, catch, mbind, comp_bind. simpl.
  unfold handle_vote. by rewrite handle_vote_waits.
Qed.

Lemma vote_for_digest w h v :
  vote_for w h v → vote_digest v = hash_of (scale_encode h ++ encode_u64 (cs_view (w_state w))).
Proof. intros (_ & Hview & Hh). unfold vote_digest, vote_preimage. by rewrite Hview, Hh. Qed.

Lemma vote_for_verify w h v : vote_for w h v → verify_vote (w_state w) v = Ok ().
Proof.
  intros (Hv & Hview & _). unfold verify_vote. by rewrite Hview, Z.ltb_irrefl.
Qed.

Lemma vote_for_supporters w h v :
  authorities_ok (cs_authorities (w_state w)) →
  aggregator_ok (cs_authorities (w_state w)) (cs_aggregator (w_state w)) → vote_for w h v →
  voters (with_aggregator (add_vote (cs_aggregator (w_state w)) v (cs_authorities (w_state w))).2 w) h
  = {[vote_voter v]} ∪ voters w h.
Proof.
  intros Hlen Hok Hv. pose proof (vote_for_digest _ _ _ Hv) as Hd. destruct Hv as (Hver & Hview & _).
  pose proof (supporters_append _ _ _ Hlen Hok Hver) as Hs.
  unfold voters, supporters at 1. simpl. rewrite vote_maker_add_vote.
  by rewrite bool_decide_eq_true_2, Hs, Hview, Hd.
Qed.

(** Whether a new vote completes the quorum. *)
Lemma vote_for_certifies w h v :
  authorities_ok (cs_authorities (w_state w)) →
  aggregator_ok (cs_authorities (w_state w)) (cs_aggregator (w_state w)) → vote_for w h v →
  vote_voter v ∉ voters w h →
  if bool_decide (quorum (cs_authorities (w_state w)) (S (size (voters w h))))
  then ∃ qc, (add_vote (cs_aggregator (w_state w)) v (cs_authorities (w_state w))).1 = Ok (Some qc)
  else (add_vote (cs_aggregator (w_state w)) v (cs_authorities (w_state w))).1 = Ok None.
Proof.
  intros Hlen Hok Hv Hnew. pose proof (add_vote_certifies _ _ _ Hlen Hok (proj1 Hv)) as Hc.
  rewrite (vote_for_digest w h v Hv), (proj1 (proj2 Hv)) in Hc. fold (voters w h) in Hc.
  cbv zeta in Hc. rewrite size_union, size_singleton in Hc by (by apply disjoint_singleton_l).
  repeat case_bool_decide; try done; tauto.
Qed.

Lemma quorum_mono authorities (n m : nat) : (n ≤ m)%nat → quorum authorities n → quorum authorities m.
Proof. unfold quorum. lia. Qed.

(** New votes that do not reach the quorum are only collected. *)
Lemma votes_gather fuel vs es h w :
  authorities_ok (cs_authorities (w_state w)) →
  aggregator_ok (cs_authorities (w_state w)) (cs_aggregator (w_state w)) →
  Forall (vote_for w h) vs → NoDup (vote_voter <$> vs) →
  Forall (λ v, vote_voter v ∉ voters w h) vs →
  ¬ quorum (cs_authorities (w_state w)) (size (voters w h) + length vs) →
  ∃ a, run fuel ((vote_event <$> vs) ++ es) w = run fuel es (with_aggregator a w) ∧
    aggregator_ok (cs_authorities (w_state w)) a ∧
    voters (with_aggregator a w) h = list_to_set (vote_voter <$> vs) ∪ voters w h.
Proof.
  revert w. induction vs as [|v vs IH]; intros w Hlen Hok Hvs Hnd Hnew Hquo.
  { exists (cs_aggregator (w_state w)). split; [by destruct w as [[]]|]. split; [done|].
    simpl. by rewrite (left_id_L ∅ (∪)). }
  apply Forall_cons in Hvs as [Hv Hvs]. apply Forall_cons in Hnew as [Hn Hnew].
  apply NoDup_cons in Hnd as [Hfresh Hnd]. simpl length in Hquo.
  pose proof (vote_for_supporters w h v Hlen Hok Hv) as Hsup.
  assert (size ({[vote_voter v]} ∪ voters w h) = S (size (voters w h))) as Hsize.
  { rewrite size_union, size_singleton; [lia|by apply disjoint_singleton_l]. }
  assert ((add_vote (cs_aggregator (w_state w)) v (cs_authorities (w_state w))).1 = Ok None) as Hnone.
  { pose proof (vote_for_certifies w h v Hlen Hok Hv Hn) as Hc.
    rewrite bool_decide_eq_false_2 in Hc; [done|].
    intros Hq. apply Hquo. eapply quorum_mono; [|exact Hq]. lia. }
  rewrite fmap_cons. cbn [app]. rewrite (vote_waits fuel v _ w (vote_for_verify w h v Hv) Hnone).
  set (w1 := with_aggregator _ w) in *.
  destruct (IH w1) as (a & Hrun & Ha & Hsup'); try done.
  - by apply (add_vote_ok _ _ _ Hlen Hok), Hv.
  - rewrite Forall_forall in Hnew |- *. intros x Hx. rewrite Hsup.
    apply not_elem_of_union. split; [|by apply Hnew].
    intros Heq%elem_of_singleton. apply Hfresh. by rewrite <- Heq; apply list_elem_of_fmap_2.
  - change (cs_authorities (w_state w1)) with (cs_authorities (w_state w)). rewrite Hsup, Hsize.
    by rewrite <- Nat.add_succ_comm in Hquo.
  - exists a. split; [done|]. split; [done|].
    change (with_aggregator a w) with (with_aggregator a w1). rewrite Hsup', Hsup.
    rewrite fmap_cons, (assoc_L (∪)), (comm_L (∪) (list_to_set _)). done.
Qed.

(** A certificate of the current view that is newer than the high QC. *)
Lemma handle_qc_current qc w :
  qc_view qc = cs_view (w_state w) → cs_view (w_state w) < u64_max → 0 <= cs_view (w_state w) →
  qc_view (cs_high_qc (w_state w)) < qc_view qc →
  ∃ g, handle_qc qc w = (Ok (), log_effect ETimerReset (set_gossip g
    (set_state (set_high_qc qc (set_cs_view (cs_view (w_state w) + 1) (w_state w))) w))).
Proof.
  intros Hqc Hmax Hpos Hnew.
  assert (cs_view (w_state w) +₆₄ 1 = cs_view (w_state w) + 1) as Hwrap.
  { apply u64_wrap_small. unfold u64_ok, u64_max in *. lia. }
  unfold handle_qc, advance_view, gets, modify, emit, mbind, comp_bind. rewrite Z.geb_leb.
  destruct (Z.leb_spec (cs_view (w_state w)) (qc_view qc)); [|lia].
  unfold update_high_qc, advance_view_from_target. rewrite Z.geb_leb.
  destruct (Z.leb_spec (qc_view qc) (cs_view (w_state w))); [|lia]. simpl.
  rewrite Z.gtb_ltb. destruct (Z.ltb_spec (qc_view (cs_high_qc (w_state w))) (qc_view qc)); [|lia].
  eexists. rewrite Hqc, Hwrap. reflexivity.
Qed.

(** Which payload is proposed depends on the queue, the block in process and
    the client only. *)
Lemma get_proposal_payload_agree w w' :
  w_pending_queue w' = w_pending_queue w → w_processing_block w' = w_processing_block w →
  w_client w' = w_client w →
  ∃ o b, get_proposal_payload w = (Ok o, set_processing b w) ∧
         get_proposal_payload w' = (Ok o, set_processing b w').
Proof.
  intros Hq Hb Hc. unfold get_proposal_payload, get, mbind, comp_bind. rewrite Hq, Hb, Hc.
  assert (∀ w, w = set_processing (w_processing_block w) w) as Hw by by intros [].
  assert (w = set_processing (w_processing_block w) w ∧
          w' = set_processing (w_processing_block w) w') as [Hw1 Hw2].
  { split; [apply Hw|]. rewrite <- Hb. apply Hw. }
  destruct (lock_ok _) as [queue|]; [|by eexists _, _; rewrite <- Hw1, <- Hw2].
  destruct (w_processing_block w) as [b|].
  - destruct (_ >? _); [by eexists _, _; rewrite <- Hw1, <- Hw2|].
    destruct (List.find _ _); [by eexists _, _|by eexists _, _; rewrite <- Hw1, <- Hw2].
  - destruct (head queue); [by eexists _, _|by eexists _, _; rewrite <- Hw1, <- Hw2].
Qed.

(** A leader's proposal, up to the local handling. *)
Lemma propose_run `{!KeystoreLaws} hp pl tc id w :
  local_authority_id (w_state w) = Some id →
  qc_accepted (cs_high_qc (w_state w)) (cs_authorities (w_state w)) →
  view_leader (w_state w) (cs_view (w_state w)) = Ok id →
  ∃ p, propose hp pl tc w =
      hp p (log_effect (EGossip gossip_topic (scale_encode (CM_Propose p)) false) w) ∧
    authentic (w_state w) p ∧ proposal_view p = cs_view (w_state w) ∧
    proposal_qc p = cs_high_qc (w_state w) ∧ proposal_payload p = pl ∧ proposal_tc p = tc.
Proof.
  intros Hid Hqc Hl.
  destruct (make_proposal_verifies (w_state w) id pl tc Hid Hqc)
    as (p & Hmp & _ & Hview & Hqcp & Hplp & Htc & Hver).
  exists p. split; [|split; [by apply Hver|done]].
  unfold propose, gossip, emit, gets, modify, lift, mbind, comp_bind. by rewrite Hmp.
Qed.

(** A node that has gossiped its proposal, its pending work changed to [b] and [q]. *)
Definition proposing (p : Proposal) (q : list Hash) (b : option BlockInfo) w : Worker :=
  log_effect (EGossip gossip_topic (scale_encode (CM_Propose p)) false)
    (set_hash_queue q (set_processing b w)).

(** The leader's part of [handle_vote], up to the local handling. *)
Lemma propose_next_run `{!KeystoreLaws} hp pl id w :
  (get_proposal_payload w).1 = Ok (Some pl) →
  third_empty (block_hash pl) 0 (rev (w_proposal_hash_queue w)) = false →
  local_authority_id (w_state w) = Some id →
  qc_accepted (cs_high_qc (w_state w)) (cs_authorities (w_state w)) →
  view_leader (w_state w) (cs_view (w_state w)) = Ok id →
  ∃ p q b, propose_next hp w = hp p (proposing p q b w) ∧
    authentic (w_state w) p ∧ proposal_view p = cs_view (w_state w) ∧
    proposal_qc p = cs_high_qc (w_state w) ∧ proposal_payload p = pl ∧ proposal_tc p = None.
Proof.
  intros Hpl Hempty Hid Hqc Hl.
  destruct (get_proposal_payload_agree w w) as (o & b & Hget & _); [done..|].
  rewrite Hget in Hpl. simpl in Hpl. simplify_eq.
  assert (∃ q, propose_next hp w = propose hp pl None (set_hash_queue q (set_processing b w))) as [q Hq].
  { unfold propose_next, get, gets, modify, mbind, comp_bind. rewrite Hget. simpl. rewrite Hempty.
    case_match; by eexists. }
  destruct (propose_run hp pl None id (set_hash_queue q (set_processing b w)))
    as (p & Hrun & Hp); [done..|].
  exists p, q, b. split; [|done]. by rewrite Hq, Hrun.
Qed.

(** A node that has taken the certificate [qc] of its view, made with [a]. *)
Definition certified (qc : QC) (a : Aggregator) (g : GossipValidator) w : Worker :=
  log_effect ETimerReset (set_gossip g (set_state
    (set_high_qc qc (set_cs_view (cs_view (w_state w) + 1) (set_aggregator a (w_state w)))) w)).

(** A vote that completes a quorum at the next leader: it proposes. *)
Lemma vote_completes_run `{!KeystoreLaws} fuel v h id pl w :
  winv w → cs_view (w_state w) < u64_max →
  qc_view (cs_high_qc (w_state w)) < cs_view (w_state w) →
  vote_for w h v → vote_voter v ∉ voters w h →
  quorum (cs_authorities (w_state w)) (S (size (voters w h))) →
  local_authority_id (w_state w) = Some id →
  view_leader (w_state w) (cs_view (w_state w) + 1) = Ok id →
  (get_proposal_payload w).1 = Ok (Some pl) →
  third_empty (block_hash pl) 0 (rev (w_proposal_hash_queue w)) = false →
  let a := (add_vote (cs_aggregator (w_state w)) v (cs_authorities (w_state w))).2 in
  ∃ p qc q b g,
    run_handler fuel (vote_event v) w =
      handle_proposal fuel p (proposing p q b (certified qc a g w)) ∧
    qc_ok qc ∧ qc_view qc = cs_view (w_state w) ∧ qc_proposal_hash qc = h ∧
    authentic (w_state w) p ∧ proposal_view p = cs_view (w_state w) + 1 ∧
    proposal_qc p = qc ∧ proposal_payload p = pl ∧ proposal_tc p = None.
Proof.
  intros Hw Hmax Hhigh Hv Hnew Hquo Hid Hl Hpl Hempty.
  pose proof (authorities_small _ Hw) as Hlen. pose proof (wi_aggregator _ Hw) as Hok.
  pose proof (wi_view _ Hw) as Hview0.
  pose proof (vote_for_certifies w h v Hlen Hok Hv Hnew) as Hc.
  rewrite bool_decide_eq_true_2 in Hc by done. destruct Hc as [qc Hqc].
  destruct (add_vote_qc _ _ _ _ Hlen Hok (proj1 Hv) Hqc) as (Hver & Hin & Hqh & Hqv).
  destruct Hv as (Hvv & Hvview & Hvh). rewrite Hvview in Hqv. rewrite Hvh in Hqh.
  assert (qc_ok qc) as Hqok.
  { apply (aggregated_qc_ok (cs_authorities (w_state w))); [apply Hw|done..|].
    rewrite Hqv. unfold u64_ok, u64_max in *. lia. }
  destruct (add_vote (cs_aggregator (w_state w)) v (cs_authorities (w_state w))) as [o a] eqn:Eadd.
  simpl in Hqc. subst o.
  destruct (handle_qc_current qc (with_aggregator a w)) as (g & Hhandle); [simpl; lia..|].
  change (log_effect ETimerReset _) with (certified qc a g w) in Hhandle.
  destruct (get_proposal_payload_agree w (certified qc a g w)) as (o & b & Hg & Hg1); [done..|].
  rewrite Hg in Hpl. simpl in Hpl. injection Hpl as ->.
  destruct (propose_next_run (handle_proposal fuel) pl id (certified qc a g w))
    as (p & q & b' & Hrun & Ha & Hpv & Hpq & Hpp & Htc).
  { by rewrite Hg1. } { done. } { done. } { by right; apply qc_verify_Ok. } { done. }
  exists p, qc, q, b', g. split; [|split_and!; try done].
  simpl. unfold handle_vote, handle_vote_with, gets, get, lift, on_state, zoom, cs_add_vote,
    mbind, comp_bind.
  unfold verify_vote. rewrite Hvview, Z.ltb_irrefl, Hvv, Eadd. fold (with_aggregator a w).
  rewrite Hhandle.
  change (view_leader (w_state (certified qc a g w)) _)
    with (view_leader (w_state w) (cs_view (w_state w) + 1)).
  rewrite Hl. change (is_local (certified qc a g w) id) with (is_local w id). unfold is_local.
  rewrite Hid, bool_decide_eq_true_2 by done. exact Hrun.
Qed.

Lemma vote_completes `{!KeystoreLaws} fuel v h id pl w :
  winv w → cs_view (w_state w) < u64_max →
  qc_view (cs_high_qc (w_state w)) < cs_view (w_state w) →
  vote_for w h v → vote_voter v ∉ voters w h →
  quorum (cs_authorities (w_state w)) (S (size (voters w h))) →
  local_authority_id (w_state w) = Some id →
  view_leader (w_state w) (cs_view (w_state w) + 1) = Ok id →
  (get_proposal_payload w).1 = Ok (Some pl) →
  third_empty (block_hash pl) 0 (rev (w_proposal_hash_queue w)) = false →
  ∃ p, EGossip gossip_topic (scale_encode (CM_Propose p)) false
         ∈ w_log (run fuel [vote_event v] w).2 ∧
    authentic (w_state w) p ∧ proposal_view p = cs_view (w_state w) + 1 ∧
    proposal_parent_hash p = h ∧ qc_view (proposal_qc p) = cs_view (w_state w) ∧
    proposal_payload p = pl.
Proof.
  intros Hw Hmax Hhigh Hv Hnew Hquo Hid Hl Hpl Hempty.
  destruct (vote_completes_run fuel v h id pl w) as
    (p & qc & q & b & g & Hrun & _ & Hqv & Hqh & Ha & Hpv & Hpq & Hpp & _); [done..|].
  exists p. unfold proposal_parent_hash. rewrite Hpq. split; [|done].
  destruct (run_events_cons fuel (vote_event v) [] w) as [Hr|Hr]; unfold run_events in Hr; rewrite Hr;
    simpl run; cbn [snd mret comp_ret]; rewrite run_once_snd, Hrun;
    (match goal with |- _ ∈ w_log (handle_proposal _ _ ?w2).2 =>
       destruct (grows_handle_proposal fuel p w2) as [l ->] end;
     apply elem_of_app; left; apply elem_of_app; right; by left).
Qed.

(** C7: a quorum makes the chain grow: let valid votes of distinct new authorities
    for one proposal of its view, in any order, reach the leader of the next view,
    whose high QC is older, and let only the last of them complete the quorum.  If
    the queue gives it a payload to propose and its rule against a third empty
    proposal in a row does not hold it back, the leader gossips a proposal of the
    next view with that payload, on a certificate for the voted proposal, which
    every peer with the same authorities accepts. *)
Theorem quorum_extends_chain `{!KeystoreLaws} fuel fuel' (vs : list Vote) v h id pl w :
  reachable fuel w → cs_view (w_state w) < u64_max →
  qc_view (cs_high_qc (w_state w)) < cs_view (w_state w) →
  Forall (vote_for w h) (vs ++ [v]) → NoDup (vote_voter <$> vs ++ [v]) →
  Forall (λ v, vote_voter v ∉ voters w h) (vs ++ [v]) →
  ¬ quorum (cs_authorities (w_state w)) (size (voters w h) + length vs) →
  quorum (cs_authorities (w_state w)) (size (voters w h) + length vs + 1) →
  local_authority_id (w_state w) = Some id →
  view_leader (w_state w) (cs_view (w_state w) + 1) = Ok id →
  (get_proposal_payload w).1 = Ok (Some pl) →
  third_empty (block_hash pl) 0 (rev (w_proposal_hash_queue w)) = false →
  ∃ p, EGossip gossip_topic (scale_encode (CM_Propose p)) false
         ∈ w_log (run_events fuel' (vote_event <$> vs ++ [v]) w) ∧
    authentic (w_state w) p ∧ proposal_view p = cs_view (w_state w) + 1 ∧
    proposal_parent_hash p = h ∧ qc_view (proposal_qc p) = cs_view (w_state w) ∧
    proposal_payload p = pl.
Proof.
  intros Hw%reachable_winv Hmax Hhigh Hvs Hnd Hnew Hnq Hq Hid Hl Hpl Hempty.
  apply Forall_app in Hvs as [Hvs [Hv _]%Forall_cons].
  apply Forall_app in Hnew as [Hnew [Hn _]%Forall_cons].
  rewrite fmap_app in Hnd. apply NoDup_app in Hnd as (Hnd & Hdisj & _).
  pose proof (authorities_small _ Hw) as Hlen. pose proof (wi_aggregator _ Hw) as Hok.
  unfold run_events. rewrite fmap_app.
  destruct (votes_gather fuel' vs (vote_event <$> [v]) h w Hlen Hok Hvs Hnd Hnew Hnq)
    as (a & -> & Ha & Hsup).
  destruct (vote_completes fuel' v h id pl (with_aggregator a w)) as (p & Hp); try done.
  - apply (step_aggregator a w); done.
  - rewrite Hsup. apply not_elem_of_union. split; [|done].
    rewrite elem_of_list_to_set. intros Hin. apply (Hdisj _ Hin). by left.
  - rewrite Hsup, size_union, size_list_to_set, length_fmap; [|done|].
    + eapply quorum_mono; [|exact Hq]. lia.
    + intros x Hx%elem_of_list_to_set Hx'. apply list_elem_of_fmap in Hx as (u & -> & Hu).
      rewrite Forall_forall in Hnew. by apply (Hnew u).
  - destruct (get_proposal_payload_agree w (with_aggregator a w)) as (o & b & Hg & Hg'); [done..|].
    by rewrite Hg', <- Hpl, Hg.
  - exists p. exact Hp.
Qed.
End liveness.

Section witnesses.
#[local] Existing Instance ref_platform.
#[local] Existing Instance ref_platform_laws.
#[local] Existing Instance ref_keystore_laws.
#[local] Existing Instance ref_client.
#[local] Existing Instance ref_client_laws.

(** Authority 1, the leader of view 4, has voted for the proposal of view 3; the
    votes of authorities 2 and 3 complete the quorum of a committee of four. *)
Lemma quorum_extends_chain_witness :
  ∃ p, EGossip gossip_topic (scale_encode (CM_Propose p)) false
         ∈ w_log (run_events 2 (vote_event <$> [ref_vote 2 3 (proposal_digest ref_p3)] ++
                    [ref_vote 3 3 (proposal_digest ref_p3)]) ref_voter) ∧
    authentic (w_state ref_voter) p ∧ proposal_view p = 4 ∧
    proposal_parent_hash p = proposal_digest ref_p3 ∧ qc_view (proposal_qc p) = 3 ∧
    proposal_payload p = mkPayload empty_payload_hash 3.
Proof.
  assert (cs_view (w_state ref_voter) = 3) as Hview by vm_refl.
  destruct (quorum_extends_chain 2 2 [ref_vote 2 3 (proposal_digest ref_p3)]
    (ref_vote 3 3 (proposal_digest ref_p3)) (proposal_digest ref_p3) (ref_id 1)
    (mkPayload empty_payload_hash 3) ref_voter) as (p & Hp).
  - exact ref_voter_reachable.
  - apply Z.ltb_lt. vm_refl.
  - apply Z.ltb_lt. vm_refl.
  - repeat (constructor; [split; [vm_refl|split; [vm_refl|reflexivity]]|]). constructor.
  - vm_decide.
  - repeat (constructor; [vm_decide|]). constructor.
  - vm_decide.
  - vm_decide.
  - vm_refl.
  - vm_refl.
  - vm_refl.
  - vm_refl.
  - exists p. rewrite Hview in Hp. exact Hp.
Defined.
End witnesses.
