(* ===== verification/ViewChange.v ===== *)
(** * Changing views, and being left behind

    How views without progress end ([handle_timeout], [handle_tc] and
    [handle_local_timer] of [hotstuff/consensus/src/consensus.rs]).  At a node,
    timeouts of its view from a quorum of authorities, in any order, end the view:
    the node gossips a certificate for them and the leader of the next view
    proposes on its highest QC.  A node that has missed its chance stays where it
    is: [advance_view_from_target] ignores certificates of later views, so a node
    that the committee has left leaves its view neither by proposals, votes,
    timeouts and certificates of other views nor by its own timer. *)
From S2P Require Import Prelude Codec Primitives Reference Message Aggregator.
From S2P Require Import Synchronizer Network ConsensusState Import Worker WorkerFacts WorkerSafety.
From S2P Require Import Liveness.
Local Open Scope Z_scope.
Local Open Scope machine_scope.

(** ** Collected timeouts *)
Section timeouts.
Context `{Platform} {CL : Client}.

(** The authorities whose timeout of [view] has been collected. *)
Definition timed_out (a : Aggregator) (view : ViewNumber) : gset AuthorityId :=
  list_to_set ((λ x, x.1.1) <$> tcm_votes (timeout_maker a view)).
Definition timeouts (w : Worker) (view : ViewNumber) : gset AuthorityId :=
  timed_out (cs_aggregator (w_state w)) view.

(** A verified timeout: who is collected, and when a certificate is made. *)
Lemma add_timeout_certifies authorities a t :
  authorities_ok authorities → aggregator_ok authorities a →
  timeout_verify t authorities = Ok () →
  let r := add_timeout a t authorities in
  aggregator_ok authorities r.2 ∧
  (∀ view, timed_out r.2 view =
     if bool_decide (view = timeout_view t) then {[timeout_voter t]} ∪ timed_out a view
     else timed_out a view) ∧
  (∀ view digest, supporters r.2 view digest = supporters a view digest) ∧
  if bool_decide (timeout_voter t ∉ timed_out a (timeout_view t) ∧
                  quorum authorities (S (size (timed_out a (timeout_view t)))))
  then ∃ tc, r.1 = Ok (Some tc) ∧ tc_view tc = timeout_view t
  else r.1 = Ok None.
Proof.
  intros Hlen Hagg Hver r.
  pose proof Hver as [[_ (sig & Hsig & _)] _]%timeout_verify_Ok.
  pose proof (proj2 Hagg (timeout_view t)) as Hm.
  pose proof (tcm_append_signed authorities _ _ t sig Hlen Hm Hsig) as Happ. cbv zeta in Happ.
  rewrite length_app, Nat.add_1_r in Happ.
  assert (size (timed_out a (timeout_view t)) =
    length (tcm_votes (timeout_maker a (timeout_view t)))) as Hsz.
  { unfold timed_out. rewrite size_list_to_set, length_fmap; [done|apply Hm]. }
  assert (timeout_voter t ∈ timed_out a (timeout_view t) ↔
    timeout_voter t ∈ (λ x, x.1.1) <$> tcm_votes (timeout_maker a (timeout_view t))) as Hin.
  { apply elem_of_list_to_set. }
  split; [by apply add_timeout_ok|]. split; [|split].
  - intros view. unfold timed_out at 1. subst r. rewrite timeout_maker_add_timeout, Happ.
    destruct (decide (view = timeout_view t)) as [->|Hne];
      [rewrite bool_decide_eq_true_2 by done|by rewrite bool_decide_eq_false_2].
    destruct (bool_decide_reflect (timeout_voter t ∈
      (λ x, x.1.1) <$> tcm_votes (timeout_maker a (timeout_view t)))) as [Hold|Hnew]; simpl.
    + symmetry. apply subseteq_union_1_L. by apply singleton_subseteq_l, Hin.
    + rewrite fmap_app, list_to_set_app_L. simpl.
      by rewrite (right_id_L ∅ (∪)), (comm_L (∪)).
  - intros view digest. unfold supporters. subst r. by rewrite vote_maker_add_timeout.
  - subst r. rewrite add_timeout_res, Happ, Hsz.
    clear Happ. repeat case_bool_decide; try tauto; simpl; eauto.
Qed.
End timeouts.

(** ** Left behind *)
Section behind.
Context `{Platform} {CL : Client}.
Context (As : AuthorityList) (u : ViewNumber) (T : gset AuthorityId).
Implicit Types (w : Worker).

(** A node of the committee [As] in view [u], which only the authorities of [T]
    have timed out or still can. *)
Record behind w : Prop := {
  bh_authorities : cs_authorities (w_state w) = As;
  bh_view : cs_view (w_state w) = u;
  bh_high : qc_view (cs_high_qc (w_state w)) ≠ u;
  bh_aggregator : aggregator_ok As (cs_aggregator (w_state w));
  bh_local : ∀ id, local_authority_id (w_state w) = Some id → id ∈ T;
  bh_timeouts : timeouts w u ⊆ T;
  bh_votes : Forall (λ v, vote_view v <= u) (votes_of (w_log w));
}.

(** Messages without a certificate, a vote or a timeout of view [u]; the timer
    may fire. *)
Definition bypasses (e : Event) : Prop :=
  match e with
  | TimerFired => True
  | Received (CM_Propose p) => proposal_view p ≠ u ∧ qc_view (proposal_qc p) ≠ u
  | Received (CM_Vote v) => vote_view v ≠ u
  | Received (CM_Timeout t) => timeout_view t ≠ u ∧ qc_view (timeout_high_qc t) ≠ u
  | Received (CM_TC tc) => tc_view tc ≠ u
  | Received _ => True
  end.

Definition stays {A} (m : Comp Worker HotstuffError A) w : Prop := behind w → behind (m w).2.

Lemma stays_bind {A B} (m : Comp Worker HotstuffError A) (f : A → Comp Worker HotstuffError B) w :
  stays m w → (∀ a w', m w = (Ok a, w') → behind w' → stays (f a) w') → stays (m ≫= f) w.
Proof.
  intros Hm Hf Hw. specialize (Hm Hw). unfold mbind, comp_bind.
  destruct (m w) as [[a| | |] w'] eqn:E; simpl in *; try done. by apply (Hf a).
Qed.

Lemma stays_ret {A} (a : A) w : stays (mret a) w.
Proof. intros Hw. exact Hw. Qed.
Lemma stays_read {A B} (f : Worker → A) (k : A → Comp Worker HotstuffError B) w :
  (behind w → stays (k (f w)) w) → stays (gets f ≫= k) w.
Proof. intros Hk Hw. by apply Hk. Qed.
Lemma stays_get {B} (k : Worker → Comp Worker HotstuffError B) w :
  (behind w → stays (k w) w) → stays (get ≫= k) w.
Proof. intros Hk Hw. by apply Hk. Qed.
Lemma stays_lift {A B} (o : outcome HotstuffError A) (k : A → Comp Worker HotstuffError B) w :
  (∀ a, o = Ok a → stays (k a) w) → stays (lift o ≫= k) w.
Proof. intros Hk Hw. unfold lift, mbind, comp_bind. destruct o; try done. by apply Hk. Qed.

(** Steps that keep the state but for the voted view, and make no new vote. *)
Lemma behind_state w w' :
  w_state w' = w_state w → votes_of (w_log w') = votes_of (w_log w) → behind w → behind w'.
Proof. intros Hs Hl []. by split; unfold timeouts; rewrite ?Hs, ?Hl. Qed.

Lemma behind_quiet w w' :
  quiet w w' → cs_view (w_state w') = u → qc_view (cs_high_qc (w_state w')) ≠ u →
  behind w → behind w'.
Proof.
  intros Hq Hv Hh Hw. split; try done.
  all: try by (rewrite ?(qu_authorities _ _ Hq), ?(qu_aggregator _ _ Hq), ?(qu_votes _ _ Hq); apply Hw).
  - intros id. unfold local_authority_id. rewrite (qu_keystore _ _ Hq), (qu_authorities _ _ Hq).
    apply (bh_local _ Hw).
  - unfold timeouts. rewrite (qu_aggregator _ _ Hq). apply Hw.
Qed.

Lemma stays_emit e w : silent e → stays (emit e) w.
Proof.
  intros He Hw. apply (behind_state w); [done| |done]. unfold emit, modify, log_effect. simpl.
  rewrite votes_of_snoc. by destruct e; simpl in *; rewrite ?app_nil_r.
Qed.
Lemma stays_gossip m force w : stays (gossip m force) w.
Proof.
  intros Hw. apply (behind_state w); [done| |done]. unfold gossip, emit, modify, log_effect. simpl.
  by rewrite votes_of_snoc, app_nil_r.
Qed.
Lemma stays_modify f w :
  w_state (f w) = w_state w → w_log (f w) = w_log w → stays (modify f) w.
Proof. intros Hs Hl Hw. apply (behind_state w); [done| |done]. simpl. by rewrite Hl. Qed.

Lemma stays_handle_qc qc w : qc_view qc ≠ u → stays (handle_qc qc) w.
Proof.
  intros Hqc Hw. destruct (handle_qc_run qc w) as (w' & -> & Hq & Hv & _ & _ & Hor).
  cbn [snd]. apply (behind_quiet w); [done| | |done].
  - rewrite Hv, (bh_view _ Hw). unfold advanced. by destruct (Z.eqb_spec (qc_view qc) u).
  - destruct Hor as [-> | ->]; [apply Hw|done].
Qed.

Lemma stays_advance_view target w : u < target → stays (advance_view target) w.
Proof.
  intros Hlt Hw. pose proof (bh_view _ Hw) as Hu.
  destruct (advance_view_run target w) as (w' & -> & Hq & Hv & Hh); [lia|].
  cbn [snd]. apply (behind_quiet w); [done| |by rewrite Hh; apply Hw|done].
  rewrite Hv, Hu. unfold advanced. by destruct (Z.eqb_spec target u); [lia|].
Qed.

(** The committee: two or more authorities, of which [T] is no quorum. *)
Context (Hnd : NoDup As.*1) (Hlen : (2 ≤ length As)%nat) (Hsmall : authorities_ok As).
Context (Hu : 0 <= u < u64_max) (HT : ¬ quorum As (size T)).

(** A vote in view [u] is not for the node itself when it leads [u]. *)
Lemma stays_vote_proposal hv p id w :
  proposal_view p = u → local_authority_id (w_state w) = Some id →
  view_leader (w_state w) u = Ok id → stays (vote_proposal hv p) w.
Proof.
  intros Hp Hid Hl Hw. rewrite vote_proposal_run. pose proof (make_vote_spec (w_state w) p) as Hmv.
  assert (behind (set_state (set_last_voted_view (proposal_view p) (w_state w)) w)) as Hb
    by by destruct Hw; split.
  destruct (make_vote (w_state w) p) as [[v|] s'].
  - destruct Hmv as (_ & Hvv & _ & _ & ->). unfold modify, get, lift, mbind, comp_bind. simpl.
    rewrite (bh_view _ Hw), u64_wrap_small by (unfold u64_ok, u64_max in *; lia).
    pose proof (consecutive_leaders_differ (w_state w) u id) as Hne.
    rewrite (bh_authorities _ Hw) in Hne. specialize (Hne Hnd Hlen).
    rewrite (view_leader_congr _ (w_state w)) by done. unfold is_local. simpl.
    assert (behind (log_effect (EVoted v) (set_state (set_last_voted_view (proposal_view p) (w_state w)) w))) as Hv.
    { destruct Hb. split; try done. simpl. rewrite votes_of_snoc, Forall_app. split; [done|].
      constructor; [lia|constructor]. }
    destruct (view_leader (w_state w) (u + 1)) as [l| | |]; simpl;
      try (by eapply behind_state; [..|exact Hv]).
    change (local_authority_id (set_last_voted_view _ _)) with (local_authority_id (w_state w)).
    rewrite Hid. case_bool_decide as Heq; [subst; by destruct Hne|].
    apply stays_gossip. by eapply behind_state; [..|exact Hv].
  - destruct Hmv as [-> |[_ ->]]; [|done]. by eapply behind_state; [..|exact Hw].
Qed.

(** A proposal that does not concern view [u], or the node's own one. *)
Lemma stays_handle_proposal fuel p w :
  qc_view (proposal_qc p) ≠ u →
  (proposal_view p = u →
   ∃ id, local_authority_id (w_state w) = Some id ∧ view_leader (w_state w) u = Ok id) →
  stays (handle_proposal fuel p) w.
Proof.
  intros Hqc Hown Hw. destruct fuel as [|fuel]; [done|]. simpl.
  destruct (handle_proposal_prefix (handle_vote_with (handle_proposal fuel)) p w)
    as [(o & w1 & -> & Hq & Hs & _)|(w1 & -> & Hq & Hv & _ & Hor)].
  { eapply behind_state; [exact Hs|apply Hq|done]. }
  assert (behind w1) as Hw1.
  { apply (behind_quiet w); [done| | |done].
    - rewrite Hv, (bh_view _ Hw). unfold advanced. by destruct (Z.eqb_spec (qc_view (proposal_qc p)) u).
    - destruct Hor as [-> | ->]; [apply Hw|done]. }
  destruct (save_proposal p (w_client w1)) as [o c] eqn:Hsave.
  destruct (try_commit_run p (set_client c w1)) as (w2 & Hcommit & Hvotes & Hst & _).
  rewrite (store_and_vote_run _ _ _ _ _ _ Hsave Hcommit).
  assert (behind w2) as Hw2 by by eapply behind_state; [..|exact Hw1].
  assert (behind (set_client c w1)) as Hc by by eapply behind_state; [..|exact Hw1].
  destruct o; try done. rewrite (bh_view _ Hw2). destruct (Z.eqb_spec (proposal_view p) u) as [Hp|]; [|done].
  destruct (Hown Hp) as (id & Hid & Hl). apply (stays_vote_proposal _ _ id); [done|..|done].
  - rewrite Hst. simpl. unfold local_authority_id in *.
    by rewrite (qu_keystore _ _ Hq), (qu_authorities _ _ Hq).
  - rewrite <- Hl. apply view_leader_congr. rewrite Hst. apply (qu_authorities _ _ Hq).
Qed.

Lemma stays_propose fuel pl tc w :
  (∃ id, local_authority_id (w_state w) = Some id ∧ view_leader (w_state w) u = Ok id) →
  stays (propose (handle_proposal fuel) pl tc) w.
Proof.
  intros Hlead. apply stays_read. intros Hw. apply stays_lift. intros p Hp.
  apply stays_bind; [apply stays_gossip|]. intros [] w' [= <-] _.
  apply stays_handle_proposal; [|done].
  unfold make_proposal in Hp. destruct (local_authority_id (w_state w)); [|done]. simpl in Hp.
  destruct (sign_digest _ _ _); simpl in Hp; [done|]. simplify_eq. apply Hw.
Qed.

(** Choosing a payload changes no state that matters here. *)
Lemma get_proposal_payload_state w :
  w_state (get_proposal_payload w).2 = w_state w ∧ w_log (get_proposal_payload w).2 = w_log w.
Proof. by destruct (get_proposal_payload_agree w w) as (o & b & -> & _). Qed.

Lemma stays_get_payload w : stays get_proposal_payload w.
Proof.
  intros Hw. destruct (get_proposal_payload_state w) as [Hs Hl].
  apply (behind_state w); [done|by rewrite Hl|done].
Qed.

Definition leads w : Prop :=
  ∃ id, local_authority_id (w_state w) = Some id ∧ view_leader (w_state w) u = Ok id.

Lemma stays_generate_proposal fuel tc w : leads w → stays (generate_proposal fuel tc) w.
Proof.
  intros Hlead. apply stays_bind; [apply stays_get_payload|]. intros [pl|] w' Hget _; [|apply stays_ret].
  destruct (get_proposal_payload_state w) as [Hs _]. rewrite Hget in Hs. simpl in Hs.
  apply stays_propose. by rewrite Hs.
Qed.

Lemma stays_propose_next fuel w : leads w → stays (propose_next (handle_proposal fuel)) w.
Proof.
  intros Hlead. apply stays_bind; [apply stays_get_payload|]. intros [pl|] w' Hget _; [|apply stays_ret].
  destruct (get_proposal_payload_state w) as [Hs _]. rewrite Hget in Hs. simpl in Hs.
  apply stays_get. intros _. destruct (third_empty _ _ _); [apply stays_ret|].
  apply stays_bind; [by apply stays_modify; case_match|]. intros [] w1 [= <-] _.
  apply stays_bind; [by apply stays_modify|]. intros [] w2 [= <-] _.
  apply stays_propose. simpl. case_match; simpl; by rewrite Hs.
Qed.

Lemma stays_handle_vote fuel v w : vote_view v ≠ u → stays (handle_vote fuel v) w.
Proof.
  intros Hv. apply stays_read. intros Hw. apply stays_lift. intros [] Hver.
  assert (vote_verify v As = Ok ()) as Hvv.
  { unfold verify_vote in Hver. rewrite (bh_authorities _ Hw) in Hver. by case_match. }
  apply stays_bind.
  { intros _. unfold on_state, zoom, cs_add_vote. rewrite (bh_authorities _ Hw).
    pose proof (add_vote_ok As _ v Hsmall (bh_aggregator _ Hw) Hvv) as Hok.
    pose proof (timeout_maker_add_vote (cs_aggregator (w_state w)) v As u) as Hm.
    destruct (add_vote _ _ _) as [r a]. simpl in *. destruct Hw. split; try done.
    unfold timeouts, timed_out. simpl. by rewrite Hm. }
  intros [qc|] w1 Hadd Hw1; [|apply stays_ret].
  apply stays_bind.
  { apply stays_handle_qc. unfold on_state, zoom, cs_add_vote in Hadd.
    rewrite (bh_authorities _ Hw) in Hadd.
    destruct (add_vote (cs_aggregator (w_state w)) v As) as [r a] eqn:E. simpl in Hadd. simplify_eq.
    destruct (add_vote_qc As (cs_aggregator (w_state w)) v qc Hsmall (bh_aggregator _ Hw) Hvv) as (_ & _ & _ & ->);
      [by rewrite E|done]. }
  intros [] w2 _ Hw2. apply stays_get. intros _. apply stays_lift. intros l Hl.
  unfold is_local. destruct (local_authority_id (w_state w2)) as [id|] eqn:Hid; [|apply stays_ret].
  case_bool_decide; [|apply stays_ret]. subst l. apply stays_propose_next.
  exists id. by rewrite (bh_view _ Hw2) in Hl.
Qed.

Lemma stays_lead (m : Comp Worker HotstuffError unit) w :
  (leads w → stays m w) →
  stays (s ← gets w_state; leader ← lift (is_leader s);
         if leader : bool then m else mret ()) w.
Proof.
  intros Hm. apply stays_read. intros Hw. apply stays_lift. intros [] Hl; [|apply stays_ret].
  apply Hm. rewrite is_leader_view_leader, (bh_view _ Hw) in Hl.
  unfold leads. destruct (view_leader (w_state w) u) as [l| | |]; simplify_eq/=.
  apply bool_decide_eq_true in Hl. by exists l.
Qed.

(** Collecting a timeout of another view, or one of [T]. *)
Lemma stays_add_timeout t w :
  timeout_verify t As = Ok () → (timeout_view t = u → timeout_voter t ∈ T) → behind w →
  let r := on_state (cs_add_timeout t) w in
  behind r.2 ∧ ∀ tc, r.1 = Ok (Some tc) → tc_view tc = timeout_view t ∧ timeout_view t ≠ u.
Proof.
  intros Hver Ht Hw. cbv zeta. unfold on_state, zoom, cs_add_timeout. rewrite (bh_authorities _ Hw).
  destruct (add_timeout_certifies As (cs_aggregator (w_state w)) t Hsmall (bh_aggregator _ Hw) Hver)
    as (Hok & Hto & _ & Hres).
  destruct (add_timeout _ _ _) as [r a]. simpl in *. pose proof (bh_timeouts _ Hw) as Hsub.
  split.
  - destruct Hw. split; try done. unfold timeouts in *. simpl. rewrite Hto.
    destruct (bool_decide_reflect (u = timeout_view t)) as [Heq|]; [|done].
    apply union_subseteq. split; [|done]. apply singleton_subseteq_l. by apply Ht.
  - intros tc ->. case_bool_decide as Hq; [|done]. destruct Hres as (tc' & [= <-] & ->).
    split; [done|]. intros Hview. rewrite Hview in *. destruct Hq as [Hnew Hq].
    change (timed_out _ u) with (timeouts w u) in *.
    apply HT. eapply quorum_mono; [|exact Hq].
    replace (S (size (timeouts w u))) with (size ({[timeout_voter t]} ∪ timeouts w u))
      by (rewrite size_union, size_singleton; [done|by apply disjoint_singleton_l]).
    apply subseteq_size, union_subseteq. split; [|done]. apply singleton_subseteq_l. by apply Ht.
Qed.

Lemma stays_handle_timeout fuel t w :
  qc_view (timeout_high_qc t) ≠ u → (timeout_view t = u → timeout_voter t ∈ T) →
  stays (handle_timeout fuel t) w.
Proof.
  intros Hqc Ht. apply stays_read. intros Hw. rewrite (bh_view _ Hw), Z.gtb_ltb.
  destruct (Z.ltb_spec (timeout_view t) u) as [|Hle]; [apply stays_ret|].
  apply stays_lift. intros [] Hver. unfold verify_timeout in Hver. rewrite (bh_authorities _ Hw) in Hver.
  apply stays_bind; [by apply stays_handle_qc|]. intros [] w1 _ Hw1.
  destruct (stays_add_timeout t w1 Hver Ht Hw1) as [Hw2 Hsome].
  apply stays_bind; [intros _; exact Hw2|]. intros [tc|] w2 Hadd _; [|apply stays_ret].
  destruct (Hsome tc) as [Htc Hne]; [by rewrite Hadd|]. clear Hw2.
  apply stays_read. intros Hw2. rewrite (bh_view _ Hw2).
  apply stays_bind.
  { case_match; [|apply stays_ret].
    apply stays_bind; [apply stays_advance_view; lia|]. intros [] w3 _ _. by apply stays_emit. }
  intros [] w3 _ _. apply stays_bind; [apply stays_gossip|]. intros [] w4 _ _.
  apply stays_lead. intros Hlead. apply stays_bind; [by apply stays_modify|]. intros [] w5 [= <-] _.
  by apply stays_generate_proposal.
Qed.

Lemma stays_handle_tc fuel tc w : tc_view tc ≠ u → stays (handle_tc fuel tc) w.
Proof.
  intros Htc. apply stays_read. intros Hw. apply stays_lift. intros [] Hver.
  assert (u < tc_view tc) as Hlt.
  { unfold verify_tc in Hver. rewrite (bh_view _ Hw) in Hver.
    destruct (Z.ltb_spec (tc_view tc) u); [done|lia]. }
  apply stays_bind; [by apply stays_advance_view|]. intros [] w1 _ _.
  apply stays_bind; [by apply stays_emit|]. intros [] w2 _ _.
  apply stays_bind; [by apply stays_modify|]. intros [] w3 _ _.
  apply stays_lead. apply stays_generate_proposal.
Qed.

Lemma stays_handle_local_timer fuel w : stays (handle_local_timer fuel) w.
Proof.
  apply stays_bind; [by apply stays_emit|]. intros [] w1 _ _.
  apply stays_bind; [intros []; by split|]. intros [] w2 _ _.
  apply stays_read. intros Hw. apply stays_lift. intros t Hmt.
  apply stays_bind; [apply stays_gossip|]. intros [] w3 _ _.
  unfold make_timeout in Hmt. destruct (local_authority_id (w_state w2)) as [id|] eqn:Hid; [|done].
  simpl in Hmt. destruct (sign_digest _ _ _); simpl in Hmt; [done|]. simplify_eq.
  apply stays_handle_timeout; [apply Hw|]. intros _. by apply (bh_local _ Hw).
Qed.

Lemma stays_run_once fuel e w : bypasses e → stays (run_once fuel e) w.
Proof.
  intros He Hw. rewrite run_once_snd. revert Hw.
  destruct e as [|[p|v|t|tc|h id|]]; simpl in He |- *.
  - apply stays_handle_local_timer.
  - apply stays_handle_proposal; tauto.
  - by apply stays_handle_vote.
  - apply stays_handle_timeout; tauto.
  - by apply stays_handle_tc.
  - done.
  - done.
Qed.

(** A step of a node that the committee has left in view [u]: an event that
    bypasses its view, or what its network task and its client do. *)
Inductive bypassed_step (fuel : nat) w : Worker → Prop :=
| PassEvent e : bypasses e → bypassed_step fuel w (run_once fuel e w).2
| PassQueue q : bypassed_step fuel w (set_queue q w)
| PassClient c : bypassed_step fuel w (set_client c w).

Lemma bypassed_events fuel es w :
  Forall bypasses es → rtc (bypassed_step fuel) w (foldl (λ w e, (run_once fuel e w).2) w es).
Proof.
  intros Hes. revert w. induction Hes as [|e es He _ IH]; intros w; [done|].
  eapply rtc_l; [by apply (PassEvent _ _ e)|apply IH].
Qed.

Lemma bypassed_steps fuel w w' : rtc (bypassed_step fuel) w w' → behind w → behind w'.
Proof.
  induction 1 as [|w w1 w' [e He|q|c] _ IH]; [done|..]; intros Hw; apply IH.
  - by apply stays_run_once.
  - by apply (behind_state w).
  - by apply (behind_state w).
Qed.
End behind.

Section left_behind.
Context `{Platform} {CL : Client} `{!PlatformLaws} `{!ClientLaws}.
Implicit Types (w : Worker).

Definition own_id w : gset AuthorityId :=
  match local_authority_id (w_state w) with Some id => {[id]} | None => ∅ end.

(** C27: a node that the committee has left in its view [u] stays there for good.
    Take messages that are not of view [u] and carry no certificate of view [u]:
    proposals and timeouts of other views on certificates of other views, votes and
    timeout certificates of other views.  However many of them it gets, in whatever
    order, however often its timer fires and whatever its client and its queue do,
    its view stays the same and it never votes in a later one, as long as its high
    QC is not of view [u] and the timeouts of [u] it has, with its own, are no
    quorum.  (A certificate of view [u] itself, as in the proposal of the next view,
    would move it; later ones do not.) *)
Theorem left_behind_stays fuel fuel' w w' :
  let u := cs_view (w_state w) in
  reachable fuel w → committee w → u < u64_max →
  qc_view (cs_high_qc (w_state w)) ≠ u →
  ¬ quorum (cs_authorities (w_state w)) (size (own_id w ∪ timeouts w u)) →
  rtc (bypassed_step u fuel') w w' →
  cs_view (w_state w') = u ∧ Forall (λ v, vote_view v <= u) (votes_of (w_log w')).
Proof.
  intros u Hr%reachable_winv [Hnd Hlen] Hmax Hhigh HT Hsteps. pose proof (wi_view _ Hr) as Hv.
  assert (behind (cs_authorities (w_state w)) u (own_id w ∪ timeouts w u) w) as Hw.
  { split; try done.
    - apply Hr.
    - intros id Hid. unfold own_id. rewrite Hid. apply elem_of_union_l. by apply elem_of_singleton.
    - apply union_subseteq_r.
    - destruct (wi_votes _ Hr) as [_ Hall]. eapply Forall_impl; [exact Hall|].
      intros v (Hle & _). simpl. unfold u. lia. }
  destruct (bypassed_steps (cs_authorities (w_state w)) u (own_id w ∪ timeouts w u)
    Hnd Hlen (authorities_small _ Hr) ltac:(unfold u; lia) HT fuel' w w' Hsteps Hw). done.
Qed.
End left_behind.

(** ** A quorum of timeouts *)
Section view_change.
Context `{Platform} {CL : Client} `{!PlatformLaws} `{!ClientLaws}.
Implicit Types (w : Worker) (t : Timeout).

Definition timeout_event t : Event := Received (CM_Timeout t).

(** A valid timeout of the node's view with an older certificate. *)
Definition timeout_for w t : Prop :=
  timeout_verify t (cs_authorities (w_state w)) = Ok () ∧ timeout_view t = cs_view (w_state w) ∧
  qc_view (timeout_high_qc t) < cs_view (w_state w).

(** What [handle_timeout] does with a certificate. *)
Definition lead_timeout (fuel : nat) (tc : TC) : Comp Worker HotstuffError unit :=
  s ← gets w_state;
  (if tc_view tc >=? cs_view s then advance_view (tc_view tc);; emit ETimerReset else mret ());;
  gossip (CM_TC tc) true;;
  s ← gets w_state;
  leader ← lift (is_leader s);
  if leader : bool then
    modify (set_processing None);;
    generate_proposal fuel (Some tc)
  else mret ().

Lemma lead_timeout_run fuel tc w w2 lead :
  cs_view (w_state w) <= tc_view tc → advance_view (tc_view tc) w = (Ok (), w2) →
  is_leader (w_state w2) = Ok lead →
  let w3 := log_effect (EGossip gossip_topic (scale_encode (CM_TC tc)) true)
              (log_effect ETimerReset w2) in
  lead_timeout fuel tc w =
    if lead : bool then generate_proposal fuel (Some tc) (set_processing None w3) else (Ok (), w3).
Proof.
  intros Hv Hadv Hlead w3.
  assert ((if tc_view tc >=? cs_view (w_state w)
    then advance_view (tc_view tc);; emit ETimerReset else mret ()) w
    = (Ok (), log_effect ETimerReset w2)) as Hfirst.
  { replace (tc_view tc >=? cs_view (w_state w)) with true by lia.
    unfold mbind, comp_bind. by rewrite Hadv. }
  unfold lead_timeout, gets, mbind, comp_bind in *. rewrite Hfirst. unfold gossip, emit, modify.
  fold w3. unfold lift. change (w_state w3) with (w_state w2). rewrite Hlead. by destruct lead.
Qed.

(** A timeout of the node's view is collected. *)
Lemma handle_timeout_collects fuel t w o :
  timeout_for w t →
  (add_timeout (cs_aggregator (w_state w)) t (cs_authorities (w_state w))).1 = Ok o →
  handle_timeout fuel t w = (match o with None => mret () | Some tc => lead_timeout fuel tc end)
    (with_aggregator (add_timeout (cs_aggregator (w_state w)) t (cs_authorities (w_state w))).2 w).
Proof.
  intros (Hver & Hview & Hqc) Ho.
  unfold handle_timeout, gets, lift, on_state, zoom, cs_add_timeout, mbind, comp_bind.
  rewrite Hview, Z.gtb_ltb, Z.ltb_irrefl. unfold verify_timeout. rewrite Hver.
  unfold handle_qc at 1, gets, mbind, comp_bind. rewrite Z.geb_leb.
  destruct (Z.leb_spec (cs_view (w_state w)) (qc_view (timeout_high_qc t))); [lia|]. simpl.
  unfold with_aggregator. destruct (add_timeout _ _ _) as [r a]. simpl in *. by rewrite Ho.
Qed.

Lemma late_timeout fuel t w :
  timeout_view t < cs_view (w_state w) → (run_once fuel (Received (CM_Timeout t)) w).2 = w.
Proof.
  intros Hlt. rewrite run_once_snd. simpl. unfold handle_timeout, gets, mbind, comp_bind.
  by rewrite Z.gtb_ltb, (proj2 (Z.ltb_lt _ _) Hlt).
Qed.

(** Whether a new timeout of the node's view makes a certificate. *)
Lemma timeout_for_certifies w t :
  winv w → timeout_for w t → timeout_voter t ∉ timeouts w (cs_view (w_state w)) →
  let r := add_timeout (cs_aggregator (w_state w)) t (cs_authorities (w_state w)) in
  winv (with_aggregator r.2 w) ∧
  timeouts (with_aggregator r.2 w) (cs_view (w_state w)) =
    {[timeout_voter t]} ∪ timeouts w (cs_view (w_state w)) ∧
  if bool_decide (quorum (cs_authorities (w_state w)) (S (size (timeouts w (cs_view (w_state w))))))
  then ∃ tc, r.1 = Ok (Some tc) ∧ tc_view tc = cs_view (w_state w)
  else r.1 = Ok None.
Proof.
  intros Hw (Hver & Hview & _) Hnew r.
  destruct (add_timeout_certifies _ _ t (authorities_small _ Hw) (wi_aggregator _ Hw) Hver)
    as (Hok & Hto & _ & Hres).
  fold r in Hok, Hto, Hres. rewrite Hview in Hres. split; [by apply (step_aggregator r.2 w)|].
  split; [unfold timeouts; simpl; by rewrite Hto, bool_decide_eq_true_2|].
  change (timed_out _ (cs_view (w_state w))) with (timeouts w (cs_view (w_state w))) in Hres.
  repeat case_bool_decide; tauto.
Qed.

(** New timeouts that do not reach the quorum are only collected. *)
Lemma timeouts_gather fuel ts es w :
  let u := cs_view (w_state w) in
  winv w → Forall (timeout_for w) ts → NoDup (timeout_voter <$> ts) →
  Forall (λ t, timeout_voter t ∉ timeouts w u) ts →
  ¬ quorum (cs_authorities (w_state w)) (size (timeouts w u) + length ts) →
  ∃ a, run fuel ((timeout_event <$> ts) ++ es) w = run fuel es (with_aggregator a w) ∧
    winv (with_aggregator a w) ∧
    timeouts (with_aggregator a w) u = list_to_set (timeout_voter <$> ts) ∪ timeouts w u.
Proof.
  revert w. induction ts as [|t ts IH]; intros w u Hw Hts Hnd Hnew Hquo.
  { exists (cs_aggregator (w_state w)). split; [by destruct w as [[]]|]. split; [by destruct w as [[]]|].
    simpl. by rewrite (left_id_L ∅ (∪)). }
  apply Forall_cons in Hts as [Ht Hts]. apply Forall_cons in Hnew as [Hn Hnew].
  apply NoDup_cons in Hnd as [Hfresh Hnd]. simpl length in Hquo.
  destruct (timeout_for_certifies w t Hw Ht Hn) as (Hw1 & Hto & Hres). fold u in Hto, Hres.
  rewrite bool_decide_eq_false_2 in Hres
    by (intros Hq; apply Hquo; eapply quorum_mono; [|exact Hq]; lia).
  rewrite fmap_cons. cbn [app run]. unfold run_once, catch, mbind, comp_bind. simpl run_handler.
  rewrite (handle_timeout_collects fuel t w None Ht Hres). cbn [mret comp_ret].
  set (w1 := with_aggregator _ w) in *.
  destruct (IH w1) as (a & Hrun & Ha & Hto'); try done.
  - rewrite Forall_forall in Hnew |- *. intros x Hx. change (cs_view (w_state w1)) with u. rewrite Hto.
    apply not_elem_of_union. split; [|by apply Hnew].
    intros Heq%elem_of_singleton. apply Hfresh. by rewrite <- Heq; apply list_elem_of_fmap_2.
  - change (cs_view (w_state w1)) with u. change (cs_authorities (w_state w1)) with (cs_authorities (w_state w)).
    rewrite Hto, size_union, size_singleton by (by apply disjoint_singleton_l).
    intros Hq. apply Hquo. eapply quorum_mono; [|exact Hq]. lia.
  - exists a. split; [done|]. split; [done|].
    change (with_aggregator a w) with (with_aggregator a w1).
    change (cs_view (w_state w1)) with u in Hto'. rewrite Hto', Hto.
    by rewrite fmap_cons, (assoc_L (∪)), (comm_L (∪) (list_to_set _)).
Qed.

(** The block a leader takes up after a view change: the first in the queue. *)
Definition next_block w : option Payload :=
  queue ← lock_ok (w_pending_queue w);
  b ← head queue;
  Some (mkPayload (default empty_payload_hash (bi_hash b)) (bi_number b)).

Lemma get_proposal_payload_first w :
  (get_proposal_payload (set_processing None w)).1 = Ok (next_block w).
Proof.
  unfold get_proposal_payload, next_block, get, mbind, comp_bind. simpl.
  destruct (lock_ok _) as [queue|]; [|done]. simpl. by destruct (head queue).
Qed.

(** What the leader of the new view gossips. *)
Lemma generate_proposal_run `{!KeystoreLaws} fuel tc id pl w :
  local_authority_id (w_state w) = Some id →
  qc_accepted (cs_high_qc (w_state w)) (cs_authorities (w_state w)) →
  view_leader (w_state w) (cs_view (w_state w)) = Ok id → next_block w = Some pl →
  ∃ p, EGossip gossip_topic (scale_encode (CM_Propose p)) false
         ∈ w_log (generate_proposal fuel tc (set_processing None w)).2 ∧
    authentic (w_state w) p ∧ proposal_view p = cs_view (w_state w) ∧
    proposal_qc p = cs_high_qc (w_state w) ∧ proposal_payload p = pl ∧ proposal_tc p = tc.
Proof.
  intros Hid Hqc Hl Hpl.
  destruct (get_proposal_payload_agree (set_processing None w) (set_processing None w))
    as (o & b & Hget & _); [done..|].
  pose proof (get_proposal_payload_first w) as Hfirst. rewrite Hget, Hpl in Hfirst. simplify_eq/=.
  destruct (propose_run (handle_proposal fuel) pl tc id (set_processing b (set_processing None w)))
    as (p & Hrun & Hp); [done..|].
  exists p. split; [|done]. unfold generate_proposal, mbind, comp_bind. rewrite Hget, Hrun.
  match goal with |- _ ∈ w_log (handle_proposal _ _ ?w2).2 =>
    destruct (grows_handle_proposal fuel p w2) as [l ->] end.
  apply elem_of_app. left. apply elem_of_app. right. by left.
Qed.

Lemma high_qc_accepted w :
  winv w → qc_accepted (cs_high_qc (w_state w)) (cs_authorities (w_state w)).
Proof.
  intros Hw. destruct (wi_high_qc _ Hw) as [_ [-> |Hv]].
  - left. unfold qc_eqb. by rewrite bool_decide_eq_true_2.
  - right. by apply qc_verify_Ok.
Qed.

(** A node just after a view change is one that [behind] speaks of. *)
Lemma fresh_behind w w' :
  winv w → qc_view (cs_high_qc (w_state w)) <= cs_view (w_state w) →
  cs_view (w_state w') = cs_view (w_state w) + 1 →
  cs_authorities (w_state w') = cs_authorities (w_state w) →
  cs_high_qc (w_state w') = cs_high_qc (w_state w) →
  aggregator_ok (cs_authorities (w_state w)) (cs_aggregator (w_state w')) →
  votes_of (w_log w') = votes_of (w_log w) →
  ∃ T, behind (cs_authorities (w_state w)) (cs_view (w_state w) + 1) T w'.
Proof.
  intros Hw Hhigh Hview Has Hqc Hagg Hvotes. pose proof (wi_view _ Hw).
  exists (own_id w' ∪ timeouts w' (cs_view (w_state w) + 1)). split; try done.
  - rewrite Hqc. lia.
  - intros id Hid. unfold own_id. rewrite Hid. apply elem_of_union_l. by apply elem_of_singleton.
  - apply union_subseteq_r.
  - rewrite Hvotes. eapply Forall_impl; [apply (wi_votes _ Hw)|]. intros v (Hle & _). simpl. lia.
Qed.

(** The timeout that completes the quorum ends the view. *)
Lemma timeout_completes_quorum `{!KeystoreLaws} fuel t id w :
  let u := cs_view (w_state w) in
  winv w → committee w → u + 1 < u64_max → qc_view (cs_high_qc (w_state w)) <= u →
  timeout_for w t → timeout_voter t ∉ timeouts w u →
  quorum (cs_authorities (w_state w)) (S (size (timeouts w u))) →
  local_authority_id (w_state w) = Some id →
  let w' := (handle_timeout fuel t w).2 in
  cs_view (w_state w') = u + 1 ∧
  (view_leader (w_state w) (u + 1) ≠ Ok id →
   cs_last_voted_view (w_state w') = cs_last_voted_view (w_state w)) ∧
  ∃ tc, tc_view tc = u ∧ EGossip gossip_topic (scale_encode (CM_TC tc)) true ∈ w_log w' ∧
    ∀ pl, view_leader (w_state w) (u + 1) = Ok id → next_block w = Some pl →
    ∃ p, EGossip gossip_topic (scale_encode (CM_Propose p)) false ∈ w_log w' ∧
      authentic (w_state w) p ∧ proposal_view p = u + 1 ∧
      proposal_qc p = cs_high_qc (w_state w) ∧ proposal_payload p = pl ∧ proposal_tc p = Some tc.
Proof.
  intros u Hw [Hnd Hlen] Hmax Hhigh Ht Hnew Hq Hid w'. subst w'. pose proof (wi_view _ Hw) as Hview.
  destruct (timeout_for_certifies w t Hw Ht Hnew) as (Hw1 & _ & Hres). fold u in Hres.
  rewrite bool_decide_eq_true_2 in Hres by done. destruct Hres as (tc & Hres & Htc).
  rewrite (handle_timeout_collects fuel t w (Some tc) Ht Hres).
  set (w1 := with_aggregator _ w) in *.
  destruct (advance_view_run (tc_view tc) w1) as (w2 & Hadv & Hq2 & Hv2 & Hh2); [simpl; lia|].
  assert (cs_view (w_state w2) = u + 1) as Hu2.
  { rewrite Hv2. simpl. fold u. unfold advanced. rewrite Htc. fold u. rewrite Z.eqb_refl.
    apply u64_wrap_small. unfold u64_ok, u64_max in *. lia. }
  assert (cs_authorities (w_state w2) = cs_authorities (w_state w)) as Has by apply (qu_authorities _ _ Hq2).
  assert (local_authority_id (w_state w2) = Some id) as Hid2.
  { rewrite <- Hid. unfold local_authority_id. by rewrite (qu_keystore _ _ Hq2), Has. }
  assert (∀ v, view_leader (w_state w2) v = view_leader (w_state w) v) as Hvl
    by (intros v; by apply view_leader_congr).
  destruct (view_leader_lookup (w_state w) (u + 1)) as (l & Hl & _); [apply Hw|].
  assert (is_leader (w_state w2) = Ok (bool_decide (Some id = Some l))) as Hlead.
  { by rewrite is_leader_view_leader, Hu2, Hvl, Hl, Hid2. }
  rewrite (lead_timeout_run fuel tc w1 w2 _ ltac:(simpl; lia) Hadv Hlead).
  set (w3 := log_effect _ _).
  assert (EGossip gossip_topic (scale_encode (CM_TC tc)) true ∈ w_log w3) as Hgos
    by (apply elem_of_app; right; by left).
  case_bool_decide as Heq; cbn [snd].
  2:{ split; [done|]. split; [intros _; apply (qu_voted _ _ Hq2)|]. exists tc. split; [done|].
      split; [done|]. intros pl Hl'. congruence. }
  injection Heq as <-. split; [|split; [done|]].
  - destruct (fresh_behind w (set_processing None w3)) as (T & Hb); try done.
    { simpl. rewrite (qu_aggregator _ _ Hq2). apply Hw1. }
    { simpl. by rewrite !votes_of_snoc, !app_nil_r, (qu_votes _ _ Hq2). }
    assert (0 <= u + 1 < u64_max) as Hu1 by lia.
    apply (stays_generate_proposal _ _ _ Hnd Hlen Hu1 fuel (Some tc)) in Hb; [apply Hb|].
    exists id. split; [done|]. etrans; [apply Hvl|done].
  - exists tc. split; [done|]. split.
    { destruct (grows_generate_proposal fuel (Some tc) (set_processing None w3)) as [k ->].
      apply elem_of_app. by left. }
    intros pl _ Hpl.
    destruct (generate_proposal_run fuel (Some tc) id pl w3) as (p & Hp & Ha & Hpv & Hpq & Hpp & Hpt); try done.
    + simpl. rewrite Hh2, Has. exact (high_qc_accepted w Hw).
    + simpl. by rewrite Hu2, Hvl.
    + unfold next_block in *. simpl. by rewrite (qu_queue _ _ Hq2).
    + exists p. simpl in *. split; [done|]. split; [|by rewrite Hpv, Hpq, Hh2].
      unfold authentic in *. rewrite <- Ha. by apply verify_proposal_congr.
Qed.

(** C8: a quorum ends a view without progress: let valid timeouts of the node's own
    view from distinct authorities it has no timeout of, with certificates of
    earlier views, reach a node whose high QC is not of a later view, in any order,
    and let only the last of them complete the quorum.  Then the node gossips a
    timeout certificate and goes to the next view, no further.  If it leads that
    view and a block is waiting, it gossips a proposal of the new view for the
    first block of the queue, on its highest certificate and with the timeout
    certificate, which every peer with the same authorities accepts.  (So the view
    is not view 0, where no certificate is older.) *)
Theorem timeouts_change_view `{!KeystoreLaws} fuel fuel' (ts : list Timeout) t id w :
  let u := cs_view (w_state w) in
  reachable fuel w → committee w → u + 1 < u64_max → qc_view (cs_high_qc (w_state w)) <= u →
  Forall (timeout_for w) (ts ++ [t]) → NoDup (timeout_voter <$> ts ++ [t]) →
  Forall (λ t, timeout_voter t ∉ timeouts w u) (ts ++ [t]) →
  ¬ quorum (cs_authorities (w_state w)) (size (timeouts w u) + length ts) →
  quorum (cs_authorities (w_state w)) (size (timeouts w u) + length ts + 1) →
  local_authority_id (w_state w) = Some id →
  let w' := run_events fuel' (timeout_event <$> ts ++ [t]) w in
  cs_view (w_state w') = u + 1 ∧
  ∃ tc, tc_view tc = u ∧ EGossip gossip_topic (scale_encode (CM_TC tc)) true ∈ w_log w' ∧
    ∀ pl, view_leader (w_state w) (u + 1) = Ok id → next_block w = Some pl →
    ∃ p, EGossip gossip_topic (scale_encode (CM_Propose p)) false ∈ w_log w' ∧
      authentic (w_state w) p ∧ proposal_view p = u + 1 ∧
      proposal_qc p = cs_high_qc (w_state w) ∧ proposal_payload p = pl ∧ proposal_tc p = Some tc.
Proof.
  intros u Hw%reachable_winv Hc Hmax Hhigh Hts Hnd Hnew Hnq Hq Hid w'. subst w'.
  apply Forall_app in Hts as [Hts [Ht _]%Forall_cons].
  apply Forall_app in Hnew as [Hnew [Hn _]%Forall_cons].
  rewrite fmap_app in Hnd. apply NoDup_app in Hnd as (Hnd & Hdisj & _).
  unfold run_events. rewrite fmap_app.
  destruct (timeouts_gather fuel' ts (timeout_event <$> [t]) w Hw Hts Hnd Hnew Hnq)
    as (a & -> & Ha & Hto).
  destruct (timeout_completes_quorum fuel' t id (with_aggregator a w)) as (Hv & _ & tc & Htc & Hg & Hp);
    try done.
  - change (cs_view (w_state (with_aggregator a w))) with u. fold u in Hto. rewrite Hto.
    apply not_elem_of_union. split; [|done].
    rewrite elem_of_list_to_set. intros Hin. apply (Hdisj _ Hin). by left.
  - change (cs_view (w_state (with_aggregator a w))) with u. fold u in Hto.
    rewrite Hto, size_union, size_list_to_set, length_fmap; [|done|].
    + eapply quorum_mono; [|exact Hq]. lia.
    + intros x Hx%elem_of_list_to_set Hx'. apply list_elem_of_fmap in Hx as (y & -> & Hy).
      rewrite Forall_forall in Hnew. by apply (Hnew y).
  - assert (∀ x, (run fuel' (timeout_event <$> [t]) x).2 = (handle_timeout fuel' t x).2) as Hone.
    { intros x. destruct (run_events_cons fuel' (timeout_event t) [] x) as [Hr|Hr];
        unfold run_events in Hr; cbn [fmap list_fmap]; rewrite Hr; cbn [run snd mret comp_ret];
        by rewrite run_once_snd. }
    rewrite Hone. split; [done|]. exists tc. split; [done|]. by split.
Qed.
End view_change.

Section witnesses.
#[local] Existing Instance ref_platform.
#[local] Existing Instance ref_platform_laws.
#[local] Existing Instance ref_keystore_laws.
#[local] Existing Instance ref_client.
#[local] Existing Instance ref_client_laws.

Lemma ref_voter_committee : committee ref_voter.
Proof.
  unfold committee. change (cs_authorities (w_state ref_voter)) with (ref_authorities 4).
  split; [vm_decide|simpl; lia].
Qed.

(** Authority 1 in view 3: its timer fires twice, and a proposal of view 6, a vote
    and a timeout of view 7 arrive. *)
Definition ref_late_events : list Event :=
  [TimerFired;
   Received (CM_Propose (ref_proposal 3 6 (ref_qc (ref_hash 9) 5 [2; 3; 4]) (ref_block 3)));
   Received (CM_Vote (ref_vote 2 7 (ref_hash 8)));
   Received (CM_Timeout (ref_timeout 4 7 (ref_qc (ref_hash 9) 5 [2; 3; 4])));
   TimerFired].

Lemma left_behind_stays_witness :
  cs_view (w_state (foldl (λ w e, (run_once 2 e w).2) ref_voter ref_late_events)) = 3.
Proof.
  assert (cs_view (w_state ref_voter) = 3) as Hview by vm_refl.
  destruct (left_behind_stays 2 2 ref_voter
    (foldl (λ w e, (run_once 2 e w).2) ref_voter ref_late_events)) as [Hv _].
  - exact ref_voter_reachable.
  - exact ref_voter_committee.
  - apply Z.ltb_lt. vm_refl.
  - vm_decide.
  - vm_decide.
  - rewrite Hview. apply bypassed_events. repeat (constructor; [simpl; lia|]). constructor.
  - exact (eq_trans Hv Hview).
Defined.

(** Authority 1 leads view 4; the others time view 3 out. *)
Lemma timeouts_change_view_witness :
  let qc := ref_qc (proposal_digest ref_p2) 2 [1; 2; 3] in
  ∃ p, EGossip gossip_topic (scale_encode (CM_Propose p)) false
         ∈ w_log (run_events 2 (timeout_event <$> [ref_timeout 2 3 qc; ref_timeout 3 3 qc] ++
                    [ref_timeout 4 3 qc]) ref_voter) ∧
    authentic (w_state ref_voter) p ∧ proposal_view p = 4.
Proof.
  intros qc. assert (cs_view (w_state ref_voter) = 3) as Hview by vm_refl.
  assert (is_Some (next_block ref_voter)) as [pl Hpl]
    by (apply is_Some_alt; vm_compute; exact I).
  destruct (timeouts_change_view 2 2 [ref_timeout 2 3 qc; ref_timeout 3 3 qc] (ref_timeout 4 3 qc)
    (ref_id 1) ref_voter) as (_ & tc & _ & _ & Hp).
  - exact ref_voter_reachable.
  - exact ref_voter_committee.
  - apply Z.ltb_lt. vm_refl.
  - apply Z.leb_le. vm_refl.
  - repeat (constructor; [split; [vm_refl|split; [vm_refl|apply Z.ltb_lt; vm_refl]]|]). constructor.
  - vm_decide.
  - repeat (constructor; [vm_decide|]). constructor.
  - vm_decide.
  - vm_decide.
  - vm_refl.
  - destruct (Hp pl) as (p & Hin & Ha & Hpv & _); [vm_refl|exact Hpl|].
    rewrite Hview in Hpv. exists p. split; [exact Hin|]. split; [exact Ha|exact Hpv].
Defined.
End witnesses.
