(* ===== verification/Cluster.v ===== *)
(** * A committee of nodes

    Honest authorities run the worker of [Worker]; the others are faulty and may
    send anything: the only thing they cannot do is sign for an honest node, so
    every valid signature of an honest key in their messages is one it gave,
    whatever else they change around it.  [net_act] is the network as an executable
    step function and [net_step] adds what happens around the nodes.  The theorems: quorum intersection makes
    certificates unique per view, and the missing locking rule lets two honest
    nodes finalize different blocks of the same height. *)
From S2P Require Import Prelude Codec Primitives Reference Message Aggregator.
From S2P Require Import Synchronizer Network ConsensusState Import Worker WorkerFacts WorkerSafety.
Local Open Scope Z_scope.

Section network.
Context `{Platform} {CL : Client}.
(** The honest nodes by their identity. *)
Abbreviation cluster := (gmap AuthorityId Worker).
Implicit Types (nodes : cluster).

(** The messages a node has gossiped. *)
Definition gossiped (w : Worker) : list bytes := gossiped_of (w_log w).
Definition messages (w : Worker) : list ConsensusMessage := omap decode_all (gossiped w).

(** What a node has signed: its votes, and the proposals and timeouts it sent. *)
Definition voted (w : Worker) (h : Hash) (view : ViewNumber) : bool :=
  existsb (λ v, bool_decide (vote_proposal_hash v = h ∧ vote_view v = view)) (votes_of (w_log w)).

Definition proposed (w : Worker) (digest : Hash) : bool :=
  existsb (λ m, match m with
                | CM_Propose p => bool_decide (proposal_digest p = digest)
                | _ => false
                end) (messages w).
Definition timed (w : Worker) (digest : Hash) : bool :=
  existsb (λ m, match m with
                | CM_Timeout t => bool_decide (timeout_digest t = digest)
                | _ => false
                end) (messages w).

(** A signature of [digest] under the key [id]: the key is not an honest node's,
    the signature is not valid, or the node has given it. *)
Definition unforged nodes (id : AuthorityId) (digest : Hash) (given : Worker → bool)
    (signature : AuthoritySignature) : bool :=
  match nodes !! id with
  | Some w => negb (authority_verify signature digest id) || given w
  | None => true
  end.
Definition unforged_option nodes id digest given (signature : option AuthoritySignature) : bool :=
  from_option (unforged nodes id digest given) true signature.

(** Valid votes of honest nodes in a certificate were really made. *)
Definition genuine nodes (qc : QC) : bool :=
  forallb (λ x, unforged nodes x.1 (qc_digest qc)
                  (λ w, voted w (qc_proposal_hash qc) (qc_view qc)) x.2) (qc_votes qc).

(** What the faulty authorities can put on the wire. *)
Definition forgeable nodes (m : ConsensusMessage) : bool :=
  match m with
  | CM_Propose p =>
      unforged_option nodes (proposal_author p) (proposal_digest p)
        (λ w, proposed w (proposal_digest p)) (proposal_signature p) &&
      genuine nodes (proposal_qc p)
  | CM_Vote v =>
      unforged_option nodes (vote_voter v) (vote_digest v)
        (λ w, voted w (vote_proposal_hash v) (vote_view v)) (vote_signature v)
  | CM_Timeout t =>
      unforged_option nodes (timeout_voter t) (timeout_digest t)
        (λ w, timed w (timeout_digest t)) (timeout_signature t) &&
      genuine nodes (timeout_high_qc t)
  | CM_TC _ | CM_SyncRequest _ _ | CM_Phantom => true
  end.

Inductive Action :=
(** The local timer of [id] fires. *)
| ATimer (id : AuthorityId)
(** The message [from] gossiped [back] messages ago reaches [to]. *)
| ARelay (from : AuthorityId) (back : nat) (to : AuthorityId)
(** The faulty authorities send [data] to [to]. *)
| AForge (data : bytes) (to : AuthorityId).

Definition handle_at (fuel : nat) nodes (id : AuthorityId) (e : Event) : option cluster :=
  w ← nodes !! id;
  if cs_view (w_state w) + room fuel <=? u64_max
  then Some (<[id := (run_once fuel e w).2]> nodes) else None.

Definition net_act (fuel : nat) (a : Action) nodes : option cluster :=
  match a with
  | ATimer id => handle_at fuel nodes id TimerFired
  | ARelay from back to =>
      w ← nodes !! from;
      data ← rev (gossiped w) !! back;
      m ← decode_all data;
      handle_at fuel nodes to (Received m)
  | AForge data to =>
      m ← decode_all data;
      if forgeable nodes m then handle_at fuel nodes to (Received m) else None
  end.

Fixpoint net_run (fuel : nat) (schedule : list Action) nodes : option cluster :=
  match schedule with
  | [] => Some nodes
  | a :: rest => net_act fuel a nodes ≫= net_run fuel rest
  end.

(** A node handles an event, or its queue is polled or its client moves on. *)
Inductive net_step (fuel : nat) nodes : cluster → Prop :=
| NetAction a nodes' : net_act fuel a nodes = Some nodes' → net_step fuel nodes nodes'
| NetBackground id w w' :
    nodes !! id = Some w → background w w' → net_step fuel nodes (<[id := w']> nodes).

(** No node of the cluster has handled an event yet; each knows its key and the
    same authorities. *)
Definition cluster_initial (authorities : AuthorityList) nodes : Prop :=
  ∀ id w, nodes !! id = Some w →
    idle w ∧ cs_authorities (w_state w) = authorities ∧
    local_authority_id (w_state w) = Some id.

Definition cluster_reachable (fuel : nat) (authorities : AuthorityList) nodes : Prop :=
  ∃ nodes0, cluster_initial authorities nodes0 ∧ rtc (net_step fuel) nodes0 nodes.

Lemma net_run_steps fuel schedule nodes nodes' :
  net_run fuel schedule nodes = Some nodes' → rtc (net_step fuel) nodes nodes'.
Proof.
  revert nodes. induction schedule as [|a schedule IH]; intros nodes; simpl; [by intros [= ->]|].
  intros (nodes1 & Ha & Hr)%bind_Some. eapply rtc_l; [by eapply NetAction|by apply IH].
Qed.
End network.

Section agreement.
Context `{Platform} {CL : Client} `{!PlatformLaws} `{!ClientLaws}.
Implicit Types (nodes : gmap AuthorityId Worker) (authorities : AuthorityList).

Definition cluster_ok fuel authorities nodes : Prop :=
  ∀ id w, nodes !! id = Some w →
    reachable fuel w ∧ cs_authorities (w_state w) = authorities ∧
    local_authority_id (w_state w) = Some id.

Lemma node_moves_ok fuel authorities nodes id w w' :
  cluster_ok fuel authorities nodes → nodes !! id = Some w → node_step fuel w w' →
  cluster_ok fuel authorities (<[id := w']> nodes).
Proof.
  intros Hok Hw Hs. destruct (Hok id w Hw) as (Hr & Ha & Hl).
  destruct (node_step_ok fuel w _ (reachable_winv fuel w Hr) Hs) as (_ & _ & _ & _ & Ha' & Hk' & _).
  intros id' w1 [[<- <-]|[? ?]]%lookup_insert_Some; [|by apply Hok]. split_and!.
  - destruct Hr as (w0 & Hi & Hrtc). exists w0. split; [done|]. by eapply rtc_r.
  - by rewrite Ha'.
  - unfold local_authority_id. by rewrite Ha', Hk'.
Qed.

Lemma handle_at_ok fuel authorities nodes nodes' id e :
  cluster_ok fuel authorities nodes → event_ok e → handle_at fuel nodes id e = Some nodes' →
  cluster_ok fuel authorities nodes'.
Proof.
  intros Hok He Hh. unfold handle_at in Hh. apply bind_Some in Hh as (w & Hw & Hh).
  destruct (Z.leb_spec (cs_view (w_state w) + room fuel) u64_max); [|done]. simplify_eq.
  eapply node_moves_ok; [done..|]. by apply NEvent.
Qed.

Lemma decoded_event_ok data m : decode_all data = Some m → event_ok (Received m).
Proof.
  unfold decode_all. intros ([m' r] & Hd & ->)%fmap_Some. simpl. by eapply decode_ok.
Qed.

Lemma net_act_ok fuel authorities a nodes nodes' :
  cluster_ok fuel authorities nodes → net_act fuel a nodes = Some nodes' →
  cluster_ok fuel authorities nodes'.
Proof.
  intros Hok. destruct a as [id|from back to|data to]; simpl.
  - by apply handle_at_ok.
  - intros (w & _ & (data & _ & (m & Hm & Hh)%bind_Some)%bind_Some)%bind_Some.
    by eapply handle_at_ok; [|eapply decoded_event_ok|].
  - intros (m & Hm & Hh)%bind_Some. destruct (forgeable nodes m); [|done].
    by eapply handle_at_ok; [|eapply decoded_event_ok|].
Qed.

Lemma cluster_reachable_ok fuel authorities nodes :
  cluster_reachable fuel authorities nodes → cluster_ok fuel authorities nodes.
Proof.
  intros (nodes0 & Hi & Hr).
  assert (cluster_ok fuel authorities nodes0) as Hok.
  { intros id w Hw. destruct (Hi id w Hw) as (? & ? & ?). split; [by apply idle_reachable|done]. }
  clear Hi. induction Hr as [|nodes nodes1 nodes2 Hs _ IH]; [done|]. apply IH.
  destruct Hs as [a nodes1 Ha|id w w' Hw Hb]; [by eapply net_act_ok|].
  by eapply node_moves_ok; [..|apply NBackground].
Qed.

(** The voters of a valid certificate of authorities. *)
Lemma qc_quorum authorities (qc : QC) :
  qc_verify qc authorities = Ok () → Forall (λ x, x.1 ∈ authorities.*1) (qc_votes qc) →
  let V : gset AuthorityId := list_to_set (qc_votes qc).*1 in
  V ⊆ list_to_set authorities.*1 ∧ two_thirds authorities < Z.of_nat (size V).
Proof.
  intros (Hnd & Hq & _)%qc_verify_Ok Hin V. split.
  - intros id. unfold V. rewrite !elem_of_list_to_set, list_elem_of_fmap.
    intros (x & -> & Hx). rewrite Forall_forall in Hin. by apply Hin.
  - unfold V. rewrite list_to_set_NoDup_size, length_fmap by done. done.
Qed.

Lemma genuine_voted nodes authorities qc id w :
  genuine nodes qc = true → qc_verify qc authorities = Ok () → id ∈ (qc_votes qc).*1 →
  nodes !! id = Some w →
  ∃ v, v ∈ votes_of (w_log w) ∧ vote_proposal_hash v = qc_proposal_hash qc ∧
       vote_view v = qc_view qc.
Proof.
  intros Hg (_ & _ & Hsig)%qc_verify_Ok (x & -> & Hx)%list_elem_of_fmap Hw. unfold genuine in Hg.
  rewrite forallb_forall in Hg. specialize (Hg x). rewrite <- list_elem_of_In in Hg.
  specialize (Hg Hx). unfold unforged in Hg. rewrite Hw in Hg.
  rewrite Forall_forall in Hsig. specialize (Hsig x Hx). unfold qc_vote_valid in Hsig.
  rewrite Hsig in Hg. simpl in Hg. unfold voted in Hg. apply existsb_elem_of in Hg as (v & Hv & Hb).
  apply bool_decide_eq_true in Hb as [??]. eauto.
Qed.

(** C2: at most one proposal is certified per view: in every reachable state of
    a committee in which fewer than a third of the authorities are faulty, two
    certificates of one view that [QC::verify] accepts, whose voters all are
    authorities and in which every valid signature of an honest node was given by
    it in this run, certify the same proposal.  The voters have to be authorities
    because [QC::verify] does not check it. *)
Theorem one_certificate_per_view fuel authorities nodes (qc qc' : QC) :
  cluster_reachable fuel authorities nodes →
  NoDup authorities.*1 → (∀ id, is_Some (nodes !! id) → id ∈ authorities.*1) →
  (3 * (length authorities - size nodes) < length authorities)%nat →
  qc_verify qc authorities = Ok () → qc_verify qc' authorities = Ok () →
  Forall (λ x, x.1 ∈ authorities.*1) (qc_votes qc) →
  Forall (λ x, x.1 ∈ authorities.*1) (qc_votes qc') →
  genuine nodes qc = true → genuine nodes qc' = true →
  qc_view qc = qc_view qc' → qc_proposal_hash qc = qc_proposal_hash qc'.
Proof.
  intros Hr%cluster_reachable_ok Hnd Hdom Hf Hv Hv' Hin Hin' Hg Hg' Hview.
  destruct (qc_quorum _ _ Hv Hin) as [Hsub Hsz], (qc_quorum _ _ Hv' Hin') as [Hsub' Hsz'].
  set (N := list_to_set authorities.*1 : gset AuthorityId) in *.
  assert (size N = length authorities) as HN.
  { unfold N. by rewrite list_to_set_NoDup_size, length_fmap. }
  assert (dom nodes ⊆ N) as Hdn.
  { intros id Hid. apply elem_of_list_to_set, Hdom. by apply elem_of_dom. }
  assert (size (N ∖ dom nodes) = length authorities - size nodes)%nat as HB.
  { by rewrite size_difference, HN, size_dom. }
  edestruct (quorum_intersection N _ _ (N ∖ dom nodes) Hsub Hsub') as (id & Hid & Hid' & Hhonest).
  { rewrite HN, HB. unfold two_thirds in *.
    pose proof (Z.mul_succ_div_gt (Z.of_nat (length authorities) * 2) 3 ltac:(lia)). lia. }
  apply elem_of_list_to_set in Hid, Hid'.
  assert (is_Some (nodes !! id)) as [w Hw].
  { apply elem_of_dom. apply not_elem_of_difference in Hhonest as [Hn|?]; [|done].
    exfalso. apply Hn, Hsub. by apply elem_of_list_to_set. }
  destruct (genuine_voted _ _ _ _ _ Hg Hv Hid Hw) as (v & Hvin & <- & Hvv).
  destruct (genuine_voted _ _ _ _ _ Hg' Hv' Hid' Hw) as (v' & Hvin' & <- & Hvv').
  destruct (Hr id w Hw) as [Hwr _]. apply reachable_winv in Hwr.
  destruct (wi_votes _ Hwr) as [Hs _].
  by rewrite (sorted_fmap_inj vote_view _ v v' Hs Hvin Hvin' ltac:(congruence)).
Qed.
End agreement.

(** ** A run with one faulty authority of four *)
Section fork.
#[local] Existing Instance ref_platform.
#[local] Existing Instance ref_platform_laws.
#[local] Existing Instance ref_client.
#[local] Existing Instance ref_client_laws.

(** Two blocks of height 1; the node has been told of the first. *)
Definition fork_chain : ref_client_state :=
  mkRefClient [(ref_hash 1001, 1); (ref_hash 2001, 1)] 1 (ref_hash 0, 0) ∅.
Definition fork_worker (i : Z) : Worker :=
  set_queue (mkMutex false [mkBlockInfo (Some (ref_hash 1001)) 1]) (ref_new 4 i fork_chain).

(** Authorities 2, 3 and 4 are honest, authority 1 is not. *)
Definition fork_cluster : gmap AuthorityId Worker :=
  list_to_map ((λ i, (ref_id i, fork_worker i)) <$> [2; 3; 4]).

Definition timer (i : Z) : Action := ATimer (ref_id i).
Definition relay (i : Z) (back : nat) (j : Z) : Action := ARelay (ref_id i) back (ref_id j).
Definition forge (m : ConsensusMessage) (j : Z) : Action := AForge (scale_encode m) (ref_id j).

Definition empty_payload : Payload := mkPayload empty_payload_hash 1.
(** The digests of the honest proposals of views 2, 3 and 5. *)
Definition digest2 : Hash :=
  proposal_digest (ref_proposal 3 2 qc_default (mkPayload (ref_hash 1001) 1)).
Definition digest3 : Hash := proposal_digest (ref_proposal 4 3 (mkQC digest2 2 []) empty_payload).
(** The faulty leader of view 4 proposes twice: on view 3, and on nothing. *)
Definition faulty4 : Proposal := ref_proposal 1 4 (ref_qc digest3 3 [2; 3; 4]) empty_payload.
Definition faulty4' : Proposal := ref_proposal 1 4 qc_default (mkPayload (ref_hash 2001) 1).
Definition digest5 : Hash :=
  proposal_digest (ref_proposal 2 5 (mkQC (proposal_digest faulty4') 4 []) empty_payload).
Definition faulty_timeout : ConsensusMessage := CM_Timeout (ref_timeout 1 3 qc_default).

Definition fork_schedule : list Action :=
  (* all time out of views 0 and 1; 3 leads view 2 and proposes block 1001 *)
  [timer 2; timer 3; timer 4; timer 2; timer 3; timer 4; relay 2 0 3; relay 4 0 3;
   relay 3 3 2; relay 4 0 2; relay 2 1 4; relay 3 3 4;
  (* its votes reach 4, which proposes view 3 *)
   relay 3 1 2; relay 3 1 4; relay 3 0 4; relay 2 0 4;
   relay 4 1 2; relay 4 1 3;
  (* the faulty leader shows view 4 to 4 only, which finalizes block 1001 *)
   forge (CM_Propose faulty4) 4;
  (* 2 and 3 time out of view 3 and get another proposal of view 4 *)
   timer 2; timer 3; relay 3 0 2; relay 2 0 3; forge faulty_timeout 2; forge faulty_timeout 3;
   forge (CM_Propose faulty4') 2; forge (CM_Propose faulty4') 3;
  (* they vote for it, and for the next two *)
   relay 3 0 2; forge (CM_Vote (ref_vote 1 4 (proposal_digest faulty4'))) 2;
   relay 2 1 3; relay 2 0 3; forge (CM_Vote (ref_vote 1 5 digest5)) 3].

Definition fork_end : gmap AuthorityId Worker :=
  default ∅ (net_run 2 fork_schedule fork_cluster).
Definition fork_node (i : Z) : Worker := default (fork_worker i) (fork_end !! ref_id i).

Lemma fork_worker_idle i : idle (fork_worker i).
Proof.
  change (idle (set_queue (mkMutex false (best_blocks [mkImportNotification (ref_hash 1001) 1 true]))
    (ref_new 4 i fork_chain))).
  apply idle_filled; [by apply ref_worker_initial|]. by constructor.
Qed.

Lemma fork_cluster_initial : cluster_initial (ref_authorities 4) fork_cluster.
Proof.
  intros id w Hw. apply elem_of_list_to_map_2 in Hw.
  apply list_elem_of_fmap in Hw as (i & [= -> ->] & Hi). split; [apply fork_worker_idle|].
  split; [done|]. repeat (apply elem_of_cons in Hi as [->|Hi]; [vm_refl|]).
  by apply not_elem_of_nil in Hi.
Qed.

Lemma fork_end_run : net_run 2 fork_schedule fork_cluster = Some fork_end.
Proof.
  unfold fork_end. assert (is_Some (net_run 2 fork_schedule fork_cluster)) as [x ->]; [|done].
  apply is_Some_alt. vm_compute. exact I.
Qed.

Lemma fork_end_reachable : cluster_reachable 2 (ref_authorities 4) fork_end.
Proof.
  exists fork_cluster. split; [apply fork_cluster_initial|].
  exact (net_run_steps _ _ _ _ fork_end_run).
Qed.

(** C25: the missing locking rule breaks agreement: with one faulty authority
    of four, there is a run of three honest nodes, exchanging only messages
    they sent and messages the faulty one can sign, in which two of them
    finalize different blocks of the same height. *)
Theorem missing_lock_breaks_agreement :
  cluster_initial (ref_authorities 4) fork_cluster ∧
  net_run 2 fork_schedule fork_cluster = Some fork_end ∧
  (3 * (4 - size fork_end) < 4)%nat ∧
  fork_end !! ref_id 3 = Some (fork_node 3) ∧ fork_end !! ref_id 4 = Some (fork_node 4) ∧
  ref_hash 1001 ∈ finalized_of (w_log (fork_node 4)) ∧
  ref_hash 2001 ∈ finalized_of (w_log (fork_node 3)) ∧
  ref_hash 1001 ≠ ref_hash 2001 ∧
  rc_number fork_chain (ref_hash 1001) = rc_number fork_chain (ref_hash 2001).
Proof.
  split; [apply fork_cluster_initial|]. split; [apply fork_end_run|]. split; [apply Nat.ltb_lt; vm_refl|].
  assert (∀ i, bool_decide (is_Some (fork_end !! ref_id i)) = true →
    fork_end !! ref_id i = Some (fork_node i)) as Hnode.
  { intros i [x Hx]%bool_decide_eq_true. unfold fork_node. by rewrite Hx. }
  do 2 (split; [apply Hnode; vm_refl|]).
  split; [vm_decide|]. split; [vm_decide|]. split; [vm_decide|reflexivity].
Qed.

(** The certificate of view 2, with and without the faulty authority's vote. *)
Lemma one_certificate_per_view_witness :
  qc_proposal_hash (ref_qc digest2 2 [2; 3; 4]) = qc_proposal_hash (ref_qc digest2 2 [1; 2; 3]).
Proof.
  refine (one_certificate_per_view 2 (ref_authorities 4) fork_end _ _ fork_end_reachable
    _ _ _ _ _ _ _ _ _ _).
  - vm_decide.
  - intros id Hid. apply elem_of_dom in Hid. revert id Hid.
    assert (dom fork_end ⊆ list_to_set (ref_authorities 4).*1) as Hd by vm_decide.
    intros id Hid. apply Hd in Hid. by apply elem_of_list_to_set in Hid.
  - apply Nat.ltb_lt. vm_refl.
  - vm_refl.
  - vm_refl.
  - vm_decide.
  - vm_decide.
  - vm_refl.
  - vm_refl.
  - reflexivity.
Defined.
End fork.
