(* ===== verification/Progress.v ===== *)
(** * The schedule of a synchronous committee

    [sync_run] is a run of a committee of honest nodes in which messages arrive in
    rounds: the timers and the timeouts take all nodes to view 2, and then each
    leader's proposal reaches all nodes and their votes reach the next leader.
    The lemmas: the rounds are a run of the network of [Cluster], and what folding
    one step over all nodes does to each.  [NodeRound] has the steps of one node,
    [Finality] the theorem. *)
From S2P Require Import Prelude Codec Primitives Reference Message Aggregator.
From S2P Require Import Synchronizer Network ConsensusState Import Worker WorkerFacts WorkerSafety.
From S2P Require Import Liveness Cluster.
Local Open Scope Z_scope.
Local Open Scope machine_scope.

(** ** The schedule *)
Section schedule.
Context `{Platform} {CL : Client}.
Abbreviation cluster := (gmap AuthorityId Worker).
Implicit Types (nodes : cluster) (ids : list AuthorityId) (w : Worker).

(** The last message of a kind that a node has gossiped. *)
Definition latest (kind : ConsensusMessage → bool) w : option ConsensusMessage :=
  List.find kind (rev (messages w)).

Definition is_proposal (view : ViewNumber) (m : ConsensusMessage) : bool :=
  match m with CM_Propose p => proposal_view p =? view | _ => false end.
Definition is_vote (view : ViewNumber) (m : ConsensusMessage) : bool :=
  match m with CM_Vote v => vote_view v =? view | _ => false end.
Definition is_timeout (view : ViewNumber) (m : ConsensusMessage) : bool :=
  match m with CM_Timeout t => timeout_view t =? view | _ => false end.

(** The timer of [id] fires; the last message of a kind [from] sent reaches [to].
    Nothing happens when there is none. *)
Definition fire (fuel : nat) nodes (id : AuthorityId) : cluster :=
  default nodes (handle_at fuel nodes id TimerFired).
Definition deliver (fuel : nat) kind (from to : AuthorityId) nodes : cluster :=
  match nodes !! from ≫= latest kind with
  | Some m => default nodes (handle_at fuel nodes to (Received m))
  | None => nodes
  end.

Definition others (id : AuthorityId) ids : list AuthorityId := filter (λ x, x ≠ id) ids.
Definition collect (fuel : nat) kind ids (to : AuthorityId) nodes : cluster :=
  foldl (λ n from, deliver fuel kind from to n) nodes (others to ids).
Definition broadcast (fuel : nat) kind ids (from : AuthorityId) nodes : cluster :=
  foldl (λ n to, deliver fuel kind from to n) nodes (others from ids).

Definition leader ids (view : ViewNumber) : option AuthorityId :=
  ids !! Z.to_nat (view mod Z.of_nat (length ids)).

(** Every timer fires twice, and all timeouts of view 1 reach everyone. *)
Definition start_up (fuel : nat) ids nodes : cluster :=
  foldl (λ n to, collect fuel (is_timeout 1) ids to n)
    (foldl (fire fuel) (foldl (fire fuel) nodes ids) ids) ids.
(** The proposal of a view reaches everyone; the votes of a view reach the next
    leader. *)
Definition proposal_round (fuel : nat) ids (view : ViewNumber) nodes : cluster :=
  match leader ids view with
  | Some l => broadcast fuel (is_proposal view) ids l nodes
  | None => nodes
  end.
Definition vote_round (fuel : nat) ids (view : ViewNumber) nodes : cluster :=
  match leader ids (view + 1) with
  | Some l => collect fuel (is_vote view) ids l nodes
  | None => nodes
  end.

(** The first proposal is of view 2; then [k] more views. *)
Fixpoint sync_run (fuel : nat) ids (k : nat) nodes : cluster :=
  match k with
  | O => proposal_round fuel ids 2 (start_up fuel ids nodes)
  | S k =>
      proposal_round fuel ids (3 + Z.of_nat k)
        (vote_round fuel ids (2 + Z.of_nat k) (sync_run fuel ids k nodes))
  end.

(** ** Steps of the network *)

Lemma latest_Some_elem kind w m : latest kind w = Some m → m ∈ messages w ∧ kind m = true.
Proof.
  unfold latest. intros [Hin Hk]%find_Some_iff. split; [|done].
  by rewrite list_elem_of_In in *; apply in_rev.
Qed.

(** A node's last message of a kind, after it has sent another one or none. *)
Lemma latest_snoc `{!PlatformLaws} kind w w' m :
  message_ok m → gossiped w' = gossiped w ++ [scale_encode m] →
  latest kind w' = if kind m then Some m else latest kind w.
Proof.
  intros Hm Hg. unfold latest, messages. rewrite Hg, omap_app. simpl.
  rewrite (decode_all_encode (ok := message_ok)) by done. by rewrite rev_app_distr.
Qed.
Lemma latest_same kind w w' : gossiped w' = gossiped w → latest kind w' = latest kind w.
Proof. intros Hg. unfold latest, messages. by rewrite Hg. Qed.

Definition has_room (fuel : nat) w : Prop := cs_view (w_state w) + room fuel <= u64_max.

Lemma handle_at_Some fuel nodes id w e :
  nodes !! id = Some w → has_room fuel w →
  handle_at fuel nodes id e = Some (<[id := (run_once fuel e w).2]> nodes).
Proof. intros Hw Hr. unfold handle_at. rewrite Hw. simpl. by rewrite (proj2 (Z.leb_le _ _) Hr). Qed.

Lemma deliver_eq fuel kind from to nodes wf m w :
  nodes !! from = Some wf → latest kind wf = Some m → nodes !! to = Some w → has_room fuel w →
  deliver fuel kind from to nodes = <[to := (run_once fuel (Received m) w).2]> nodes.
Proof.
  intros Hf Hm Hw Hr. unfold deliver. rewrite Hf. simpl. rewrite Hm.
  by rewrite (handle_at_Some _ _ _ _ _ Hw Hr).
Qed.

(** Events at one node: [R] holds of it after each prefix of the events. *)
Lemma fold_one fuel (f : cluster → AuthorityId → cluster) (event : AuthorityId → Event)
    to nodes froms (R : list AuthorityId → Worker → Prop) :
  (∃ w, nodes !! to = Some w ∧ R [] w) →
  (∀ from w, from ∈ froms → has_room fuel w →
     f (<[to := w]> nodes) from = <[to := (run_once fuel (event from) w).2]> nodes) →
  (∀ done from w, done ++ [from] `prefix_of` froms → R done w →
     has_room fuel w ∧ R (done ++ [from]) (run_once fuel (event from) w).2) →
  ∃ w, foldl f nodes froms = <[to := w]> nodes ∧ R froms w.
Proof.
  intros (w0 & Hw0 & HR0) Hf Hstep.
  assert (∀ done, done `prefix_of` froms → ∃ w, foldl f nodes done = <[to := w]> nodes ∧ R done w)
    as Hall; [|by apply Hall].
  induction done as [|from done IH] using rev_ind; intros Hpre.
  { exists w0. simpl. by rewrite insert_id. }
  destruct IH as (w & Hfold & HR); [by etrans; [apply prefix_app_r|]|].
  destruct (Hstep done from w Hpre HR) as [Hroom HR'].
  rewrite foldl_app, Hfold. simpl. eexists. split; [|exact HR'].
  apply Hf; [|done]. destruct Hpre as [k ->].
  apply elem_of_app. left. apply elem_of_app. right. by left.
Qed.

(** Several senders, one receiver. *)
Lemma deliver_to_one fuel kind to nodes froms (msg : AuthorityId → ConsensusMessage)
    (R : list AuthorityId → Worker → Prop) :
  (∃ w, nodes !! to = Some w ∧ R [] w) → to ∉ froms →
  (∀ from, from ∈ froms → ∃ wf, nodes !! from = Some wf ∧ latest kind wf = Some (msg from)) →
  (∀ done from w, done ++ [from] `prefix_of` froms → R done w →
     has_room fuel w ∧ R (done ++ [from]) (run_once fuel (Received (msg from)) w).2) →
  ∃ w, foldl (λ n from, deliver fuel kind from to n) nodes froms = <[to := w]> nodes ∧ R froms w.
Proof.
  intros Hw Hto Hfrom. apply fold_one; [done|]. intros from w Hin Hroom.
  destruct (Hfrom from Hin) as (wf & Hwf & Hm).
  rewrite (deliver_eq fuel kind from to _ wf (msg from) w);
    [|by rewrite lookup_insert_ne by congruence|done|apply lookup_insert_eq|done].
  by rewrite insert_insert_eq.
Qed.

(** Nodes of [ids] that change one after the other, each from [P] to [Q]; the
    nodes outside [ids] stay. *)
Lemma fold_nodes (f : cluster → AuthorityId → cluster) nodes ids (P Q : AuthorityId → Worker → Prop) :
  NoDup ids →
  (∀ id, id ∈ ids → ∃ w, nodes !! id = Some w ∧ P id w) →
  (∀ n id w, id ∈ ids → n !! id = Some w → P id w →
     (∀ id, id ∈ ids → ∃ w, n !! id = Some w ∧ (P id w ∨ Q id w)) →
     (∀ id, id ∉ ids → n !! id = nodes !! id) →
     ∃ w', f n id = <[id := w']> n ∧ Q id w') →
  (∀ id, id ∈ ids → ∃ w, foldl f nodes ids !! id = Some w ∧ Q id w) ∧
  (∀ id, id ∉ ids → foldl f nodes ids !! id = nodes !! id).
Proof.
  intros Hnd HP Hstep.
  assert (∀ done todo, ids = done ++ todo →
    (∀ id, id ∈ done → ∃ w, foldl f nodes done !! id = Some w ∧ Q id w) ∧
    (∀ id, id ∉ done → foldl f nodes done !! id = nodes !! id)) as Hall.
  2: { by apply (Hall ids []); rewrite app_nil_r. }
  induction done as [|id done IH] using rev_ind; intros todo Heq.
  { split; [by intros ? ?%not_elem_of_nil|done]. }
  rewrite <- app_assoc in Heq. destruct (IH ([id] ++ todo) Heq) as [HQ Hsame].
  assert (id ∉ done) as Hid.
  { rewrite Heq in Hnd. apply NoDup_app in Hnd as (_ & Hd & _). intros ?. eapply Hd; [done|by left]. }
  assert (id ∈ ids) as Hin by (rewrite Heq; apply elem_of_app; right; by left).
  destruct (HP id Hin) as (w & Hw & HPw).
  rewrite foldl_app. simpl. destruct (Hstep (foldl f nodes done) id w) as (w' & -> & HQ'); try done.
  - by rewrite Hsame.
  - intros x Hx. destruct (decide (x ∈ done)) as [Hd|Hd]; [destruct (HQ x Hd) as (wx & ? & ?)|
      destruct (HP x Hx) as (wx & ? & ?); rewrite Hsame by done]; eauto.
  - intros x Hx. apply Hsame. contradict Hx. rewrite Heq. apply elem_of_app. by left.
  - split.
    + intros x Hx. destruct (decide (x = id)) as [->|Hne]; [rewrite lookup_insert_eq; eauto|].
      rewrite lookup_insert_ne by done. apply HQ.
      apply elem_of_app in Hx as [?|Hx%list_elem_of_singleton]; done.
    + intros x [Hx Hxi]%not_elem_of_app. apply not_elem_of_cons in Hxi as [Hxi _].
      rewrite lookup_insert_ne by done. by apply Hsame.
Qed.

(** One sender, several receivers. *)
Lemma deliver_to_all fuel kind from nodes tos m (P Q : AuthorityId → Worker → Prop) :
  (∃ wf, nodes !! from = Some wf ∧ latest kind wf = Some m) → from ∉ tos → NoDup tos →
  (∀ to, to ∈ tos → ∃ w, nodes !! to = Some w ∧ P to w) →
  (∀ to w, to ∈ tos → P to w → has_room fuel w ∧ Q to (run_once fuel (Received m) w).2) →
  let nodes' := foldl (λ n to, deliver fuel kind from to n) nodes tos in
  (∀ to, to ∈ tos → ∃ w, nodes' !! to = Some w ∧ Q to w) ∧
  (∀ id, id ∉ tos → nodes' !! id = nodes !! id).
Proof.
  intros (wf & Hwf & Hm) Hni Hnd HP Hstep. apply (fold_nodes _ nodes tos P Q); [done..|].
  intros n to w Hto Hw HPw _ Hsame. destruct (Hstep to w Hto HPw) as [Hroom HQ].
  eexists. split; [|exact HQ]. eapply deliver_eq; [|done..]. by rewrite Hsame.
Qed.

(** The timers of several nodes. *)
Lemma fire_all fuel nodes ids (P Q : AuthorityId → Worker → Prop) :
  NoDup ids →
  (∀ id, id ∈ ids → ∃ w, nodes !! id = Some w ∧ P id w) →
  (∀ id w, id ∈ ids → P id w → has_room fuel w ∧ Q id (run_once fuel TimerFired w).2) →
  ∀ id, id ∈ ids → ∃ w, foldl (fire fuel) nodes ids !! id = Some w ∧ Q id w.
Proof.
  intros Hnd HP Hstep. apply (fold_nodes _ nodes ids P Q); [done..|].
  intros n id w Hid Hw HPw _ _. destruct (Hstep id w Hid HPw) as [Hroom HQ].
  eexists. split; [|exact HQ]. unfold fire. by rewrite (handle_at_Some _ _ _ _ _ Hw Hroom).
Qed.

(** ** The rounds are runs of the network *)

Definition runs (fuel : nat) nodes nodes' : Prop :=
  ∃ actions, net_run fuel actions nodes = Some nodes'.

#[export] Instance runs_refl fuel : Reflexive (runs fuel).
Proof. intros nodes. by exists []. Qed.
#[export] Instance runs_trans fuel : Transitive (runs fuel).
Proof.
  intros n1 n2 n3 [as1 H1] [as2 H2]. exists (as1 ++ as2). revert n1 H1.
  induction as1 as [|a as1 IH]; intros n1 H1; simpl in *; [by simplify_eq|].
  apply bind_Some in H1 as (n & Ha & Hr). rewrite Ha. simpl. by apply IH.
Qed.

Lemma runs_act fuel a nodes nodes' : net_act fuel a nodes = Some nodes' → runs fuel nodes nodes'.
Proof. intros Ha. exists [a]. simpl. by rewrite Ha. Qed.

Lemma runs_foldl {A} fuel (f : cluster → A → cluster) nodes (l : list A) :
  (∀ n x, runs fuel n (f n x)) → runs fuel nodes (foldl f nodes l).
Proof.
  intros Hf. revert nodes. induction l as [|x l IH]; intros nodes; simpl; [done|].
  etrans; [apply Hf|apply IH].
Qed.

Lemma runs_fire fuel nodes id : runs fuel nodes (fire fuel nodes id).
Proof.
  unfold fire. destruct (handle_at fuel nodes id TimerFired) eqn:E; simpl; [|done].
  by apply (runs_act fuel (ATimer id)).
Qed.

Lemma runs_deliver fuel kind from to nodes : runs fuel nodes (deliver fuel kind from to nodes).
Proof.
  unfold deliver. destruct (nodes !! from) as [w|] eqn:Hw; simpl; [|done].
  destruct (latest kind w) as [m|] eqn:Hm; [|done].
  destruct (handle_at fuel nodes to (Received m)) as [nodes'|] eqn:E; simpl; [|done].
  apply latest_Some_elem in Hm as [Hm _]. apply list_elem_of_omap in Hm as (data & Hin & Hd).
  rewrite list_elem_of_In, in_rev, <- list_elem_of_In in Hin.
  apply list_elem_of_lookup in Hin as [back Hback].
  apply (runs_act fuel (ARelay from back to)). simpl. rewrite Hw. simpl. rewrite Hback. simpl.
  by rewrite Hd.
Qed.

Lemma runs_start_up fuel ids nodes : runs fuel nodes (start_up fuel ids nodes).
Proof.
  unfold start_up, collect. etrans; [|apply runs_foldl; intros; apply runs_foldl; intros; apply runs_deliver].
  etrans; [|apply runs_foldl; apply runs_fire]. apply runs_foldl. apply runs_fire.
Qed.
Lemma runs_proposal_round fuel ids view nodes : runs fuel nodes (proposal_round fuel ids view nodes).
Proof.
  unfold proposal_round, broadcast. case_match; [|done]. apply runs_foldl. intros. apply runs_deliver.
Qed.
Lemma runs_vote_round fuel ids view nodes : runs fuel nodes (vote_round fuel ids view nodes).
Proof.
  unfold vote_round, collect. case_match; [|done]. apply runs_foldl. intros. apply runs_deliver.
Qed.

Lemma runs_sync fuel ids k k' nodes :
  (k ≤ k')%nat → runs fuel (sync_run fuel ids k nodes) (sync_run fuel ids k' nodes).
Proof.
  induction 1 as [|k' _ IH]; [done|]. etrans; [exact IH|]. simpl.
  etrans; [apply runs_vote_round|apply runs_proposal_round].
Qed.
Lemma runs_sync_all fuel ids k nodes : runs fuel nodes (sync_run fuel ids k nodes).
Proof.
  etrans; [|apply (runs_sync fuel ids 0); lia]. simpl.
  etrans; [apply runs_start_up|apply runs_proposal_round].
Qed.

(** Logs only grow along a run. *)
Lemma handle_at_log fuel nodes nodes' id e x w :
  handle_at fuel nodes id e = Some nodes' → nodes !! x = Some w →
  ∃ w', nodes' !! x = Some w' ∧ w_log w `prefix_of` w_log w'.
Proof.
  unfold handle_at. intros (w0 & Hw0 & Hh)%bind_Some Hw.
  destruct (_ <=? _); [|done]. simplify_eq.
  destruct (decide (x = id)) as [->|Hne]; [|exists w; by rewrite lookup_insert_ne].
  simplify_eq. eexists. rewrite lookup_insert_eq. split; [done|]. rewrite run_once_snd.
  apply grows_run_handler.
Qed.

Lemma runs_log fuel nodes nodes' id w :
  runs fuel nodes nodes' → nodes !! id = Some w →
  ∃ w', nodes' !! id = Some w' ∧ w_log w `prefix_of` w_log w'.
Proof.
  intros [actions Hrun]. revert nodes w Hrun. induction actions as [|a actions IH]; intros nodes w Hrun Hw;
    simpl in *; [simplify_eq; by exists w|].
  apply bind_Some in Hrun as (n & Ha & Hr).
  assert (∃ w', n !! id = Some w' ∧ w_log w `prefix_of` w_log w') as (w1 & Hw1 & Hp).
  { destruct a as [x|from back to|data to]; simpl in Ha; [by eapply handle_at_log|..].
    - apply bind_Some in Ha as (? & _ & (? & _ & (? & _ & Ha)%bind_Some)%bind_Some).
      by eapply handle_at_log.
    - apply bind_Some in Ha as (? & _ & Ha). destruct (forgeable nodes _); [|done].
      by eapply handle_at_log. }
  destruct (IH n w1 Hr Hw1) as (w' & Hw' & Hp'). exists w'. split; [done|]. by etrans.
Qed.

(** The proposals on the network, and that their digests tell them apart. *)
Definition proposals nodes : list Proposal :=
  omap (λ m, match m with CM_Propose p => Some p | _ => None end)
    (concat (messages <$> (map_to_list nodes).*2)).

Definition collision_free nodes : Prop :=
  let entries := (λ p, (proposal_digest p, p)) <$> proposals nodes in
  Forall (λ x, x.1 ≠ Hash_default ∧ Forall (λ y, x.1 = y.1 → x.2 = y.2) entries) entries.

Lemma collision_free_spec nodes p :
  collision_free nodes → p ∈ proposals nodes →
  proposal_digest p ≠ Hash_default ∧
  ∀ q, q ∈ proposals nodes → proposal_digest p = proposal_digest q → p = q.
Proof.
  unfold collision_free. cbv zeta. rewrite Forall_fmap, Forall_forall. intros Hcf Hp.
  destruct (Hcf p Hp) as [Hd Hq]. split; [exact Hd|].
  rewrite Forall_fmap, Forall_forall in Hq. exact Hq.
Qed.

Lemma elem_of_proposals nodes p id w :
  nodes !! id = Some w → CM_Propose p ∈ messages w → p ∈ proposals nodes.
Proof.
  intros Hw Hp. apply list_elem_of_omap. exists (CM_Propose p). split; [|done].
  rewrite list_elem_of_In, in_concat. exists (messages w). rewrite <- !list_elem_of_In.
  split; [|done]. apply list_elem_of_fmap_2. apply (list_elem_of_fmap_2 snd _ (id, w)).
  by apply elem_of_map_to_list.
Qed.

Lemma runs_proposals fuel nodes nodes' p id w :
  runs fuel nodes nodes' → nodes !! id = Some w → CM_Propose p ∈ messages w →
  p ∈ proposals nodes'.
Proof.
  intros Hr Hw Hp. destruct (runs_log _ _ _ _ _ Hr Hw) as (w' & Hw' & [rest Hlog]).
  eapply elem_of_proposals; [done|]. unfold messages, gossiped, gossiped_of in *.
  rewrite Hlog, !omap_app. apply elem_of_app. by left.
Qed.
End schedule.

(** ** Lists of nodes *)
Section others.
Context `{Platform}.
Implicit Types (ids : list AuthorityId) (id : AuthorityId).

Lemma elem_of_others id x ids : x ∈ others id ids ↔ x ≠ id ∧ x ∈ ids.
Proof. unfold others. by rewrite list_elem_of_filter. Qed.
Lemma NoDup_others id ids : NoDup ids → NoDup (others id ids).
Proof. apply NoDup_filter. Qed.

Lemma others_perm id ids : NoDup ids → id ∈ ids → ids ≡ₚ id :: others id ids.
Proof.
  intros Hnd Hin. apply NoDup_Permutation; [done| |].
  - apply NoDup_cons. split; [|by apply NoDup_others]. by intros [? _]%elem_of_others.
  - intros x. rewrite elem_of_cons, elem_of_others.
    destruct (decide (x = id)); naive_solver.
Qed.

(** The senders heard so far, and the node itself. *)
Lemma heard_size id (heard : list AuthorityId) from (froms : list AuthorityId) :
  NoDup froms → id ∉ froms → heard ++ [from] `prefix_of` froms →
  size ({[id]} ∪ list_to_set heard : gset AuthorityId) = S (length heard) ∧
  from ∉ ({[id]} ∪ list_to_set heard : gset AuthorityId).
Proof.
  intros Hnd Hni [rest ->]. apply NoDup_app in Hnd as (Hnd & _).
  apply NoDup_app in Hnd as (Hnd & Hdis & _).
  apply not_elem_of_app in Hni as [[Hh Hf]%not_elem_of_app _].
  apply not_elem_of_cons in Hf as [Hf _]. split.
  - rewrite size_union, size_singleton, size_list_to_set; [done|done|].
    apply disjoint_singleton_l. by rewrite elem_of_list_to_set.
  - rewrite not_elem_of_union, not_elem_of_singleton, elem_of_list_to_set.
    split; [done|]. intros Hin. apply (Hdis _ Hin). by left.
Qed.

Lemma heard_snoc id (heard : list AuthorityId) from :
  {[from]} ∪ ({[id]} ∪ list_to_set heard) =
  ({[id]} ∪ list_to_set (heard ++ [from]) : gset AuthorityId).
Proof.
  rewrite list_to_set_app_L. simpl. rewrite (right_id_L ∅ (∪)), (comm_L (∪) {[from]}).
  by rewrite (assoc_L (∪)).
Qed.
End others.
