(* ===== verification/Recovery.v ===== *)
(** * A committee gets past a silent leader

    What [ViewChange] shows of one node, for a network: the live authorities of a
    committee, at least a quorum, are in a view whose leader is silent.  Their
    timers fire and their timeouts reach each other, at every node in an order of
    its own.  The theorem: all of them go to the next view, whose leader, if it is
    live and has a block waiting, proposes it, and all the others vote for the
    proposal when it reaches them. *)
From S2P Require Import Prelude Codec Primitives Reference Message Aggregator.
From S2P Require Import Synchronizer Network ConsensusState Import Worker WorkerFacts WorkerSafety.
From S2P Require Import Liveness ViewChange Cluster Progress.
Local Open Scope Z_scope.

(** ** The schedule *)
Section schedule.
Context `{Platform} {CL : Client}.
Abbreviation cluster := (gmap AuthorityId Worker).
Implicit Types (nodes : cluster) (w : Worker).

(** The message [m], if [from] has gossiped it, reaches [to]. *)
Definition pass_on (fuel : nat) (from : AuthorityId) (m : ConsensusMessage) (to : AuthorityId) nodes :
    cluster :=
  match nodes !! from with
  | Some wf =>
      if bool_decide (scale_encode m ∈ gossiped wf)
      then default nodes (handle_at fuel nodes to (Received m)) else nodes
  | None => nodes
  end.

(** The timers of all live nodes fire; then the timeouts reach every node, in the
    order it hears of them. *)
Definition timed_out_message nodes (u : ViewNumber) (id : AuthorityId) : ConsensusMessage :=
  default CM_Phantom (nodes !! id ≫= latest (is_timeout u)).
Definition view_change (fuel : nat) (u : ViewNumber) (live : list AuthorityId)
    (order : AuthorityId → list AuthorityId) nodes : cluster :=
  let fired := foldl (fire fuel) nodes live in
  foldl (λ n to, foldl (λ n from, pass_on fuel from (timed_out_message fired u from) to n)
                   n (order to)) fired live.

Lemma runs_pass_on `{!PlatformLaws} fuel from m to nodes :
  message_ok m → runs fuel nodes (pass_on fuel from m to nodes).
Proof.
  intros Hm. unfold pass_on. destruct (nodes !! from) as [w|] eqn:Hw; [|done].
  case_bool_decide as Hin; [|done].
  destruct (handle_at fuel nodes to (Received m)) as [nodes'|] eqn:E; simpl; [|done].
  rewrite list_elem_of_In, in_rev, <- list_elem_of_In in Hin.
  apply list_elem_of_lookup in Hin as [back Hback].
  apply (runs_act fuel (ARelay from back to)). simpl. rewrite Hw. simpl. rewrite Hback. simpl.
  by rewrite (decode_all_encode (ok := message_ok)).
Qed.

Lemma pass_on_eq fuel from m to nodes wf w :
  nodes !! from = Some wf → scale_encode m ∈ gossiped wf → nodes !! to = Some w →
  has_room fuel w → pass_on fuel from m to nodes = <[to := (run_once fuel (Received m) w).2]> nodes.
Proof.
  intros Hf Hm Hw Hr. unfold pass_on. rewrite Hf, bool_decide_eq_true_2 by done.
  by rewrite (handle_at_Some _ _ _ _ _ Hw Hr).
Qed.

Lemma gossiped_run_once fuel e w data : data ∈ gossiped w → data ∈ gossiped (run_once fuel e w).2.
Proof.
  intros Hin. rewrite run_once_snd. destruct (grows_run_handler fuel e w) as [l Hl].
  unfold gossiped in *. rewrite Hl. unfold gossiped_of in *. rewrite omap_app.
  apply elem_of_app. by left.
Qed.
End schedule.

(** ** One node *)
Section node.
Context `{Platform} {CL : Client} `{!PlatformLaws} `{!ClientLaws} `{!KeystoreLaws}.
Context (As : AuthorityList) (u : ViewNumber).
Context (Hnd : NoDup As.*1) (Htwo : (2 ≤ length As)%nat).
Implicit Types (w : Worker).

(** A node in view [u] that has the timeouts of [D]; [w0] is how it started. *)
Record stalled (w0 : Worker) (id : AuthorityId) (D : gset AuthorityId) w : Prop := {
  sl_inv : winv w;
  sl_authorities : cs_authorities (w_state w) = As;
  sl_local : local_authority_id (w_state w) = Some id;
  sl_view : cs_view (w_state w) = u;
  sl_old : qc_view (cs_high_qc (w_state w)) < u;
  sl_timeouts : timeouts w u = D;
  sl_queue : w_pending_queue w = w_pending_queue w0;
  sl_high : cs_high_qc (w_state w) = cs_high_qc (w_state w0);
}.

(** A timeout of view [u] that [from] can have sent. *)
Definition sends (from : AuthorityId) (t : Timeout) : Prop :=
  timeout_ok t ∧ timeout_verify t As = Ok () ∧ timeout_view t = u ∧
  qc_view (timeout_high_qc t) < u ∧ timeout_voter t = from.

Lemma one_is_no_quorum : ¬ quorum As 1.
Proof. unfold quorum, two_thirds. Z.to_euclidean_division_equations. lia. Qed.

(** The timer of a stalled node. *)
Lemma stalled_timer fuel w0 id w :
  stalled w0 id ∅ w → has_room fuel w →
  let w' := (run_once fuel TimerFired w).2 in
  stalled w0 id {[id]} w' ∧
  ∃ t, sends id t ∧ latest (is_timeout u) w' = Some (CM_Timeout t) ∧
       scale_encode (CM_Timeout t) ∈ gossiped w'.
Proof.
  intros Hs Hroom. cbv zeta.
  pose proof (proj1 (node_step_ok fuel w _ (sl_inv _ _ _ _ Hs) (NEvent fuel w TimerFired I Hroom))) as Hinv.
  rewrite run_once_snd in *. cbn [run_handler] in *.
  destruct Hs as [Hw Has Hid Hview Hold Hto Hqueue Hhigh].
  set (w1 := set_state (increase_last_voted_view (w_state w)) (log_effect ETimerReset w)).
  destruct (make_timeout_verifies (w_state w1) id) as (t & Hmt & Htid & Htv & Hth & Htver).
  { exact Hid. } { exact (high_qc_accepted w Hw). }
  set (w2 := log_effect (EGossip gossip_topic (scale_encode (CM_Timeout t)) true) w1).
  assert (handle_local_timer fuel w = handle_timeout fuel t w2) as Hrun.
  { transitivity ((timeout ← lift (make_timeout (w_state w1));
      gossip (CM_Timeout timeout) true;; handle_timeout fuel timeout) w1); [done|]. by rewrite Hmt. }
  change (cs_view (w_state w1)) with (cs_view (w_state w)) in Htv. rewrite Hview in Htv.
  change (cs_high_qc (w_state w1)) with (cs_high_qc (w_state w)) in Hth.
  change (cs_authorities (w_state w1)) with (cs_authorities (w_state w)) in Htver.
  assert (timeout_ok t) as Htok.
  { pose proof (wi_view _ Hw). split; [rewrite Hth; apply Hw|].
    rewrite Htv. unfold u64_ok, u64_max in *. lia. }
  assert (timeout_for w2 t) as Hfor.
  { split; [done|]. split; [exact (eq_trans Htv (eq_sym Hview))|].
    rewrite Hth. change (cs_view (w_state w2)) with (cs_view (w_state w)). lia. }
  assert (winv w2) as Hw2.
  { apply (so_inv 0 w1), step_log; [done|by split; [|exists (CM_Timeout t)]|].
    apply (so_inv 0 (log_effect ETimerReset w)),
      (step_last_voted (Z.max (cs_last_voted_view (w_state w)) (cs_view (w_state w)))
         (log_effect ETimerReset w)).
    - simpl. pose proof (wi_view _ Hw). lia.
    - by apply (so_inv 0 w), step_log. }
  destruct (timeout_for_certifies w2 t Hw2 Hfor) as (_ & Hto' & Hres).
  { simpl. rewrite Hview. change (timeouts w2 u) with (timeouts w u). rewrite Hto. apply not_elem_of_empty. }
  change (cs_view (w_state w2)) with (cs_view (w_state w)) in Hto', Hres.
  assert (cs_authorities (w_state w2) = As) as Has2 by exact Has.
  rewrite Hview in Hto', Hres. change (timeouts w2 u) with (timeouts w u) in Hto', Hres.
  rewrite Hto, size_empty, Has2, bool_decide_eq_false_2 in Hres by apply one_is_no_quorum.
  rewrite Hto, (right_id_L ∅ (∪)), Htid, Has2 in Hto'.
  rewrite Hrun, (handle_timeout_collects fuel t w2 None Hfor), Has2 in * by (by rewrite Has2).
  cbn [mret comp_ret snd] in *. set (w3 := with_aggregator _ w2) in *.
  assert (gossiped w3 = gossiped w ++ [scale_encode (CM_Timeout t)]) as Hg.
  { unfold gossiped. simpl. by rewrite !gossiped_of_snoc, app_nil_r. }
  split; [by split|]. exists t. split; [|split].
  - rewrite Has in Htver. by split_and!; [..|rewrite Hth|].
  - rewrite (latest_snoc _ w w3 (CM_Timeout t)) by done. simpl. by rewrite Htv, Z.eqb_refl.
  - rewrite Hg. apply elem_of_app. right. by left.
Qed.

(** A proposal of the next view that every node of the committee accepts. *)
Record offered (w0 : Worker) (pl : Payload) (p : Proposal) : Prop := {
  of_authentic : ∀ s, cs_authorities s = As → verify_proposal s p = Ok ();
  of_view : proposal_view p = u + 1;
  of_qc : proposal_qc p = cs_high_qc (w_state w0);
  of_payload : proposal_payload p = pl;
}.

(** A node that has gone on to the next view. *)
Record moved (w0 : Worker) (id : AuthorityId) w : Prop := {
  mv_authorities : cs_authorities (w_state w) = As;
  mv_local : local_authority_id (w_state w) = Some id;
  mv_view : cs_view (w_state w) = u + 1;
  mv_follower : view_leader (w_state w) (u + 1) ≠ Ok id → cs_last_voted_view (w_state w) <= u;
  mv_leader : view_leader (w_state w) (u + 1) = Ok id → ∀ pl, next_block w0 = Some pl →
    ∃ p, offered w0 pl p ∧ scale_encode (CM_Propose p) ∈ gossiped w;
}.

Lemma gossiped_elem w topic data force : EGossip topic data force ∈ w_log w → data ∈ gossiped w.
Proof.
  intros Hin. unfold gossiped, gossiped_of. apply list_elem_of_omap.
  by exists (EGossip topic data force).
Qed.

Lemma stalled_for w0 id D w from t : stalled w0 id D w → sends from t → timeout_for w t.
Proof.
  intros [] (_ & Hver & Hview & Hqc & _). split; [congruence|]. split; [congruence|lia].
Qed.

(** Another timeout: the node goes on collecting, or on to the next view. *)
Lemma stalled_timeout fuel w0 id D w from t :
  u + 1 < u64_max → stalled w0 id D w → has_room fuel w → sends from t → from ∉ D →
  let w' := (run_once fuel (Received (CM_Timeout t)) w).2 in
  if bool_decide (quorum As (S (size D))) then moved w0 id w'
  else stalled w0 id ({[from]} ∪ D) w'.
Proof.
  intros Hmax Hs Hroom Ht Hnew. cbv zeta. pose proof (stalled_for _ _ _ _ _ _ Hs Ht) as Hfor.
  destruct (node_step_ok fuel w _ (sl_inv _ _ _ _ Hs)
    (NEvent fuel w (Received (CM_Timeout t)) (proj1 Ht) Hroom)) as (Hinv & _ & _ & _ & Has' & Hks & _).
  rewrite run_once_snd in *. cbn [run_handler] in *.
  destruct Hs as [Hw Has Hid Hview Hold Hto Hqueue Hhigh]. destruct Ht as (_ & _ & _ & _ & Hfrom).
  destruct (timeout_for_certifies w t Hw Hfor) as (_ & Hto' & Hres); [by rewrite Hview, Hto, Hfrom|].
  rewrite Hview, Hto, Has in Hres. rewrite Hview, Hto, Hfrom in Hto'.
  destruct (bool_decide_reflect (quorum As (S (size D)))) as [Hq|Hq].
  - destruct (timeout_completes_quorum fuel t id w) as (Hv & Hf & tc & _ & _ & Hp);
      unfold committee; rewrite ?Hview, ?Has, ?Hto, ?Hfrom in *; try done; [lia|].
    pose proof (wi_view _ Hw).
    split; [congruence| |done|..].
    + unfold local_authority_id in *. by rewrite Has', Hks, <- Has.
    + rewrite (view_leader_congr _ (w_state w)) by congruence. intros Hne. rewrite Hf by done. lia.
    + rewrite (view_leader_congr _ (w_state w)) by congruence. intros Hl pl Hpl.
      destruct (Hp pl Hl) as (p & Hin & Ha & Hpv & Hpq & Hpp & _).
      { unfold next_block in *. by rewrite Hqueue. }
      exists p. split; [|by eapply gossiped_elem]. split; [|done|congruence|done].
      intros s Hss. unfold authentic in Ha. rewrite <- Ha. apply verify_proposal_congr. congruence.
  - rewrite (handle_timeout_collects fuel t w None Hfor) in * by (by rewrite Has).
    by split.
Qed.

(** The timeouts of the others, one after the other. *)
Definition heard (w0 : Worker) (id : AuthorityId) (got : list AuthorityId) w : Prop :=
  if bool_decide (quorum As (S (length got))) then moved w0 id w
  else stalled w0 id ({[id]} ∪ list_to_set got) w.

Lemma heard_timeout fuel w0 id got from froms t w :
  u + 1 + room fuel <= u64_max → NoDup froms → id ∉ froms → got ++ [from] `prefix_of` froms →
  heard w0 id got w → sends from t →
  has_room fuel w ∧ heard w0 id (got ++ [from]) (run_once fuel (Received (CM_Timeout t)) w).2.
Proof.
  intros Hmax Hfroms Hid Hpre Hh Ht. unfold heard in *. rewrite length_app, Nat.add_1_r.
  assert (0 <= room fuel) by (unfold room; lia).
  destruct (bool_decide_reflect (quorum As (S (length got)))) as [Hq|Hq].
  - rewrite bool_decide_eq_true_2 by (eapply quorum_mono; [|exact Hq]; lia).
    pose proof (mv_view _ _ _ Hh) as Hv. split; [unfold has_room; lia|].
    rewrite late_timeout; [done|]. destruct Ht as (_ & _ & -> & _). lia.
  - pose proof (sl_view _ _ _ _ Hh) as Hv. assert (has_room fuel w) as Hroom by (unfold has_room; lia).
    split; [done|]. destruct (heard_size id got from froms Hfroms Hid Hpre) as [Hsz Hnew].
    pose proof (stalled_timeout fuel w0 id _ w from t ltac:(unfold room in *; lia) Hh Hroom Ht Hnew) as Hst.
    rewrite Hsz in Hst. cbv zeta in Hst. destruct (bool_decide _); [done|].
    by rewrite <- heard_snoc.
Qed.
End node.

(** ** The network *)
Section recovery.
Context `{Platform} {CL : Client} `{!PlatformLaws} `{!ClientLaws} `{!KeystoreLaws}.
Implicit Types (nodes : gmap AuthorityId Worker) (w : Worker).

Lemma timed_out_message_ok nodes u id : message_ok (timed_out_message nodes u id).
Proof.
  unfold timed_out_message. destruct (nodes !! id) as [w|]; simpl; [|done].
  destruct (latest _ w) as [m|] eqn:Hm; simpl; [|done].
  apply latest_Some_elem in Hm as [Hm _]. apply list_elem_of_omap in Hm as (data & _ & Hd).
  exact (decoded_event_ok _ _ Hd).
Qed.

(** A live node that waits for the leader of view [u]. *)
Definition waits (u : ViewNumber) w : Prop :=
  cs_view (w_state w) = u ∧ qc_view (cs_high_qc (w_state w)) < u ∧ timeouts w u = ∅.

Lemma waits_stalled fuel As nodes u id w :
  cluster_reachable fuel As nodes → nodes !! id = Some w → waits u w → stalled As u w id ∅ w.
Proof.
  intros Hr Hw (Hview & Hold & Hto).
  destruct (cluster_reachable_ok _ _ _ Hr id w Hw) as (Hreach & Has & Hid).
  split; try done. by eapply reachable_winv.
Qed.

(** Every live node after the timers, with its timeout. *)
Lemma all_fired fuel As nodes u live :
  cluster_reachable fuel As nodes → (2 ≤ length As)%nat → NoDup live → u + room fuel <= u64_max →
  (∀ id, id ∈ live → ∃ w, nodes !! id = Some w ∧ waits u w) →
  let fired := foldl (fire fuel) nodes live in
  ∀ id, id ∈ live → ∃ w0 w t, nodes !! id = Some w0 ∧ fired !! id = Some w ∧
    stalled As u w0 id {[id]} w ∧ sends As u id t ∧
    timed_out_message fired u id = CM_Timeout t ∧ scale_encode (CM_Timeout t) ∈ gossiped w.
Proof.
  intros Hr Htwo Hnd Hmax Hlive fired.
  assert (∀ id, id ∈ live → ∃ w, fired !! id = Some w ∧ ∃ w0 t, nodes !! id = Some w0 ∧
    stalled As u w0 id {[id]} w ∧ sends As u id t ∧ latest (is_timeout u) w = Some (CM_Timeout t) ∧
    scale_encode (CM_Timeout t) ∈ gossiped w) as Hall.
  { apply (fire_all fuel nodes live (λ id w, nodes !! id = Some w ∧ waits u w)); [done|..].
    - intros id Hid. destruct (Hlive id Hid) as (w & Hw & Hwait). by exists w.
    - intros id w _ [Hw Hwait]. pose proof (waits_stalled _ _ _ _ _ _ Hr Hw Hwait) as Hs.
      assert (has_room fuel w) as Hroom by (unfold has_room; destruct Hwait as [-> _]; lia).
      split; [done|]. destruct (stalled_timer As u Htwo fuel w id w Hs Hroom) as (Hs' & t & Ht & Hl & Hg).
      by exists w, t. }
  intros id Hid. destruct (Hall id Hid) as (w & Hw & w0 & t & Hw0 & Hs & Ht & Hl & Hg).
  exists w0, w, t. do 4 (split; [done|]). split; [|done].
  unfold timed_out_message. fold fired. rewrite Hw. simpl. by rewrite Hl.
Qed.

(** All live nodes go on to the next view. *)
Lemma all_moved fuel As nodes u live order :
  cluster_reachable fuel As nodes → NoDup As.*1 → (2 ≤ length As)%nat → NoDup live →
  quorum As (length live) → u + 1 + room fuel <= u64_max →
  (∀ id, id ∈ live → order id ≡ₚ others id live) →
  (∀ id, id ∈ live → ∃ w, nodes !! id = Some w ∧ waits u w) →
  let final := view_change fuel u live order nodes in
  runs fuel nodes final ∧
  ∀ id, id ∈ live → ∃ w0 w, nodes !! id = Some w0 ∧ final !! id = Some w ∧ moved As u w0 id w.
Proof.
  intros Hr HndA Htwo Hnd Hq Hmax Hord Hlive final.
  pose proof (all_fired fuel As nodes u live Hr Htwo Hnd ltac:(lia) Hlive) as Hfired.
  cbv zeta in Hfired. subst final. unfold view_change.
  set (fired := foldl (fire fuel) nodes live) in *.
  assert (∀ to from, to ∈ live → from ∈ order to → from ∈ live ∧ from ≠ to) as Hsub.
  { intros to from Hto Hfrom. rewrite (Hord to Hto), elem_of_others in Hfrom. tauto. }
  split.
  { transitivity fired; [apply runs_foldl, runs_fire|]. apply runs_foldl. intros n to.
    apply runs_foldl. intros n' from. apply runs_pass_on, timed_out_message_ok. }
  assert (∀ id, id ∈ live → ∃ w, foldl (λ n to, foldl (λ n from, pass_on fuel from
      (timed_out_message fired u from) to n) n (order to)) fired live !! id = Some w ∧
    (∃ w0, nodes !! id = Some w0 ∧ moved As u w0 id w) ∧
    scale_encode (timed_out_message fired u id) ∈ gossiped w) as Hall.
  2:{ intros id Hid. destruct (Hall id Hid) as (w & Hw & (w0 & Hw0 & Hm) & _). by exists w0, w. }
  apply (fold_nodes _ fired live
    (λ id w, (∃ w0, nodes !! id = Some w0 ∧ stalled As u w0 id {[id]} w) ∧
       scale_encode (timed_out_message fired u id) ∈ gossiped w)); [done|..].
  { intros id Hid. destruct (Hfired id Hid) as (w0 & w & t & Hw0 & Hw & Hs & _ & -> & Hg). eauto 10. }
  intros n to w Hto Hw [(w0 & Hw0 & Hs) Hg] Hsent _.
  destruct (fold_one fuel (λ n from, pass_on fuel from (timed_out_message fired u from) to n)
    (λ from, Received (timed_out_message fired u from)) to n (order to)
    (λ got w, heard As u w0 to got w ∧ scale_encode (timed_out_message fired u to) ∈ gossiped w))
    as (w' & Hfold & Hh & Hg').
  - exists w. split; [done|]. split; [|done]. unfold heard. simpl.
    rewrite bool_decide_eq_false_2 by by apply one_is_no_quorum.
    by rewrite (right_id_L ∅ (∪)).
  - intros from w1 Hin Hroom. destruct (Hsub to from Hto Hin) as [Hlv Hne].
    destruct (Hsent from Hlv) as (wf & Hwf & [[_ Hgf]|[_ Hgf]]);
      (rewrite (pass_on_eq _ _ _ _ _ wf w1);
       [by rewrite insert_insert_eq|by rewrite lookup_insert_ne|done|apply lookup_insert_eq|done]).
  - intros got from w1 Hpre [Hh Hg1].
    assert (from ∈ order to) as Hin.
    { destruct Hpre as [k ->]. apply elem_of_app. left. apply elem_of_app. right. by left. }
    destruct (Hfired from (proj1 (Hsub to from Hto Hin))) as (_ & _ & t & _ & _ & _ & Ht & Hm & _).
    rewrite Hm. destruct (heard_timeout As u HndA Htwo fuel w0 to got from (order to) t w1)
      as [Hroom Hh']; [lia| | |done|done|done|].
    { rewrite (Hord to Hto). by apply NoDup_others. }
    { by intros [_ ?]%(Hsub to to Hto). }
    split; [done|]. split; [done|]. by apply gossiped_run_once.
  - exists w'. split; [done|]. split; [|done]. exists w0. split; [done|].
    unfold heard in Hh. rewrite bool_decide_eq_true_2 in Hh; [done|].
    pose proof (Permutation_length (others_perm to live Hnd Hto)) as Hl. cbn [length] in Hl.
    by rewrite (Permutation_length (Hord to Hto)), <- Hl.
Qed.

(** C4: a committee gets past a silent leader: let the live authorities, at least
    a quorum of the committee, be in one view, which is not view 0, each with a high
    QC of an earlier view and no timeouts of this view yet.  Once their timers have
    fired and their timeouts have reached each other, at every node in any order,
    which is a run of the network, all of them are in the next view.  If its leader
    is live and has a block waiting, it has gossiped a proposal for that block on
    its highest certificate, and each other live node that knows the block and can
    store the proposal votes for it on receiving it, with a vote the whole committee
    accepts. *)
Theorem committee_changes_view fuel As nodes u live order :
  cluster_reachable (S fuel) As nodes → NoDup As.*1 → (2 ≤ length As)%nat → NoDup live →
  quorum As (length live) → u + 1 + room (S fuel) <= u64_max →
  (∀ id, id ∈ live → order id ≡ₚ others id live) →
  (∀ id, id ∈ live → ∃ w, nodes !! id = Some w ∧ waits u w) →
  let final := view_change (S fuel) u live order nodes in
  (∃ actions, net_run (S fuel) actions nodes = Some final) ∧
  (∀ id, id ∈ live → ∃ w, final !! id = Some w ∧ cs_view (w_state w) = u + 1) ∧
  ∀ l w pl, l ∈ live → nodes !! l = Some w → view_leader (w_state w) (u + 1) = Ok l →
    next_block w = Some pl →
  ∃ p, offered As u w pl p ∧
    (∃ wl, final !! l = Some wl ∧ scale_encode (CM_Propose p) ∈ gossiped wl) ∧
    ∀ id w' c, id ∈ live → id ≠ l → final !! id = Some w' → payload_known w' p →
      save_proposal p (w_client w') = (Ok (), c) →
      ∃ v, EVoted v ∈ w_log (run_once (S fuel) (Received (CM_Propose p)) w').2 ∧
        vote_proposal_hash v = proposal_digest p ∧ vote_view v = u + 1 ∧
        vote_verify v As = Ok ().
Proof.
  intros Hr HndA Htwo Hnd Hq Hmax Hord Hlive final.
  destruct (all_moved (S fuel) As nodes u live order) as [Hruns Hmoved]; [done..|].
  fold final in Hruns, Hmoved. split; [done|]. split.
  { intros id Hid. destruct (Hmoved id Hid) as (w0 & w & _ & Hw & Hm). exists w. split; [done|apply Hm]. }
  intros l w pl Hl Hw Hlead Hpl.
  destruct (cluster_reachable_ok _ _ _ Hr l w Hw) as (_ & Has & _).
  assert (∀ s, cs_authorities s = As → view_leader s (u + 1) = Ok l) as Hleads.
  { intros s Hs. rewrite <- Hlead. apply view_leader_congr. congruence. }
  destruct (Hmoved l Hl) as (w0 & wl & Hw0 & Hwl & Hm). rewrite Hw in Hw0. injection Hw0 as <-.
  destruct (mv_leader _ _ _ _ _ Hm) with pl as (p & Hp & Hg); [apply Hleads, Hm|done|].
  exists p. split; [done|]. split; [by exists wl|].
  intros id w' c Hid Hne Hw' Hk Hsave.
  destruct (Hmoved id Hid) as (w0' & w'' & _ & Hw'' & Hm'). rewrite Hw' in Hw''. injection Hw'' as <-.
  destruct (Hlive l Hl) as (wl0 & Hwl0 & _ & Hold & _). rewrite Hw in Hwl0. injection Hwl0 as <-.
  rewrite run_once_snd. simpl.
  destruct (vote_depends_on_views_only fuel p c id w') as (v & Hin & Hvh & Hvv & Hver).
  - apply Hp. apply Hm'.
  - done.
  - apply Hm'.
  - rewrite (mv_view _ _ _ _ _ Hm'), (of_qc _ _ _ _ _ Hp), (of_view _ _ _ _ _ Hp). unfold advanced.
    destruct (Z.eqb_spec (qc_view (cs_high_qc (w_state w))) (u + 1)); [lia|done].
  - rewrite (of_view _ _ _ _ _ Hp).
    enough (cs_last_voted_view (w_state w') <= u) by lia.
    apply (mv_follower _ _ _ _ _ Hm'). rewrite Hleads by apply Hm'. congruence.
  - done.
  - exists v. rewrite (of_view _ _ _ _ _ Hp) in Hvv. rewrite (mv_authorities _ _ _ _ _ Hm') in Hver.
    by split_and!.
Qed.
End recovery.

Section witnesses.
#[local] Existing Instance ref_platform.
#[local] Existing Instance ref_platform_laws.
#[local] Existing Instance ref_keystore_laws.
#[local] Existing Instance ref_client.
#[local] Existing Instance ref_client_laws.

(** Authorities 2, 3 and 4 of four in view 1, after their first timeout; authority
    1 never speaks. *)
Definition ref_live : list AuthorityId := ref_id <$> [2; 3; 4].
Definition ref_stalled : gmap AuthorityId Worker :=
  default ∅ (net_run 2 [timer 2; timer 3; timer 4] fork_cluster).

Definition ref_stalled_node (i : Z) : Worker := default (fork_worker i) (ref_stalled !! ref_id i).
Lemma ref_stalled_lookup i :
  bool_decide (is_Some (ref_stalled !! ref_id i)) = true →
  ref_stalled !! ref_id i = Some (ref_stalled_node i).
Proof. intros [w Hw]%bool_decide_eq_true. unfold ref_stalled_node. by rewrite Hw. Qed.

Lemma ref_stalled_reachable : cluster_reachable 2 (ref_authorities 4) ref_stalled.
Proof.
  exists fork_cluster. split; [apply fork_cluster_initial|].
  apply (net_run_steps 2 [timer 2; timer 3; timer 4]). unfold ref_stalled.
  assert (is_Some (net_run 2 [timer 2; timer 3; timer 4] fork_cluster)) as [x ->]; [|done].
  apply is_Some_alt. vm_compute. exact I.
Qed.

Lemma committee_changes_view_witness :
  let final := view_change 2 1 ref_live (λ id, others id ref_live) ref_stalled in
  ∃ wl p, final !! ref_id 3 = Some wl ∧ scale_encode (CM_Propose p) ∈ gossiped wl ∧
    proposal_view p = 2 ∧ proposal_payload p = mkPayload (ref_hash 1001) 1.
Proof.
  intros final.
  destruct (committee_changes_view 1 (ref_authorities 4) ref_stalled 1 ref_live
    (λ id, others id ref_live)) as (_ & _ & Hp).
  - exact ref_stalled_reachable.
  - vm_decide.
  - vm_decide.
  - vm_decide.
  - vm_decide.
  - vm_decide.
  - intros id _. reflexivity.
  - intros id Hid. unfold ref_live in Hid. cbn in Hid.
    repeat (apply elem_of_cons in Hid as [->|Hid];
      [eexists; split; [apply ref_stalled_lookup; vm_refl|];
       split; [vm_refl|]; split; [apply Z.ltb_lt; vm_refl|vm_decide]|]).
    by apply not_elem_of_nil in Hid.
  - destruct (Hp (ref_id 3) (ref_stalled_node 3) (mkPayload (ref_hash 1001) 1)) as (p & Hof & (wl & Hwl & Hg) & _).
    + vm_decide.
    + apply ref_stalled_lookup. vm_refl.
    + vm_refl.
    + vm_refl.
    + exists wl, p. split; [exact Hwl|]. split; [exact Hg|]. destruct Hof. split; assumption.
Defined.
End witnesses.
