(* ===== verification/NodeRound.v ===== *)
(** * One node in a synchronous round

    What a node does in the happy path, as equations on its state.  [Knows] is
    what a node has after it has handled the proposals of a growing chain, one
    per view from view 2 on; the lemmas say how the handlers of [Worker] extend
    it: a proposal makes the node vote and, every third time, finalize a block,
    the last vote of a quorum makes the next leader propose, and a quorum of
    timeouts takes the committee to view 2.  [Finality] puts the nodes together. *)
From S2P Require Import Prelude Codec Primitives Reference Message Aggregator.
From S2P Require Import Synchronizer Network ConsensusState Import Worker WorkerFacts WorkerSafety.
From S2P Require Import Liveness ViewChange Cluster Progress.
Local Open Scope Z_scope.
Local Open Scope machine_scope.
Ltac Zify.zify_post_hook ::= Z.to_euclidean_division_equations.

(** A client on a chain of blocks [1 .. top] with hashes [hash]: in the states
    [chain_at n] block [n] is the last finalized one, and the next one can be
    finalized.  Storing auxiliary data succeeds. *)
Record ChainClient `{Platform} {CL : Client} (hash : Number → Hash) (top : Z)
    (chain_at : Number → client → Prop) : Prop := {
  cc_number : ∀ n c, chain_at n c → info_finalized_number (client_info c) = n;
  cc_hash : ∀ n c, chain_at n c → info_finalized_hash (client_info c) = hash n;
  cc_status : ∀ n k c, chain_at n c → 0 < k <= top → client_status c (hash k) = inr InChain;
  cc_finalize : ∀ n c, chain_at n c → n < top →
    ∃ c', client_finalize_block c (hash (n + 1)) = (inr (), c') ∧ chain_at (n + 1) c';
  cc_insert : ∀ n c k v, chain_at n c →
    ∃ c', client_insert_aux c [(k, v)] [] = (inr (), c') ∧ chain_at n c';
  cc_next : ∀ n, 0 <= n < top → hash (n + 1) ≠ hash n;
  cc_marker : ∀ n, 0 < n <= top → hash n ≠ empty_payload_hash;
  cc_top : 0 < top < 2 ^ 32;
}.

(** Two or more distinct authorities on that chain. *)
Class Setting `{Platform} {CL : Client} (As : AuthorityList) (hash : Number → Hash) (top : Z)
    (chain_at : Number → client → Prop) : Prop := {
  st_chain : ChainClient hash top chain_at;
  st_small : Z.of_nat (length As) < 2 ^ 32;
  st_two : (2 ≤ length As)%nat;
  st_distinct : NoDup As.*1;
}.

Section round.
Context `{Platform} {CL : Client} `{!PlatformLaws} `{!ClientLaws} `{!KeystoreLaws}.
Context (As : AuthorityList) (hash : Number → Hash) (top : Z) (chain_at : Number → client → Prop).
Context `{!Setting As hash top chain_at}.
Implicit Types (w : Worker) (p : Proposal) (ps : list Proposal).

Lemma chain_ok : ChainClient hash top chain_at.
Proof. apply st_chain. Qed.
Lemma as_small : authorities_ok As.
Proof. pose proof st_small. unfold authorities_ok. lia. Qed.
Lemma as_nonempty : As ≠ [].
Proof. pose proof st_two as Htwo. intros E. rewrite E in Htwo. simpl in Htwo. lia. Qed.

(** ** The chain of proposals *)

(** The number of views a chain of proposals has used. *)
Definition height ps : Z := Z.of_nat (length ps).

(** Every third proposal carries a block, the two after it the marker. *)
Definition pay (j : Z) : Payload :=
  mkPayload (if j mod 3 =? 0 then hash (j / 3 + 1) else empty_payload_hash) (j / 3 + 1).

(** The pending queue: all blocks wait for finality. *)
Definition backlog : list BlockInfo := (λ k, mkBlockInfo (Some (hash k)) k) <$> seqZ 1 top.

Definition tip ps : Hash :=
  match ps with [] => Hash_default | p :: _ => proposal_digest p end.

(** [p] extends the chain [ps], newest first: the proposal of the next view on a
    certificate for the newest one, accepted by all nodes. *)
Record grows_on ps p : Prop := {
  go_view : proposal_view p = 2 + height ps;
  go_payload : proposal_payload p = pay (height ps);
  go_parent : proposal_parent_hash p = tip ps;
  go_qc : qc_view (proposal_qc p) = match ps with [] => 0 | _ => 1 + height ps end;
  go_ok : proposal_ok p;
  go_authentic : ∀ s, cs_authorities s = As → authentic s p;
}.

(** Its digest is new. *)
Definition fresh ps p : Prop := proposal_digest p ∉ Hash_default :: (proposal_digest <$> ps).

Fixpoint linked ps : Prop :=
  match ps with [] => True | p :: older => grows_on older p ∧ fresh older p ∧ linked older end.

(** What a node has after the proposals [ps]. *)
Record Knows (id : AuthorityId) ps w : Prop := {
  k_authorities : cs_authorities (w_state w) = As;
  k_local : local_authority_id (w_state w) = Some id;
  k_queue : w_pending_queue w = mkMutex false backlog;
  k_client : chain_at (height ps / 3) (w_client w);
  k_stored : Forall (stored (w_client w)) ps;
  k_new : ∀ h, h ∉ (proposal_digest <$> ps) →
    client_get_aux (w_client w) (hash_as_ref h) = inr None;
  k_high : qc_view (cs_high_qc (w_state w)) < 2 + height ps;
  k_voted : cs_last_voted_view (w_state w) < 2 + height ps;
  k_votes : ∀ view digest, 2 + height ps <= view →
    supporters (cs_aggregator (w_state w)) view digest = ∅;
}.

(** The newest entry of the proposal history is the newest proposal's. *)
Definition remembers ps w : Prop :=
  ∃ older, w_proposal_hash_queue w =
    older ++ ((λ p, block_hash (proposal_payload p)) <$> take 1 ps).

Lemma height_cons p ps : height (p :: ps) = height ps + 1.
Proof. unfold height. simpl. lia. Qed.
Lemma height_nonneg ps : 0 <= height ps.
Proof. unfold height. lia. Qed.

(** The ancestors of the next proposal in a store that holds the chain. *)
Lemma ancestors_found c ps p :
  Forall (stored c) ps → client_get_aux c (hash_as_ref Hash_default) = inr None → linked ps →
  grows_on ps p →
  get_proposal_ancestors c p =
  match ps with parent :: grandpa :: _ => Ok (parent, grandpa) | _ => Err ProposalNoParent end.
Proof.
  intros Hs Hn Hl Hp. unfold get_proposal_ancestors.
  assert (∀ x, proposal_parent_hash x = Hash_default → get_proposal_parent c x = Err ProposalNoParent) as Hnone.
  { intros x Hx. unfold get_proposal_parent, store_get. by rewrite Hx, Hn. }
  pose proof (go_parent _ _ Hp) as Hpar. destruct ps as [|parent [|grandpa ps]].
  { by rewrite (Hnone p Hpar). }
  - apply Forall_cons in Hs as [Hs _]. destruct Hl as (Hl1 & _).
    rewrite (get_proposal_parent_stored c p parent); [|apply Hl1|done|done].
    simpl. by rewrite (Hnone parent (go_parent _ _ Hl1)).
  - apply Forall_cons in Hs as [Hs [Hs' _]%Forall_cons]. destruct Hl as (Hl1 & _ & Hl2 & _).
    rewrite (get_proposal_parent_stored c p parent); [|apply Hl1|done|done].
    simpl. rewrite (get_proposal_parent_stored c parent grandpa); [done|apply Hl2|done|apply Hl1].
Qed.

(** The commit rule on the chain: every third proposal finalizes a block. *)
Lemma committed_chain ps p w :
  linked ps → grows_on ps p → 2 + height ps <= u64_max → height ps / 3 < top →
  chain_at (height ps / 3) (w_client w) → Forall (stored (w_client w)) ps →
  client_get_aux (w_client w) (hash_as_ref Hash_default) = inr None →
  ∃ c, chain_at ((height ps + 1) / 3) c ∧
    (∀ k, client_get_aux c k = client_get_aux (w_client w) k) ∧
    (committed p w = w ∧ c = w_client w ∨
     ∃ h, committed p w = set_client c (log_effect (EFinalize h) w)).
Proof.
  intros Hl Hp Hmax Htop Hat Hs Hn. unfold committed.
  rewrite (ancestors_found _ ps p Hs Hn Hl Hp).
  pose proof (height_nonneg ps) as Hpos.
  destruct ps as [|parent [|grandpa ps]].
  { exists (w_client w). split; [exact Hat|]. eauto. }
  { exists (w_client w). split; [exact Hat|]. eauto. }
  destruct Hl as (Hl1 & _ & Hl2 & _).
  rewrite (go_view _ _ Hl1), (go_view _ _ Hl2), (go_payload _ _ Hl2).
  rewrite !height_cons in *. pose proof (height_nonneg ps) as Hpos'. unfold pay. simpl block_hash.
  rewrite u64_wrap_small by (unfold u64_ok, u64_max in *; lia).
  replace (2 + (height ps + 1) =? 2 + height ps + 1) with true by lia.
  rewrite (cc_hash _ _ _ chain_ok _ _ Hat).
  destruct (Z.eqb_spec (height ps mod 3) 0) as [Hm|Hm].
  - assert ((height ps + 1 + 1) / 3 = height ps / 3) as Hd by lia. rewrite Hd in *.
    rewrite bool_decide_eq_false_2 by (apply (cc_marker _ _ _ chain_ok); lia).
    rewrite bool_decide_eq_false_2 by (apply (cc_next _ _ _ chain_ok); lia). simpl.
    destruct (cc_finalize _ _ _ chain_ok _ _ Hat ltac:(lia)) as (c & Hf & Hc).
    exists c. rewrite Hf. split; [by replace ((height ps + 1 + 1 + 1) / 3) with (height ps / 3 + 1) by lia|].
    split; [|eauto]. intros k. pose proof (finalize_get_aux (w_client w) (hash (height ps / 3 + 1)) k) as Hk.
    by rewrite Hf in Hk.
  - rewrite bool_decide_eq_true_2 by done. simpl. exists (w_client w).
    split; [by replace ((height ps + 1 + 1 + 1) / 3) with ((height ps + 1 + 1) / 3) by lia|]. eauto.
Qed.

(** ** Voting *)

(** The end of [vote_proposal]: give the vote to the next leader. *)
Definition send_vote (handle_vote : Vote → Comp Worker HotstuffError unit) (v : Vote) :
    Comp Worker HotstuffError unit :=
  w ← get;
  next_leader_id ← lift (view_leader (w_state w) (cs_view (w_state w) +₆₄ 1));
  if is_local w next_leader_id then handle_vote v else gossip (CM_Vote v) false.

Lemma send_vote_run hv v id l w :
  local_authority_id (w_state w) = Some id → 0 <= cs_view (w_state w) < u64_max →
  view_leader (w_state w) (cs_view (w_state w) + 1) = Ok l →
  send_vote hv v w = (if bool_decide (id = l) then hv v else gossip (CM_Vote v) false) w.
Proof.
  intros Hid Hmax Hl. unfold send_vote, get, lift, mbind, comp_bind.
  rewrite u64_wrap_small by (unfold u64_ok, u64_max in *; lia).
  rewrite Hl. unfold is_local. by rewrite Hid.
Qed.

(** The node [w'] right after [w] has made its vote [v] on [p]. *)
Record votes_on id ps p (v : Vote) w w' : Prop := {
  vo_knows : Knows id (p :: ps) w';
  vo_view : cs_view (w_state w') = proposal_view p;
  vo_high : qc_view (cs_high_qc (w_state w')) < proposal_view p;
  vo_aggregator : cs_aggregator (w_state w') = cs_aggregator (w_state w);
  vo_gossiped : gossiped w' = gossiped w;
  vo_pending : pending w' = after_vote p w;
  vo_vote : vote_for w' (proposal_digest p) v;
  vo_voter : vote_voter v = id;
}.

Lemma payload_known_chain id ps p w :
  Knows id ps w → grows_on ps p → height ps / 3 < top → payload_known w p.
Proof.
  intros Hk Hp Htop. unfold payload_known. rewrite (go_payload _ _ Hp). unfold pay. simpl.
  pose proof (height_nonneg ps).
  destruct (_ =? 0); [|by left]. right.
  apply (cc_status _ _ _ chain_ok _ _ _ (k_client _ _ _ Hk)). lia.
Qed.

Lemma committed_quiet p c w :
  w_state (committed p (set_client c w)) = w_state w ∧
  gossiped (committed p (set_client c w)) = gossiped w.
Proof.
  unfold committed. repeat case_match; try done. split; [done|].
  unfold gossiped. simpl. by rewrite gossiped_of_snoc, app_nil_r.
Qed.

(** Storing the next proposal and committing: what a node knows, but for the vote. *)
Lemma store_and_commit id ps p w :
  linked ps → grows_on ps p → fresh ps p → 2 + height ps <= u64_max → height ps / 3 < top →
  Knows id ps w →
  ∃ c w', save_proposal p (w_client w) = (Ok (), c) ∧
    try_commit p (set_client c w) = (Ok (), w') ∧
    chain_at (height (p :: ps) / 3) (w_client w') ∧
    Forall (stored (w_client w')) (p :: ps) ∧
    (∀ h, h ∉ (proposal_digest <$> p :: ps) →
       client_get_aux (w_client w') (hash_as_ref h) = inr None) ∧
    w_state w' = w_state w ∧ w_pending_queue w' = w_pending_queue w ∧ pending w' = pending w.
Proof.
  intros Hl Hp Hfresh Hmax Htop Hk. pose proof (height_nonneg ps).
  destruct (cc_insert _ _ _ chain_ok _ (w_client w) (hash_as_ref (proposal_digest p)) (scale_encode p)
    (k_client _ _ _ Hk)) as (c & Hins & Hc).
  assert (save_proposal p (w_client w) = (Ok (), c)) as Hsave.
  { unfold save_proposal, store_set. by rewrite Hins. }
  destruct (save_proposal_stored _ _ _ Hsave) as (Hsp & Hother & _).
  destruct (get_insert_aux _ _ _ _ Hins) as [_ Haux].
  apply not_elem_of_cons in Hfresh as [Hnd Hni].
  assert (Forall (stored c) ps) as Hsps.
  { pose proof (k_stored _ _ _ Hk) as Hall. rewrite Forall_forall in Hall |- *. intros q Hq.
    apply Hother; [|by apply Hall]. intros Heq. apply Hni. rewrite <- Heq. by apply list_elem_of_fmap_2. }
  assert (∀ h, h ∉ (proposal_digest <$> p :: ps) → client_get_aux c (hash_as_ref h) = inr None) as Hnew.
  { intros h [Hne Hh]%not_elem_of_cons. rewrite Haux by (by intros ?%(inj hash_as_ref)).
    by apply (k_new _ _ _ Hk). }
  destruct (committed_chain ps p (set_client c w) Hl Hp Hmax Htop) as (c' & Hc' & Haux' & Hcom); [done..| |].
  { simpl. rewrite Haux by (intros Heq%(inj hash_as_ref); by apply Hnd). apply (k_new _ _ _ Hk).
    clear -Hl. induction ps as [|q ps IH]; [by apply not_elem_of_nil|].
    destruct Hl as (_ & [Hq _]%not_elem_of_cons & Hl). apply not_elem_of_cons. split; [by apply not_eq_sym|by apply IH]. }
  assert (w_client (committed p (set_client c w)) = c') as Hcl.
  { destruct Hcom as [[-> ->]|[h ->]]; done. }
  exists c. eexists. split; [done|]. split; [apply try_commit_exact|]. rewrite Hcl, height_cons.
  split; [done|]. split.
  { constructor; [by unfold stored; rewrite Haux'|]. eapply Forall_impl; [exact Hsps|].
    intros q Hq. unfold stored. by rewrite Haux'. }
  split; [intros h Hh; rewrite Haux'; by apply Hnew|].
  destruct Hcom as [[-> _]|[h ->]]; done.
Qed.

(** Quiet steps keep what a node knows, unless they take a too high QC. *)
Lemma Knows_quiet id ps w w' :
  quiet w w' → qc_view (cs_high_qc (w_state w')) < 2 + height ps → Knows id ps w → Knows id ps w'.
Proof.
  intros [] Hh []. split; try congruence.
  - unfold local_authority_id in *. by rewrite qu_keystore, qu_authorities.
  - by rewrite qu_client.
  - by rewrite qu_aggregator.
Qed.

(** A proposal that continues the chain makes the node vote. *)
Lemma handle_ready hv id ps p w :
  linked ps → grows_on ps p → 2 + height ps <= u64_max → height ps / 3 < top →
  Knows id ps w → advanced (qc_view (proposal_qc p)) (cs_view (w_state w)) = proposal_view p →
  ∃ v w', handle_proposal_with hv p w = send_vote hv v w' ∧
    cs_view (w_state w') = proposal_view p ∧ cs_authorities (w_state w') = As ∧
    local_authority_id (w_state w') = Some id ∧ gossiped w' = gossiped w ∧
    vote_ok v ∧ (fresh ps p → votes_on id ps p v w w').
Proof.
  intros Hl Hp Hmax Htop Hk Hadv. pose proof (height_nonneg ps) as Hpos.
  pose proof (go_view _ _ Hp) as Hpv.
  destruct (handle_proposal_prefix hv p w)
    as [(o & w1 & _ & _ & _ & Hno)|(w1 & Hrun & Hq & Hv & Hh)].
  { destruct Hno. split; [by apply (go_authentic _ _ Hp), Hk|by eapply payload_known_chain]. }
  assert (Knows id ps w1) as Hk1.
  { eapply Knows_quiet; [done| |done]. pose proof (k_high _ _ _ Hk).
    rewrite (go_qc _ _ Hp) in Hh. destruct ps; unfold height in *; simpl in *; lia. }
  destruct (cc_insert _ _ _ chain_ok _ (w_client w1) (hash_as_ref (proposal_digest p)) (scale_encode p)
    (k_client _ _ _ Hk1)) as (c & Hins & _).
  assert (save_proposal p (w_client w1) = (Ok (), c)) as Hsave.
  { unfold save_proposal, store_set. by rewrite Hins. }
  assert (∃ w2, try_commit p (set_client c w1) = (Ok (), w2) ∧ w_state w2 = w_state w1 ∧
    gossiped w2 = gossiped w1) as (w2 & Hcommit & Hstate & Hgos).
  { eexists. split; [apply try_commit_exact|]. apply committed_quiet. }
  rewrite (store_and_vote_run _ _ _ _ _ _ Hsave Hcommit), Hstate, Hv, Hadv, Z.eqb_refl in Hrun.
  destruct (make_vote_verifies (w_state w2) id p) as (v & Hmv & Hvh & Hvv & Hver).
  { by rewrite Hstate; apply Hk1. }
  { rewrite Hstate, Hpv. apply Hk1. }
  pose proof (make_vote_spec (w_state w2) p) as Hms. rewrite Hmv in Hms.
  destruct Hms as (_ & _ & _ & Hvoter & _). rewrite Hstate, (k_local _ _ _ Hk1) in Hvoter.
  injection Hvoter as Hvoter.
  rewrite vote_proposal_run, Hmv in Hrun. exists v. eexists. split; [exact Hrun|].
  split; [simpl; congruence|]. split; [simpl; rewrite Hstate; apply Hk1|].
  split; [simpl; rewrite Hstate; apply Hk1|].
  match goal with |- gossiped ?w' = _ ∧ _ => assert (gossiped w' = gossiped w) as Hgw end.
  { transitivity (gossiped w2).
    { unfold gossiped. simpl. by rewrite gossiped_of_snoc, app_nil_r. }
    rewrite Hgos. apply Hq. }
  split; [done|]. split; [unfold vote_ok; rewrite Hvv; apply Hp|]. intros Hfresh.
  destruct (store_and_commit id ps p w1 Hl Hp Hfresh Hmax Htop Hk1)
    as (c' & w2' & Hsave' & Hcommit' & Hat & Hst & Hnew & _ & Hqueue & Hpend).
  injection Hpend as Hpb Hpq. rewrite Hsave in Hsave'. injection Hsave' as <-.
  rewrite Hcommit in Hcommit'. injection Hcommit' as <-. destruct Hk1.
  split; simpl; rewrite ?height_cons, ?Hstate in *; try done.
  - split; simpl; rewrite ?height_cons, ?Hstate, ?Hqueue, ?Hpq; try done; try lia.
    intros view digest Hview. apply k_votes0. lia.
  - congruence.
  - lia.
  - apply (qu_aggregator _ _ Hq).
  - unfold pending, after_vote. simpl. rewrite Hpq.
    assert (pending w1 = pending w) as [= _ ->] by apply Hq. done.
  - split; simpl; rewrite ?Hstate; [done|]. split; [congruence|done].
Qed.

(** ** After a proposal *)

(** A node that has handled the newest proposal [p] of a chain: the next leader
    has its own vote and may propose, the others have gossiped theirs. *)
Record Settled id ps p w : Prop := {
  se_inv : winv w;
  se_knows : Knows id (p :: ps) w;
  se_view : cs_view (w_state w) = proposal_view p;
  se_high : qc_view (cs_high_qc (w_state w)) < proposal_view p;
  se_history : remembers (p :: ps) w;
  se_processing : w_processing_block w = Some (mkBlockInfo
    (Some (block_hash (proposal_payload p))) (block_number (proposal_payload p)));
  se_leader : view_leader (w_state w) (proposal_view p + 1) = Ok id →
    voters w (proposal_digest p) = {[id]} ∧
    (height (p :: ps) / 3 < top →
     third_empty (block_hash (pay (height (p :: ps)))) 0 (rev (w_proposal_hash_queue w)) = false);
  se_vote : view_leader (w_state w) (proposal_view p + 1) ≠ Ok id →
    ∃ v, latest (is_vote (proposal_view p)) w = Some (CM_Vote v) ∧
      vote_for w (proposal_digest p) v ∧ vote_voter v = id;
}.

(** The marker is never proposed a third time in a row. *)
Lemma not_throttled ps p older :
  linked ps → grows_on ps p → height (p :: ps) / 3 < top →
  third_empty (block_hash (pay (height (p :: ps)))) 0
    (rev ((older ++ ((λ p, block_hash (proposal_payload p)) <$> take 1 ps)) ++
          [block_hash (proposal_payload p)])) = false.
Proof.
  intros Hl Hp Htop. pose proof (height_nonneg ps). rewrite height_cons in *.
  apply not_true_iff_false. rewrite third_empty_exact.
  assert (∀ j, 0 <= j → j / 3 < top → block_hash (pay j) = empty_payload_hash → j mod 3 ≠ 0) as Hpay.
  { intros j Hj Hjt Hm Hz. unfold pay in Hm. simpl in Hm. rewrite Hz in Hm. simpl in Hm.
    revert Hm. apply (cc_marker _ _ _ chain_ok). lia. }
  intros [Hnext (rest & Hrest)].
  change [empty_payload_hash; empty_payload_hash] with ([empty_payload_hash] ++ [empty_payload_hash]) in Hrest.
  rewrite (app_assoc rest) in Hrest.
  apply app_inj_tail in Hrest as [Hrest Hlast]. rewrite (go_payload _ _ Hp) in Hlast.
  apply Hpay in Hlast; [|lia..]. apply Hpay in Hnext; [|lia..].
  destruct ps as [|q ps]; [unfold height in *; simpl in *; lia|]. destruct Hl as (Hq & _).
  simpl in Hrest. apply app_inj_tail in Hrest as [_ Hq']. rewrite (go_payload _ _ Hq) in Hq'.
  rewrite height_cons in *. pose proof (height_nonneg ps). apply Hpay in Hq'; lia.
Qed.

Lemma one_no_quorum : ¬ quorum As 1.
Proof. pose proof st_two. unfold quorum, two_thirds. lia. Qed.

Lemma supporters_add_vote_other a v view digest :
  view ≠ vote_view v → supporters (add_vote a v As).2 view digest = supporters a view digest.
Proof.
  intros Hne. unfold supporters. rewrite vote_maker_add_vote, bool_decide_eq_false_2; [done|naive_solver].
Qed.

(** More votes of the newest proposal's view. *)
Lemma knows_add_vote id ps p v w :
  Knows id (p :: ps) w → grows_on ps p → vote_view v = proposal_view p →
  Knows id (p :: ps) (with_aggregator
    (add_vote (cs_aggregator (w_state w)) v (cs_authorities (w_state w))).2 w).
Proof.
  intros Hk Hp Hv. pose proof (k_authorities _ _ _ Hk) as Has. destruct Hk. split; try done.
  intros view digest Hview. simpl. rewrite height_cons in Hview.
  rewrite Has, supporters_add_vote_other; [|rewrite Hv, (go_view _ _ Hp); lia].
  apply k_votes0. rewrite height_cons. lia.
Qed.

Lemma with_aggregator_gossiped a w : gossiped (with_aggregator a w) = gossiped w.
Proof. done. Qed.

(** The vote goes to the next leader; the node has handled the proposal. *)
Lemma send_vote_settles hp id ps p v w w1 :
  linked ps → grows_on ps p → 2 + height ps < u64_max → Knows id ps w →
  aggregator_ok As (cs_aggregator (w_state w)) →
  (view_leader (w_state w) (proposal_view p + 1) = Ok id → remembers ps w) →
  votes_on id ps p v w w1 →
  let r := send_vote (handle_vote_with hp) v w1 in winv r.2 → r.1 = Ok () ∧ Settled id ps p r.2.
Proof.
  intros Hl Hp Hmax Hk Hagg Hrem Hvo. pose proof (height_nonneg ps). pose proof (go_view _ _ Hp) as Hpv.
  destruct Hvo as [Hk1 Hv1 Hh1 Ha1 Hg1 Hpend1 Hvote Hvoter]. injection Hpend1 as Hproc Hhist.
  assert (∀ s view, cs_authorities s = As → view_leader s view = view_leader (w_state w) view) as Hvl.
  { intros s view Hs. apply view_leader_congr. by rewrite Hs, (k_authorities _ _ _ Hk). }
  assert (cs_authorities (w_state w1) = As) as Has1 by apply Hk1.
  assert (remembers (p :: ps) w1) as Hrem1 by by exists (w_proposal_hash_queue w).
  destruct (view_leader_lookup (w_state w) (proposal_view p + 1)) as (l & Hld & _).
  { rewrite (k_authorities _ _ _ Hk). apply as_nonempty. }
  assert (send_vote (handle_vote_with hp) v w1 =
    (if bool_decide (id = l) then handle_vote_with hp v else gossip (CM_Vote v) false) w1) as ->.
  { apply send_vote_run; [apply Hk1|lia|]. by rewrite Hv1, (Hvl _ _ Has1). }
  case_bool_decide as Hid.
  - pose proof as_small as Hlen. subst l. assert (voters w1 (proposal_digest p) = ∅) as Hnone.
    { unfold voters. rewrite Ha1, Hv1. apply (k_votes _ _ _ Hk). lia. }
    assert ((add_vote (cs_aggregator (w_state w1)) v (cs_authorities (w_state w1))).1 = Ok None) as Hwait.
    { pose proof (vote_for_certifies w1 (proposal_digest p) v) as Hc. rewrite Has1, Ha1, Hnone in *.
      rewrite bool_decide_eq_false_2 in Hc; [|by rewrite size_empty; apply one_no_quorum].
      by apply Hc; [..|apply not_elem_of_empty]. }
    cbv zeta. rewrite (handle_vote_waits hp v w1 (vote_for_verify _ _ _ Hvote) Hwait). cbn [fst snd].
    intros Hinv. split; [done|]. split; try done.
    + apply knows_add_vote; [done|done|]. by rewrite <- Hv1; apply Hvote.
    + intros _. split.
      * rewrite vote_for_supporters, Hnone, Hvoter; [by rewrite (right_id_L ∅ (∪))| | |done];
          by rewrite Has1, ?Ha1.
      * intros Htop. destruct (Hrem Hld) as (older & Ho).
        change (w_proposal_hash_queue (with_aggregator _ w1)) with (w_proposal_hash_queue w1).
        rewrite Hhist, Ho. by apply not_throttled.
    + intros Hn. destruct Hn. change (w_state (with_aggregator ?a w1)) with (set_aggregator a (w_state w1)).
      by rewrite Hvl.
  - cbv zeta. unfold gossip, emit, modify. cbn [fst snd]. intros Hinv. split; [done|]. split; try done.
    + destruct Hk1. by split.
    + simpl. rewrite Hvl by done. congruence.
    + intros _. exists v. split; [|done].
      rewrite (latest_snoc _ w1 _ (CM_Vote v)).
      * unfold is_vote. destruct Hvote as (_ & -> & _). by rewrite Hv1, Z.eqb_refl.
      * destruct Hvote as (_ & Hvv & _). unfold message_ok, vote_ok. rewrite Hvv, Hv1.
        apply Hp.
      * unfold gossiped. simpl. by rewrite gossiped_of_snoc.
Qed.

Lemma run_once_winv fuel e w :
  winv w → event_ok e → has_room fuel w → winv (run_once fuel e w).2.
Proof. intros Hw He Hr. by apply (node_step_ok fuel w); [|constructor]. Qed.

(** A node that is not the author gets the newest proposal. *)
Lemma follower_settles fuel id ps p w :
  linked ps → grows_on ps p → fresh ps p → 2 + height ps < u64_max → height ps / 3 < top →
  winv w → Knows id ps w → remembers ps w → has_room (S fuel) w →
  advanced (qc_view (proposal_qc p)) (cs_view (w_state w)) = proposal_view p →
  Settled id ps p (run_once (S fuel) (Received (CM_Propose p)) w).2.
Proof.
  intros Hl Hp Hfresh Hmax Htop Hw Hk Hrem Hroom Hadv.
  pose proof (run_once_winv (S fuel) (Received (CM_Propose p)) w Hw (go_ok _ _ Hp) Hroom) as Hinv.
  rewrite run_once_snd in *. simpl in *.
  destruct (handle_ready (handle_vote_with (handle_proposal fuel)) id ps p w) as (v & w1 & Hrun & _ & _ & _ & _ & _ & Hvo);
    [done|done|lia|done|done|done|]. specialize (Hvo Hfresh). rewrite Hrun in *.
  apply (send_vote_settles (handle_proposal fuel) id ps p v w w1); [done|done|done|done| |done|done|done].
  rewrite <- (k_authorities _ _ _ Hk). apply Hw.
Qed.

(** ** Leading *)

Lemma find_backlog n : 0 <= n < top →
  List.find (λ b, bi_number b >? n) backlog = Some (mkBlockInfo (Some (hash (n + 1))) (n + 1)).
Proof.
  intros Hn. unfold backlog.
  assert (∀ m start, start <= n + 1 < start + Z.of_nat m →
    List.find (λ b, bi_number b >? n) ((λ k, mkBlockInfo (Some (hash k)) k) <$> seqZ start (Z.of_nat m))
    = Some (mkBlockInfo (Some (hash (n + 1))) (n + 1))) as Hfind.
  { induction m as [|m IH]; intros start Hs; [lia|].
    rewrite seqZ_cons by lia. simpl. rewrite Z.gtb_ltb.
    destruct (Z.ltb_spec n start); [by replace start with (n + 1) by lia|].
    replace (Z.pred (Z.of_nat (S m))) with (Z.of_nat m) by lia. apply IH. lia. }
  specialize (Hfind (Z.to_nat top) 1). rewrite Z2Nat.id in Hfind by lia. apply Hfind. lia.
Qed.

(** The payload the chain calls for. *)
Lemma leader_payload id ps p w :
  Knows id (p :: ps) w → grows_on ps p → height (p :: ps) / 3 < top →
  w_processing_block w = Some (mkBlockInfo
    (Some (block_hash (proposal_payload p))) (block_number (proposal_payload p))) →
  (get_proposal_payload w).1 = Ok (Some (pay (height (p :: ps)))).
Proof.
  intros Hk Hp Htop Hproc. pose proof (height_nonneg ps).
  unfold get_proposal_payload, get, mbind, comp_bind.
  rewrite (k_queue _ _ _ Hk), Hproc, (cc_number _ _ _ chain_ok _ _ (k_client _ _ _ Hk)).
  cbn [lock_ok mutex_poisoned mutex_data]. rewrite (go_payload _ _ Hp). unfold pay.
  cbn [bi_number block_number]. rewrite height_cons in *. rewrite Z.gtb_ltb.
  destruct (Z.ltb_spec ((height ps + 1) / 3) (height ps / 3 + 1)).
  - simpl. destruct (Z.eqb_spec ((height ps + 1) mod 3) 0); [lia|]. do 3 f_equal. lia.
  - rewrite find_backlog by lia. simpl. destruct (Z.eqb_spec ((height ps + 1) mod 3) 0); [done|lia].
Qed.

(** A leader handles its own proposal: it votes and gossips the vote. *)
Lemma author_settles fuel id ps p q b w :
  linked ps → grows_on ps p → 2 + height ps < u64_max → height ps / 3 < top →
  Knows id ps w → aggregator_ok As (cs_aggregator (w_state w)) →
  cs_view (w_state w) = proposal_view p → view_leader (w_state w) (proposal_view p) = Ok id →
  let r := handle_proposal (S fuel) p (proposing p q b w) in
  (∃ v, vote_ok v ∧ gossiped r.2 =
     gossiped w ++ [scale_encode (CM_Propose p); scale_encode (CM_Vote v)]) ∧
  cs_view (w_state r.2) = proposal_view p ∧ (winv r.2 → fresh ps p → Settled id ps p r.2).
Proof.
  intros Hl Hp Hmax Htop Hk Hagg Hview Hld. pose proof (height_nonneg ps). pose proof (go_view _ _ Hp) as Hpv.
  set (w2 := proposing p q b w).
  assert (Knows id ps w2) as Hk2 by (destruct Hk; by split).
  assert (view_leader (w_state w2) (proposal_view p + 1) ≠ Ok id) as Hnl.
  { apply consecutive_leaders_differ; [rewrite (k_authorities _ _ _ Hk2); apply st_distinct|rewrite (k_authorities _ _ _ Hk2); apply st_two|done]. }
  destruct (handle_ready (handle_vote_with (handle_proposal fuel)) id ps p w2)
    as (v & w3 & Hrun & Hv3 & Ha3 & Hl3 & Hg3 & Hvok & Hvo); [done|done|lia|done|done| |].
  { change (cs_view (w_state w2)) with (cs_view (w_state w)). rewrite Hview. unfold advanced.
    rewrite (go_qc _ _ Hp), Hpv. destruct (Z.eqb_spec (match ps with [] => 0 | _ => 1 + height ps end)
      (2 + height ps)); [destruct ps; lia|done]. }
  assert (send_vote (handle_vote_with (handle_proposal fuel)) v w3 = gossip (CM_Vote v) false w3) as Hsend.
  { destruct (view_leader_lookup (w_state w3) (proposal_view p + 1)) as (l & Hll & _).
    { rewrite Ha3. apply as_nonempty. }
    rewrite (send_vote_run _ _ id l) by (rewrite ?Hv3; done || lia).
    rewrite bool_decide_eq_false_2; [done|]. intros ->. apply Hnl. rewrite <- Hll.
    apply view_leader_congr. by rewrite Ha3, (k_authorities _ _ _ Hk2). }
  intros r. subst r. simpl. rewrite Hrun. split; [|split].
  - exists v. split; [done|]. rewrite Hsend. unfold gossiped in *. simpl.
    rewrite gossiped_of_snoc, Hg3. simpl. by rewrite gossiped_of_snoc, <- app_assoc.
  - by rewrite Hsend.
  - intros Hinv Hfresh. by apply (send_vote_settles (handle_proposal fuel) id ps p v w2 w3); [..|apply Hvo|].
Qed.

Lemma latest_two kind w w' m m' :
  message_ok m → message_ok m' → gossiped w' = gossiped w ++ [scale_encode m; scale_encode m'] →
  latest kind w' = if kind m' then Some m' else if kind m then Some m else latest kind w.
Proof.
  intros Hm Hm' Hg. unfold latest, messages. rewrite Hg, omap_app. simpl.
  rewrite !(decode_all_encode (ok := message_ok)) by done. by rewrite rev_app_distr.
Qed.

(** A node that has proposed [p] and handled it itself. *)
Definition Proposed id ps p w : Prop :=
  grows_on ps p ∧ winv w ∧ latest (is_proposal (proposal_view p)) w = Some (CM_Propose p) ∧
  cs_view (w_state w) = proposal_view p ∧ (fresh ps p → Settled id ps p w).

(** A leader between its own vote and the quorum. *)
Record Gathering id ps p (got : gset AuthorityId) w : Prop := {
  ga_inv : winv w;
  ga_knows : Knows id (p :: ps) w;
  ga_view : cs_view (w_state w) = proposal_view p;
  ga_high : qc_view (cs_high_qc (w_state w)) < proposal_view p;
  ga_processing : w_processing_block w = Some (mkBlockInfo
    (Some (block_hash (proposal_payload p))) (block_number (proposal_payload p)));
  ga_leader : view_leader (w_state w) (proposal_view p + 1) = Ok id;
  ga_voters : voters w (proposal_digest p) = got;
  ga_payload : third_empty (block_hash (pay (height (p :: ps)))) 0
                 (rev (w_proposal_hash_queue w)) = false;
}.

Lemma settled_gathering id ps p w :
  Settled id ps p w → view_leader (w_state w) (proposal_view p + 1) = Ok id →
  height (p :: ps) / 3 < top → Gathering id ps p {[id]} w.
Proof.
  intros Hs Hl Htop. destruct (se_leader _ _ _ _ Hs Hl) as [Hv Ht]. destruct Hs. split; try done.
  by apply Ht.
Qed.

(** A vote for [p] that the authority [from] can have sent. *)
Definition vote_from p (from : AuthorityId) (v : Vote) : Prop :=
  vote_verify v As = Ok () ∧ vote_view v = proposal_view p ∧
  vote_proposal_hash v = proposal_digest p ∧ vote_voter v = from.

Lemma gathering_vote id ps p got w from v :
  Gathering id ps p got w → vote_from p from v → vote_for w (proposal_digest p) v.
Proof.
  intros [? Hk Hv _ _ _ _ _] (Hver & Hview & Hh & _). split; [by rewrite (k_authorities _ _ _ Hk)|].
  by rewrite Hv.
Qed.

Lemma leader_gathers fuel id ps p got w from v :
  grows_on ps p → Gathering id ps p got w → vote_from p from v → from ∉ got →
  ¬ quorum As (S (size got)) →
  Gathering id ps p ({[from]} ∪ got) (run_once fuel (vote_event v) w).2.
Proof.
  intros Hp Hg Hv Hnew Hq. pose proof (gathering_vote _ _ _ _ _ _ _ Hg Hv) as Hvf.
  destruct Hg as [Hw Hk Hview Hhigh Hproc Hl Hgot Hpay]. pose proof (k_authorities _ _ _ Hk) as Has.
  destruct Hv as (Hver & Hvv & _ & <-). pose proof (wi_aggregator _ Hw) as Hagg.
  pose proof (vote_for_certifies w (proposal_digest p) v (authorities_small _ Hw) Hagg Hvf) as Hc.
  rewrite Has, Hgot, bool_decide_eq_false_2 in Hc by done. specialize (Hc Hnew).
  rewrite run_once_snd. simpl. unfold handle_vote.
  rewrite handle_vote_waits by (rewrite ?Has; by eauto using vote_for_verify). cbn [snd].
  split; try done.
  - apply step_aggregator; [|done]. apply add_vote_ok; [by apply authorities_small|done|].
    by rewrite Has.
  - by apply knows_add_vote.
  - rewrite vote_for_supporters; [by rewrite Hgot|by apply authorities_small|done|done].
Qed.

Lemma leader_completes fuel id ps p got w from v :
  linked (p :: ps) → 3 + height ps < u64_max → height (p :: ps) / 3 < top →
  Gathering id ps p got w → vote_from p from v → from ∉ got → quorum As (S (size got)) →
  has_room (S fuel) w →
  ∃ p', Proposed id (p :: ps) p' (run_once (S fuel) (vote_event v) w).2.
Proof.
  intros Hl Hmax Htop Hg Hv Hnew Hq Hroom. pose proof (height_nonneg ps).
  pose proof (gathering_vote _ _ _ _ _ _ _ Hg Hv) as Hvf.
  destruct Hg as [Hw Hk Hview Hhigh Hproc Hld Hgot Hpay]. pose proof (k_authorities _ _ _ Hk) as Has.
  destruct Hl as (Hp & Hfr & Hl). pose proof (go_view _ _ Hp) as Hpv.
  destruct Hv as (Hver & Hvv & _ & <-).
  assert (event_ok (vote_event v)) as Hok by (simpl; unfold vote_ok; rewrite Hvv; apply Hp).
  pose proof (run_once_winv (S fuel) _ _ Hw Hok Hroom) as Hinv. rewrite run_once_snd in *.
  destruct (vote_completes_run (S fuel) v (proposal_digest p) id (pay (height (p :: ps))) w)
    as (p' & qc & q & b & g & Hrun & Hqok & Hqv & Hqh & Ha & Hpv' & Hpq & Hpp & Htc); try done.
  { rewrite Hview. lia. } { by rewrite Hview. } { by rewrite Hgot. } { by rewrite Has, Hgot. }
  { apply Hk. } { by rewrite Hview. } { by apply (leader_payload id ps p). }
  exists p'. rewrite Hrun in *. rewrite Hview in *.
  set (w1 := certified qc _ g w) in *.
  assert (Knows id (p :: ps) w1) as Hk1.
  { destruct (knows_add_vote id ps p v w Hk Hp Hvv). split; try done.
    simpl. rewrite Hqv, Hpv, height_cons. lia. }
  assert (grows_on (p :: ps) p') as Hp'.
  { split; rewrite ?height_cons; [lia|by rewrite <- (height_cons p)|..].
    - unfold proposal_parent_hash. by rewrite Hpq.
    - rewrite Hpq, Hqv, Hpv. lia.
    - split; [by rewrite Hpq|]. rewrite Htc, Hpp. split; [done|]. split.
      + unfold payload_ok, pay. simpl. pose proof (cc_top _ _ _ chain_ok).
        rewrite height_cons in *. unfold u32_ok. lia.
      + rewrite Hpv'. unfold u64_ok, u64_max in *. lia.
    - intros s Hs. unfold authentic in *. rewrite <- Ha. apply verify_proposal_congr. congruence. }
  destruct (author_settles fuel id (p :: ps) p' q b w1) as ((v' & Hvok & Hgos) & Hv' & Hset); rewrite ?height_cons; try done.
  { lia. } { by rewrite <- (height_cons p). }
  { simpl. rewrite Has. apply add_vote_ok; [apply as_small| |done]. rewrite <- Has. apply Hw. }
  { simpl. lia. } { rewrite Hpv'. rewrite <- Hld. by apply view_leader_congr. }
  do 2 (split; [done|]). split; [|split; [done|by apply Hset]].
  rewrite (latest_two _ w1 _ (CM_Propose p') (CM_Vote v') (go_ok _ _ Hp') Hvok Hgos). simpl. by rewrite Z.eqb_refl.
Qed.

(** Votes that come too late change nothing. *)
Lemma late_vote fuel v w :
  vote_view v < cs_view (w_state w) → (run_once fuel (vote_event v) w).2 = w.
Proof.
  intros Hlt. rewrite run_once_snd. simpl.
  unfold handle_vote, handle_vote_with, gets, lift, mbind, comp_bind, verify_vote.
  by rewrite (proj2 (Z.ltb_lt _ _) Hlt).
Qed.

(** ** Starting up *)

(** A node in view [v] that has seen timeouts only. *)
Record Waiting id (v : ViewNumber) w : Prop := {
  wa_knows : Knows id [] w;
  wa_view : cs_view (w_state w) = v;
  wa_high : cs_high_qc (w_state w) = qc_default;
  wa_aggregator : aggregator_ok As (cs_aggregator (w_state w));
}.

(** A timeout of view [v] that [from] can have sent before any proposal. *)
Definition timeout_from (v : ViewNumber) (from : AuthorityId) (t : Timeout) : Prop :=
  timeout_ok t ∧ timeout_verify t As = Ok () ∧ timeout_view t = v ∧
  timeout_high_qc t = qc_default ∧ timeout_voter t = from.

(** Whether a new timeout completes the quorum. *)
Lemma timeout_certifies w v from t :
  aggregator_ok As (cs_aggregator (w_state w)) → timeout_from v from t → from ∉ timeouts w v →
  let r := add_timeout (cs_aggregator (w_state w)) t As in
  aggregator_ok As r.2 ∧
  (∀ view, timeouts (with_aggregator r.2 w) view =
     if bool_decide (view = v) then {[from]} ∪ timeouts w v else timeouts w view) ∧
  (∀ view digest, supporters r.2 view digest = supporters (cs_aggregator (w_state w)) view digest) ∧
  if bool_decide (quorum As (S (size (timeouts w v))))
  then ∃ tc, r.1 = Ok (Some tc) ∧ tc_view tc = v ∧ tc_ok tc
  else r.1 = Ok None.
Proof.
  intros Hagg (Hok & Hver & Hview & _ & Hfrom) Hnew r.
  destruct (add_timeout_certifies As _ t as_small Hagg Hver) as (Ha & Hto & Hsup & Hres).
  fold r in Ha, Hto, Hsup, Hres. rewrite Hview, Hfrom in *. split; [done|]. split; [|split; [done|]].
  - intros view. unfold timeouts. simpl. rewrite Hto.
    by destruct (bool_decide_reflect (view = v)) as [->|].
  - change (timed_out (cs_aggregator (w_state w)) v) with (timeouts w v) in Hres.
    destruct (bool_decide_reflect (quorum As (S (size (timeouts w v))))).
    + rewrite bool_decide_eq_true_2 in Hres by done. destruct Hres as (tc & Hres & Htc).
      exists tc. split; [done|]. split; [done|].
      by apply (aggregated_tc_ok As (cs_aggregator (w_state w)) t); [apply st_small|..].
    + by rewrite bool_decide_eq_false_2 in Hres by tauto.
Qed.

(** A new timeout: up to the quorum it is only collected. *)
Lemma handle_timeout_run fuel id v from t w :
  Waiting id v w → timeout_from v from t → from ∉ timeouts w v →
  ∃ w1, Waiting id (advanced 0 v) w1 ∧ gossiped w1 = gossiped w ∧
    cs_last_voted_view (w_state w1) = cs_last_voted_view (w_state w) ∧
    (∀ view, timeouts w1 view =
       if bool_decide (view = v) then {[from]} ∪ timeouts w v else timeouts w view) ∧
    if bool_decide (quorum As (S (size (timeouts w v))))
    then ∃ tc, handle_timeout fuel t w = lead_timeout fuel tc w1 ∧ tc_view tc = v ∧ tc_ok tc
    else handle_timeout fuel t w = (Ok (), w1).
Proof.
  intros [Hk Hview Hhigh Hagg] Ht Hnew. pose proof Ht as (_ & Hver & Htv & Hth & _).
  destruct (handle_qc_run qc_default w) as (w0 & Hqc & Hq & Hv0 & _ & Hh0 & _).
  rewrite Hhigh in Hh0. specialize (Hh0 ltac:(done)). rewrite Hview in Hv0. change (qc_view qc_default) with 0 in Hv0.
  assert (timeouts w0 = timeouts w) as Hto.
  { unfold timeouts. by rewrite (qu_aggregator _ _ Hq). }
  assert (cs_authorities (w_state w0) = As) as Has0 by (rewrite (qu_authorities _ _ Hq); apply Hk).
  destruct (timeout_certifies w0 v from t) as (Ha & Hts & Hsup & Hres).
  { by rewrite (qu_aggregator _ _ Hq). } { done. } { by rewrite Hto. }
  rewrite Hto in Hts, Hres.
  set (a := (add_timeout (cs_aggregator (w_state w0)) t As).2) in *.
  exists (with_aggregator a w0). split; [|split; [|split; [|split]]].
  - split; try done. destruct Hk. split; simpl; rewrite ?(qu_queue _ _ Hq), ?(qu_client _ _ Hq), ?(qu_voted _ _ Hq); try done.
    + unfold local_authority_id in *. simpl. by rewrite (qu_authorities _ _ Hq), (qu_keystore _ _ Hq).
    + by rewrite Hh0.
    + intros view digest Hle. rewrite Hsup, (qu_aggregator _ _ Hq). by apply k_votes0.
  - apply (qu_gossiped _ _ Hq).
  - apply (qu_voted _ _ Hq).
  - done.
  - assert (∀ o, (add_timeout (cs_aggregator (w_state w0)) t As).1 = Ok o →
      handle_timeout fuel t w = (match o with None => mret () | Some tc => lead_timeout fuel tc end)
        (with_aggregator a w0)) as Hrun.
    { intros o Ho. unfold handle_timeout, gets, lift, on_state, zoom, cs_add_timeout, mbind, comp_bind.
      rewrite Hview, Htv, Z.gtb_ltb, Z.ltb_irrefl. unfold verify_timeout.
      rewrite (k_authorities _ _ _ Hk), Hver, Hth, Hqc, Has0. unfold a, with_aggregator.
      destruct (add_timeout _ _ _) as [r a']. simpl in *. by rewrite Ho. }
    destruct (bool_decide (quorum As _)); [|by rewrite (Hrun None)].
    destruct Hres as (tc & Hres & Htcv & Htc). exists tc. by rewrite (Hrun (Some tc)).
Qed.

Lemma timeout_waits fuel id v from t w :
  Waiting id v w → timeout_from v from t → from ∉ timeouts w v →
  ¬ quorum As (S (size (timeouts w v))) →
  let w' := (run_once fuel (Received (CM_Timeout t)) w).2 in
  Waiting id (advanced 0 v) w' ∧ gossiped w' = gossiped w ∧
  (∀ view, timeouts w' view =
     if bool_decide (view = v) then {[from]} ∪ timeouts w v else timeouts w view).
Proof.
  intros Hw Ht Hnew Hq. rewrite run_once_snd. simpl.
  destruct (handle_timeout_run fuel id v from t w Hw Ht Hnew) as (w1 & Hw1 & Hg & _ & Hto & Hrun).
  rewrite bool_decide_eq_false_2 in Hrun by done. by rewrite Hrun.
Qed.

Lemma default_accepted : qc_accepted qc_default As.
Proof. left. unfold qc_eqb. by rewrite bool_decide_eq_true_2. Qed.

(** The timer of a node that waits. *)
Lemma timer_waits fuel id v w :
  Waiting id v w → winv w → 0 <= v <= 1 → timeouts w v = ∅ →
  let w' := (run_once fuel TimerFired w).2 in
  Waiting id (advanced 0 v) w' ∧
  (∀ view, timeouts w' view = if bool_decide (view = v) then {[id]} else timeouts w view) ∧
  ∃ t, timeout_from v id t ∧ latest (is_timeout v) w' = Some (CM_Timeout t).
Proof.
  intros Hw Hinv Hv Hnone. rewrite run_once_snd. simpl. pose proof Hw as [Hk Hview Hhigh Hagg].
  set (w0 := set_state (increase_last_voted_view (w_state w)) (log_effect ETimerReset w)).
  destruct (make_timeout_verifies (w_state w0) id) as (t & Hmt & Htid & Htv & Hth & Htver).
  { apply Hk. } { simpl. rewrite Hhigh. rewrite (k_authorities _ _ _ Hk). apply default_accepted. }
  set (w1 := log_effect (EGossip gossip_topic (scale_encode (CM_Timeout t)) true) w0).
  assert (handle_local_timer fuel w = handle_timeout fuel t w1) as ->.
  { transitivity ((timeout ← lift (make_timeout (w_state w0));
      gossip (CM_Timeout timeout) true;; handle_timeout fuel timeout) w0); [done|]. by rewrite Hmt. }
  assert (timeout_from v id t) as Htf.
  { simpl in *. rewrite Hhigh in Hth. split_and!; try done.
    - split; [by rewrite Hth|]. rewrite Htv, Hview. unfold u64_ok. lia.
    - by rewrite <- (k_authorities _ _ _ Hk).
    - by rewrite Htv. }
  assert (Waiting id v w1) as Hw1.
  { split; try done. destruct Hk. split; try done. simpl. pose proof (wi_view _ Hinv).
    unfold height. simpl. lia. }
  destruct (handle_timeout_run fuel id v id t w1 Hw1 Htf) as (w2 & Hw2 & Hg & _ & Hto & Hrun).
  { change (timeouts w1 v) with (timeouts w v). rewrite Hnone. by apply not_elem_of_empty. }
  change (timeouts w1) with (timeouts w) in *. rewrite Hnone, size_empty in *.
  rewrite bool_decide_eq_false_2 in Hrun by apply one_no_quorum. rewrite Hrun. cbn [snd].
  split; [done|]. split; [intros view; rewrite Hto; by rewrite (right_id_L ∅ (∪))|].
  exists t. split; [done|]. rewrite (latest_same _ w1 w2 Hg).
  rewrite (latest_snoc _ w _ (CM_Timeout t)).
  - simpl. rewrite Htv. simpl. by rewrite Hview, Z.eqb_refl.
  - apply Htf.
  - unfold gossiped, w1, w0. simpl. by rewrite !gossiped_of_snoc, app_nil_r.
Qed.

Lemma head_backlog : head backlog = Some (mkBlockInfo (Some (hash 1)) 1).
Proof.
  unfold backlog. pose proof (cc_top _ _ _ chain_ok). by rewrite seqZ_cons by lia.
Qed.

(** The leader of view 2 proposes the first block on the default certificate. *)
Lemma first_proposal fuel id tc w :
  Knows id [] w → aggregator_ok As (cs_aggregator (w_state w)) → tc_ok tc →
  cs_view (w_state w) = 2 → view_leader (w_state w) 2 = Ok id →
  cs_high_qc (w_state w) = qc_default →
  let r := generate_proposal (S fuel) (Some tc) (set_processing None w) in
  ∃ p, grows_on [] p ∧
    (∃ v, vote_ok v ∧ gossiped r.2 =
       gossiped w ++ [scale_encode (CM_Propose p); scale_encode (CM_Vote v)]) ∧
    cs_view (w_state r.2) = proposal_view p ∧ (winv r.2 → fresh [] p → Settled id [] p r.2).
Proof.
  intros Hk Hagg Htc Hview Hl Hhigh r. subst r. pose proof (k_authorities _ _ _ Hk) as Has.
  set (b := Some (mkBlockInfo (Some (hash 1)) 1)).
  destruct (propose_run (handle_proposal (S fuel)) (pay 0) (Some tc) id (set_processing b w))
    as (p & Hrun & Ha & Hpv & Hpq & Hpp & Hpt).
  { apply Hk. } { simpl. rewrite Hhigh, Has. apply default_accepted. } { simpl. by rewrite Hview. }
  assert (generate_proposal (S fuel) (Some tc) (set_processing None w) =
    handle_proposal (S fuel) p (proposing p (w_proposal_hash_queue w) b w)) as ->.
  { etrans; [|exact Hrun]. unfold generate_proposal, get_proposal_payload, get, modify, mbind, comp_bind. simpl.
    rewrite (k_queue _ _ _ Hk). simpl. by rewrite head_backlog. }
  simpl in Hpv, Hpq. rewrite Hview in Hpv. rewrite Hhigh in Hpq.
  assert (grows_on [] p) as Hp.
  { split; try done.
    - unfold proposal_parent_hash. by rewrite Hpq.
    - by rewrite Hpq.
    - split; [by rewrite Hpq|]. rewrite Hpt, Hpp, Hpv. split; [done|]. by split.
    - intros s Hs. unfold authentic in *. rewrite <- Ha. apply verify_proposal_congr. by rewrite Hs. }
  exists p. split; [done|].
  apply author_settles; try done; [|by rewrite Hview, Hpv|by rewrite Hpv].
  change (height [] / 3) with 0. apply (cc_top _ _ _ chain_ok).
Qed.

(** The timeout that completes the quorum takes the node to view 2, and its
    leader proposes the first block. *)
Lemma timeout_completes fuel id from t w :
  Waiting id 1 w → winv w → timeout_from 1 from t → from ∉ timeouts w 1 →
  quorum As (S (size (timeouts w 1))) → has_room (S fuel) w →
  let w' := (run_once (S fuel) (Received (CM_Timeout t)) w).2 in
  winv w' ∧ cs_view (w_state w') = 2 ∧ latest (is_timeout 1) w' = latest (is_timeout 1) w ∧
  (view_leader (w_state w) 2 = Ok id → ∃ p, Proposed id [] p w') ∧
  (view_leader (w_state w) 2 ≠ Ok id → Knows id [] w').
Proof.
  intros Hw Hinv Ht Hnew Hq Hroom w'. subst w'.
  pose proof (run_once_winv (S fuel) (Received (CM_Timeout t)) w Hinv (proj1 Ht) Hroom) as Hinv'.
  rewrite run_once_snd in *. cbn [run_handler] in *.
  destruct (handle_timeout_run (S fuel) id 1 from t w Hw Ht Hnew) as (w1 & Hw1 & Hg1 & _ & _ & Hrun).
  rewrite bool_decide_eq_true_2 in Hrun by done. destruct Hrun as (tc & Hrun & Htcv & Htc).
  change (advanced 0 1) with 1 in Hw1. rewrite Hrun in *. destruct Hw1 as [Hk1 Hv1 Hh1 Ha1].
  destruct (advance_view_run (tc_view tc) w1) as (w2 & Hadv & Hq2 & Hv2 & Hh2); [lia|].
  rewrite Hv1, Htcv in Hv2. change (advanced 1 1) with 2 in Hv2.
  set (w3 := log_effect (EGossip gossip_topic (scale_encode (CM_TC tc)) true) (log_effect ETimerReset w2)).
  assert (Knows id [] w3) as Hk3.
  { destruct (Knows_quiet id [] w1 w2 Hq2); [|done|by split]. rewrite Hh2. apply Hk1. }
  assert (gossiped w3 = gossiped w ++ [scale_encode (CM_TC tc)]) as Hg3.
  { unfold gossiped, w3 in *. simpl. rewrite !gossiped_of_snoc, app_nil_r.
    by rewrite (qu_gossiped _ _ Hq2), Hg1. }
  destruct (view_leader_lookup (w_state w3) 2) as (l & Hl & _).
  { rewrite (k_authorities _ _ _ Hk3). apply as_nonempty. }
  assert (view_leader (w_state w) 2 = Ok l) as Hlw.
  { rewrite <- Hl. apply view_leader_congr.
    by rewrite (k_authorities _ _ _ Hk3), (k_authorities _ _ _ (wa_knows _ _ _ Hw)). }
  assert (is_leader (w_state w3) = Ok (bool_decide (id = l))) as Hlead.
  { rewrite is_leader_view_leader. change (cs_view (w_state w3)) with (cs_view (w_state w2)).
    rewrite Hv2, Hl, (k_local _ _ _ Hk3). simpl. f_equal. apply bool_decide_ext. naive_solver. }
  rewrite (lead_timeout_run (S fuel) tc w1 w2 _ ltac:(lia) Hadv Hlead) in *. fold w3 in Hinv' |- *.
  split; [done|].
  case_bool_decide as Hid.
  - subst l. destruct (first_proposal fuel id tc w3) as (p & Hp & (v & Hvok & Hgos) & Hv & Hset);
      [done|simpl; by rewrite (qu_aggregator _ _ Hq2)|done|done|done|exact (eq_trans Hh2 Hh1)|].
    pose proof (go_view _ _ Hp) as Hpv. change (height []) with 0 in Hpv.
    split; [by rewrite Hv, Hpv|].
    split; [|split; [intros _; exists p|done]].
    + rewrite (latest_two _ w3 _ (CM_Propose p) (CM_Vote v) (go_ok _ _ Hp) Hvok Hgos). simpl.
      by rewrite (latest_snoc _ w w3 (CM_TC tc)).
    + do 2 (split; [done|]). split; [|split; [done|by apply Hset]].
      rewrite (latest_two _ w3 _ (CM_Propose p) (CM_Vote v) (go_ok _ _ Hp) Hvok Hgos). simpl.
      by rewrite Z.eqb_refl.
  - split; [done|]. split; [|split; [congruence|done]].
    cbn [snd]. by rewrite (latest_snoc _ w w3 (CM_TC tc)).
Qed.

End round.
