(* ===== verification/Finality.v ===== *)
(** * A synchronous committee finalizes its chain

    The nodes of [NodeRound] in the rounds of [Progress]: every proposal reaches
    all nodes, the votes make the next leader propose, and after [3 * top]
    proposals all nodes have finalized all [top] blocks.  The run is one of the
    network of [Cluster]. *)
From S2P Require Import Prelude Codec Primitives Reference Message Aggregator.
From S2P Require Import Synchronizer Network ConsensusState Import Worker WorkerFacts WorkerSafety.
From S2P Require Import Liveness ViewChange Cluster Progress NodeRound.
Local Open Scope Z_scope.
Ltac Zify.zify_post_hook ::= Z.to_euclidean_division_equations.

(** ** Rounds *)
Section finality.
Context `{Platform} {CL : Client} `{!PlatformLaws} `{!ClientLaws} `{!KeystoreLaws}.
Context (As : AuthorityList) (hash : Number → Hash) (top : Z) (chain_at : Number → client → Prop).
Context `{!Setting As hash top chain_at}.
Context (fuel : nat) (Hmax : 2 + 3 * top + room (S fuel) <= u64_max).
Implicit Types (w : Worker) (p : Proposal) (ps : list Proposal) (nodes : gmap AuthorityId Worker).
Abbreviation Settled := (Settled As hash top chain_at).
Abbreviation Proposed := (Proposed As hash top chain_at).
Abbreviation Knows := (Knows As hash top chain_at).
Abbreviation Gathering := (Gathering As hash top chain_at).
Abbreviation Waiting := (Waiting As hash top chain_at).
Abbreviation grows_on := (grows_on As hash).
Abbreviation linked := (linked As hash).

(** Every node has handled [p]. *)
Definition AllSettled ps p nodes : Prop :=
  ∀ id, id ∈ As.*1 → ∃ w, nodes !! id = Some w ∧ Settled id ps p w.

(** A leader has proposed [p], and the others are ready for it. *)
Definition ready ps p id w : Prop :=
  winv w ∧ Knows id ps w ∧ remembers ps w ∧ cs_view (w_state w) <= proposal_view p ∧
  advanced (qc_view (proposal_qc p)) (cs_view (w_state w)) = proposal_view p.
Definition Ready ps p nodes : Prop :=
  ∃ l, l ∈ As.*1 ∧ leader As.*1 (proposal_view p) = Some l ∧
    (∃ w, nodes !! l = Some w ∧ Proposed l ps p w) ∧
    ∀ id, id ∈ others l As.*1 → ∃ w, nodes !! id = Some w ∧ ready ps p id w.

Lemma leader_view view :
  ∃ l, l ∈ As.*1 ∧ leader As.*1 view = Some l ∧
    ∀ s, cs_authorities s = As → view_leader s view = Ok l.
Proof.
  pose proof (as_nonempty As hash top chain_at) as Hne. unfold leader. rewrite length_fmap.
  assert (0 < Z.of_nat (length As)) as Hn by (destruct As; [done|simpl; lia]).
  destruct (lookup_lt_is_Some_2 As.*1 (Z.to_nat (view mod Z.of_nat (length As)))) as [l Hl].
  { rewrite length_fmap. pose proof (Z.mod_pos_bound view _ Hn). lia. }
  exists l. split; [by eapply list_elem_of_lookup_2|]. split; [done|]. intros s Hs.
  destruct (view_leader_lookup s view) as (x & -> & Hx); [by rewrite Hs|]. rewrite Hs in Hx. congruence.
Qed.

Lemma room_at w : cs_view (w_state w) <= 2 + 3 * top → has_room (S fuel) w.
Proof. unfold has_room. lia. Qed.

(** A proposal reaches everyone. *)
Lemma proposal_round_settles ps p nodes :
  linked ps → fresh ps p → height ps < 3 * top → Ready ps p nodes →
  AllSettled ps p (proposal_round (S fuel) As.*1 (proposal_view p) nodes).
Proof.
  intros Hl Hfresh Htop (l & Hin & Hlead & (wl & Hwl & Hprop) & Hothers).
  destruct Hprop as (Hp & _ & Hlatest & _ & Hset). pose proof (go_view _ _ _ _ Hp) as Hpv.
  pose proof (height_nonneg ps). unfold proposal_round. rewrite Hlead.
  destruct (deliver_to_all (S fuel) (is_proposal (proposal_view p)) l nodes (others l As.*1)
    (CM_Propose p) (ready ps p) (λ id w, Settled id ps p w)) as [Hto Hsame].
  { eauto. } { by intros [? _]%elem_of_others. } { apply NoDup_others. apply (st_distinct (As := As)). } { done. }
  { intros id w _ (Hw & Hk & Hrem & Hle & Hadv).
    assert (has_room (S fuel) w) as Hroom by (apply room_at; lia).
    split; [done|]. apply (follower_settles As hash top chain_at); try done; unfold room in *; lia. }
  intros id Hid. unfold broadcast.
  destruct (decide (id = l)) as [->|Hne]; [|apply Hto; by apply elem_of_others].
  rewrite Hsame by (by intros [? _]%elem_of_others). exists wl. split; [done|]. by apply Hset.
Qed.

Lemma all_quorum l : l ∈ As.*1 → quorum As (S (length (others l As.*1))).
Proof.
  intros Hin. pose proof (st_two (As := As)).
  pose proof (Permutation_length (others_perm l As.*1 (st_distinct (As := As)) Hin)) as Hlen.
  rewrite length_fmap in Hlen. simpl in Hlen. unfold quorum, two_thirds. lia.
Qed.

(** The next leader collects votes: up to the quorum it waits, then it has
    proposed. *)
Definition collecting l ps p (heard : list AuthorityId) w : Prop :=
  if decide (quorum As (S (length heard)))
  then ∃ p', Proposed l (p :: ps) p' w
  else Gathering l ps p ({[l]} ∪ list_to_set heard) w.

Lemma collecting_step l ps p heard from froms v w :
  linked (p :: ps) → height (p :: ps) < 3 * top →
  NoDup froms → l ∉ froms → heard ++ [from] `prefix_of` froms → vote_from As p from v →
  collecting l ps p heard w →
  has_room (S fuel) w ∧
  collecting l ps p (heard ++ [from]) (run_once (S fuel) (vote_event v) w).2.
Proof.
  intros Hl Htop Hnd Hni Hpre Hv. pose proof (height_nonneg ps). rewrite height_cons in Htop.
  pose proof Hl as (Hp & _). pose proof (go_view _ _ _ _ Hp) as Hpv.
  destruct (heard_size l heard from froms Hnd Hni Hpre) as [Hsize Hnew].
  unfold collecting. rewrite length_app. simpl. rewrite Nat.add_1_r.
  destruct (decide (quorum As (S (length heard)))) as [Hq|Hq].
  - intros (p' & Hprop). pose proof Hprop as (Hp' & _ & _ & Hview & _).
    pose proof (go_view _ _ _ _ Hp') as Hpv'. rewrite height_cons in Hpv'.
    split; [apply room_at; lia|]. rewrite decide_True by (eapply quorum_mono; [|done]; lia).
    exists p'. rewrite late_vote; [done|]. rewrite (proj1 (proj2 Hv)). lia.
  - intros Hg. assert (has_room (S fuel) w) as Hroom.
    { apply room_at. rewrite (ga_view _ _ _ _ _ _ _ _ _ Hg). lia. }
    split; [done|]. rewrite <- Hsize.
    destruct (decide (quorum As (S (size ({[l]} ∪ list_to_set heard : gset AuthorityId))))) as [Hq'|Hq'].
    + eapply (leader_completes As hash top chain_at); rewrite ?height_cons; try done; unfold room in *; lia.
    + rewrite <- heard_snoc. by apply (leader_gathers As hash top chain_at).
Qed.

Lemma settled_ready ps p p' id w :
  grows_on ps p → grows_on (p :: ps) p' → height ps < 3 * top → Settled id ps p w →
  ready (p :: ps) p' id w.
Proof.
  intros Hp Hp' Htop Hs. pose proof (height_nonneg ps).
  pose proof (go_view _ _ _ _ Hp) as Hpv. pose proof (go_view _ _ _ _ Hp') as Hpv'.
  rewrite height_cons in Hpv'. split_and!; try apply Hs.
  - rewrite (se_view _ _ _ _ _ _ _ _ Hs). lia.
  - rewrite (go_qc _ _ _ _ Hp'), (se_view _ _ _ _ _ _ _ _ Hs). unfold advanced. rewrite height_cons.
    destruct (Z.eqb_spec (1 + (height ps + 1)) (proposal_view p)); [|lia].
    rewrite u64_wrap_small; [lia|]. unfold room in *. unfold u64_ok, u64_max in *. lia.
Qed.

(** The votes reach the next leader. *)
Lemma vote_round_proposes ps p nodes :
  linked (p :: ps) → height (p :: ps) < 3 * top → AllSettled ps p nodes →
  ∃ p', Ready (p :: ps) p' (vote_round (S fuel) As.*1 (proposal_view p) nodes).
Proof.
  intros Hl Htop Hall. pose proof Hl as (Hp & _). pose proof (height_nonneg ps).
  pose proof (go_view _ _ _ _ Hp) as Hpv.
  destruct (leader_view (proposal_view p + 1)) as (l & Hin & Hlead & Hvl).
  unfold vote_round. rewrite Hlead.
  pose proof (NoDup_others l As.*1 (st_distinct (As := As))) as Hnd.
  assert (l ∉ others l As.*1) as Hni by by intros [? _]%elem_of_others.
  assert (∀ id w, Settled id ps p w → cs_authorities (w_state w) = As) as Has by (intros id w Hs; apply Hs).
  set (msg from := default CM_Phantom (nodes !! from ≫= latest (is_vote (proposal_view p)))).
  assert (∀ from, from ∈ others l As.*1 → ∃ w v, nodes !! from = Some w ∧
    latest (is_vote (proposal_view p)) w = Some (msg from) ∧ msg from = CM_Vote v ∧
    vote_from As p from v) as Hmsg.
  { intros from [Hne Hfrom]%elem_of_others. destruct (Hall from Hfrom) as (w & Hw & Hs).
    destruct (se_vote _ _ _ _ _ _ _ _ Hs) as (v & Hlat & (Hver & Hvv & Hvh) & Hid).
    { rewrite Hvl by eauto. congruence. }
    exists w, v. unfold msg. rewrite Hw. simpl. rewrite Hlat. split_and!; try done.
    rewrite (Has _ _ Hs) in Hver. rewrite (se_view _ _ _ _ _ _ _ _ Hs) in Hvv. by split_and!. }
  destruct (deliver_to_one (S fuel) (is_vote (proposal_view p)) l nodes (others l As.*1) msg
    (collecting l ps p)) as (w & Hcol & Hdone).
  { destruct (Hall l Hin) as (w & Hw & Hs). exists w. split; [done|]. unfold collecting.
    rewrite decide_False by apply (one_no_quorum As hash top chain_at). simpl.
    rewrite (right_id_L ∅ (∪)). apply settled_gathering; [done|rewrite Hvl by eauto; done|lia]. }
  { done. }
  { intros from Hfrom. destruct (Hmsg from Hfrom) as (w & v & Hw & Hlat & _). eauto. }
  { intros heard from w Hpre Hc.
    assert (from ∈ others l As.*1) as Hfrom.
    { destruct Hpre as [rest ->]. apply elem_of_app. left. apply elem_of_app. right. by left. }
    destruct (Hmsg from Hfrom) as (_ & v & _ & _ & -> & Hv). by eapply collecting_step. }
  unfold collecting in Hdone. rewrite decide_True in Hdone by by apply all_quorum.
  destruct Hdone as (p' & Hprop). exists p'. pose proof Hprop as (Hp' & _).
  pose proof (go_view _ _ _ _ Hp') as Hpv'. rewrite height_cons in Hpv'.
  exists l. split; [done|]. split; [by replace (proposal_view p') with (proposal_view p + 1) by lia|].
  unfold collect. rewrite Hcol. split; [exists w; by rewrite lookup_insert_eq|].
  intros id [Hne Hid]%elem_of_others. rewrite lookup_insert_ne by done.
  destruct (Hall id Hid) as (w' & Hw' & Hs). exists w'. split; [done|].
  rewrite height_cons in Htop. apply settled_ready; [done|done|lia|done].
Qed.

(** ** Starting up *)

(** A node while the timeouts of view 1 arrive, and once it is in view 2. *)
Definition waiting (heard : list AuthorityId) id (m : ConsensusMessage) w : Prop :=
  winv w ∧ Waiting id 1 w ∧ timeouts w 1 = {[id]} ∪ list_to_set heard ∧
  latest (is_timeout 1) w = Some m.
Definition started l id (m : ConsensusMessage) w : Prop :=
  winv w ∧ cs_view (w_state w) = 2 ∧ latest (is_timeout 1) w = Some m ∧
  (id = l → ∃ p, Proposed id [] p w) ∧ (id ≠ l → Knows id [] w).
Definition starting l id m (heard : list AuthorityId) w : Prop :=
  if decide (quorum As (S (length heard))) then started l id m w else waiting heard id m w.

Lemma starting_step l id m heard from froms t w :
  (∀ s, cs_authorities s = As → view_leader s 2 = Ok l) →
  NoDup froms → id ∉ froms → heard ++ [from] `prefix_of` froms → timeout_from As 1 from t →
  starting l id m heard w →
  has_room (S fuel) w ∧
  starting l id m (heard ++ [from]) (run_once (S fuel) (Received (CM_Timeout t)) w).2.
Proof.
  intros Hl Hnd Hni Hpre Ht. pose proof (cc_top _ _ _ (chain_ok As hash top chain_at)) as Htop.
  destruct (heard_size id heard from froms Hnd Hni Hpre) as [Hsize Hnew].
  unfold starting. rewrite length_app. simpl. rewrite Nat.add_1_r.
  pose proof Ht as (Hok & _ & Htv & _).
  destruct (decide (quorum As (S (length heard)))) as [Hq|Hq].
  - intros Hs. pose proof Hs as (_ & Hview & _). split; [apply room_at; lia|].
    rewrite decide_True by (eapply quorum_mono; [|done]; lia). by rewrite late_timeout by lia.
  - intros (Hw & Hwait & Hto & Hlat). assert (has_room (S fuel) w) as Hroom.
    { apply room_at. rewrite (wa_view _ _ _ _ _ _ _ Hwait). lia. }
    split; [done|]. rewrite <- Hsize, <- Hto. rewrite <- Hto in Hnew.
    destruct (decide (quorum As (S (size (timeouts w 1))))) as [Hq'|Hq'].
    + destruct (timeout_completes As hash top chain_at fuel id from t w) as (Hw' & Hv' & Hlat' & Hlead & Hfol);
        try done. rewrite Hl in Hlead, Hfol by apply Hwait.
      split; [done|]. split; [done|]. split; [congruence|].
      split; [intros ->; by apply Hlead|intros Hne; apply Hfol; congruence].
    + destruct (timeout_waits As hash top chain_at (S fuel) id 1 from t w) as (Hwait' & Hg & Hto'); try done.
      split; [by apply run_once_winv|]. split; [done|].
      rewrite Hto', bool_decide_eq_true_2, Hto, heard_snoc by done. split; [done|].
      by rewrite (latest_same _ w).
Qed.

(** Two timers and the timeouts of view 1: the first leader has proposed. *)
Lemma timers_wait nodes :
  (∀ id, id ∈ As.*1 → ∃ w, nodes !! id = Some w ∧
     winv w ∧ Waiting id 0 w ∧ ∀ v, timeouts w v = ∅) →
  ∀ id, id ∈ As.*1 → ∃ w t,
    foldl (fire (S fuel)) (foldl (fire (S fuel)) nodes As.*1) As.*1 !! id = Some w ∧
    timeout_from As 1 id t ∧ waiting [] id (CM_Timeout t) w.
Proof.
  intros Hinit. pose proof (cc_top _ _ _ (chain_ok As hash top chain_at)) as Htop.
  pose proof (st_distinct (As := As)) as Hnd.
  pose proof (fire_all (S fuel) nodes As.*1 _ (λ id w, winv w ∧ Waiting id 1 w ∧ timeouts w 1 = ∅)
    Hnd Hinit) as Hfirst.
  assert (∀ v id w, 0 <= v <= 1 → Waiting id v w → has_room (S fuel) w) as Hroom.
  { intros v id w Hv Hw. apply room_at. rewrite (wa_view _ _ _ _ _ _ _ Hw). lia. }
  assert (∀ id, id ∈ As.*1 → ∃ w, foldl (fire (S fuel)) nodes As.*1 !! id = Some w ∧
    winv w ∧ Waiting id 1 w ∧ timeouts w 1 = ∅) as Hsecond.
  { apply Hfirst. intros id w _ (Hw & Hwait & Hto).
    assert (has_room (S fuel) w) as Hr by (by eapply (Hroom 0)). split; [done|].
    destruct (timer_waits As hash top chain_at (S fuel) id 0 w) as (Hwait' & Hto' & _); [done|done|lia|done|].
    split; [by apply run_once_winv|]. split; [done|]. rewrite Hto'. by rewrite Hto. }
  intros id Hid.
  destruct (fire_all (S fuel) _ As.*1 _ (λ id w, ∃ t, timeout_from As 1 id t ∧ waiting [] id (CM_Timeout t) w)
    Hnd Hsecond) with (id := id) as (w & Hw & t & Ht); [|done|eauto].
  intros id' w _ (Hw & Hwait & Hto).
  assert (has_room (S fuel) w) as Hr by (by eapply (Hroom 1)). split; [done|].
  destruct (timer_waits As hash top chain_at (S fuel) id' 1 w) as (Hwait' & Hto' & t & Ht & Hlat); [done|done|lia|done|].
  exists t. split; [done|]. split; [by apply run_once_winv|]. split; [done|]. split; [|done].
  rewrite Hto', bool_decide_eq_true_2 by done. simpl. by rewrite (right_id_L ∅ (∪)).
Qed.

Lemma start_up_proposes nodes :
  (∀ id, id ∈ As.*1 → ∃ w, nodes !! id = Some w ∧
     winv w ∧ Waiting id 0 w ∧ ∀ v, timeouts w v = ∅) →
  ∃ p, Ready [] p (start_up (S fuel) As.*1 nodes).
Proof.
  intros Hinit. pose proof (timers_wait nodes Hinit) as Htimers. unfold start_up.
  set (nodes2 := foldl (fire (S fuel)) _ As.*1) in *. clearbody nodes2. clear Hinit.
  destruct (leader_view 2) as (l & Hin & Hlead & Hvl).
  set (msg id := default CM_Phantom (nodes2 !! id ≫= latest (is_timeout 1))).
  assert (∀ id, id ∈ As.*1 → ∃ t, msg id = CM_Timeout t ∧ timeout_from As 1 id t) as Hmsg.
  { intros id Hid. destruct (Htimers id Hid) as (w & t & Hw & Ht & _ & _ & _ & Hlat). exists t.
    unfold msg. rewrite Hw. simpl. by rewrite Hlat. }
  destruct (fold_nodes (λ n to, collect (S fuel) (is_timeout 1) As.*1 to n) nodes2 As.*1
    (λ id w, waiting [] id (msg id) w) (λ id w, started l id (msg id) w)) as [Hall _].
  { apply (st_distinct (As := As)). }
  { intros id Hid. destruct (Htimers id Hid) as (w & t & Hw & Ht & Hwait). exists w. split; [done|].
    unfold msg. rewrite Hw. simpl. pose proof Hwait as (_ & _ & _ & Hlat). by rewrite Hlat. }
  { intros n id w Hid Hw Hwait Hothers _.
    pose proof (NoDup_others id As.*1 (st_distinct (As := As))) as Hnd.
    assert (id ∉ others id As.*1) as Hni by by intros [? _]%elem_of_others.
    destruct (deliver_to_one (S fuel) (is_timeout 1) id n (others id As.*1) msg
      (starting l id (msg id))) as (w' & Hcol & Hdone).
    - exists w. split; [done|]. unfold starting.
      by rewrite decide_False by apply (one_no_quorum As hash top chain_at).
    - done.
    - intros from [_ Hfrom]%elem_of_others. destruct (Hothers from Hfrom) as (wf & Hwf & Hor).
      exists wf. split; [done|]. destruct Hor as [(_ & _ & _ & ?)|(_ & _ & ? & _)]; done.
    - intros heard from wx Hpre Hs.
      assert (from ∈ others id As.*1) as Hfrom.
      { destruct Hpre as [rest ->]. apply elem_of_app. left. apply elem_of_app. right. by left. }
      apply elem_of_others in Hfrom as [_ Hfrom]. destruct (Hmsg from Hfrom) as (t & -> & Ht).
      by eapply starting_step.
    - exists w'. split; [done|]. unfold starting in Hdone.
      by rewrite decide_True in Hdone by by apply all_quorum. }
  destruct (Hall l Hin) as (wl & Hwl & _ & _ & _ & Hprop & _).
  destruct (Hprop eq_refl) as (p & Hp). exists p. pose proof Hp as (Hgo & _).
  pose proof (go_view _ _ _ _ Hgo) as Hpv. change (height []) with 0 in Hpv.
  exists l. split; [done|]. split; [by rewrite Hpv|]. split; [eauto|].
  intros id [Hne Hid]%elem_of_others. destruct (Hall id Hid) as (w & Hw & Hinv & Hview & _ & _ & Hk).
  exists w. split; [done|]. split; [done|]. split; [by apply Hk|]. split; [eexists; by rewrite app_nil_r|].
  split; [lia|]. by rewrite (go_qc _ _ _ _ Hgo), Hview, Hpv.
Qed.

(** ** All rounds *)

Lemma linked_views ps q : linked ps → q ∈ ps → proposal_view q < 2 + height ps.
Proof.
  induction ps as [|p ps IH]; intros Hl Hq; [by apply not_elem_of_nil in Hq|].
  destruct Hl as (Hp & _ & Hl). rewrite height_cons. apply elem_of_cons in Hq as [->|Hq].
  - rewrite (go_view _ _ _ _ Hp). lia.
  - specialize (IH Hl Hq). lia.
Qed.

(** A proposal on the network has a new digest. *)
Lemma ready_fresh ps p nodes final :
  linked ps → Ready ps p nodes → runs (S fuel) nodes final → collision_free final →
  Forall (λ q, q ∈ proposals final) ps → p ∈ proposals final ∧ fresh ps p.
Proof.
  intros Hl (l & _ & _ & (w & Hw & Hp & _ & Hlat & _) & _) Hr Hcf Hps.
  apply latest_Some_elem in Hlat as [Hm _].
  pose proof (runs_proposals _ _ _ _ _ _ Hr Hw Hm) as Hin. split; [done|].
  destruct (collision_free_spec _ _ Hcf Hin) as [Hd Hq].
  apply not_elem_of_cons. split; [done|]. intros (q & Heq & Hqin)%list_elem_of_fmap.
  rewrite Forall_forall in Hps. rewrite (Hq q (Hps q Hqin) Heq) in Hp.
  pose proof (linked_views ps q Hl Hqin). pose proof (go_view _ _ _ _ Hp). lia.
Qed.

Lemma sync_settles (K : nat) nodes :
  (∀ id, id ∈ As.*1 → ∃ w, nodes !! id = Some w ∧
     winv w ∧ Waiting id 0 w ∧ ∀ v, timeouts w v = ∅) →
  collision_free (sync_run (S fuel) As.*1 K nodes) → Z.of_nat K < 3 * top →
  ∀ k, (k ≤ K)%nat → ∃ ps p, length ps = k ∧ linked (p :: ps) ∧
    Forall (λ q, q ∈ proposals (sync_run (S fuel) As.*1 K nodes)) (p :: ps) ∧
    AllSettled ps p (sync_run (S fuel) As.*1 k nodes).
Proof.
  intros Hinit Hcf HK. set (final := sync_run (S fuel) As.*1 K nodes) in *.
  pose proof (cc_top _ _ _ (chain_ok As hash top chain_at)) as Htop.
  induction k as [|k IH]; intros Hk.
  - destruct (start_up_proposes nodes Hinit) as (p & Hready).
    assert (proposal_view p = 2) as Hpv.
    { destruct Hready as (l & _ & _ & (w & _ & Hp & _) & _). by rewrite (go_view _ _ _ _ Hp). }
    assert (runs (S fuel) (start_up (S fuel) As.*1 nodes) final) as Hr.
    { etrans; [|by apply (runs_sync _ _ 0)]. simpl. apply runs_proposal_round. }
    destruct (ready_fresh [] p _ final I Hready Hr Hcf) as [Hin Hfresh]; [done|].
    exists [], p. split; [done|].
    split; [|split; [by repeat constructor|]].
    + destruct Hready as (l & _ & _ & (w & _ & Hp & _) & _). by split.
    + simpl. rewrite <- Hpv. by apply proposal_round_settles; [| |unfold height; simpl; lia|].
  - destruct IH as (ps & p & Hlen & Hl & Hps & Hall); [lia|]. pose proof Hl as (Hp & _).
    pose proof (go_view _ _ _ _ Hp) as Hpv. unfold height in Hpv. rewrite Hlen in Hpv.
    assert (height (p :: ps) = Z.of_nat (S k)) as Hh by (unfold height; simpl; by rewrite Hlen).
    destruct (vote_round_proposes ps p _ Hl ltac:(lia) Hall) as (p' & Hready). rewrite Hpv in Hready.
    assert (proposal_view p' = 3 + Z.of_nat k) as Hpv'.
    { destruct Hready as (l & _ & _ & (w & _ & Hp' & _) & _). rewrite (go_view _ _ _ _ Hp'). lia. }
    assert (runs (S fuel) (vote_round (S fuel) As.*1 (2 + Z.of_nat k)
      (sync_run (S fuel) As.*1 k nodes)) final) as Hr.
    { etrans; [|by apply (runs_sync _ _ (S k))]. simpl. apply runs_proposal_round. }
    destruct (ready_fresh (p :: ps) p' _ final Hl Hready Hr Hcf Hps) as [Hin Hfresh].
    exists (p :: ps), p'. split; [simpl; by rewrite Hlen|].
    split; [|split; [by constructor|]].
    + destruct Hready as (l & _ & _ & (w & _ & Hp' & _) & _). by split.
    + simpl sync_run. rewrite <- Hpv'. by apply proposal_round_settles; [| |lia|].
Qed.
End finality.

(** ** The theorem *)
Section theorem.
Context `{Platform} {CL : Client} `{!PlatformLaws} `{!ClientLaws} `{!KeystoreLaws}.

(** A node before its first event, with all blocks in its queue. *)
Lemma idle_waiting As hash top chain_at id w :
  ChainClient hash top chain_at →
  idle w → cs_authorities (w_state w) = As → local_authority_id (w_state w) = Some id →
  chain_at 0 (w_client w) → w_pending_queue w = mkMutex false (backlog hash top) →
  (∀ h, client_get_aux (w_client w) (hash_as_ref h) = inr None) →
  winv w ∧ Waiting As hash top chain_at id 0 w ∧ ∀ v, timeouts w v = ∅.
Proof.
  intros Hc Hi Has Hid Hat Hq Hstore. split; [by apply (reachable_winv 0), idle_reachable|].
  destruct (idle_new _ Hi) as (ks & au & c & q & ->). split; [|done].
  split; simpl; try done. apply aggregator_new_ok.
Qed.

(** C3: a synchronous committee makes progress: when all authorities, two or more,
    are honest and start, with empty proposal stores, on a chain of [top] blocks
    waiting for finality, which polls before the first event have put in their
    queues, and
    messages arrive in rounds (two timers, the timeouts of view 1, then each
    proposal to everyone and its votes to the next leader), then after
    [3 * top] proposals every node has finalized the whole chain.  The rounds are
    a run of the network; digests of proposals in the run do not collide. *)
Theorem committee_finalizes (fuel : nat) (As : AuthorityList) (hash : Number → Hash) (top : Z)
    (chain_at : Number → client → Prop) (nodes : gmap AuthorityId Worker) :
  ChainClient hash top chain_at →
  cluster_initial As nodes → NoDup As.*1 → (2 ≤ length As)%nat →
  (∀ id, id ∈ As.*1 → is_Some (nodes !! id)) →
  (∀ id w, nodes !! id = Some w →
     chain_at 0 (w_client w) ∧ w_pending_queue w = mkMutex false (backlog hash top) ∧
     ∀ h, client_get_aux (w_client w) (hash_as_ref h) = inr None) →
  (1 ≤ fuel)%nat → 2 + 3 * top + room fuel <= u64_max →
  let final := sync_run fuel As.*1 (Z.to_nat (3 * top) - 1) nodes in
  collision_free final →
  (∃ actions, net_run fuel actions nodes = Some final) ∧
  ∀ id, id ∈ As.*1 → ∃ w, final !! id = Some w ∧ chain_at top (w_client w) ∧
    finalized_number w = top ∧ info_finalized_hash (client_info (w_client w)) = hash top.
Proof.
  intros Hchain Hinit Hnd Htwo Hsome Hnodes Hfuel Hmax final Hcf.
  split; [apply runs_sync_all|]. destruct fuel as [|fuel]; [lia|].
  pose proof (cc_top _ _ _ Hchain) as Htop.
  assert (Setting As hash top chain_at) as Hset.
  { split; try done. destruct As as [|[id x] As']; [simpl in *; lia|].
    destruct (Hsome id) as [w Hw]; [by left|]. destruct (Hinit id w Hw) as (Hi & Ha & _).
    rewrite <- Ha. by apply (idle_reachable 0), reachable_winv in Hi as [_ Hs]. }
  destruct (sync_settles As hash top chain_at fuel Hmax (Z.to_nat (3 * top) - 1) nodes)
    with (k := (Z.to_nat (3 * top) - 1)%nat) as (ps & p & Hlen & _ & _ & Hall); [|done|lia|done|].
  { intros id Hid. destruct (Hsome id Hid) as [w Hw]. exists w. split; [done|].
    destruct (Hinit id w Hw) as (? & ? & ?). destruct (Hnodes id w Hw) as (? & ? & ?). by apply idle_waiting. }
  intros id Hid. destruct (Hall id Hid) as (w & Hw & Hs). exists w. split; [done|].
  assert (chain_at top (w_client w)) as Hat.
  { pose proof (k_client _ _ _ _ _ _ _ (se_knows _ _ _ _ _ _ _ _ Hs)) as Hc.
    replace (height (p :: ps) / 3) with top in Hc; [done|]. unfold height. simpl. lia. }
  split; [done|]. split; [apply (cc_number _ _ _ Hchain _ _ Hat)|apply (cc_hash _ _ _ Hchain _ _ Hat)].
Qed.
End theorem.

Section witnesses.
#[local] Existing Instance ref_platform.
#[local] Existing Instance ref_platform_laws.
#[local] Existing Instance ref_keystore_laws.
#[local] Existing Instance ref_client.
#[local] Existing Instance ref_client_laws.

(** A chain of two blocks above the genesis block. *)
Definition ref_chain_hash (n : Z) : Hash := ref_hash (if n =? 0 then 0 else 1000 + n).
Definition ref_chain_at (n : Z) (c : client) : Prop :=
  n ∈ [0; 1; 2] ∧ rc_blocks c = rc_blocks (ref_chain 2) ∧ rc_finalized c = (ref_chain_hash n, n).

Lemma ref_chain_client : ChainClient ref_chain_hash 2 ref_chain_at.
Proof.
  assert (∀ n, 0 <= n < 2 → n = 0 ∨ n = 1) as Hcases by lia.
  assert (∀ c k, rc_blocks c = rc_blocks (ref_chain 2) → 0 < k <= 2 →
    rc_number c (ref_chain_hash k) = Some k) as Hnumber.
  { intros c k Hb Hk. unfold rc_number. rewrite Hb.
    assert (k = 1 ∨ k = 2) as [->| ->] by lia; vm_refl. }
  split.
  - intros n c (Hn & _ & Hf). simpl. rewrite Hf. unfold rc_clamp. simpl. set_unfold. lia.
  - intros n c (_ & _ & Hf). simpl. by rewrite Hf.
  - intros n k c (_ & Hb & _) Hk. cbn [client_status ref_client]. by rewrite Hnumber.
  - intros n c (Hn & Hb & Hf) Hlt. cbn [client_finalize_block ref_client].
    assert (0 <= n) as Hpos by (set_unfold; lia).
    unfold rc_finalize. rewrite Hnumber, Hf by (done || lia). cbn [snd].
    rewrite (proj2 (Z.ltb_lt n (n + 1))) by lia. eexists. split; [reflexivity|].
    split; [|done]. destruct (Hcases n) as [->| ->]; [lia|vm_decide..].
  - intros n c k v Hc. cbn [client_insert_aux ref_client]. unfold rc_insert. eexists.
    split; [reflexivity|]. exact Hc.
  - intros n Hn. destruct (Hcases n Hn) as [->| ->]; vm_decide.
  - intros n Hn. assert (n = 1 ∨ n = 2) as [->| ->] by lia; vm_decide.
  - lia.
Qed.

(** Three authorities with both blocks in their queues. *)
Definition member (i : Z) : Worker :=
  set_queue (mkMutex false (backlog ref_chain_hash 2)) (ref_new 3 i (ref_chain 2)).
Definition ref_committee : gmap AuthorityId Worker :=
  list_to_map ((λ i, (ref_id i, member i)) <$> [1; 2; 3]).

Lemma ref_committee_initial : cluster_initial (ref_authorities 3) ref_committee.
Proof.
  intros id w Hw. apply elem_of_list_to_map_2 in Hw.
  apply list_elem_of_fmap in Hw as (i & [= -> ->] & Hi). split.
  - set (imports := (λ k, mkImportNotification (ref_chain_hash k) k true) <$> [1; 2]).
    change (idle (set_queue (mkMutex false (best_blocks imports)) (ref_new 3 i (ref_chain 2)))).
    apply idle_filled; [by apply ref_worker_initial|].
    repeat (constructor; [split; simpl; lia|]). constructor.
  - split; [done|]. repeat (apply elem_of_cons in Hi as [->|Hi]; [vm_refl|]).
    by apply not_elem_of_nil in Hi.
Qed.

Lemma committee_finalizes_witness :
  ∃ actions final, net_run 1 actions ref_committee = Some final ∧
    finalized_number <$> final !! ref_id 3 = Some 2.
Proof.
  destruct (committee_finalizes 1 (ref_authorities 3) ref_chain_hash 2 ref_chain_at ref_committee)
    as [(actions & Hrun) Hall].
  - apply ref_chain_client.
  - apply ref_committee_initial.
  - vm_decide.
  - apply Nat.leb_le. vm_refl.
  - intros id Hid. apply elem_of_dom. revert id Hid.
    assert (Forall (λ id, id ∈ dom ref_committee) (ref_authorities 3).*1) as Hd by vm_decide.
    by apply Forall_forall.
  - intros id w Hw. apply elem_of_list_to_map_2 in Hw.
    apply list_elem_of_fmap in Hw as (i & [= -> ->] & _). split; [|by split].
    split; [vm_decide|]. by split.
  - lia.
  - apply Z.leb_le. vm_refl.
  - vm_decide.
  - destruct (Hall (ref_id 3)) as (w & Hw & _ & Hf & _); [vm_decide|].
    eexists actions, _. split; [exact Hrun|]. rewrite Hw. exact (f_equal Some Hf).
Defined.
End witnesses.
