(* ===== verification/Timer.v ===== *)
(** * The local timer ([Timer] of [hotstuff/consensus/src/synchronizer.rs]) and
      the loop of [run] in time

    [Timer] wraps tokio's [Interval], which is a parameter: [TokioTime] has its
    operations, [TokioLaws] what its documentation says of them.  [voter_step]
    is one turn of the [select!] of [ConsensusWorker::run] at a point in time;
    handlers take no time.  The theorem: a node's own timeouts are a full period
    apart, and a node that has been idle for a period times out. *)
From S2P Require Import Prelude Codec Primitives Reference Message Aggregator.
From S2P Require Import Synchronizer Network ConsensusState Import Worker WorkerFacts WorkerSafety.
Local Open Scope Z_scope.

(** [tokio::time], with instants and periods in milliseconds. *)
Class TokioTime := {
  Interval : Type;
  interval : Z → Z → outcome string Interval;
  interval_reset : Z → Interval → Interval;
  poll_tick : Z → Interval → option Z * Interval;
}.

(** The first tick of an interval is due at once, each further one a period after
    the one before; a reset makes the next one due a period from then.  The
    period must not be zero. *)
Class TokioLaws `{TokioTime} := {
  next_tick : Interval → Z;
  tick_period : Interval → Z;
  interval_zero : ∀ now, interval now 0 = Panic "`period` must be non-zero.";
  interval_start : ∀ now period, 0 < period →
    ∃ i, interval now period = Ok i ∧ next_tick i = now ∧ tick_period i = period;
  reset_next : ∀ now i, next_tick (interval_reset now i) = now + tick_period i;
  reset_period : ∀ now i, tick_period (interval_reset now i) = tick_period i;
  poll_pending : ∀ now i, now < next_tick i →
    (poll_tick now i).1 = None ∧ next_tick (poll_tick now i).2 = next_tick i ∧
    tick_period (poll_tick now i).2 = tick_period i;
  poll_ready : ∀ now i, next_tick i <= now →
    (poll_tick now i).1 = Some (next_tick i) ∧
    next_tick (poll_tick now i).2 = next_tick i + tick_period i ∧
    tick_period (poll_tick now i).2 = tick_period i;
}.

(** ** Timer *)
Record Timer `{TokioTime} := mkTimer { delay : Interval }.
Arguments mkTimer {_} _.

Section timer.
Context `{TokioTime}.

(** [Timer::new]. *)
Definition timer_new (now duration : Z) : outcome string Timer :=
  mkTimer <$> interval now duration.

(** [Timer::reset]. *)
Definition timer_reset (now : Z) (t : Timer) : Timer := mkTimer (interval_reset now (delay t)).

(** [Future::poll] for [Timer]. *)
Definition timer_poll (now : Z) (t : Timer) : option Z * Timer :=
  let '(r, i) := poll_tick now (delay t) in (r, mkTimer i).
End timer.

(** ** The loop of [run] *)
Section voter.
Context `{Platform} {CL : Client} `{TokioTime}.

(** The worker with its [local_timer]. *)
Record Voter := mkVoter { v_worker : Worker; v_timer : Timer }.

Definition is_reset (e : Effect) : bool := match e with ETimerReset => true | _ => false end.

(** Whether a handler that took the worker from [w] to [w'] reset the timer. *)
Definition resets (w w' : Worker) : bool :=
  existsb is_reset (drop (length (w_log w)) (w_log w')).

Definition handle_in_time (fuel : nat) (now : Z) (e : Event) (w : Worker) (t : Timer) : Voter :=
  let w' := (run_once fuel e w).2 in
  mkVoter w' (if resets w w' then timer_reset now t else t).

(** The branch [select!] takes; the timer's only when its poll is ready. *)
Inductive Branch := BTimer | BMessage (m : ConsensusMessage).

Definition voter_step (fuel : nat) (now : Z) (b : Branch) (v : Voter) : option Voter :=
  match b with
  | BTimer =>
      match timer_poll now (v_timer v) with
      | (Some _, t) => Some (handle_in_time fuel now TimerFired (v_worker v) t)
      | (None, _) => None
      end
  | BMessage m => Some (handle_in_time fuel now (Received m) (v_worker v) (v_timer v))
  end.

(** Turns of the loop at the given times. *)
Fixpoint voter_run (fuel : nat) (turns : list (Z * Branch)) (v : Voter) : option Voter :=
  match turns with
  | [] => Some v
  | (now, b) :: rest => voter_step fuel now b v ≫= voter_run fuel rest
  end.

(** The time of the last turn. *)
Definition last_time (start : Z) (turns : list (Z * Branch)) : Z :=
  default start (last turns.*1).
End voter.
Arguments Voter {_ _} _.

Section facts.
Context `{Platform} {CL : Client} `{TokioTime} `{!TokioLaws}.
Implicit Types (w : Worker) (v : Voter _).

Lemma timer_event_resets fuel w : resets w (run_once fuel TimerFired w).2 = true.
Proof.
  rewrite run_once_snd. simpl. unfold resets.
  assert (w_log w ++ [ETimerReset] `prefix_of` w_log (handle_local_timer fuel w).2) as [l ->].
  { unfold handle_local_timer, mbind at 1, comp_bind at 1, emit, modify at 1.
    match goal with |- _ `prefix_of` w_log (?m ?w0).2 =>
      assert (grows m) as Hg; [|exact (Hg w0)] end.
    pose proof grows_handle_qc. pose proof grows_get_proposal_payload.
    pose proof (grows_handle_proposal fuel).
    unfold handle_timeout, advance_view, generate_proposal, propose, gossip. grows. }
  rewrite <- app_assoc, drop_app_length. done.
Qed.

(** The timer's next tick is at most a period after the last turn, and at least
    a period after the last timeout. *)
Definition timed (duration : Z) (fired : option Z) (now : Z) v : Prop :=
  tick_period (delay (v_timer v)) = duration ∧
  next_tick (delay (v_timer v)) <= now + duration ∧
  ∀ t, fired = Some t → t <= now ∧ t + duration <= next_tick (delay (v_timer v)).

Lemma handle_in_time_timed fuel duration fired now t' e w t :
  t' <= now → timed duration fired t' (mkVoter w t) →
  timed duration fired now (handle_in_time fuel now e w t).
Proof.
  intros Hle (Hp & Hn & Hf). unfold handle_in_time, timed in *. simpl in *.
  destruct (resets _ _); simpl; rewrite ?reset_next, ?reset_period, ?Hp; (split; [done|]);
    (split; [lia|]); intros x Hx; destruct (Hf x Hx); lia.
Qed.

(** A turn of the timer: it is ready when its tick is due, and then starts anew. *)
Lemma timer_turn fuel duration fired now t' v :
  t' <= now → timed duration fired t' v →
  match voter_step fuel now BTimer v with
  | Some v' => next_tick (delay (v_timer v)) <= now ∧ timed duration (Some now) now v'
  | None => now < next_tick (delay (v_timer v))
  end.
Proof.
  intros Hle (Hp & Hn & Hf). simpl. unfold timer_poll.
  destruct (Z.lt_ge_cases now (next_tick (delay (v_timer v)))) as [Hlt|Hge].
  - destruct (poll_pending now _ Hlt) as [Hnone _]. destruct (poll_tick _ _) as [r i].
    simpl in Hnone. by subst r.
  - destruct (poll_ready now _ Hge) as (Hsome & _ & Hper). destruct (poll_tick _ _) as [r i].
    simpl in Hsome, Hper. subst r. split; [done|]. unfold handle_in_time.
    rewrite timer_event_resets. unfold timed. simpl. rewrite reset_next, reset_period, Hper, Hp.
    split; [done|]. split; [lia|]. intros x [= <-]. lia.
Qed.

(** The times at which the timer fired, and that they are a period apart. *)
Definition timeouts_of (turns : list (Z * Branch)) : list Z :=
  omap (λ x, match x.2 with BTimer => Some x.1 | BMessage _ => None end) turns.
Definition spaced (duration : Z) (l : list Z) : Prop :=
  StronglySorted (λ a b, a + duration <= b) l.

Lemma voter_run_timed fuel duration turns fired start v v' :
  0 < duration → timed duration fired start v → StronglySorted Z.le (start :: turns.*1) →
  voter_run fuel turns v = Some v' →
  (∃ fired', timed duration fired' (last_time start turns) v') ∧
  spaced duration (option_list fired ++ timeouts_of turns).
Proof.
  intros Hd. revert fired start v. induction turns as [|[now b] turns IH]; intros fired start v Ht Hs Hrun.
  { simpl in Hrun. simplify_eq. split; [by exists fired|]. rewrite app_nil_r.
    destruct fired; repeat constructor. }
  apply StronglySorted_inv in Hs as [Hs Hle]. apply Forall_cons in Hle as [Hle _].
  simpl in Hrun. apply bind_Some in Hrun as (v1 & Hv1 & Hrun).
  assert (last_time start ((now, b) :: turns) = last_time now turns) as ->.
  { unfold last_time. rewrite fmap_cons, last_cons. by destruct (last turns.*1). }
  destruct b as [|m].
  - pose proof (timer_turn fuel duration fired now start v Hle Ht) as Hturn. rewrite Hv1 in Hturn.
    destruct Hturn as [Hdue Ht1]. destruct (IH (Some now) now v1 Ht1 Hs Hrun) as [Hfin Hsp].
    split; [done|]. simpl in *. destruct fired as [x|]; [|done]. simpl.
    pose proof Hsp as [_ Hall]%StronglySorted_inv. destruct Ht as (_ & _ & Hf).
    destruct (Hf x eq_refl) as [_ Hx].
    constructor; [done|]. constructor; [lia|]. eapply Forall_impl; [exact Hall|]. simpl. lia.
  - simpl in Hv1. simplify_eq. destruct v as [w t].
    apply (IH fired now _ (handle_in_time_timed _ _ _ _ _ _ _ _ Hle Ht) Hs Hrun).
Qed.

(** C14: the local timer in time: whatever messages a node gets and whenever, its
    own timeouts are at least a full timer period apart, so that a node makes no
    more of them than one per period, and once a period has passed since its last
    turn the timer branch can be taken.  A timer can be made exactly when the
    period is not zero. *)
Theorem local_timer_spaces_timeouts fuel duration start w (turns : list (Z * Branch)) v :
  0 <= duration → StronglySorted Z.le (start :: turns.*1) →
  match timer_new start duration with
  | Ok t =>
      0 < duration ∧
      (voter_run fuel turns (mkVoter w t) = Some v →
       spaced duration (timeouts_of turns) ∧
       ∀ now, last_time start turns + duration <= now → is_Some (voter_step fuel now BTimer v))
  | Panic _ => duration = 0
  | _ => False
  end.
Proof.
  intros Hd Hs. unfold timer_new. destruct (decide (duration = 0)) as [->|Hne]; [by rewrite interval_zero|].
  destruct (interval_start start duration) as (i & -> & Hnext & Hper); [lia|]. cbn -[voter_step voter_run].
  split; [lia|]. intros Hrun.
  destruct (voter_run_timed fuel duration turns None start (mkVoter w (mkTimer i)) v) as [[fired Ht] Hsp];
    [lia| |done|done|].
  { split; [done|]. simpl. split; [lia|done]. }
  split; [done|]. intros now Hnow.
  pose proof (timer_turn fuel duration fired now (last_time start turns) v ltac:(lia) Ht) as Hturn.
  destruct (voter_step fuel now BTimer v); [by eexists|]. destruct Ht as (_ & Hle & _). lia.
Qed.
End facts.

Section witnesses.
#[local] Existing Instance ref_platform.
#[local] Existing Instance ref_platform_laws.
#[local] Existing Instance ref_client.

(** An interval as its next tick and its period. *)
Definition ref_tokio : TokioTime := {|
  Interval := Z * Z;
  interval now period :=
    if period =? 0 then Panic "`period` must be non-zero." else Ok (now, period);
  interval_reset now i := (now + i.2, i.2);
  poll_tick now i := if now <? i.1 then (None, i) else (Some i.1, (i.1 + i.2, i.2));
|}.
#[local] Existing Instance ref_tokio.

Definition ref_tokio_laws : TokioLaws.
Proof.
  refine {| next_tick := fst; tick_period := snd |}; try done.
  - intros now period Hp. exists (now, period). split; [|done]. simpl.
    by destruct (Z.eqb_spec period 0); [lia|].
  - intros now i Hlt. simpl. by rewrite (proj2 (Z.ltb_lt _ _) Hlt).
  - intros now i Hge. simpl. by rewrite (proj2 (Z.ltb_ge _ _) Hge).
Defined.
#[local] Existing Instance ref_tokio_laws.

Definition ref_timer (next period : Z) : @Timer ref_tokio := @mkTimer ref_tokio (next, period).

(** The timer fires at once and again after half a second, with a proposal in
    between. *)
Definition ref_turns : list (Z * Branch) :=
  [(0, BTimer); (200, BMessage (CM_Propose ref_p1)); (700, BTimer)].

Lemma local_timer_spaces_timeouts_witness :
  spaced 500 (timeouts_of ref_turns) ∧ timeouts_of ref_turns = [0; 700].
Proof.
  split; [|reflexivity].
  pose proof (local_timer_spaces_timeouts 2 500 0 (ref_worker 4 1) ref_turns) as Ht.
  assert (is_Some (voter_run 2 ref_turns (mkVoter (ref_worker 4 1) (ref_timer 0 500)))) as [v Hv].
  { apply is_Some_alt. vm_compute. exact I. }
  destruct (Ht v) as [_ Hr]; [lia| |exact (proj1 (Hr Hv))].
  change (ref_turns.*1) with [0; 200; 700]. repeat constructor; lia.
Defined.
End witnesses.
