(* ===== verification/Service.v ===== *)
(** * Starting and wiring a node
    ([hotstuff/consensus/src/consensus.rs] from [ConsensusNetwork] on,
    [client.rs], [authorities.rs], [aux_schema.rs])

    Authority sets and where they come from, the network task that decodes
    gossip into the worker's channel, and [start_hotstuff].  [Node] is the worker
    and the network task together.  The theorems: the channel gets exactly the
    decodable messages that fit, a started node refines the state machine of
    [WorkerSafety], also after restarts, a restart forgets the votes of a node, and
    the two lists of genesis authorities agree up to their weights. *)
From S2P Require Import Prelude Codec Primitives Reference Message Aggregator.
From S2P Require Import Synchronizer Network ConsensusState Import Worker WorkerFacts WorkerSafety.
From S2P Require Import Timer.
Local Open Scope Z_scope.

(** ** Authority sets *)

Record AuthoritySet `{Platform} := mkAuthoritySet {
  current_authorities : AuthorityList;
  authority_set_changes : list (Z * Number);
}.
Arguments mkAuthoritySet {_} _ _.

(** [SharedAuthoritySet]: the set behind a lock ([SharedData]), which nothing
    in the sources takes for writing. *)
Record SharedAuthoritySet `{Platform} := mkShared { shared_data : AuthoritySet }.
Arguments mkShared {_} _.

(** [PersistentData]. *)
Record PersistentData `{Platform} := mkPersistentData { pd_authority_set : SharedAuthoritySet }.
Arguments mkPersistentData {_} _.

(** [LinkHalf]: what ties the voter to the block importer; [select_chain] is
    always [None]. *)
Record LinkHalf `{Platform} {CL : Client} := mkLinkHalf {
  lh_client : client;
  lh_persistent_data : PersistentData;
}.
Arguments mkLinkHalf {_ _} _ _.

(** [HotstuffBlockImport]: a handle on the client. *)
Record HotstuffBlockImport `{Platform} {CL : Client} := mkBlockImport { hbi_inner : client }.
Arguments mkBlockImport {_ _} _.

(** [executor().call(hash, "HotstuffApi_authorities", &[], Offchain)]. *)
Class RuntimeClient `{Client} := {
  client_call_authorities : client → Hash → string + bytes;
}.

Section authorities.
Context `{Platform}.

(** [AuthoritySet::invalid_authority_list]. *)
Definition invalid_authority_list (authorities : AuthorityList) : bool :=
  match authorities with [] => true | _ => existsb (λ x, x.2 =? 0) authorities end.

(** [AuthoritySet::genesis]. *)
Definition authority_set_genesis (initial : AuthorityList) : option AuthoritySet :=
  if invalid_authority_list initial then None
  else Some (mkAuthoritySet initial []).

(** [AuthoritySet::new]. *)
Definition authority_set_new (authorities : AuthorityList) (changes : list (Z * Number)) :
    option AuthoritySet :=
  if invalid_authority_list authorities then None
  else Some (mkAuthoritySet authorities changes).

(** [SharedAuthoritySet::from], [inner] and [authority_set_changes]. *)
Definition shared_from (set : AuthoritySet) : SharedAuthoritySet := mkShared set.
Definition shared_inner (s : SharedAuthoritySet) : AuthoritySet := shared_data s.
Definition shared_authority_set_changes (s : SharedAuthoritySet) : list (Z * Number) :=
  authority_set_changes (shared_inner s).

(** [load_persistent]. *)
Definition load_persistent (genesis_authorities : outcome string AuthorityList) :
    outcome string PersistentData :=
  genesis_authorities ← genesis_authorities;
  match authority_set_genesis genesis_authorities with
  | Some genesis_set => Ok (mkPersistentData (shared_from genesis_set))
  | None => Panic "genesis authorities is non-empty; all weights are non-zero; qed."
  end.
End authorities.

Section genesis.
Context `{Platform} {CL : Client} {RC : RuntimeClient}.

(** [HeaderBackend::expect_block_hash_from_id(&BlockId::Number(0))]. *)
Definition expect_genesis_hash (c : client) : outcome string Hash :=
  r ← map_err (client_block_hash c 0) id;
  ok_or r "Expect block hash from id: Number(0)".

(** [GenesisAuthoritySetProvider::get]. *)
Definition genesis_authority_set (c : client) : outcome string (list AuthorityId) :=
  hash ← expect_genesis_hash c;
  call_result ← map_err (client_call_authorities c hash) id;
  ok_or (decode_all call_result) "failed to decode hotstuff authorities set proof".

(** [HotstuffBlockImport::new] and [LinkHalf::shared_authority_set]. *)
Definition block_import_new (inner : client) : HotstuffBlockImport := mkBlockImport inner.
Definition shared_authority_set (link : LinkHalf) : SharedAuthoritySet :=
  pd_authority_set (lh_persistent_data link).

(** [block_import]. *)
Definition block_import (c : client) : outcome string (HotstuffBlockImport * LinkHalf) :=
  persistent_data ← load_persistent (
    (λ authorities : list AuthorityId, (λ p, (p, 1)) <$> authorities) <$> genesis_authority_set c);
  Ok (block_import_new c, mkLinkHalf c persistent_data).

(** [get_genesis_authorities_from_client]: every failure is an [expect]. *)
Definition get_genesis_authorities_from_client (c : client) :
    outcome HotstuffError AuthorityList :=
  match expect_genesis_hash c with
  | Ok genesis_block_hash =>
      match client_call_authorities c genesis_block_hash with
      | inr authorities_data =>
          match decode_all authorities_data with
          | Some authorities => Ok ((λ id, (id, 0)) <$> authorities)
          | None => Panic "decode"
          end
      | inl _ => Panic "call runtime failed"
      end
  | _ => Panic "get genesis block hash from client failed"
  end.
End genesis.

(** ** The network task *)

(** The channel between the network task and the worker: [channel(1000)]. *)
Definition channel_capacity : nat := 1000.

(** A running node: the worker with its queue and gossip validator, and the
    messages the network task has put into the channel and the worker has not
    taken yet. *)
Record Node `{Platform} {CL : Client} := mkNode {
  n_worker : Worker;
  n_channel : list ConsensusMessage;
}.
Arguments mkNode {_ _} _ _.

Section network_task.
Context `{Platform} {CL : Client}.

(** [ConsensusNetwork::incoming_message_handler]; [try_send] fails on a full
    channel. *)
Definition incoming_message_handler (notification : bytes) :
    Comp (list ConsensusMessage) HotstuffError unit := λ channel,
  match decode_all notification with
  | None => (Err (Other "decode"), channel)
  | Some message =>
      if (length channel <? channel_capacity)%nat then (Ok (), channel ++ [message])
      else (Err (Other "no available capacity"), channel)
  end.

(** [ConsensusNetwork::poll] with what is ready: gossip notifications, whose
    errors are logged, then the pending queue. *)
Definition node_poll (debug_log : bool) (notifications : list bytes)
    (imports : list ImportNotification) (finalities : list FinalityNotification)
    (n : Node) : Node :=
  mkNode
    (set_queue (pending_queue_poll debug_log imports finalities
       (w_pending_queue (n_worker n))).2 (n_worker n))
    (foldl (λ ch data, (incoming_message_handler data ch).2) (n_channel n) notifications).

(** What happens at a node, in any order: its timer fires, the worker takes a
    message, the network task is polled, the client moves on. *)
Inductive NodeEvent :=
| NodeTimer
| NodeReceive
| NodePoll (debug_log : bool) (notifications : list bytes)
    (imports : list ImportNotification) (finalities : list FinalityNotification)
| NodeClient (c : client).

Definition node_event (fuel : nat) (e : NodeEvent) (n : Node) : Node :=
  match e with
  | NodeTimer => mkNode (run_once fuel TimerFired (n_worker n)).2 (n_channel n)
  | NodeReceive =>
      match n_channel n with
      | m :: rest => mkNode (run_once fuel (Received m) (n_worker n)).2 rest
      | [] => n
      end
  | NodePoll debug ns imports finalities => node_poll debug ns imports finalities n
  | NodeClient c => mkNode (set_client c (n_worker n)) (n_channel n)
  end.
End network_task.

(** ** [start_hotstuff] *)

(** [str::parse::<u64>]: decimal digits ([0] is 48) after an optional [+] (43), in range. *)
Fixpoint parse_digits (acc : Z) (s : string) : option Z :=
  match s with
  | EmptyString => Some acc
  | String a rest =>
      let d := Z.of_nat (Ascii.nat_of_ascii a) - 48 in
      if (0 <=? d) && (d <=? 9) then
        let acc' := acc * 10 + d in
        if acc' <=? u64_max then parse_digits acc' rest else None
      else None
  end.
Definition parse_u64 (s : string) : option Z :=
  match s with
  | EmptyString => None
  | String a rest =>
      if (Z.of_nat (Ascii.nat_of_ascii a) =? 43) then
        match rest with EmptyString => None | _ => parse_digits 0 rest end
      else parse_digits 0 s
  end.

Section start.
Context `{Platform} {CL : Client} {RC : RuntimeClient} {TT : TokioTime}.

(** The timer duration, from [HOTSTUFF_DURATION]. *)
Definition local_timer_duration (env_var : option string) : Z :=
  default 3000 (env_var ≫= parse_u64).

(** [start_hotstuff] at the time [now]: the node and its timer, which
    [ConsensusWorker::new] makes. *)
Definition start_hotstuff (now : Z) (link : LinkHalf) (keystore : Keystore)
    (env_var : option string) : outcome HotstuffError (Node * Timer) :=
  let c := lh_client link in
  authorities ← get_genesis_authorities_from_client c;
  let consensus_state := consensus_state_new keystore authorities in
  match pending_queue_new c with
  | Ok queue =>
      match timer_new now (local_timer_duration env_var) with
      | Ok timer => Ok (mkNode (worker_new consensus_state c queue) [], timer)
      | Err e | Panic e => Panic e
      | Diverge => Diverge
      end
  | Err _ => Panic "error"
  | Panic m => Panic m
  | Diverge => Diverge
  end.
End start.

(** ** Theorems *)
Section channel.
Context `{Platform} {CL : Client}.

Lemma incoming_messages notifications (channel : list ConsensusMessage) :
  (length channel ≤ channel_capacity)%nat →
  foldl (λ ch data, (incoming_message_handler data ch).2) channel notifications =
  channel ++ take (channel_capacity - length channel) (omap decode_all notifications).
Proof.
  revert channel. induction notifications as [|data ns IH]; intros channel Hlen; simpl.
  { by rewrite take_nil, app_nil_r. }
  unfold incoming_message_handler at 2.
  destruct (decode_all data) as [m|]; simpl; [|by apply IH].
  destruct (Nat.ltb_spec (length channel) channel_capacity); simpl.
  - rewrite IH by (rewrite length_app; simpl; lia). rewrite length_app. simpl.
    replace (channel_capacity - length channel)%nat
      with (S (channel_capacity - (length channel + 1)))%nat by lia.
    simpl. by rewrite <- app_assoc.
  - rewrite IH by done. by replace (channel_capacity - length channel)%nat with 0%nat by lia.
Qed.

(** A poll of the network task puts exactly the decodable messages, in the
    order they came, into the worker's channel, up to its capacity; bytes that
    do not decode and messages that do not fit are dropped, and what was in
    the channel stays.  The worker's consensus state is not touched. *)
Lemma node_poll_channel debug notifications imports finalities (n : Node) :
  (length (n_channel n) ≤ channel_capacity)%nat →
  let n' := node_poll debug notifications imports finalities n in
  n_channel n' = n_channel n ++
    take (channel_capacity - length (n_channel n)) (omap decode_all notifications) ∧
  (length (n_channel n') ≤ channel_capacity)%nat ∧
  w_state (n_worker n') = w_state (n_worker n) ∧ w_log (n_worker n') = w_log (n_worker n).
Proof.
  intros Hlen n'. subst n'. cbn [node_poll n_channel n_worker].
  rewrite incoming_messages by done. split; [done|]. split; [|done].
  rewrite length_app, length_take. lia.
Qed.
End channel.

Section refinement.
Context `{Platform} {CL : Client} {RC : RuntimeClient} {TT : TokioTime} `{!PlatformLaws} `{!ClientLaws}.

(** A node event as the environment may produce it. *)
Definition node_event_ok (n : Node) (e : NodeEvent) : Prop :=
  match e with
  | NodeTimer | NodeReceive => True
  | NodePoll _ _ imports _ => Forall (λ i, u32_ok (in_number i)) imports
  | NodeClient c => ∀ k, client_get_aux c k = client_get_aux (w_client (n_worker n)) k
  end.

Inductive node_run (fuel : nat) (n : Node) : list NodeEvent → Node → Prop :=
| node_run_nil : node_run fuel n [] n
| node_run_snoc es n' e :
    node_run fuel n es n' → node_event_ok n' e →
    cs_view (w_state (n_worker n')) + room fuel <= u64_max →
    node_run fuel n (es ++ [e]) (node_event fuel e n').

Definition channel_ok (n : Node) : Prop :=
  Forall message_ok (n_channel n) ∧ (length (n_channel n) ≤ channel_capacity)%nat.

Lemma node_poll_channel_ok debug ns imports finalities n :
  channel_ok n → channel_ok (node_poll debug ns imports finalities n).
Proof.
  intros [Hall Hlen]. unfold channel_ok. cbn [node_poll n_channel].
  rewrite incoming_messages by done. split.
  - apply Forall_app. split; [done|]. apply Forall_take, Forall_forall.
    intros m (data & _ & Hm)%list_elem_of_omap.
    unfold decode_all in Hm. apply fmap_Some in Hm as ([m' r] & Hd & ->). by eapply decode_ok.
  - rewrite length_app, length_take. lia.
Qed.

Lemma node_event_refines fuel e n :
  channel_ok n → node_event_ok n e → cs_view (w_state (n_worker n)) + room fuel <= u64_max →
  channel_ok (node_event fuel e n) ∧
  rtc (node_step fuel) (n_worker n) (n_worker (node_event fuel e n)).
Proof.
  intros Hc He Hmax. destruct e as [| |debug ns imports finalities|c]; simpl in *.
  - split; [done|]. apply rtc_once. by constructor.
  - destruct Hc as [Hall Hlen]. destruct (n_channel n) as [|m rest] eqn:E; simpl.
    + split; [|done]. by split; rewrite E.
    + apply Forall_cons in Hall as [Hm Hall]. split; [split; simpl in *; [done|lia]|].
      apply rtc_once. by constructor.
  - split; [by apply node_poll_channel_ok|]. apply rtc_once, NBackground. by constructor.
  - split; [done|]. apply rtc_once, NBackground. by constructor.
Qed.

Lemma start_hotstuff_initial now link ks env n timer :
  start_hotstuff now link ks env = Ok (n, timer) →
  store_ok (w_state (n_worker n)) (lh_client link) →
  cs_authorities (w_state (n_worker n)) ≠ [] →
  initial (n_worker n) ∧ n_channel n = [].
Proof.
  unfold start_hotstuff. cbv zeta. set (c := lh_client link).
  intros (auths & Ha & Hn)%outcome_bind_Ok Hstore Hne.
  assert (∀ q, pending_queue_new c = Ok q → q = mkMutex false []) as Hq.
  { unfold pending_queue_new. intros q (l & _ & [= <-])%outcome_bind_Ok. done. }
  destruct (pending_queue_new c) as [q| | |]; try done.
  destruct (timer_new _ _); simplify_eq. rewrite (Hq q eq_refl) in *.
  split; [|done]. split; simpl in *; [|split; [done|]|done].
  - eexists _, _, _. reflexivity.
  - unfold get_genesis_authorities_from_client in Ha.
    destruct (expect_genesis_hash c); [|done..].
    destruct (client_call_authorities c _) as [|data]; [done|].
    unfold decode_all in Ha. destruct (scale_decode data) as [[ids r]|] eqn:E; simpl in Ha; [|done].
    simplify_eq. rewrite length_fmap.
    by destruct (decode_ok (ok := vec_ok any_ok) _ _ _ E).
Qed.

Lemma node_run_refines fuel n es n' :
  initial (n_worker n) → n_channel n = [] → node_run fuel n es n' →
  rtc (node_step fuel) (n_worker n) (n_worker n') ∧ channel_ok n'.
Proof.
  intros Hi Hch Hrun. induction Hrun as [|es n' e _ [IH Hc] He Hmax].
  - split; [done|]. unfold channel_ok. rewrite Hch. split; [done|]. simpl. lia.
  - destruct (node_event_refines fuel e n' Hc He Hmax) as [Hc' Hs]. split; [by etrans|done].
Qed.

(** C9: a running node refines the voter's state machine: whatever order its
    timer, its channel, the network task and its client come in, the worker
    of a node that [start_hotstuff] started with at least one authority, on a
    store that holds nothing but proposals signed by its authorities under their
    digests, is always in a reachable state of that machine, its channel never
    exceeds its capacity, and every message the worker will take from it is well
    formed.  An empty store is such a store, and so is the one the run leaves,
    under any state with these authorities, so a node can be restarted on it. *)
Theorem started_node_refines_worker fuel now link ks env n timer es n' :
  start_hotstuff now link ks env = Ok (n, timer) →
  store_ok (w_state (n_worker n)) (lh_client link) →
  cs_authorities (w_state (n_worker n)) ≠ [] →
  node_run fuel n es n' →
  reachable fuel (n_worker n') ∧ channel_ok n' ∧
  ∀ s, cs_authorities s = cs_authorities (w_state (n_worker n)) →
    store_ok s (w_client (n_worker n')).
Proof.
  intros Hstart Hstore Hne Hrun.
  destruct (start_hotstuff_initial _ _ _ _ _ _ Hstart Hstore Hne) as [Hi Hch].
  destruct (node_run_refines _ _ _ _ Hi Hch Hrun) as [Hr Hc].
  assert (reachable fuel (n_worker n')) as Hreach by by exists (n_worker n).
  split; [done|]. split; [done|]. intros s Hs.
  eapply store_ok_congr; [|apply (reachable_winv _ _ Hreach)].
  by rewrite Hs, (steps_authorities _ _ _ (initial_winv _ Hi) Hr).
Qed.
(** The last voted view of a voter is gone after a restart. *)
Lemma started_state now link ks env n timer :
  start_hotstuff now link ks env = Ok (n, timer) →
  w_state (n_worker n) = consensus_state_new ks (cs_authorities (w_state (n_worker n))) ∧
  w_client (n_worker n) = lh_client link ∧ w_log (n_worker n) = [].
Proof.
  unfold start_hotstuff. intros (auths & _ & Hn)%outcome_bind_Ok.
  destruct (pending_queue_new (lh_client link)); try done. by destruct (timer_new _ _); simplify_eq.
Qed.

(** C26: a restart makes an honest node vote twice in a view, since nothing of the
    voter's state is stored: let a node that [start_hotstuff] started have voted in
    view 1, and be started again on the client it left, with the same keys and
    authorities.  On any authentic proposal of view 1 for a known block, on a
    certificate of view 0, that can be stored, it votes again, with a valid vote
    by the same key, also when this is another proposal than the first. *)
Theorem restart_votes_again `{!KeystoreLaws} fuel now link ks env n0 timer0 es n1 v0
    now' link' env' n timer p c :
  start_hotstuff now link ks env = Ok (n0, timer0) →
  store_ok (w_state (n_worker n0)) (lh_client link) →
  cs_authorities (w_state (n_worker n0)) ≠ [] →
  node_run (S fuel) n0 es n1 → EVoted v0 ∈ w_log (n_worker n1) → vote_view v0 = 1 →
  lh_client link' = w_client (n_worker n1) →
  start_hotstuff now' link' ks env' = Ok (n, timer) →
  cs_authorities (w_state (n_worker n)) = cs_authorities (w_state (n_worker n0)) →
  proposal_ok p → authentic (w_state (n_worker n)) p → proposal_view p = 1 →
  qc_view (proposal_qc p) = 0 → payload_known (n_worker n) p →
  save_proposal p (lh_client link') = (Ok (), c) → room (S fuel) <= u64_max →
  proposal_digest p ≠ vote_proposal_hash v0 →
  ∃ v, EVoted v ∈ w_log (run_once (S fuel) (Received (CM_Propose p)) (n_worker n)).2 ∧
    vote_voter v = vote_voter v0 ∧ vote_view v = vote_view v0 ∧
    vote_proposal_hash v ≠ vote_proposal_hash v0 ∧
    vote_verify v (cs_authorities (w_state (n_worker n))) = Ok ().
Proof.
  intros Hstart Hstore Hne Hrun Hv0 Hview0 Hclient Hstart' Hauth Hok Hp Hview Hqc Hk Hsave Hroom Hdiff.
  destruct (start_hotstuff_initial _ _ _ _ _ _ Hstart Hstore Hne) as [Hi Hch].
  destruct (node_run_refines _ _ _ _ Hi Hch Hrun) as [Hr _].
  pose proof (steps_winv _ _ _ (initial_winv _ Hi) Hr) as Hw1.
  destruct (started_state _ _ _ _ _ _ Hstart) as (Hs0 & _), (started_state _ _ _ _ _ _ Hstart') as (Hs & Hc & _).
  assert (local_authority_id (w_state (n_worker n)) = Some (vote_voter v0)) as Hlocal.
  { destruct (wi_votes _ Hw1) as [_ Hall]. rewrite Forall_forall in Hall.
    destruct (Hall v0) as (_ & Hl & _); [by apply elem_of_votes|].
    rewrite (steps_local _ _ _ (initial_winv _ Hi) Hr), Hs0, <- Hauth, <- Hs in Hl. done. }
  destruct (start_hotstuff_initial _ _ _ _ _ _ Hstart') as [Hi' _]; [|by rewrite Hauth|].
  { rewrite Hclient. eapply store_ok_congr; [|apply Hw1].
    by rewrite Hauth, (steps_authorities _ _ _ (initial_winv _ Hi) Hr). }
  assert (cs_view (w_state (n_worker n)) = 0 ∧ cs_last_voted_view (w_state (n_worker n)) = 0)
    as [Hv Hlast] by by rewrite Hs.
  destruct (vote_depends_on_views_only fuel p c (vote_voter v0) (n_worker n))
    as (v & Hin & Hh & Hvv & Hver); try done.
  { by rewrite Hqc, Hv, Hview. }
  { lia. }
  { by rewrite Hc. }
  exists v. rewrite run_once_snd. split; [done|].
  assert (node_step (S fuel) (n_worker n) (run_once (S fuel) (Received (CM_Propose p)) (n_worker n)).2)
    as Hstep by (apply NEvent; [done|lia]).
  split; [|split; [congruence|split; [congruence|done]]].
  pose proof (steps_winv _ _ _ (initial_winv _ Hi') (rtc_once _ _ Hstep)) as [_ _ _ _ _ _ _ _ [_ Hall] _ _].
  rewrite Forall_forall in Hall. destruct (Hall v) as (_ & Hl & _).
  { apply elem_of_votes. by rewrite run_once_snd. }
  rewrite (steps_local _ _ _ (initial_winv _ Hi') (rtc_once _ _ Hstep)), Hlocal in Hl. congruence.
Qed.
End refinement.

Section authority_facts.
Context `{Platform} {CL : Client} {RC : RuntimeClient}.

(** C34: the genesis authorities reach the block importer and the voter as the
    same identities, with weight 1 at the importer and weight 0 at the voter:
    when the authorities can be read, [block_import] panics exactly when there
    are none, and otherwise keeps the set in which each of them has weight 1;
    the voter's list of the same authorities with weight 0 is not a valid
    authority set at all. *)
Theorem genesis_authorities_agree (c : client) (ids : list AuthorityId) :
  genesis_authority_set c = Ok ids →
  get_genesis_authorities_from_client c = Ok ((λ id, (id, 0)) <$> ids) ∧
  authority_set_genesis ((λ id, (id, 0)) <$> ids) = None ∧
  match block_import c with
  | Ok (_, link) =>
      ids ≠ [] ∧
      current_authorities (shared_inner (shared_authority_set link)) = (λ id, (id, 1)) <$> ids ∧
      shared_authority_set_changes (shared_authority_set link) = [] ∧ lh_client link = c
  | Panic _ => ids = []
  | _ => False
  end.
Proof.
  intros Hg. split; [|split].
  - unfold genesis_authority_set in Hg. unfold get_genesis_authorities_from_client.
    destruct (expect_genesis_hash c) as [h| | |]; simpl in Hg; try done.
    destruct (client_call_authorities c h) as [e|data]; simpl in Hg; [done|].
    destruct (decode_all data); simpl in Hg; by simplify_eq.
  - unfold authority_set_genesis. by destruct ids.
  - unfold block_import, load_persistent. rewrite Hg. cbn.
    unfold authority_set_genesis. destruct ids as [|id ids]; [done|].
    assert (invalid_authority_list ((λ p, (p, 1)) <$> id :: ids) = false) as ->.
    { unfold invalid_authority_list. cbn [fmap list_fmap]. apply Bool.not_true_is_false.
      intros (x & Hx & Hw)%existsb_elem_of. change ((id, 1) :: ((λ p, (p, 1)) <$> ids))
        with ((λ p : AuthorityId, (p, 1)) <$> id :: ids) in Hx.
      by apply list_elem_of_fmap in Hx as (? & -> & _). }
    done.
Qed.
End authority_facts.

Section witnesses.
#[local] Existing Instance ref_platform.
#[local] Existing Instance ref_platform_laws.
#[local] Existing Instance ref_keystore_laws.
#[local] Existing Instance ref_client.
#[local] Existing Instance ref_client_laws.
#[local] Existing Instance ref_tokio.

(** A client whose runtime has the authorities 1 to 4 at genesis. *)
Definition ref_ids : list AuthorityId := (ref_authorities 4).*1.
Definition ref_runtime_client : @RuntimeClient ref_platform ref_client := {|
  client_call_authorities c h := inr (scale_encode ref_ids);
|}.
#[local] Existing Instance ref_runtime_client.

Definition ref_genesis_chain : ref_client_state :=
  mkRefClient ((ref_hash 0, 0) :: rc_blocks (ref_chain 3)) 3 (ref_hash 0, 0) ∅.
Definition ref_started : Node :=
  mkNode (worker_new (consensus_state_new [ref_id 1] ((λ id, (id, 0)) <$> ref_ids))
    ref_genesis_chain (mkMutex false [])) [].

Definition ref_link : LinkHalf :=
  mkLinkHalf (CL := ref_client) ref_genesis_chain
    (mkPersistentData (shared_from (mkAuthoritySet ((λ id, (id, 1)) <$> ref_ids) []))).

Lemma node_poll_channel_witness :
  n_channel (node_poll false [scale_encode (CM_Vote (ref_vote 2 1 (ref_hash 7))); []] [] []
    ref_started) = [CM_Vote (ref_vote 2 1 (ref_hash 7))].
Proof.
  destruct (node_poll_channel false [scale_encode (CM_Vote (ref_vote 2 1 (ref_hash 7))); []] [] []
    ref_started) as [Hch _]; [simpl; unfold channel_capacity; lia|].
  rewrite Hch. vm_refl.
Defined.

(** The node gets a proposal and stops; the next start is on what it stored. *)
Definition ref_poll : NodeEvent := NodePoll false [scale_encode (CM_Propose ref_p1)] [] [].
Definition ref_polled : Node := node_event 2 ref_poll ref_started.
Definition ref_stopped : Node := node_event 2 NodeReceive ref_polled.
Definition ref_relink : LinkHalf :=
  mkLinkHalf (w_client (n_worker ref_stopped)) (lh_persistent_data ref_link).
Definition ref_restarted : Node :=
  mkNode (worker_new (w_state (n_worker ref_started)) (w_client (n_worker ref_stopped))
    (mkMutex false [])) [].

Lemma ref_room n : (cs_view (w_state (n_worker n)) + room 2 <=? u64_max) = true →
  cs_view (w_state (n_worker n)) + room 2 <= u64_max.
Proof. apply Z.leb_le. Qed.

Lemma started_node_refines_worker_witness :
  reachable 2 (n_worker (node_event 2 NodeTimer ref_restarted)) ∧
  stored (w_client (n_worker ref_restarted)) ref_p1.
Proof.
  split; [|red; vm_refl].
  destruct (started_node_refines_worker (CL := ref_client) 2 0 ref_link [ref_id 1]
    (Some "500"%string) ref_started (ref_timer 0 500)
    (([] ++ [ref_poll]) ++ [NodeReceive]) ref_stopped) as (_ & _ & Hstore).
  - vm_refl.
  - intros h data. discriminate.
  - discriminate.
  - constructor; [constructor; [constructor|constructor|]|exact I|]; apply ref_room; vm_refl.
  - destruct (started_node_refines_worker (CL := ref_client) 2 0 ref_relink [ref_id 1]
      (Some "500"%string) ref_restarted (ref_timer 0 500)
      ([] ++ [NodeTimer]) (node_event 2 NodeTimer ref_restarted)) as [Hr _].
    + vm_refl.
    + exact (Hstore (w_state (n_worker ref_started)) eq_refl).
    + discriminate.
    + constructor; [constructor|exact I|]. apply ref_room. vm_refl.
    + exact Hr.
Defined.

(** The leader of view 1 proposes twice; authority 1 votes before the stop and
    after it. *)
Definition ref_p1' : Proposal := ref_proposal 2 1 qc_default (ref_block 2).

Lemma restart_votes_again_witness :
  ∃ v, EVoted v ∈ w_log (run_once 2 (Received (CM_Propose ref_p1')) (n_worker ref_restarted)).2 ∧
    vote_voter v = ref_id 1 ∧ vote_view v = 1 ∧ vote_proposal_hash v ≠ proposal_digest ref_p1.
Proof.
  destruct (restart_votes_again (CL := ref_client) 1 0 ref_link [ref_id 1] (Some "500"%string)
    ref_started (ref_timer 0 500) (([] ++ [ref_poll]) ++ [NodeReceive]) ref_stopped
    (ref_vote 1 1 (proposal_digest ref_p1)) 0 ref_relink (Some "500"%string) ref_restarted
    (ref_timer 0 500) ref_p1' (save_proposal ref_p1' (lh_client ref_relink)).2)
    as (v & Hin & Hid & Hv & Hh & _).
  - vm_refl.
  - intros h data. discriminate.
  - discriminate.
  - constructor; [constructor; [constructor|constructor|]|exact I|]; apply ref_room; vm_refl.
  - vm_decide.
  - reflexivity.
  - reflexivity.
  - vm_refl.
  - reflexivity.
  - repeat split; simpl; try lia; by repeat constructor.
  - red. vm_refl.
  - reflexivity.
  - reflexivity.
  - right. vm_refl.
  - vm_refl.
  - apply Z.leb_le. vm_refl.
  - vm_decide.
  - exists v. split; [exact Hin|]. split; [exact Hid|]. split; [exact Hv|exact Hh].
Defined.

Lemma genesis_authorities_agree_witness :
  get_genesis_authorities_from_client ref_genesis_chain = Ok ((λ id, (id, 0)) <$> ref_ids).
Proof.
  apply (genesis_authorities_agree (CL := ref_client) ref_genesis_chain ref_ids). vm_refl.
Defined.
End witnesses.
