(* ===== verification/Inherents.v ===== *)
(** * The slot inherent ([hotstuff/primitives/src/inherents.rs])

    A block author puts the slot it authors for into the block's inherent data,
    and the runtime side reads it back.  [InherentData] and [Slot] are types of
    libraries: their operations are parameters, [InherentLaws] their documented
    behaviour, with [inherent_lookup] as the view of the data as a map from
    identifiers to encoded values. *)
From S2P Require Import Prelude Codec Primitives Reference.
Local Open Scope Z_scope.

Class InherentLib `{Scale} := {
  InherentData : Type;
  InherentError : Type;
  inherent_data_new : InherentData;
  inherent_lookup : InherentData → bytes → option bytes;
  put_data : ∀ {A}, Codec A → bytes → A → InherentData → (InherentError + unit) * InherentData;
  replace_data : ∀ {A}, Codec A → bytes → A → InherentData → InherentData;
  get_data : ∀ {A}, Codec A → bytes → InherentData → InherentError + option A;
  (** [Slot::from_timestamp], in milliseconds. *)
  slot_from_timestamp : Z → Z → Z;
}.

Class InherentLaws `{InherentLib} : Prop := {
  lookup_new : ∀ id, inherent_lookup inherent_data_new id = None;
  (** Data is inserted unless its identifier is taken. *)
  put_data_fresh : ∀ A (C : Codec A) id a d, inherent_lookup d id = None →
    ∃ d', put_data C id a d = (inr (), d') ∧
      inherent_lookup d' id = Some (scale_encode a) ∧
      ∀ id', id' ≠ id → inherent_lookup d' id' = inherent_lookup d id';
  put_data_taken : ∀ A (C : Codec A) id a d, inherent_lookup d id ≠ None →
    ∃ e, put_data C id a d = (inl e, d);
  (** Data is replaced, or inserted when there is none. *)
  replace_data_lookup : ∀ A (C : Codec A) id a d,
    inherent_lookup (replace_data C id a d) id = Some (scale_encode a) ∧
    ∀ id', id' ≠ id → inherent_lookup (replace_data C id a d) id' = inherent_lookup d id';
  (** Data is found and decoded. *)
  get_data_lookup : ∀ A (C : Codec A) id d,
    match inherent_lookup d id with
    | None => get_data C id d = inr None
    | Some b =>
        match decode_all b with
        | Some a => get_data C id d = inr (Some a)
        | None => ∃ e, get_data C id d = inl e
        end
    end;
  (** A slot is the number of whole slot durations that have passed. *)
  slot_from_timestamp_spec : ∀ t d, 0 <= t → 0 < d →
    slot_from_timestamp t d * d <= t < (slot_from_timestamp t d + 1) * d;
}.

(** The Hotstuff inherent identifier. *)
Definition INHERENT_IDENTIFIER : bytes := byte_string "hotsslot".

(** Provides the slot duration inherent data for [Hotstuff]. *)
Record InherentDataProvider := mkInherentDataProvider { idp_slot : Z }.

Section inherents.
Context `{InherentLib}.

(** [HotstuffInherentData for InherentData]. *)
Definition hotstuff_inherent_data (d : InherentData) : InherentError + option Z :=
  get_data u64_codec INHERENT_IDENTIFIER d.
Definition hotstuff_replace_inherent_data (new : Z) (d : InherentData) : InherentData :=
  replace_data u64_codec INHERENT_IDENTIFIER new d.

(** [InherentDataProvider::new], [from_timestamp_and_slot_duration], [deref]. *)
Definition inherent_data_provider_new (slot : Z) : InherentDataProvider :=
  mkInherentDataProvider slot.
Definition from_timestamp_and_slot_duration (timestamp slot_duration : Z) :
    InherentDataProvider :=
  let slot := slot_from_timestamp timestamp slot_duration in
  mkInherentDataProvider slot.
Definition idp_deref (p : InherentDataProvider) : Z := idp_slot p.

(** [provide_inherent_data], [try_handle_error]. *)
Definition provide_inherent_data (p : InherentDataProvider) (d : InherentData) :
    (InherentError + unit) * InherentData :=
  put_data u64_codec INHERENT_IDENTIFIER (idp_slot p) d.
Definition try_handle_error (p : InherentDataProvider) (id error : bytes) :
    option (InherentError + unit) := None.
End inherents.

Section facts.
Context `{InherentLib} `{!ScaleLaws} `{!InherentLaws}.

Lemma slot_read_back slot d :
  u64_ok slot → inherent_lookup d INHERENT_IDENTIFIER = Some (encode_u64 slot) →
  hotstuff_inherent_data d = inr (Some slot).
Proof.
  intros Hok Hl. pose proof (get_data_lookup Z u64_codec INHERENT_IDENTIFIER d) as Hg.
  rewrite Hl in Hg.
  assert (@decode_all Z u64_codec (encode_u64 slot) = Some slot) as Hdec
    by by apply (decode_all_encode (HA := u64_round_trip)).
  by rewrite Hdec in Hg.
Qed.

(** The slot an author provides is the slot that is read: the slot of a
    timestamp is stored once, a second provider fails and changes nothing, a
    replacement takes over, and the data of other inherents is never touched;
    the slot read is the one whose interval holds the timestamp. *)
Lemma slot_inherent_round_trip (t t' duration : Z) (d : InherentData) :
  0 <= t <= u64_max → 0 <= t' <= u64_max → 0 < duration →
  inherent_lookup d INHERENT_IDENTIFIER = None →
  let p := from_timestamp_and_slot_duration t duration in
  let p' := from_timestamp_and_slot_duration t' duration in
  ∃ d', provide_inherent_data p d = (inr (), d') ∧
    hotstuff_inherent_data d = inr None ∧
    hotstuff_inherent_data d' = inr (Some (idp_deref p)) ∧
    (∃ e, provide_inherent_data p' d' = (inl e, d')) ∧
    (let r := hotstuff_replace_inherent_data (idp_deref p') d' in
     hotstuff_inherent_data r = inr (Some (idp_deref p')) ∧
     ∀ id, id ≠ INHERENT_IDENTIFIER → inherent_lookup r id = inherent_lookup d id) ∧
    idp_deref p * duration <= t < (idp_deref p + 1) * duration.
Proof.
  intros Ht Ht' Hd Hnone p p'.
  assert (∀ x, 0 <= x <= u64_max → u64_ok (slot_from_timestamp x duration)) as Hslot.
  { intros x Hx. destruct (slot_from_timestamp_spec x duration) as [? ?]; [lia..|].
    unfold u64_ok, u64_max in *. nia. }
  destruct (put_data_fresh Z u64_codec INHERENT_IDENTIFIER (idp_slot p) d Hnone)
    as (d' & Hput & Hl & Hother).
  exists d'. split; [done|]. split.
  { pose proof (get_data_lookup Z u64_codec INHERENT_IDENTIFIER d) as Hg. by rewrite Hnone in Hg. }
  split; [apply slot_read_back; [by apply Hslot|done]|].
  split; [apply put_data_taken; by rewrite Hl|].
  destruct (replace_data_lookup Z u64_codec INHERENT_IDENTIFIER (idp_slot p') d') as [Hr Hro].
  split; [|by apply slot_from_timestamp_spec; lia].
  split; [apply slot_read_back; [by apply Hslot|done]|].
  intros id Hid. unfold hotstuff_replace_inherent_data. rewrite Hro, Hother by done. done.
Qed.
End facts.

Section witnesses.
#[local] Existing Instance ref_scale.
#[local] Existing Instance ref_scale_laws.

(** Inherent data as a map. *)
Definition ref_inherent_lib : InherentLib := {|
  InherentData := gmap bytes bytes;
  InherentError := string;
  inherent_data_new := ∅;
  inherent_lookup d id := d !! id;
  put_data A C id a d :=
    match d !! id with
    | Some _ => (inl "InherentDataExists"%string, d)
    | None => (inr (), <[id := scale_encode a]> d)
    end;
  replace_data A C id a d := <[id := scale_encode a]> d;
  get_data A C id d :=
    match d !! id with
    | None => inr None
    | Some b => match decode_all b with Some a => inr (Some a) | None => inl "decode"%string end
    end;
  slot_from_timestamp t d := t / d;
|}.
#[local] Existing Instance ref_inherent_lib.

Lemma ref_inherent_laws : InherentLaws.
Proof.
  split; cbn.
  - done.
  - intros A C id a d ->. eexists. split; [done|]. split; [by rewrite lookup_insert_eq|].
    intros. by rewrite lookup_insert_ne.
  - intros A C id a d Hd. destruct (d !! id); [eauto|done].
  - intros A C id a d. split; [by rewrite lookup_insert_eq|]. intros. by rewrite lookup_insert_ne.
  - intros A C id d. destruct (d !! id) as [b|]; [|done]. destruct (decode_all b); eauto.
  - intros t d Ht Hd. pose proof (Z.mul_div_le t d Hd). pose proof (Z.mul_succ_div_gt t d Hd). lia.
Qed.

(** A six-second slot; the provider comes back a slot later. *)
Lemma slot_inherent_round_trip_witness :
  hotstuff_inherent_data
    (provide_inherent_data (from_timestamp_and_slot_duration 12345 6000) inherent_data_new).2 =
  inr (Some 2).
Proof.
  destruct (@slot_inherent_round_trip _ _ _ ref_inherent_laws 12345 18345 6000 inherent_data_new)
    as (d' & Hput & _ & Hget & _).
  - unfold u64_max. lia.
  - unfold u64_max. lia.
  - lia.
  - reflexivity.
  - rewrite Hput. exact Hget.
Defined.
End witnesses.
