(* ===== verification/Pallet.v ===== *)
(** * The runtime pallet ([hotstuff/pallets/hotstuff/src/lib.rs]) and digest items
    ([primitives/src/digests.rs])

    The pallet keeps the authorities and the current slot, checks each block's
    slot and author, and announces authority changes in the block's digest.  The
    theorems: its storage invariant over any sequence of calls, exactly which
    blocks [on_initialize] accepts and what it establishes, and that a session
    change is stored and announced alike. *)
From S2P Require Import Prelude Codec Primitives Reference.
Local Open Scope Z_scope.

(** [sp_runtime::generic::DigestItem]. *)
Inductive DigestItem :=
| DI_PreRuntime (engine : bytes) (data : bytes)
| DI_Consensus (engine : bytes) (data : bytes)
| DI_Seal (engine : bytes) (data : bytes)
| DI_Other (data : bytes)
| DI_RuntimeEnvironmentUpdated.

(** [pallet::Config]. *)
Record PalletConfig := mkPalletConfig {
  MaxAuthorities : Z;
  is_disabled : Z → bool;
  AllowMultipleBlocksPerSlot : bool;
  MinimumPeriod : Z;
}.

(** The pallet's storage, [None] for a value never put, and the logs of the
    block's digest. *)
Record PalletState `{Platform} := mkPalletState {
  ps_authorities : option (list AuthorityId);
  ps_current_slot : option Z;
  ps_digest : list DigestItem;
}.
Arguments mkPalletState {_} _ _ _.

Section digests.
Context `{Platform}.

(** [CompatibleDigestItem]. *)
Definition hotstuff_seal (signature : AuthoritySignature) : DigestItem :=
  DI_Seal HOTSTUFF_ENGINE_ID (scale_encode signature).
Definition as_hotstuff_seal (d : DigestItem) : option AuthoritySignature :=
  match d with
  | DI_Seal id data => if bool_decide (id = HOTSTUFF_ENGINE_ID) then decode_all data else None
  | _ => None
  end.
Definition hotstuff_pre_digest (slot : Z) : DigestItem :=
  DI_PreRuntime HOTSTUFF_ENGINE_ID (encode_u64 slot).
Definition decode_slot (data : bytes) : option Z := fst <$> decode_u64 data.
Definition as_hotstuff_pre_digest (d : DigestItem) : option Z :=
  match d with
  | DI_PreRuntime id data => if bool_decide (id = HOTSTUFF_ENGINE_ID) then decode_slot data else None
  | _ => None
  end.
End digests.

Section pallet.
Context `{Platform} (T : PalletConfig).
Implicit Types (st : PalletState).
Abbreviation P := (Comp PalletState string).

(** Storage access; both values are [ValueQuery]. *)
Definition authorities st : list AuthorityId := default [] (ps_authorities st).
Definition current_slot st : Z := default 0 (ps_current_slot st).
Definition put_authorities (ids : list AuthorityId) st : PalletState :=
  mkPalletState (Some ids) (ps_current_slot st) (ps_digest st).
Definition put_current_slot (slot : Z) st : PalletState :=
  mkPalletState (ps_authorities st) (Some slot) (ps_digest st).
Definition deposit_log (d : DigestItem) st : PalletState :=
  mkPalletState (ps_authorities st) (ps_current_slot st) (ps_digest st ++ [d]).

Definition assert (b : bool) (msg : string) : P unit :=
  if b then mret () else lift (Panic msg).

(** [digest.logs.iter().filter_map(|d| d.as_pre_runtime())]. *)
Definition pre_runtime_digests (logs : list DigestItem) : list (bytes * bytes) :=
  omap (λ d, match d with DI_PreRuntime id data => Some (id, data) | _ => None end) logs.

(** The loop of [current_slot_from_digests]. *)
Fixpoint slot_from (digests : list (bytes * bytes)) : option Z :=
  match digests with
  | [] => None
  | (id, data) :: rest =>
      if bool_decide (id = HOTSTUFF_ENGINE_ID) then decode_slot data else slot_from rest
  end.
Definition current_slot_from_digests st : option Z :=
  slot_from (pre_runtime_digests (ps_digest st)).

(** [<Authorities<T>>::decode_len()]: [None] when the value is not there. *)
Definition decode_len st : option Z := (λ l, Z.of_nat (length l)) <$> ps_authorities st.

(** [a % b]. *)
Definition rem (a b : Z) : outcome string Z :=
  if b =? 0 then Panic "attempt to calculate the remainder with a divisor of zero"
  else Ok (a mod b).

(** [Hooks::on_initialize], without the weight it returns. *)
Definition on_initialize : P unit :=
  st ← get;
  match current_slot_from_digests st with
  | Some new_slot =>
      let slot := current_slot st in
      (if AllowMultipleBlocksPerSlot T then assert (slot <=? new_slot) "Slot must not decrease"
       else assert (slot <? new_slot) "Slot must increase");;
      modify (put_current_slot new_slot);;
      match decode_len st with
      | Some n_authorities =>
          authority_index ← lift (rem new_slot n_authorities);
          if is_disabled T (u32_wrap authority_index)
          then lift (Panic "Validator is disabled and should not be attempting to author blocks.")
          else mret ()
      | None => mret ()
      end
  | None => mret ()
  end.

(** [Pallet::change_authorities]. *)
Definition change_authorities (new : list AuthorityId) : P unit :=
  match new with
  | [] => mret ()
  | _ =>
      modify (put_authorities new);;
      modify (deposit_log (DI_Consensus HOTSTUFF_ENGINE_ID (scale_encode (AuthoritiesChange new))))
  end.

(** [Pallet::initialize_authorities], which is also [GenesisConfig::build]. *)
Definition initialize_authorities (ids : list AuthorityId) : P unit :=
  match ids with
  | [] => mret ()
  | _ =>
      st ← get;
      assert (match authorities st with [] => true | _ => false end)
        "Authorities are already initialized!";;
      assert (Z.of_nat (length ids) <=? MaxAuthorities T)
        "Initial authority set must be less than T::MaxAuthorities";;
      modify (put_authorities ids)
  end.

(** [MinimumPeriodTimesTwo::get], what the [experimental] feature may use. *)
Definition MinimumPeriodTimesTwo : Z := Z.min (MinimumPeriod T * 2) u64_max.

(** [Pallet::slot_duration] without the [experimental] feature: a saturating
    [u64] product. *)
Definition slot_duration : Z := Z.min (MinimumPeriod T * 2) u64_max.

(** [Pallet::do_try_state]. *)
Definition do_try_state st : outcome string unit :=
  let slot := default (current_slot st) (current_slot_from_digests st) in
  if negb (AllowMultipleBlocksPerSlot T) && negb (slot <? u64_max)
  then Err "Current slot has reached maximum value and cannot be incremented further."
  else
    authorities_len ← ok_or (decode_len st) "Failed to decode authorities length";
    if authorities_len =? 0 then Err "Authorities must be non-empty."
    else
      authority_index ← rem slot authorities_len;
      if is_disabled T (u32_wrap authority_index)
      then Err "Current validator is disabled and should not be attempting to author blocks."
      else Ok ().

(** [Hooks::try_state], under the [try-runtime] feature. *)
Definition try_state (n : Z) st : outcome string unit := do_try_state st.

(** [OneSessionHandler]: [validators] are the session's accounts and keys. *)
Definition on_genesis_session {Account} (validators : list (Account * AuthorityId)) : P unit :=
  initialize_authorities (validators.*2).

Definition on_new_session {Account} (changed : bool) (validators : list (Account * AuthorityId)) :
    P unit :=
  if changed then
    let next_authorities := validators.*2 in
    st ← get;
    if negb (bool_decide (authorities st = next_authorities)) then
      change_authorities (take (Z.to_nat (MaxAuthorities T)) next_authorities)
    else mret ()
  else mret ().

Definition on_disabled (i : Z) : P unit :=
  modify (deposit_log (DI_Consensus HOTSTUFF_ENGINE_ID
    (scale_encode (OnDisabled (Id := AuthorityId) i)))).

(** [FindAuthor<u32>]. *)
Fixpoint find_author st (digests : list (bytes * bytes)) : outcome string (option Z) :=
  match digests with
  | [] => Ok None
  | (id, data) :: rest =>
      if bool_decide (id = HOTSTUFF_ENGINE_ID) then
        match decode_slot data with
        | None => Ok None
        | Some slot =>
            author_index ← rem slot (Z.of_nat (length (authorities st)));
            Ok (Some (u32_wrap author_index))
        end
      else find_author st rest
  end.

(** [FindAccountFromAuthorIndex::find_author]. *)
Definition find_author_id st (digests : list (bytes * bytes)) :
    outcome string (option AuthorityId) :=
  i ← find_author st digests;
  Ok (i ≫= λ i, authorities st !! Z.to_nat i).

(** [IsMember::is_member]. *)
Definition is_member st (id : AuthorityId) : bool :=
  existsb (λ x, bool_decide (x = id)) (authorities st).

(** [OnTimestampSet::on_timestamp_set]. *)
Definition on_timestamp_set (moment : Z) : P unit :=
  st ← get;
  assert (negb (slot_duration =? 0)) "Hotstuff slot duration cannot be zero.";;
  let timestamp_slot := Z.min (moment / slot_duration) u64_max in
  assert (current_slot st =? timestamp_slot) "Timestamp slot must match `CurrentSlot`".
End pallet.

(** ** The pallet over a chain of blocks *)
Section chain.
Context `{Platform} (T : PalletConfig).
Implicit Types (st : PalletState).

(** What the runtime calls; a block starts with its header's digest. *)
Inductive PalletCall :=
| CallBlock (logs : list DigestItem)
| CallGenesis (ids : list AuthorityId)
| CallNewSession (changed : bool) (keys : list AuthorityId)
| CallDisabled (i : Z)
| CallTimestamp (moment : Z).

Definition pallet_call (c : PalletCall) : Comp PalletState string unit :=
  match c with
  | CallBlock logs =>
      modify (λ st, mkPalletState (ps_authorities st) (ps_current_slot st) logs);;
      on_initialize T
  | CallGenesis ids => initialize_authorities T ids
  | CallNewSession changed keys => on_new_session T changed ((λ k, ((), k)) <$> keys)
  | CallDisabled i => on_disabled i
  | CallTimestamp moment => on_timestamp_set T moment
  end.

(** A panic aborts the block, with its state changes. *)
Definition pallet_apply st (c : PalletCall) : PalletState :=
  match pallet_call c st with (Ok _, st') => st' | _ => st end.

Definition pallet_ok st : Prop :=
  match ps_authorities st with
  | None => True
  | Some ids => ids ≠ [] ∧ Z.of_nat (length ids) <= MaxAuthorities T
  end.

Definition pallet_empty : PalletState := mkPalletState None None [].

(** What one call does to the storage. *)
Definition pallet_step st st' : Prop :=
  (pallet_ok st → pallet_ok st') ∧ current_slot st <= current_slot st'.

Lemma pallet_step_refl st : pallet_step st st.
Proof. by split. Qed.

Lemma on_initialize_run st st' :
  on_initialize T st = (Ok (), st') →
  match current_slot_from_digests st with
  | None => st' = st
  | Some slot => st' = put_current_slot slot st ∧
      (if AllowMultipleBlocksPerSlot T then current_slot st <= slot else current_slot st < slot) ∧
      (∀ n, decode_len st = Some n → n ≠ 0 ∧ is_disabled T (u32_wrap (slot mod n)) = false)
  end.
Proof.
  unfold on_initialize, get, assert, modify, lift, rem, mbind, comp_bind.
  destruct (current_slot_from_digests st) as [slot|]; [|by intros [= <-]].
  destruct (AllowMultipleBlocksPerSlot T);
    [destruct (Z.leb_spec (current_slot st) slot)|destruct (Z.ltb_spec (current_slot st) slot)];
    try done; (destruct (decode_len st) as [n|]; [|by intros [= <-]]);
    (destruct (Z.eqb_spec n 0); [done|]);
    (destruct (is_disabled T _) eqn:E; [done|]); intros [= <-];
    (split; [done|split; [done|by intros ? [= <-]]]).
Qed.

Lemma change_authorities_ok ids st :
  Z.of_nat (length ids) <= MaxAuthorities T → pallet_step st (change_authorities ids st).2.
Proof.
  intros Hlen. destruct ids as [|id ids]; [apply pallet_step_refl|]. by split; simpl.
Qed.

Lemma pallet_apply_step st c : 0 <= MaxAuthorities T → pallet_step st (pallet_apply st c).
Proof.
  intros Hmax. unfold pallet_apply. destruct c as [logs|ids|changed keys|i|moment]; simpl.
  - unfold modify, mbind, comp_bind.
    set (st0 := mkPalletState (ps_authorities st) (ps_current_slot st) logs).
    destruct (on_initialize T st0) as [[[]| | |] st'] eqn:E; try apply pallet_step_refl.
    apply on_initialize_run in E. destruct (current_slot_from_digests st0) as [slot|]; [|by subst].
    destruct E as (-> & Hs & _). split; [done|]. cbn.
    change (current_slot st0) with (current_slot st) in Hs.
    destruct (AllowMultipleBlocksPerSlot T); lia.
  - unfold initialize_authorities, get, assert, modify, lift, mbind, comp_bind.
    destruct ids as [|id ids]; [apply pallet_step_refl|].
    destruct (authorities st); [|apply pallet_step_refl].
    destruct (Z.leb_spec (Z.of_nat (length (id :: ids))) (MaxAuthorities T)); [|apply pallet_step_refl].
    by split.
  - unfold on_new_session, get, mbind, comp_bind. destruct changed; [|apply pallet_step_refl].
    case_bool_decide; simpl; [apply pallet_step_refl|].
    pose proof (change_authorities_ok
      (take (Z.to_nat (MaxAuthorities T)) ((λ k, ((), k)) <$> keys).*2) st) as Hc.
    destruct (change_authorities _ st) as [[] st']; try apply pallet_step_refl.
    apply Hc. rewrite length_take. lia.
  - by split.
  - unfold on_timestamp_set, get, assert, lift, mbind, comp_bind.
    destruct (negb _); [|apply pallet_step_refl].
    destruct (_ =? _); apply pallet_step_refl.
Qed.

(** C35: over any sequence of calls, panicking ones being rolled back, the
    stored authorities are never an empty list and never exceed the bound, so
    the remainder by their number cannot panic, and the slot never moves
    back. *)
Theorem pallet_run_invariant (calls later : list PalletCall) :
  0 <= MaxAuthorities T →
  let st := foldl pallet_apply pallet_empty calls in
  pallet_ok st ∧ current_slot st <= current_slot (foldl pallet_apply st later).
Proof.
  intros Hmax st.
  assert (∀ cs s, pallet_step s (foldl pallet_apply s cs)) as Hrun.
  { induction cs as [|c cs IH]; intros s; simpl; [apply pallet_step_refl|].
    destruct (pallet_apply_step s c Hmax) as [H1 H2], (IH (pallet_apply s c)) as [H3 H4].
    split; [auto|lia]. }
  split; [by apply (Hrun calls)|apply Hrun].
Qed.

Lemma find_author_slot st logs :
  find_author st (pre_runtime_digests logs) =
  match slot_from (pre_runtime_digests logs) with
  | Some slot => i ← rem slot (Z.of_nat (length (authorities st))); Ok (Some (u32_wrap i))
  | None => Ok None
  end.
Proof.
  induction (pre_runtime_digests logs) as [|[id data] l IH]; simpl; [done|].
  case_bool_decide; [by destruct (decode_slot data)|done].
Qed.

(** The index a slot selects among stored authorities fits a [u32]. *)
Lemma author_index st ids slot :
  pallet_ok st → MaxAuthorities T < 2 ^ 32 → ps_authorities st = Some ids →
  let index := slot mod Z.of_nat (length ids) in
  Z.of_nat (length ids) ≠ 0 ∧ 0 <= index < Z.of_nat (length ids) ∧ u32_wrap index = index ∧
  rem slot (Z.of_nat (length ids)) = Ok index.
Proof.
  intros Hok Hmax Hids index. unfold pallet_ok in Hok. rewrite Hids in Hok. destruct Hok as [Hne Hlen].
  assert (0 < Z.of_nat (length ids)) as Hpos by (destruct ids; [done|simpl; lia]).
  pose proof (Z.mod_pos_bound slot _ Hpos) as Hidx. fold index in Hidx.
  split; [lia|]. split; [done|]. split; [apply u32_wrap_small; unfold u32_ok; lia|].
  unfold rem. by destruct (Z.eqb_spec (Z.of_nat (length ids)) 0); [lia|].
Qed.

Definition slot_allowed st (slot : Z) : Prop :=
  if AllowMultipleBlocksPerSlot T then current_slot st <= slot else current_slot st < slot.

(** The author the slot selects, if authorities are stored, is not disabled. *)
Definition author_enabled st (slot : Z) : Prop :=
  from_option (λ ids, is_disabled T (slot mod Z.of_nat (length ids)) = false) True (ps_authorities st).

Lemma on_initialize_eq st slot :
  pallet_ok st → MaxAuthorities T < 2 ^ 32 → current_slot_from_digests st = Some slot →
  (slot_allowed st slot ∧ author_enabled st slot ∧
     on_initialize T st = (Ok (), put_current_slot slot st)) ∨
  (¬ (slot_allowed st slot ∧ author_enabled st slot) ∧
     ∃ msg, (on_initialize T st).1 = Panic msg).
Proof.
  intros Hok Hmax Hcur. pose proof (λ ids, author_index st ids slot Hok Hmax) as Hidx.
  unfold on_initialize, slot_allowed, author_enabled, get, assert, modify, lift, mbind, comp_bind.
  rewrite Hcur. unfold decode_len. destruct (ps_authorities st) as [ids|].
  - destruct (Hidx ids eq_refl) as (_ & _ & Hwrap & Hrem). cbn -[rem].
    destruct (AllowMultipleBlocksPerSlot T);
      [destruct (Z.leb_spec (current_slot st) slot)|destruct (Z.ltb_spec (current_slot st) slot)];
      try (right; split; [lia|eauto]); rewrite Hrem, Hwrap;
      (destruct (is_disabled T _); [right; split; [naive_solver|eauto]|left; done]).
  - cbn. destruct (AllowMultipleBlocksPerSlot T);
      [destruct (Z.leb_spec (current_slot st) slot)|destruct (Z.ltb_spec (current_slot st) slot)];
      [left; done|right; split; [lia|eauto]|left; done|right; split; [lia|eauto]].
Qed.

(** What an accepted block leaves behind. *)
Lemma accepted_block st ids slot :
  pallet_ok st → MaxAuthorities T < 2 ^ 32 →
  ps_authorities st = Some ids → current_slot_from_digests st = Some slot →
  is_disabled T (slot mod Z.of_nat (length ids)) = false →
  let st' := put_current_slot slot st in
  find_author st' (pre_runtime_digests (ps_digest st)) = Ok (Some (slot mod Z.of_nat (length ids))) ∧
  (∃ id, find_author_id st' (pre_runtime_digests (ps_digest st)) = Ok (Some id) ∧
         is_member st' id = true) ∧
  (slot < u64_max ∨ AllowMultipleBlocksPerSlot T = true → do_try_state T st' = Ok ()).
Proof.
  intros Hok Hmax Hids Hcur Hdis st'.
  destruct (author_index st ids slot Hok Hmax Hids) as (Hne & Hidx & Hwrap & Hrem).
  assert (authorities st' = ids) as Hauth by (unfold authorities; simpl; by rewrite Hids).
  assert (find_author st' (pre_runtime_digests (ps_digest st)) =
    Ok (Some (slot mod Z.of_nat (length ids)))) as Hfind.
  { rewrite find_author_slot, Hauth. unfold current_slot_from_digests in Hcur.
    rewrite Hcur, Hrem. simpl. by rewrite Hwrap. }
  split; [done|]. split.
  - destruct (lookup_lt_is_Some_2 ids (Z.to_nat (slot mod Z.of_nat (length ids)))) as [id Hid]; [lia|].
    exists id. unfold find_author_id. rewrite Hfind, Hauth. simpl. rewrite Hid. split; [done|].
    unfold is_member. rewrite Hauth. apply existsb_elem_of. exists id.
    split; [by eapply list_elem_of_lookup_2|by apply bool_decide_eq_true].
  - intros Hslot. unfold do_try_state. change (current_slot_from_digests st') with
      (current_slot_from_digests st). rewrite Hcur. simpl.
    assert (negb (AllowMultipleBlocksPerSlot T) && negb (slot <? u64_max) = false) as ->.
    { destruct Hslot as [Hlt| ->]; [|done]. apply Z.ltb_lt in Hlt. by rewrite Hlt, andb_false_r. }
    unfold decode_len. simpl. rewrite Hids. simpl.
    destruct (Z.eqb_spec (Z.of_nat (length ids)) 0); [lia|].
    rewrite Hrem. simpl. by rewrite Hwrap, Hdis.
Qed.

(** C36: which blocks [on_initialize] accepts, whatever the digest and whether or
    not authorities are stored.  A block without a Hotstuff slot in its digest is
    accepted and changes nothing.  A block with a slot is accepted exactly when
    the slot is above the last one (or equal, where several blocks per slot are
    allowed) and the authority it selects, if authorities are stored, is not
    disabled; otherwise the hook panics.  An accepted slot is stored and nothing
    else changes; with stored authorities the author lookup on the same digest
    finds the authority of the slot, a member, and [try_state] holds, unless the
    slot counter is at its end where slots must increase. *)
Theorem on_initialize_exact st :
  pallet_ok st → MaxAuthorities T < 2 ^ 32 →
  match current_slot_from_digests st with
  | None => on_initialize T st = (Ok (), st)
  | Some slot =>
      ((on_initialize T st).1 = Ok () ↔ slot_allowed st slot ∧ author_enabled st slot) ∧
      ((on_initialize T st).1 ≠ Ok () → ∃ msg, (on_initialize T st).1 = Panic msg) ∧
      ((on_initialize T st).1 = Ok () →
         let st' := put_current_slot slot st in
         (on_initialize T st).2 = st' ∧
         ∀ ids, ps_authorities st = Some ids →
         find_author st' (pre_runtime_digests (ps_digest st)) =
           Ok (Some (slot mod Z.of_nat (length ids))) ∧
         (∃ id, find_author_id st' (pre_runtime_digests (ps_digest st)) = Ok (Some id) ∧
                is_member st' id = true) ∧
         (slot < u64_max ∨ AllowMultipleBlocksPerSlot T = true → do_try_state T st' = Ok ()))
  end.
Proof.
  intros Hok Hmax. destruct (current_slot_from_digests st) as [slot|] eqn:Hcur.
  - destruct (on_initialize_eq st slot Hok Hmax Hcur)
      as [(Hs & Hd & ->)|(Hno & msg & Hp)]; [|rewrite Hp; naive_solver].
    split; [naive_solver|]. split; [done|]. intros _ st'. split; [done|].
    intros ids Hids. apply accepted_block; try done.
    unfold author_enabled in Hd. by rewrite Hids in Hd.
  - unfold on_initialize, get, mbind, comp_bind. by rewrite Hcur.
Qed.

(** C37: a session change is stored and announced alike: when the keys changed
    and, cut to the bound, are not empty, they become the authorities and the
    last log of the block's digest decodes to exactly this list; when they are
    empty or did not change, nothing happens. *)
Theorem session_change_announced `{!PlatformLaws} st (keys : list AuthorityId) :
  MaxAuthorities T < 2 ^ 32 →
  let new := take (Z.to_nat (MaxAuthorities T)) keys in
  let '(r, st') := on_new_session T true ((λ k, ((), k)) <$> keys) st in
  r = Ok () ∧
  if bool_decide (authorities st = keys ∨ new = []) then st' = st
  else
    authorities st' = new ∧ ps_current_slot st' = ps_current_slot st ∧
    ∃ data, ps_digest st' = ps_digest st ++ [DI_Consensus HOTSTUFF_ENGINE_ID data] ∧
            decode_all data = Some (AuthoritiesChange new).
Proof.
  intros Hmax new. unfold on_new_session, get, mbind, comp_bind. cbn [fst snd].
  assert (((λ k : AuthorityId, ((), k)) <$> keys).*2 = keys) as ->.
  { rewrite <- list_fmap_compose. by apply list_fmap_id. }
  case_bool_decide as Heq; simpl; [by rewrite bool_decide_eq_true_2 by auto|].
  fold new. unfold change_authorities. destruct new as [|k ks] eqn:E.
  { simpl. split; [done|]. by rewrite bool_decide_eq_true_2 by auto. }
  unfold modify, mbind, comp_bind. split; [done|].
  rewrite bool_decide_eq_false_2 by naive_solver. split; [done|]. split; [done|].
  eexists. split; [reflexivity|]. apply (decode_all_encode (ok := ConsensusLog_ok any_ok)).
  split; [by apply Forall_true|]. rewrite <- E. unfold new. rewrite length_take. lia.
Qed.
End chain.

Section witnesses.
#[local] Existing Instance ref_platform.
#[local] Existing Instance ref_platform_laws.

(** At most 32 authorities, one block per slot, the second one disabled. *)
Definition ref_config : PalletConfig := mkPalletConfig 32 (λ i, i =? 1) false 3000.
Definition ref_ids4 : list AuthorityId := (ref_authorities 4).*1.
(** Four authorities at genesis, slot 5 stored, a block of slot 10. *)
Definition ref_pallet : PalletState :=
  mkPalletState (Some ref_ids4) (Some 5) [hotstuff_pre_digest 10].

Lemma pallet_run_invariant_witness :
  let st := foldl (pallet_apply ref_config) pallet_empty
    [CallGenesis ref_ids4; CallBlock [hotstuff_pre_digest 6]; CallNewSession true []] in
  pallet_ok ref_config st ∧ current_slot st = 6.
Proof.
  intros st. split; [|vm_refl].
  destruct (pallet_run_invariant ref_config
    [CallGenesis ref_ids4; CallBlock [hotstuff_pre_digest 6]; CallNewSession true []] [])
    as [Hok _]; [simpl; lia|exact Hok].
Defined.

(** Slot 10 belongs to authority 3; a block of another engine is let through. *)
Definition ref_other_block : PalletState :=
  mkPalletState (ps_authorities ref_pallet) (ps_current_slot ref_pallet) [].

Lemma on_initialize_exact_witness :
  (on_initialize ref_config ref_pallet).1 = Ok () ∧
  do_try_state ref_config (put_current_slot 10 ref_pallet) = Ok () ∧
  on_initialize ref_config ref_other_block = (Ok (), ref_other_block).
Proof.
  assert (∀ logs, pallet_ok ref_config
    (mkPalletState (ps_authorities ref_pallet) (ps_current_slot ref_pallet) logs)) as Hpallet.
  { intros logs. split; [discriminate|simpl; lia]. }
  destruct (on_initialize_exact ref_config ref_pallet) as (Hacc & _ & Hpost);
    [apply (Hpallet (ps_digest ref_pallet))|simpl; lia|].
  assert ((on_initialize ref_config ref_pallet).1 = Ok ()) as Hok.
  { apply Hacc. split; [unfold slot_allowed; simpl; reflexivity|reflexivity]. }
  split; [exact Hok|]. split.
  - apply (proj2 (Hpost Hok) ref_ids4); [reflexivity|]. left. reflexivity.
  - apply (on_initialize_exact ref_config ref_other_block); [apply (Hpallet [])|simpl; lia].
Defined.

Lemma session_change_announced_witness :
  authorities (on_new_session ref_config true ((λ k, ((), k)) <$> [ref_id 7; ref_id 8])
    ref_pallet).2 = [ref_id 7; ref_id 8].
Proof.
  pose proof (session_change_announced ref_config ref_pallet [ref_id 7; ref_id 8]
    ltac:(simpl; lia)) as Hs.
  cbv zeta in Hs. rewrite bool_decide_eq_false_2 in Hs by vm_decide.
  destruct (on_new_session _ _ _ _) as [r st']. destruct Hs as (_ & Ha & _). exact Ha.
Defined.
End witnesses.
