(* ===== verification/Weights.v ===== *)
(** * Weights ([hotstuff/pallets/hotstuff/src/weights.rs] and the weight of
    [on_initialize])

    Weights and the costs of the database are library types: their operations
    are parameters.  What the pallet writes is which operations it charges. *)
From S2P Require Import Prelude Codec Primitives Reference Pallet.
Local Open Scope Z_scope.

Class WeightLib := {
  Weight : Type;
  weight_from_parts : Z → Z → Weight;
  weight_saturating_add : Weight → Weight → Weight;
  RuntimeDbWeight : Type;
  db_reads : RuntimeDbWeight → Z → Weight;
  db_writes : RuntimeDbWeight → Z → Weight;
  db_reads_writes : RuntimeDbWeight → Z → Z → Weight;
  RocksDbWeight : RuntimeDbWeight;
}.

(** Weight functions needed for the pallet. *)
Record WeightInfo `{WeightLib} := mkWeightInfo {
  do_something : Weight;
  cause_error : Weight;
}.

Section weights.
Context `{WeightLib}.

(** [SubstrateWeight<T>], by the database weight of the system configuration. *)
Definition SubstrateWeight (DbWeight : RuntimeDbWeight) : WeightInfo := {|
  do_something := weight_saturating_add (weight_from_parts 9000000 0) (db_writes DbWeight 1);
  cause_error := weight_saturating_add
    (weight_saturating_add (weight_from_parts 6000000 1489) (db_reads DbWeight 1))
    (db_writes DbWeight 1);
|}.

(** [WeightInfo for ()], for backwards compatibility and tests. *)
Definition unit_weight : WeightInfo := {|
  do_something := weight_saturating_add (weight_from_parts 9000000 0) (db_writes RocksDbWeight 1);
  cause_error := weight_saturating_add
    (weight_saturating_add (weight_from_parts 6000000 1489) (db_reads RocksDbWeight 1))
    (db_writes RocksDbWeight 1);
|}.

(** The weight [on_initialize] returns when it does not panic. *)
Definition on_initialize_weight `{Platform} (DbWeight : RuntimeDbWeight) (st : PalletState) :
    Weight :=
  match current_slot_from_digests st with
  | Some _ => db_reads_writes DbWeight 2 1
  | None => db_reads DbWeight 1
  end.

(** The fallback weights are the generated ones on RocksDB. *)
Lemma unit_weight_rocksdb : unit_weight = SubstrateWeight RocksDbWeight.
Proof. done. Qed.

(** A block that does not panic is charged a write exactly when it stores its
    slot. *)
Lemma on_initialize_weight_write `{Platform} T db st st' :
  on_initialize T st = (Ok (), st') →
  (on_initialize_weight db st = db_reads_writes db 2 1 ∧ ∃ slot, st' = put_current_slot slot st) ∨
  (on_initialize_weight db st = db_reads db 1 ∧ st' = st).
Proof.
  intros Hrun%on_initialize_run. unfold on_initialize_weight.
  destruct (current_slot_from_digests st) as [slot|]; [left|by right].
  split; [done|]. exists slot. apply Hrun.
Qed.
End weights.
