(* ===== verification/Runtime.v ===== *)
(** * The node's runtime ([node-template/runtime/src/lib.rs])

    The constants and the configuration the runtime gives its pallets, the order
    of the pallets, and the runtime interface of the Hotstuff pallet.  The other
    pallets and the executive are libraries: their storage is [OtherPallets],
    what they do is a parameter.  In this runtime no session pallet calls the
    Hotstuff pallet, timestamps go to Aura and the Hotstuff pallet has no calls,
    so its only entry points are its genesis and its [on_initialize] hook.  The
    lemmas: neither the hook nor a call changes its authorities. *)
From S2P Require Import Prelude Codec Primitives Reference Pallet Weights.
Local Open Scope Z_scope.

(** ** Constants *)

Definition MILLISECS_PER_BLOCK : Z := 6000.
Definition SLOT_DURATION : Z := MILLISECS_PER_BLOCK.

(** Time in blocks. *)
Definition MINUTES : Z := 60000 / u32_wrap MILLISECS_PER_BLOCK.
Definition HOURS : Z := MINUTES * 60.
Definition DAYS : Z := HOURS * 24.

Definition BlockHashCount : Z := 2400.
Definition SS58Prefix : Z := 42.
(** Existential deposit. *)
Definition EXISTENTIAL_DEPOSIT : Z := 500.

(** [sp_version::RuntimeVersion]; [apis] is generated. *)
Record RuntimeVersion := mkRuntimeVersion {
  spec_name : string;
  impl_name : string;
  authoring_version : Z;
  spec_version : Z;
  impl_version : Z;
  apis : list (bytes * Z);
  transaction_version : Z;
  state_version : Z;
}.
Definition VERSION (RUNTIME_API_VERSIONS : list (bytes * Z)) : RuntimeVersion := {|
  spec_name := "node-template";
  impl_name := "node-template";
  authoring_version := 1;
  spec_version := 100;
  impl_version := 1;
  apis := RUNTIME_API_VERSIONS;
  transaction_version := 1;
  state_version := 1;
|}.

(** ** Pallets *)

(** [construct_runtime!], in the order in which hooks run. *)
Inductive PalletName :=
  System | Timestamp | Aura | Balances | TransactionPayment | Sudo | Hotstuff.
Definition Runtime : list PalletName :=
  [System; Timestamp; Aura; Balances; TransactionPayment; Sudo; Hotstuff].

(** [pallet_timestamp::Config]: the pallet that hears of new timestamps, and the
    minimum period. *)
Definition OnTimestampSet : PalletName := Aura.
Definition timestamp_MinimumPeriod : Z := SLOT_DURATION / 2.

(** [pallet_hotstuff::Config]; [()] disables no validator. *)
Definition runtime_config : PalletConfig := {|
  MaxAuthorities := 32;
  is_disabled := λ _, false;
  AllowMultipleBlocksPerSlot := false;
  MinimumPeriod := timestamp_MinimumPeriod;
|}.

(** The other pallets' storage, hooks and calls, and the session keys of Aura. *)
Class FrameLib `{Platform} := {
  OtherPallets : Type;
  RuntimeCall : Type;
  (** Calls of root that write raw storage or replace the runtime. *)
  writes_raw : RuntimeCall → bool;
  (** [on_initialize] of the pallets before Hotstuff, given the block's digest. *)
  others_on_initialize : list DigestItem → OtherPallets → outcome string OtherPallets;
  (** [Executive::apply_extrinsic] of a call. *)
  dispatch : RuntimeCall → OtherPallets → PalletState → OtherPallets * PalletState;
  AuraId : Type;
  AuraId_codec :: Codec AuraId;
}.

(** A call writes the storage of its own pallet, and may append to the digest:
    the Hotstuff pallet has none. *)
Class FrameLaws `{FrameLib} : Prop := {
  dispatch_own_storage : ∀ c o st,
    writes_raw c = false →
    ps_authorities (dispatch c o st).2 = ps_authorities st ∧
    ps_current_slot (dispatch c o st).2 = ps_current_slot st;
}.

Record RuntimeState `{FrameLib} := mkRuntimeState {
  rs_others : OtherPallets;
  rs_hotstuff : PalletState;
}.
Arguments mkRuntimeState {_ _} _ _.

(** [opaque::SessionKeys]. *)
Record SessionKeys `{FrameLib} := mkSessionKeys {
  sk_aura : AuraId;
  sk_hotstuff : AuthorityId;
}.
Arguments mkSessionKeys {_ _} _ _.

Section runtime.
Context `{FrameLib}.

#[export] Instance SessionKeys_codec : Codec SessionKeys := {|
  scale_encode k := scale_encode (sk_aura k) ++ scale_encode (sk_hotstuff k);
  scale_decode := (
    let+ a := scale_decode in let+ h := scale_decode in dec_ret (mkSessionKeys a h))%codec;
|}.

(** [HotstuffApi for Runtime]. *)
Definition HotstuffApi_slot_duration : Z := slot_duration runtime_config.
Definition HotstuffApi_authorities (s : RuntimeState) : list AuthorityId :=
  authorities (rs_hotstuff s).

(** One block: the digest of its header, the hooks of the pallets in their
    order, then its calls.  A panic makes the block invalid. *)
Definition runtime_on_initialize (logs : list DigestItem) (s : RuntimeState) :
    outcome string RuntimeState :=
  o ← others_on_initialize logs (rs_others s);
  let st := rs_hotstuff s in
  match on_initialize runtime_config
          (mkPalletState (ps_authorities st) (ps_current_slot st) logs) with
  | (Ok _, st') => Ok (mkRuntimeState o st')
  | (Err e, _) => Err e
  | (Panic m, _) => Panic m
  | (Diverge, _) => Diverge
  end.

Definition apply_call (s : RuntimeState) (c : RuntimeCall) : RuntimeState :=
  let '(o, st) := dispatch c (rs_others s) (rs_hotstuff s) in mkRuntimeState o st.

Definition runtime_block (s : RuntimeState) (block : list DigestItem * list RuntimeCall) :
    outcome string RuntimeState :=
  s' ← runtime_on_initialize block.1 s;
  Ok (foldl apply_call s' block.2).

(** A chain of valid blocks. *)
Fixpoint runtime_chain (s : RuntimeState) (blocks : list (list DigestItem * list RuntimeCall)) :
    outcome string RuntimeState :=
  match blocks with
  | [] => Ok s
  | b :: rest => s' ← runtime_block s b; runtime_chain s' rest
  end.

(** [RuntimeGenesisConfig::build_storage] for the Hotstuff pallet: its
    [GenesisConfig::build] on empty storage. *)
Definition hotstuff_genesis (ids : list AuthorityId) (o : OtherPallets) :
    outcome string RuntimeState :=
  match initialize_authorities runtime_config ids (mkPalletState None None []) with
  | (Ok _, st) => Ok (mkRuntimeState o st)
  | (Err e, _) => Err e
  | (Panic m, _) => Panic m
  | (Diverge, _) => Diverge
  end.
End runtime.

Section facts.
Context `{FrameLib} `{!FrameLaws}.
Implicit Types (s : RuntimeState).

(** What blocks keep of the Hotstuff pallet's storage; without a Hotstuff slot
    in the digest, all of it. *)
Definition kept (slots : bool) s s' : Prop :=
  ps_authorities (rs_hotstuff s') = ps_authorities (rs_hotstuff s) ∧
  (slots = false → ps_current_slot (rs_hotstuff s') = ps_current_slot (rs_hotstuff s)).

#[export] Instance kept_trans b : Transitive (kept b).
Proof.
  intros s1 s2 s3 [Ha Hs] [Ha' Hs']. split; [congruence|].
  intros Hb. by rewrite (Hs' Hb), (Hs Hb).
Qed.

Definition has_slot (logs : list DigestItem) : bool :=
  existsb (λ d, bool_decide (d.1 = HOTSTUFF_ENGINE_ID)) (pre_runtime_digests logs).

Lemma slot_from_no_engine digests :
  existsb (λ d : bytes * bytes, bool_decide (d.1 = HOTSTUFF_ENGINE_ID)) digests = false →
  slot_from digests = None.
Proof.
  induction digests as [|[id data] l IH]; simpl; [done|]. by case_bool_decide.
Qed.

Lemma calls_kept b calls s :
  Forall (λ c, writes_raw c = false) calls → kept b s (foldl apply_call s calls).
Proof.
  intros Hc. revert s. induction Hc as [|c calls Hraw _ IH]; intros s; simpl; [by split|].
  transitivity (apply_call s c); [|apply IH].
  unfold apply_call. destruct (dispatch_own_storage c (rs_others s) (rs_hotstuff s) Hraw).
  by destruct (dispatch c _ _).
Qed.

Lemma on_initialize_kept b logs s s' :
  (b = false → has_slot logs = false) → runtime_on_initialize logs s = Ok s' → kept b s s'.
Proof.
  intros Hb (o & _ & Hrun)%outcome_bind_Ok. cbv zeta in Hrun.
  destruct (on_initialize _ _) as [[[]| | |] st'] eqn:E; try done. simplify_eq.
  apply on_initialize_run in E. unfold current_slot_from_digests in E. cbn [ps_digest] in E.
  destruct b.
  - destruct (slot_from _) as [slot|]; [|by subst]. by destruct E as [-> _].
  - rewrite slot_from_no_engine in E by by apply Hb. by subst.
Qed.

Lemma chain_kept b blocks s s' :
  Forall (λ bl, (b = false → has_slot bl.1 = false) ∧
                Forall (λ c, writes_raw c = false) bl.2) blocks →
  runtime_chain s blocks = Ok s' → kept b s s'.
Proof.
  intros Hbl. revert s. induction Hbl as [|[logs calls] blocks [Hlogs Hcalls] _ IH]; intros s; simpl.
  { intros [= ->]. by split. }
  intros (s2 & (s1 & Hinit & [= <-])%outcome_bind_Ok & Hrest)%outcome_bind_Ok.
  transitivity s1; [by eapply on_initialize_kept|].
  transitivity (foldl apply_call s1 calls); [by apply calls_kept|by apply IH].
Qed.
Lemma hotstuff_genesis_eq ids o :
  hotstuff_genesis ids o =
  match ids with
  | [] => Ok (mkRuntimeState o (mkPalletState None None []))
  | _ => if Z.of_nat (length ids) <=? 32
         then Ok (mkRuntimeState o (mkPalletState (Some ids) None []))
         else Panic "Initial authority set must be less than T::MaxAuthorities"
  end.
Proof.
  unfold hotstuff_genesis, initialize_authorities. destruct ids as [|id ids]; [done|].
  unfold get, assert, modify, lift, mbind, comp_bind. cbn [authorities ps_authorities default].
  by destruct (Z.of_nat (length (id :: ids)) <=? _) eqn:E; cbn in E |- *; rewrite ?E.
Qed.

Lemma hotstuff_genesis_Ok ids o s :
  hotstuff_genesis ids o = Ok s →
  HotstuffApi_authorities s = ids ∧ (length ids ≤ 32)%nat ∧ current_slot (rs_hotstuff s) = 0.
Proof.
  rewrite hotstuff_genesis_eq. intros Hg.
  destruct ids as [|id ids]; [simplify_eq; simpl; split; [done|split; [lia|done]]|].
  destruct (Z.leb_spec (Z.of_nat (length (id :: ids))) 32); simplify_eq.
  split; [done|]. split; [lia|done].
Qed.

(** Without a Hotstuff slot in the digest the pallet's hook refuses no block. *)
Lemma runtime_on_initialize_no_slot logs s :
  has_slot logs = false →
  is_ok (runtime_on_initialize logs s) = is_ok (others_on_initialize logs (rs_others s)).
Proof.
  intros Hno. unfold runtime_on_initialize.
  destruct (others_on_initialize logs (rs_others s)); [|done..]. simpl.
  unfold on_initialize, get, mbind, comp_bind, current_slot_from_digests. cbn [ps_digest].
  by rewrite slot_from_no_engine.
Qed.
End facts.

Section witnesses.
#[local] Existing Instance ref_platform.

(** Other pallets that count their blocks, and a raw write of the authorities. *)
Definition ref_frame : FrameLib := {|
  OtherPallets := Z;
  RuntimeCall := option (list AuthorityId);
  writes_raw c := match c with Some _ => true | None => false end;
  others_on_initialize logs n := Ok (n + 1);
  dispatch c n st :=
    match c with
    | Some ids => (n, mkPalletState (Some ids) (ps_current_slot st) (ps_digest st))
    | None => (n, st)
    end;
  AuraId := AuthorityId;
  AuraId_codec := AuthorityId_codec;
|}.
#[local] Existing Instance ref_frame.

Lemma ref_frame_laws : FrameLaws.
Proof. split. by intros [] o st. Qed.
#[local] Existing Instance ref_frame_laws.

Definition ref_others (n : Z) : @OtherPallets ref_platform ref_frame := n.
End witnesses.
