(* ===== verification/RuntimeApi.v ===== *)
(** * The runtime's pallet configuration and its interface to the node
    ([node-template/runtime/src/lib.rs], the [Config] and [impl_runtime_apis!]
    blocks)

    The executive and the other pallets are libraries, so their operations are
    parameters; what the runtime writes is the configuration it gives them and
    which operation each interface method calls.  The theorem: over any chain of
    blocks executed through the interface the authorities of the Hotstuff
    interface stay those of genesis, both consensus interfaces give the same slot
    duration, and the session keys the node generates decode to the keys a voter
    looks up in its keystore. *)
From S2P Require Import Prelude Codec Primitives Reference Pallet Weights Runtime.
Local Open Scope Z_scope.

(** ** Limits *)

(** [Perbill] and the limits of [frame_system]. *)
Class LimitsLib `{WeightLib} := {
  Perbill : Type;
  perbill_from_percent : Z → Perbill;
  BlockWeightsT : Type;
  with_sensible_defaults : Weight → Perbill → BlockWeightsT;
  BlockLengthT : Type;
  max_with_normal_ratio : Z → Perbill → BlockLengthT;
  WEIGHT_REF_TIME_PER_SECOND : Z;
  (** [BlockWeights::max_block]. *)
  max_block : BlockWeightsT → Weight;
}.

Section limits.
Context `{LimitsLib}.

Definition NORMAL_DISPATCH_RATIO : Perbill := perbill_from_percent 75.
(** Two seconds of compute; the product wraps at its width. *)
Definition BlockWeights : BlockWeightsT :=
  with_sensible_defaults (weight_from_parts (u64_wrap (2 * WEIGHT_REF_TIME_PER_SECOND)) u64_max)
    NORMAL_DISPATCH_RATIO.
Definition BlockLength : BlockLengthT := max_with_normal_ratio (5 * 1024 * 1024) NORMAL_DISPATCH_RATIO.
End limits.

(** ** Pallet configurations: the values each [Config] fixes *)

Record SystemConfig `{FrameLib} `{LimitsLib} := mkSystemConfig {
  BaseCallFilter : RuntimeCall → bool;
  system_BlockWeights : BlockWeightsT;
  system_BlockLength : BlockLengthT;
  system_BlockHashCount : Z;
  system_DbWeight : RuntimeDbWeight;
  system_Version : RuntimeVersion;
  system_SS58Prefix : Z;
  system_MaxConsumers : Z;
}.
Arguments mkSystemConfig {_ _ _ _} _ _ _ _ _ _ _ _.
(** [frame_system::Config]: the associated types that carry values; [Everything]
    lets all calls through. *)
Definition system_config `{FrameLib} `{LimitsLib} (RUNTIME_API_VERSIONS : list (bytes * Z)) :
    SystemConfig := {|
  BaseCallFilter := λ _, true;
  system_BlockWeights := BlockWeights;
  system_BlockLength := BlockLength;
  system_BlockHashCount := BlockHashCount;
  system_DbWeight := RocksDbWeight;
  system_Version := VERSION RUNTIME_API_VERSIONS;
  system_SS58Prefix := SS58Prefix;
  system_MaxConsumers := 16;
|}.

(** [pallet_aura::Config] has the shape of the Hotstuff pallet's. *)
Definition aura_config : PalletConfig := {|
  MaxAuthorities := 32;
  is_disabled := λ _, false;
  AllowMultipleBlocksPerSlot := false;
  MinimumPeriod := timestamp_MinimumPeriod;
|}.

(** [pallet_balances::Config]; [()] as a bound is zero. *)
Record BalancesConfig := mkBalancesConfig {
  MaxLocks : Z;
  MaxReserves : Z;
  ExistentialDeposit : Z;
  MaxFreezes : Z;
  MaxHolds : Z;
}.
Definition balances_config : BalancesConfig := {|
  MaxLocks := 50; MaxReserves := 0; ExistentialDeposit := EXISTENTIAL_DEPOSIT;
  MaxFreezes := 0; MaxHolds := 0;
|}.

(** [pallet_transaction_payment::Config]: fees are weights and lengths, times a
    constant multiplier of one, a fixed-point number with 18 decimals. *)
Record PaymentConfig := mkPaymentConfig {
  OperationalFeeMultiplier : Z;
  WeightToFee : Z → Z;
  LengthToFee : Z → Z;
  FeeMultiplier : Z;
}.
Definition payment_config : PaymentConfig := {|
  OperationalFeeMultiplier := 5; WeightToFee := λ ref_time, ref_time; LengthToFee := λ len, len;
  FeeMultiplier := 10 ^ 18;
|}.

(** [SignedExtra]: what a signed transaction is checked for, in this order. *)
Inductive SignedExtension :=
| CheckNonZeroSender | CheckSpecVersion | CheckTxVersion | CheckGenesis | CheckEra | CheckNonce
| CheckWeight | ChargeTransactionPayment.
Definition SignedExtra : list SignedExtension :=
  [CheckNonZeroSender; CheckSpecVersion; CheckTxVersion; CheckGenesis; CheckEra; CheckNonce;
   CheckWeight; ChargeTransactionPayment].

(** [native_version]. *)
Definition native_version (RUNTIME_API_VERSIONS : list (bytes * Z)) : RuntimeVersion * list Z :=
  (VERSION RUNTIME_API_VERSIONS, []).

(** [ExecutorDispatch] of the node ([service.rs]): the native executor calls the
    runtime through the dispatcher that [impl_runtime_apis!] generates. *)
Section executor.
Context (api_dispatch : string → bytes → option bytes).
Definition executor_dispatch (method : string) (data : bytes) : option bytes :=
  api_dispatch method data.
Definition executor_native_version (apis : list (bytes * Z)) : RuntimeVersion * list Z :=
  native_version apis.
End executor.

(** ** The interface *)

(** The executive, the other pallets and the generated metadata.  A method that
    may change the state returns the new one. *)
Class ExecutiveLib `{FrameLib} `{WeightLib} := {
  Block : Type;
  Header : Type;
  Extrinsic : Type;
  InherentDataT : Type;
  CheckInherentsResult : Type;
  ApplyExtrinsicResult : Type;
  TransactionSource : Type;
  TransactionValidity : Type;
  Metadata : Type;
  AccountId : Type;
  DispatchInfo : Type;
  FeeDetails : Type;
  (** The header's digest and the calls of a block. *)
  block_digest : Block → list DigestItem;
  block_calls : Block → list RuntimeCall;
  executive_execute_block : Block → RuntimeState → outcome string RuntimeState;
  executive_initialize_block : Header → RuntimeState → outcome string RuntimeState;
  executive_apply_extrinsic : Extrinsic → RuntimeState → ApplyExtrinsicResult * RuntimeState;
  executive_finalize_block : RuntimeState → Header * RuntimeState;
  executive_validate_transaction :
    TransactionSource → Extrinsic → Hash → RuntimeState → TransactionValidity;
  executive_offchain_worker : Header → RuntimeState → RuntimeState;
  create_extrinsics : InherentDataT → list Extrinsic;
  check_extrinsics : InherentDataT → Block → CheckInherentsResult;
  runtime_metadata : Metadata;
  OpaqueMetadata : Type;
  runtime_metadata_at_version : Z → option OpaqueMetadata;
  runtime_metadata_versions : list Z;
  opaque_metadata_new : Metadata → OpaqueMetadata;
  pallet_aura_slot_duration : PalletConfig → Z;
  aura_authorities : RuntimeState → list AuraId;
  system_account_nonce : AccountId → RuntimeState → Z;
  payment_query_info : PaymentConfig → Extrinsic → Z → RuntimeState → DispatchInfo;
  payment_query_fee_details : PaymentConfig → Extrinsic → Z → RuntimeState → FeeDetails;
  payment_query_call_info : PaymentConfig → RuntimeCall → Z → RuntimeState → DispatchInfo;
  payment_query_call_fee_details : PaymentConfig → RuntimeCall → Z → RuntimeState → FeeDetails;
  payment_weight_to_fee : PaymentConfig → Weight → Z;
  payment_length_to_fee : PaymentConfig → Z → Z;
  (** Keys made in the node's keystore, their raw bytes and key types. *)
  aura_generate_pair : option bytes → AuraId;
  hotstuff_generate_pair : option bytes → AuthorityId;
  aura_raw : AuraId → bytes;
  AURA_KEY_TYPE : bytes;
}.

Section api.
Context `{EL : ExecutiveLib}.
Implicit Types (s : RuntimeState).

(** [sp_api::Core]. *)
Definition Core_version (apis : list (bytes * Z)) : RuntimeVersion := VERSION apis.
Definition Core_execute_block (block : Block) s : outcome string RuntimeState :=
  executive_execute_block block s.
Definition Core_initialize_block (header : Header) s : outcome string RuntimeState :=
  executive_initialize_block header s.

(** [sp_api::Metadata]. *)
Definition Metadata_metadata : OpaqueMetadata := opaque_metadata_new runtime_metadata.
Definition Metadata_metadata_at_version (version : Z) : option OpaqueMetadata :=
  runtime_metadata_at_version version.
Definition Metadata_metadata_versions : list Z := runtime_metadata_versions.

(** [sp_block_builder::BlockBuilder]. *)
Definition BlockBuilder_apply_extrinsic (extrinsic : Extrinsic) s :
    ApplyExtrinsicResult * RuntimeState := executive_apply_extrinsic extrinsic s.
Definition BlockBuilder_finalize_block s : Header * RuntimeState := executive_finalize_block s.
Definition BlockBuilder_inherent_extrinsics (data : InherentDataT) : list Extrinsic :=
  create_extrinsics data.
Definition BlockBuilder_check_inherents (block : Block) (data : InherentDataT) :
    CheckInherentsResult := check_extrinsics data block.

(** [TaggedTransactionQueue] and [OffchainWorkerApi]. *)
Definition validate_transaction (source : TransactionSource) (tx : Extrinsic) (block_hash : Hash) s :
    TransactionValidity := executive_validate_transaction source tx block_hash s.
Definition offchain_worker (header : Header) s : RuntimeState := executive_offchain_worker header s.

(** [AuraApi]; [SlotDuration::from_millis] is the number of milliseconds. *)
Definition AuraApi_slot_duration : Z := pallet_aura_slot_duration aura_config.
Definition AuraApi_authorities s : list AuraId := aura_authorities s.

(** [SessionKeys]: the methods [impl_opaque_keys!] gives [opaque::SessionKeys]. *)
Definition generate_session_keys (seed : option bytes) : bytes :=
  scale_encode (mkSessionKeys (aura_generate_pair seed) (hotstuff_generate_pair seed)).
Definition decode_session_keys (encoded : bytes) : option (list (bytes * bytes)) :=
  (λ k : SessionKeys, [(aura_raw (sk_aura k), AURA_KEY_TYPE);
                       (id_as_ref (sk_hotstuff k), HOTSTUFF_KEY_TYPE)]) <$> decode_all encoded.

(** [AccountNonceApi]. *)
Definition account_nonce (account : AccountId) s : Z := system_account_nonce account s.

(** [TransactionPaymentApi]. *)
Definition query_info (uxt : Extrinsic) (len : Z) s : DispatchInfo :=
  payment_query_info payment_config uxt len s.
Definition query_fee_details (uxt : Extrinsic) (len : Z) s : FeeDetails :=
  payment_query_fee_details payment_config uxt len s.
Definition query_weight_to_fee (weight : Weight) : Z := payment_weight_to_fee payment_config weight.
Definition query_length_to_fee (length : Z) : Z := payment_length_to_fee payment_config length.

(** [TransactionPaymentCallApi]. *)
Definition query_call_info (call : RuntimeCall) (len : Z) s : DispatchInfo :=
  payment_query_call_info payment_config call len s.
Definition query_call_fee_details (call : RuntimeCall) (len : Z) s : FeeDetails :=
  payment_query_call_fee_details payment_config call len s.
Definition call_query_weight_to_fee (weight : Weight) : Z :=
  payment_weight_to_fee payment_config weight.
Definition call_query_length_to_fee (length : Z) : Z := payment_length_to_fee payment_config length.
End api.

(** ** Interfaces of the [runtime-benchmarks] and [try-runtime] features *)

(** Their libraries: the benchmarks of one pallet, and checked execution. *)
Class FeatureLib `{ExecutiveLib} := {
  BenchmarkList : Type;
  BenchmarkBatch : Type;
  BenchmarkConfig : Type;
  StorageInfo : Type;
  TrackedStorageKey : Type;
  list_benchmark : bool → string * string → list BenchmarkList;
  all_storage_info : list StorageInfo;
  whitelisted_storage_keys : list TrackedStorageKey;
  add_benchmark : BenchmarkConfig * list TrackedStorageKey → string * string →
    list BenchmarkBatch → string + list BenchmarkBatch;
  UpgradeCheckSelect : Type;
  TryStateSelect : Type;
  try_runtime_upgrade : UpgradeCheckSelect → RuntimeState → (string + Weight) * RuntimeState;
  try_execute_block :
    Block → bool → bool → TryStateSelect → RuntimeState → (string + Weight) * RuntimeState;
}.

Section features.
Context `{FeatureLib}.

(** [define_benchmarks!]: the pallets with benchmarks and where these are. *)
Definition benches : list (string * string) :=
  [("frame_benchmarking", "BaselineBench::<Runtime>");
   ("frame_system", "SystemBench::<Runtime>");
   ("pallet_balances", "Balances");
   ("pallet_timestamp", "Timestamp");
   ("pallet_sudo", "Sudo")]%string.

(** [Benchmark for Runtime]; [add_benchmarks!] stops at the first error. *)
Definition benchmark_metadata (extra : bool) : list BenchmarkList * list StorageInfo :=
  (b ← benches; list_benchmark extra b, all_storage_info).
Fixpoint add_benchmarks (params : BenchmarkConfig * list TrackedStorageKey)
    (entries : list (string * string)) (batches : list BenchmarkBatch) :
    string + list BenchmarkBatch :=
  match entries with
  | [] => inr batches
  | e :: rest =>
      match add_benchmark params e batches with
      | inl err => inl err
      | inr batches => add_benchmarks params rest batches
      end
  end.
Definition dispatch_benchmark (config : BenchmarkConfig) : string + list BenchmarkBatch :=
  add_benchmarks (config, whitelisted_storage_keys) benches [].

(** [TryRuntime for Runtime]: both unwrap, so that an error stops the runtime. *)
Definition TryRuntime_on_runtime_upgrade `{!LimitsLib} (checks : UpgradeCheckSelect)
    (s : RuntimeState) : outcome string (Weight * Weight) * RuntimeState :=
  match try_runtime_upgrade checks s with
  | (inr weight, s') => (Ok (weight, max_block BlockWeights), s')
  | (inl e, s') => (Panic e, s')
  end.
Definition TryRuntime_execute_block (block : Block) (state_root_check signature_check : bool)
    (select : TryStateSelect) (s : RuntimeState) : outcome string Weight * RuntimeState :=
  match try_execute_block block state_root_check signature_check select s with
  | (inr weight, s') => (Ok weight, s')
  | (inl e, s') => (Panic ("execute-block failed: " +:+ e)%string, s')
  end.
End features.

(** What the executive does of the Hotstuff pallet's storage when it executes a
    block: its hooks in order, then the block's calls.  Aura computes its slot
    duration from the minimum period as the Hotstuff pallet does. *)
Class ExecutiveLaws `{ExecutiveLib} : Prop := {
  AuraId_round_trip :: RoundTrip AuraId any_ok;
  execute_block_law : ∀ b s s',
    executive_execute_block b s = Ok s' →
    ∃ s0, runtime_block s (block_digest b, block_calls b) = Ok s0 ∧
          rs_hotstuff s' = rs_hotstuff s0;
  aura_slot_duration_law : ∀ cfg, pallet_aura_slot_duration cfg = Z.min (MinimumPeriod cfg * 2) u64_max;
}.

Section api_facts.
Context `{EL : ExecutiveLib} `{!PlatformLaws} `{!FrameLaws} `{!ExecutiveLaws}.
Implicit Types (s : RuntimeState).

#[export] Instance SessionKeys_round_trip : RoundTrip SessionKeys any_ok.
Proof.
  split; [|done]. intros [a h] r _. cbn [scale_encode scale_decode SessionKeys_codec sk_aura sk_hotstuff].
  unfold dec_bind. by rewrite <- app_assoc, !decode_encode_rest by done.
Qed.

(** Blocks imported one after the other through [Core::execute_block]. *)
Fixpoint execute_chain s (blocks : list Block) : outcome string RuntimeState :=
  match blocks with
  | [] => Ok s
  | b :: rest => s' ← Core_execute_block b s; execute_chain s' rest
  end.

(** What a block does to the Hotstuff pallet depends on that pallet's storage
    and its digest only up to what [kept] states. *)
Lemma execute_chain_kept b blocks s s' :
  Forall (λ bl, (b = false → has_slot (block_digest bl) = false) ∧
                Forall (λ c, writes_raw c = false) (block_calls bl)) blocks →
  execute_chain s blocks = Ok s' → kept b s s'.
Proof.
  intros Hbl. revert s. induction Hbl as [|bl blocks Hb _ IH]; intros s; simpl.
  { intros [= ->]. by split. }
  intros (s1 & (s0 & Hrun & Heq)%execute_block_law & Hrest)%outcome_bind_Ok.
  transitivity s1; [|by apply IH].
  destruct (chain_kept b [(block_digest bl, block_calls bl)] s s0) as [Ha Hs].
  - by apply Forall_singleton.
  - simpl. by rewrite Hrun.
  - split; by rewrite Heq.
Qed.

(** C32: over any chain of blocks executed through the runtime interface, none
    of whose calls writes raw storage, the authorities of the Hotstuff interface
    are those of genesis, at most 32; this is why a voter may read them at
    genesis only.  While no block carries a Hotstuff slot in its digest, as those
    authored by Aura, the pallet's slot stays zero and its hook refuses no block.
    Aura and Hotstuff report the same slot duration, that of the chain, and
    the session keys the node generates decode to the raw Aura key and to the
    entry of the keystore under which a voter looks for its own key. *)
Theorem runtime_interface_stable ids o s s' (blocks : list Block) logs seed :
  hotstuff_genesis ids o = Ok s →
  Forall (λ b, Forall (λ c, writes_raw c = false) (block_calls b)) blocks →
  execute_chain s blocks = Ok s' →
  HotstuffApi_authorities s' = ids ∧ (length ids ≤ 32)%nat ∧
  (Forall (λ b, has_slot (block_digest b) = false) blocks →
     current_slot (rs_hotstuff s') = 0) ∧
  (has_slot logs = false →
     is_ok (runtime_on_initialize logs s') = is_ok (others_on_initialize logs (rs_others s'))) ∧
  HotstuffApi_slot_duration = AuraApi_slot_duration ∧ AuraApi_slot_duration = SLOT_DURATION ∧
  decode_session_keys (generate_session_keys seed) =
    Some [(aura_raw (aura_generate_pair seed), AURA_KEY_TYPE);
          (id_as_ref (hotstuff_generate_pair seed), HOTSTUFF_KEY_TYPE)].
Proof.
  intros (Ha & Hlen & Hslot)%hotstuff_genesis_Ok Hraw Hchain.
  split; [|split; [done|split; [|split; [|split; [|split]]]]].
  - destruct (execute_chain_kept true blocks s s') as [Hk _]; [|done|].
    { eapply Forall_impl; [done|]. naive_solver. }
    unfold HotstuffApi_authorities, authorities in *. by rewrite Hk.
  - intros Hno. destruct (execute_chain_kept false blocks s s') as [_ Hk]; [|done|].
    { apply Forall_and. split; [|done]. eapply Forall_impl; [exact Hno|]. done. }
    unfold current_slot in *. by rewrite Hk.
  - apply runtime_on_initialize_no_slot.
  - unfold AuraApi_slot_duration. by rewrite aura_slot_duration_law.
  - unfold AuraApi_slot_duration. by rewrite aura_slot_duration_law.
  - unfold decode_session_keys, generate_session_keys. by rewrite decode_all_encode.
Qed.
End api_facts.

Section witnesses.
#[local] Existing Instance ref_platform.
#[local] Existing Instance ref_platform_laws.
#[local] Existing Instance ref_frame.
#[local] Existing Instance ref_frame_laws.

(** Weights by their reference time. *)
Definition ref_weights : WeightLib := {|
  Weight := Z;
  weight_from_parts t _ := t;
  weight_saturating_add a b := Z.min (a + b) u64_max;
  RuntimeDbWeight := Z * Z;
  db_reads db n := db.1 * n;
  db_writes db n := db.2 * n;
  db_reads_writes db r w := db.1 * r + db.2 * w;
  RocksDbWeight := (25000000, 100000000);
|}.
#[local] Existing Instance ref_weights.

(** An executive that runs the hooks and the calls of a block, a block being its
    digest and its calls; keys are made from the length of the seed. *)
Definition ref_executive : ExecutiveLib := {|
  Block := list DigestItem * list RuntimeCall;
  Header := list DigestItem;
  Extrinsic := RuntimeCall;
  InherentDataT := list RuntimeCall;
  CheckInherentsResult := bool;
  ApplyExtrinsicResult := unit;
  TransactionSource := unit;
  TransactionValidity := bool;
  Metadata := bytes;
  OpaqueMetadata := bytes;
  AccountId := Z;
  DispatchInfo := Z;
  FeeDetails := Z;
  block_digest := fst;
  block_calls := snd;
  executive_execute_block b s := runtime_block s b;
  executive_initialize_block h s := runtime_on_initialize h s;
  executive_apply_extrinsic c s := ((), apply_call s c);
  executive_finalize_block s := (ps_digest (rs_hotstuff s), s);
  executive_validate_transaction _ c _ _ := negb (writes_raw c);
  executive_offchain_worker _ s := s;
  create_extrinsics data := data;
  check_extrinsics data b := Nat.eqb (length data) (length b.2);
  runtime_metadata := [];
  runtime_metadata_at_version _ := None;
  runtime_metadata_versions := [14];
  opaque_metadata_new m := m;
  pallet_aura_slot_duration cfg := Z.min (MinimumPeriod cfg * 2) u64_max;
  aura_authorities _ := [];
  system_account_nonce _ _ := 0;
  payment_query_info cfg _ len _ := LengthToFee cfg len;
  payment_query_fee_details cfg _ len _ := LengthToFee cfg len;
  payment_query_call_info cfg _ len _ := LengthToFee cfg len;
  payment_query_call_fee_details cfg _ len _ := LengthToFee cfg len;
  payment_weight_to_fee cfg w := WeightToFee cfg w;
  payment_length_to_fee cfg len := LengthToFee cfg len;
  aura_generate_pair seed := to_u256 (Z.of_nat (length (default [] seed)));
  hotstuff_generate_pair seed := to_u256 (Z.of_nat (length (default [] seed)));
  aura_raw := id_as_ref;
  AURA_KEY_TYPE := byte_string "aura";
|}.
#[local] Existing Instance ref_executive.

Lemma ref_executive_laws : ExecutiveLaws.
Proof.
  split.
  - apply (AuthorityId_round_trip (H := ref_platform)).
  - intros [logs calls] s s' Hrun. by exists s'.
  - done.
Qed.
#[local] Existing Instance ref_executive_laws.

(** Two blocks of Aura slots with one call. *)
Definition ref_aura_blocks : list Block :=
  [([DI_PreRuntime (byte_string "aura") (encode_u64 7)], [None]);
   ([DI_PreRuntime (byte_string "aura") (encode_u64 8)], [])].

Definition ref_runtime (n : Z) (logs : list DigestItem) : RuntimeState :=
  mkRuntimeState (ref_others n) (mkPalletState (Some ((ref_authorities 4).*1)) None logs).

Lemma runtime_interface_stable_witness :
  HotstuffApi_authorities
    (ref_runtime 2 [DI_PreRuntime (byte_string "aura") (encode_u64 8)]) = (ref_authorities 4).*1.
Proof.
  destruct (runtime_interface_stable (ref_authorities 4).*1 (ref_others 0) (ref_runtime 0 [])
    (ref_runtime 2 [DI_PreRuntime (byte_string "aura") (encode_u64 8)]) ref_aura_blocks [] None)
    as [Ha _].
  - vm_refl.
  - repeat constructor.
  - vm_refl.
  - exact Ha.
Defined.
End witnesses.
