(* ===== verification/ChainSpec.v ===== *)
(** * The shipped chains ([node-template/node/src/chain_spec.rs])

    The development and local test chains: their authorities, endowed accounts
    and sudo key, derived from well-known seeds.  Key derivation, accounts and
    the compiled runtime are parameters.  The theorem follows a shipped chain to
    its voters: genesis passes the runtime's checks, the runtime serves the
    authorities it was given, and every node started on it is a member of one
    committee. *)
From S2P Require Import Prelude Codec Primitives Reference Message Aggregator.
From S2P Require Import Synchronizer Network ConsensusState Import Worker WorkerFacts WorkerSafety.
From S2P Require Import Service Pallet Weights Runtime.
From S2P Require Import Timer.
Local Open Scope Z_scope.

(** [Pair::from_string(uri, None)] followed by [public()], for the three kinds of
    keys, and the account of a public key. *)
Class KeyLib `{FrameLib} := {
  aura_from_string : string → option AuraId;
  hotstuff_from_string : string → option AuthorityId;
  Sr25519Public : Type;
  sr25519_from_string : string → option Sr25519Public;
  AccountId : Type;
  AccountId_eq_dec :: EqDecision AccountId;
  into_account : Sr25519Public → AccountId;
}.

(** [sc_service::ChainType]. *)
Inductive ChainType := Development | Local | Live | Custom (name : string).

(** [RuntimeGenesisConfig], a field per pallet with a genesis. *)
Record RuntimeGenesisConfig `{KeyLib} := mkGenesis {
  g_system_code : bytes;
  g_balances : list (AccountId * Z);
  g_aura : list AuraId;
  g_sudo : option AccountId;
  g_transaction_payment : unit;
  g_hotstuff : list AuthorityId;
}.

(** [sc_service::GenericChainSpec::from_genesis]: the genesis is computed when it
    is asked for. *)
Record ChainSpec `{KeyLib} := mkChainSpec {
  spec_chain_name : string;
  spec_id : string;
  spec_chain_type : ChainType;
  spec_genesis : outcome string RuntimeGenesisConfig;
  spec_boot_nodes : list string;
  spec_telemetry : option (list string);
  spec_protocol_id : option string;
  spec_fork_id : option string;
}.

Section chain_spec.
Context `{KeyLib}.
Local Open Scope string_scope.

(** [get_from_seed]. *)
Definition get_from_seed {Public} (from_string : string → option Public) (seed : string) :
    outcome string Public :=
  match from_string ("//" +:+ seed) with
  | Some public => Ok public
  | None => Panic "static values are valid; qed"
  end.

(** [get_account_id_from_seed::<sr25519::Public>]. *)
Definition get_account_id_from_seed (seed : string) : outcome string AccountId :=
  public ← get_from_seed sr25519_from_string seed;
  Ok (into_account public).

(** [authority_keys_from_seed]. *)
Definition authority_keys_from_seed (s : string) : outcome string (AuraId * AuthorityId) :=
  aura ← get_from_seed aura_from_string s;
  hotstuff ← get_from_seed hotstuff_from_string s;
  Ok (aura, hotstuff).

(** [testnet_genesis]. *)
Definition testnet_genesis (wasm_binary : bytes) (initial_authorities : list (AuraId * AuthorityId))
    (root_key : AccountId) (endowed_accounts : list AccountId) (enable_println : bool) :
    RuntimeGenesisConfig := {|
  g_system_code := wasm_binary;
  g_balances := (λ k, (k, Z.shiftl 1 60)) <$> endowed_accounts;
  g_aura := initial_authorities.*1;
  g_sudo := Some root_key;
  g_transaction_payment := ();
  g_hotstuff := initial_authorities.*2;
|}.

(** The body of the genesis closures. *)
Definition genesis_from_seeds (wasm_binary : bytes) (authorities : list string) (root : string)
    (endowed : list string) : outcome string RuntimeGenesisConfig :=
  initial_authorities ← mapM authority_keys_from_seed authorities;
  root_key ← get_account_id_from_seed root;
  endowed_accounts ← mapM get_account_id_from_seed endowed;
  Ok (testnet_genesis wasm_binary initial_authorities root_key endowed_accounts true).

(** [development_config]; [WASM_BINARY] is made by the build. *)
Definition development_config (WASM_BINARY : option bytes) : outcome string ChainSpec :=
  wasm_binary ← ok_or WASM_BINARY "Development wasm not available";
  Ok {|
    spec_chain_name := "Development";
    spec_id := "dev";
    spec_chain_type := Development;
    spec_genesis := genesis_from_seeds wasm_binary ["Alice"; "Bob"] "Alice"
      ["Alice"; "Bob"; "Alice//stash"; "Bob//stash"];
    spec_boot_nodes := [];
    spec_telemetry := None;
    spec_protocol_id := None;
    spec_fork_id := None;
  |}.

(** [local_testnet_config]. *)
Definition local_testnet_config (WASM_BINARY : option bytes) : outcome string ChainSpec :=
  wasm_binary ← ok_or WASM_BINARY "Development wasm not available";
  Ok {|
    spec_chain_name := "Local Testnet";
    spec_id := "local_testnet";
    spec_chain_type := Local;
    spec_genesis := genesis_from_seeds wasm_binary
      ["Alice"; "Bob"; "Charlie"; "Dave"; "Eve"; "Ferdie"] "Alice"
      ["Alice"; "Bob"; "Charlie"; "Dave"; "Eve"; "Ferdie";
       "Alice//stash"; "Bob//stash"; "Charlie//stash"; "Dave//stash"; "Eve//stash";
       "Ferdie//stash"];
    spec_boot_nodes := [];
    spec_telemetry := None;
    spec_protocol_id := None;
    spec_fork_id := None;
  |}.

(** The seeds of the shipped chains. *)
Definition known_seeds : list string :=
  ["Alice"; "Bob"; "Charlie"; "Dave"; "Eve"; "Ferdie";
   "Alice//stash"; "Bob//stash"; "Charlie//stash"; "Dave//stash"; "Eve//stash"; "Ferdie//stash"].

(** Derivation along the known paths succeeds and gives different keys. *)
Definition derives {Public} (from_string : string → option Public) : Prop :=
  ∃ key : string → Public,
    (∀ s, s ∈ known_seeds → from_string ("//" +:+ s) = Some (key s)) ∧
    (∀ s t, s ∈ known_seeds → t ∈ known_seeds → key s = key t → s = t).

Class KeyLaws : Prop := {
  aura_derives : derives aura_from_string;
  hotstuff_derives : derives hotstuff_from_string;
  sr25519_derives : derives sr25519_from_string;
  into_account_inj :: Inj (=) (=) into_account;
}.
End chain_spec.

Section facts.
Context `{KL : KeyLib} `{!KeyLaws}.
Local Open Scope string_scope.

(** The genesis of a shipped chain: the seeds' keys in order. *)
Lemma genesis_from_known_seeds wasm auths root endowed :
  auths ⊆ known_seeds → root ∈ endowed → endowed ⊆ known_seeds →
  NoDup auths → NoDup endowed →
  ∃ g, genesis_from_seeds wasm auths root endowed = Ok g ∧
    g_system_code g = wasm ∧
    length (g_hotstuff g) = length auths ∧ NoDup (g_hotstuff g) ∧
    length (g_aura g) = length auths ∧ NoDup (g_aura g) ∧
    length (g_balances g) = length endowed ∧ NoDup (g_balances g).*1 ∧
    (∃ k, g_sudo g = Some k ∧ k ∈ (g_balances g).*1) ∧
    Forall (λ b, b.2 = 2 ^ 60)%Z (g_balances g).
Proof.
  intros Hauths Hroot Hend Hnda Hnde.
  destruct aura_derives as (ka & Hka & Hkai), hotstuff_derives as (kh & Hkh & Hkhi),
    sr25519_derives as (ks & Hks & Hksi).
  assert (∀ s, s ∈ endowed → get_account_id_from_seed s = Ok (into_account (ks s))) as Hacc.
  { intros s Hs. unfold get_account_id_from_seed, get_from_seed. by rewrite Hks by auto. }
  unfold genesis_from_seeds.
  rewrite (mapM_Ok authority_keys_from_seed (λ s, (ka s, kh s))).
  2:{ intros s Hs. unfold authority_keys_from_seed, get_from_seed.
      by rewrite Hka, Hkh by auto. }
  cbn [mbind outcome_bind]. rewrite Hacc by done. cbn [mbind outcome_bind].
  rewrite (mapM_Ok get_account_id_from_seed (λ s, into_account (ks s))) by done.
  eexists. split; [reflexivity|].
  cbn [g_system_code g_hotstuff g_aura g_balances g_sudo testnet_genesis].
  rewrite <- !list_fmap_compose. unfold compose. cbn [fst snd]. rewrite !length_fmap.
  split_and!; try done.
  - apply NoDup_fmap_2_strong; [|done]. eauto.
  - apply NoDup_fmap_2_strong; [|done]. eauto.
  - apply NoDup_fmap_2_strong; [|done].
    intros s t Hs Ht Heq%(inj into_account). eauto.
  - exists (into_account (ks root)). split; [done|]. apply list_elem_of_fmap. eauto.
  - apply Forall_forall. intros b. rewrite !list_elem_of_fmap. naive_solver.
Qed.

(** The client of a node runs the chain's runtime: the call of the runtime
    interface at the genesis hash, which is the one the voter makes, gives the
    authorities of the state [s].  A client answers it from the genesis state; the
    theorem below allows the state after any blocks, none of them included. *)
Definition serves {CL : Client} {RC : RuntimeClient} (c : client) (s : RuntimeState) : Prop :=
  ∃ h, expect_genesis_hash c = Ok h ∧
    client_call_authorities c h = inr (scale_encode (HotstuffApi_authorities s)).

Definition shipped (wasm : option bytes) (spec : ChainSpec) (n : nat) : Prop :=
  development_config wasm = Ok spec ∧ n = 2%nat ∨
  local_testnet_config wasm = Ok spec ∧ n = 6%nat.

Lemma shipped_genesis wasm spec n :
  shipped wasm spec n →
  ∃ g, spec_genesis spec = Ok g ∧ spec_fork_id spec = None ∧
    length (g_hotstuff g) = n ∧ NoDup (g_hotstuff g) ∧
    length (g_aura g) = n ∧ NoDup (g_aura g) ∧ NoDup (g_balances g).*1 ∧
    (∃ k, g_sudo g = Some k ∧ k ∈ (g_balances g).*1) ∧
    Forall (λ b, b.2 = 2 ^ 60)%Z (g_balances g).
Proof.
  unfold shipped, development_config, local_testnet_config.
  intros [[Hs ->]|[Hs ->]]; apply outcome_bind_Ok in Hs as (w & _ & [= <-]);
    cbn [spec_genesis spec_fork_id].
  - destruct (genesis_from_known_seeds w ["Alice"; "Bob"] "Alice"
      ["Alice"; "Bob"; "Alice//stash"; "Bob//stash"])
      as (g & Hg & _ & ? & ? & ? & ? & _ & ? & ? & ?); [vm_decide..|].
    by exists g.
  - destruct (genesis_from_known_seeds w ["Alice"; "Bob"; "Charlie"; "Dave"; "Eve"; "Ferdie"]
      "Alice" known_seeds)
      as (g & Hg & _ & ? & ? & ? & ? & _ & ? & ? & ?); [vm_decide..|].
    by exists g.
Qed.
End facts.

Section start.
Context `{KL : KeyLib} {CL : Client} {RC : RuntimeClient} `{!PlatformLaws} `{!FrameLaws} `{!KeyLaws}.
Context {TT : TokioTime} `{!TokioLaws}.

Lemma start_hotstuff_serves now link ks env (s : RuntimeState) :
  0 < local_timer_duration env → serves (lh_client link) s → (length (HotstuffApi_authorities s) ≤ 32)%nat → is_ok (pending_queue_new (lh_client link)) = true →
  ∃ nd timer, start_hotstuff now link ks env = Ok (nd, timer) ∧
    cs_authorities (w_state (n_worker nd)) = (λ id, (id, 0)) <$> HotstuffApi_authorities s.
Proof.
  intros Hd (h & Hh & Hcall) Hlen Hq. unfold start_hotstuff, get_genesis_authorities_from_client.
  rewrite Hh, Hcall, (decode_all_encode (ok := vec_ok any_ok)).
  2:{ split; [by apply Forall_true|lia]. }
  cbn [mbind outcome_bind]. destruct (pending_queue_new (lh_client link)); [|done..].
  unfold timer_new. destruct (interval_start now _ Hd) as (i & -> & _). simpl. eauto.
Qed.

(** C10: from the chain specification to the voters: on both shipped chains
    genesis is computed, gives every endowed account more than the existential
    deposit, each once, makes an endowed account the sudo key, and passes the
    Hotstuff pallet's checks; and whatever valid blocks follow (without raw
    storage writes), every node whose client answers from that chain starts
    with exactly the specified authorities, a committee of two or six of which
    every certificate needs two or five. *)
Theorem shipped_chains_start wasm spec n (o : OtherPallets) :
  shipped wasm spec n →
  ∃ g s, spec_genesis spec = Ok g ∧
    NoDup (g_balances g).*1 ∧ Forall (λ b, EXISTENTIAL_DEPOSIT < b.2) (g_balances g) ∧
    (∃ k, g_sudo g = Some k ∧ k ∈ (g_balances g).*1) ∧
    length (g_aura g) = n ∧ hotstuff_genesis (g_hotstuff g) o = Ok s ∧
    ∀ blocks s' now link ks env,
      0 < local_timer_duration env → Forall (λ b, Forall (λ x, writes_raw x = false) b.2) blocks →
      runtime_chain s blocks = Ok s' → serves (lh_client link) s' →
      is_ok (pending_queue_new (lh_client link)) = true →
      ∃ nd timer, start_hotstuff now link ks env = Ok (nd, timer) ∧
        (cs_authorities (w_state (n_worker nd))).*1 = g_hotstuff g ∧
        committee (n_worker nd) ∧
        two_thirds (cs_authorities (w_state (n_worker nd))) + 1 =
          if (n =? 2)%nat then 2 else 5.
Proof.
  intros Hsh. assert (n = 2 ∨ n = 6)%nat as Hn by (destruct Hsh as [[_ ->]|[_ ->]]; auto).
  destruct (shipped_genesis wasm spec n Hsh) as (g & Hg & _ & Hlen & Hnd & Hla & _ & Hb & Hk & Hbal).
  eexists g, _. split; [done|]. split; [done|]. split.
  { eapply Forall_impl; [done|]. intros b ->. unfold EXISTENTIAL_DEPOSIT. lia. }
  split; [done|]. split; [done|].
  rewrite hotstuff_genesis_eq. destruct (g_hotstuff g) as [|id ids] eqn:E; [simpl in *; lia|].
  rewrite <- E in *. destruct (Z.leb_spec (Z.of_nat (length (g_hotstuff g))) 32); [|lia].
  split; [done|]. intros blocks s' now link ks env Hd Hraw Hchain Hserves Hq.
  apply (chain_kept true) in Hchain as [Hkept _].
  2:{ eapply Forall_impl; [done|]. naive_solver. }
  assert (HotstuffApi_authorities s' = g_hotstuff g) as Hauth.
  { unfold HotstuffApi_authorities, authorities. by rewrite Hkept. }
  destruct (start_hotstuff_serves now link ks env s') as (nd & d & Hstart & Hcs); [done|done|rewrite Hauth; lia|done|].
  exists nd, d. rewrite Hauth in Hcs. split; [done|]. unfold committee, two_thirds.
  rewrite Hcs, length_fmap, <- list_fmap_compose, Hlen.
  assert ((fst ∘ (λ id : AuthorityId, (id, 0))) <$> g_hotstuff g = g_hotstuff g) as ->
    by apply list_fmap_id.
  split; [done|]. split; [split; [done|lia]|]. by destruct Hn as [->| ->].
Qed.
End start.

Section witnesses.
#[local] Existing Instance ref_platform.
#[local] Existing Instance ref_platform_laws.
#[local] Existing Instance ref_client.
#[local] Existing Instance ref_frame.
#[local] Existing Instance ref_frame_laws.
#[local] Existing Instance ref_tokio.
#[local] Existing Instance ref_tokio_laws.
Local Open Scope string_scope.

(** The key of a known seed is its position. *)
Definition seed_index (uri : string) : option Z :=
  (λ p, Z.of_nat p.1) <$> list_find (λ s, uri = "//" +:+ s) known_seeds.
Definition ref_keys : KeyLib := {|
  aura_from_string uri := ref_id <$> seed_index uri;
  hotstuff_from_string uri := ref_id <$> seed_index uri;
  Sr25519Public := Z;
  sr25519_from_string := seed_index;
  AccountId := Z;
  into_account := id;
|}.
#[local] Existing Instance ref_keys.

Lemma known_seeds_derive {P} (f : Z → P) :
  NoDup (f <$> seqZ 0 12) → derives (λ uri, f <$> seed_index uri).
Proof.
  intros Hnd. exists (λ s, f (default 0%Z (seed_index ("//" +:+ s)))).
  assert (∀ s, s ∈ known_seeds → seed_index ("//" +:+ s) =
    Some (default 0%Z (seed_index ("//" +:+ s)))) as Hs.
  { apply Forall_forall. repeat constructor. }
  split.
  - intros s Hin. by rewrite (Hs s Hin).
  - assert (Forall (λ s, Forall (λ t, default 0%Z (seed_index ("//" +:+ s)) =
      default 0%Z (seed_index ("//" +:+ t)) → s = t) known_seeds) known_seeds) as Hinj by vm_decide.
    rewrite Forall_forall in Hinj. intros s t Hin Hin' Heq.
    specialize (Hinj s Hin). rewrite Forall_forall in Hinj. apply Hinj; [done|].
    assert (∀ s, s ∈ known_seeds → (0 <= default 0%Z (seed_index ("//" +:+ s)) < 12)%Z) as Hr.
    { apply Forall_forall. vm_decide. }
    pose proof (Hr s Hin). pose proof (Hr t Hin').
    apply (NoDup_fmap_fst_inj ((λ z, (f z, z)) <$> seqZ 0 12)
      (f (default 0%Z (seed_index ("//" +:+ s))))).
    + rewrite <- list_fmap_compose. exact Hnd.
    + apply list_elem_of_fmap. eexists. split; [done|]. apply elem_of_seqZ. lia.
    + apply list_elem_of_fmap. eexists. split; [by rewrite Heq|]. apply elem_of_seqZ. lia.
Qed.

Lemma ref_keys_laws : KeyLaws.
Proof.
  split.
  - apply (known_seeds_derive ref_id). vm_decide.
  - apply (known_seeds_derive ref_id). vm_decide.
  - destruct (known_seeds_derive (λ z, z)) as (key & Hk & Hi); [vm_decide|].
    exists key. split; [|done]. intros s Hs. specialize (Hk s Hs). simpl in *.
    by destruct (seed_index _).
  - intros x y. done.
Qed.
#[local] Existing Instance ref_keys_laws.

(** The local test chain with an empty runtime binary. *)
Definition ref_local_spec : ChainSpec :=
  match local_testnet_config (Some []) with Ok spec => spec | _ =>
    mkChainSpec _ _ _ "" "" Live (Err "") [] None None None end.

(** A client whose runtime answers from the local chain's genesis. *)
Definition ref_local_state : RuntimeState :=
  mkRuntimeState (ref_others 0) (mkPalletState (Some (ref_id <$> seqZ 0 6)) None []).
Definition ref_local_runtime : @RuntimeClient ref_platform ref_client := {|
  client_call_authorities c h := inr (scale_encode (HotstuffApi_authorities ref_local_state));
|}.
#[local] Existing Instance ref_local_runtime.

Lemma ref_local_hotstuff g :
  spec_genesis ref_local_spec = Ok g → g_hotstuff g = ref_id <$> seqZ 0 6.
Proof.
  intros Hg. assert (match spec_genesis ref_local_spec with Ok g => g_hotstuff g | _ => [] end =
    ref_id <$> seqZ 0 6) as Heq by vm_refl.
  by rewrite Hg in Heq.
Qed.

Lemma shipped_chains_start_witness :
  ∃ nd timer, start_hotstuff 0 ref_link [ref_id 0] None = Ok (nd, timer) ∧
    committee (n_worker nd) ∧ two_thirds (cs_authorities (w_state (n_worker nd))) + 1 = 5.
Proof.
  destruct (shipped_chains_start (CL := ref_client) (Some []) ref_local_spec 6 (ref_others 0))
    as (g & s & Hg & _ & _ & _ & _ & Hs & Hstart).
  { right. split; reflexivity. }
  destruct (Hstart [] s 0 ref_link [ref_id 0] None) as (nd & d & Hnd & _ & Hc & Hq).
  - reflexivity.
  - constructor.
  - reflexivity.
  - assert (s = ref_local_state) as Hst.
    { rewrite (ref_local_hotstuff g Hg) in Hs.
      assert (Ok (E := string) s = Ok ref_local_state) as Heq by (rewrite <- Hs; reflexivity).
      injection Heq as Heq. exact Heq. }
    rewrite Hst. exists (ref_hash 0). split; vm_refl.
  - vm_refl.
  - exists nd, d. split; [exact Hnd|]. split; [exact Hc|exact Hq].
Defined.
End witnesses.
