(* ===== verification/NodeService.v ===== *)
(** * The node's services ([node-template/node/src/service.rs], [rpc.rs])

    [new_partial] and [new_full] build a node from its configuration: client,
    block import, network and tasks, and on an authority the block author and
    the voter.  Substrate's services are parameters ([ServiceLib]); what the code
    starts is recorded in order.  The theorem: starting runs one fixed sequence
    that depends on the configuration only, the network comes last, and a
    failure stops it where it is, so a network never runs without its voter. *)
From S2P Require Import Prelude Codec Primitives Reference Message Aggregator.
From S2P Require Import Synchronizer ProtocolName Network ConsensusState Import Worker.
From S2P Require Import WorkerFacts WorkerSafety Service.
From S2P Require Import Timer.
Local Open Scope Z_scope.

(** Substrate's services, as far as the node's code calls them. *)
Class ServiceLib `{Platform} {CL : Client} {GL : GossipLib} := {
  Configuration : Type;
  cfg_telemetry_endpoints : Configuration → option (list string);
  cfg_is_authority : Configuration → bool;
  cfg_offchain_worker_enabled : Configuration → bool;
  cfg_force_authoring : Configuration → bool;
  (** [config.chain_spec.fork_id()]. *)
  cfg_fork_id : Configuration → option string;
  Telemetry : Type;
  Backend : Type;
  SelectChain : Type;
  TransactionPool : Type;
  ImportQueue : Type;
  (** [TelemetryWorker::new], [new_telemetry]. *)
  telemetry_worker_new : Z → string + unit;
  new_telemetry : list string → Telemetry;
  new_full_parts : Configuration → option Telemetry → string + client * Backend * Keystore;
  longest_chain_new : Backend → SelectChain;
  basic_pool_new_full : Configuration → client → TransactionPool;
  aura_slot_duration : client → string + Z;
  aura_import_queue : HotstuffBlockImport → client → Z → option Telemetry → string + ImportQueue;
  build_network : Configuration → NonDefaultSetConfig → client → TransactionPool → ImportQueue →
    string + NetworkService * SyncService;
  spawn_tasks : Configuration → NetworkService → client → Keystore → TransactionPool → Backend →
    SyncService → option Telemetry → string + unit;
  start_aura : Z → client → SelectChain → HotstuffBlockImport → bool → Keystore → SyncService →
    option Telemetry → string + unit;
  (** [RpcModule] and its [merge], which refuses a method registered twice. *)
  RpcModule : Type;
  rpc_module_new : RpcModule;
  rpc_merge : RpcModule → RpcModule → string + RpcModule;
  rpc_system : client → TransactionPool → bool → RpcModule;
  rpc_transaction_payment : client → RpcModule;
}.

(** What the node starts: a task of the task manager, a gossip protocol, the
    voter that a task runs, the network. *)
Inductive Started `{Platform} {CL : Client} {TT : TokioTime} :=
| StartTask (essential blocking : bool) (name : string) (group : option string)
| StartProtocol (cfg : NonDefaultSetConfig)
| StartRpcAndTasks
| StartVoter (node : Node) (timer : Timer)
| StartNetwork.

(** [sc_service::PartialComponents]. *)
Record PartialComponents `{ServiceLib} := mkPartial {
  pc_client : client;
  pc_backend : Backend;
  pc_import_queue : ImportQueue;
  pc_keystore : Keystore;
  pc_select_chain : SelectChain;
  pc_transaction_pool : TransactionPool;
  pc_block_import : HotstuffBlockImport;
  pc_link : LinkHalf;
  pc_telemetry : option Telemetry;
}.
Arguments mkPartial {_ _ _ _} _ _ _ _ _ _ _ _ _.

(** [rpc::FullDeps]. *)
Record FullDeps `{ServiceLib} := mkFullDeps {
  fd_client : client;
  fd_pool : TransactionPool;
  fd_deny_unsafe : bool;
}.
Arguments mkFullDeps {_ _ _ _} _ _ _.

Section service.
Context `{Platform} {CL : Client} {RC : RuntimeClient} {GL : GossipLib} {TT : TokioTime} `{!ServiceLib} `{HexLib}.
Abbreviation S := (Comp (list Started) string).

Definition start (e : Started) : S unit := modify (λ log, log ++ [e]).
(** [?] on a library's result. *)
Definition try_ {A} (r : string + A) : S A := lift (map_err r id).

(** [new_partial]. *)
Definition new_partial (config : Configuration) : S PartialComponents :=
  telemetry ← match cfg_telemetry_endpoints config with
              | Some ((_ :: _) as endpoints) =>
                  try_ (telemetry_worker_new 16);; mret (Some (new_telemetry endpoints))
              | _ => mret None
              end;
  parts ← try_ (new_full_parts config telemetry);
  let '(client, backend, keystore_container) := parts in
  (if telemetry then start (StartTask false false "telemetry" None) else mret ());;
  let select_chain := longest_chain_new backend in
  let transaction_pool := basic_pool_new_full config client in
  imported ← lift (block_import client);
  let '(hotstuff_block_import, hotstuff_link) := imported in
  slot_duration ← try_ (aura_slot_duration client);
  import_queue ← try_ (aura_import_queue hotstuff_block_import client slot_duration telemetry);
  mret (mkPartial client backend import_queue keystore_container select_chain transaction_pool
          hotstuff_block_import hotstuff_link telemetry).

(** [if role.is_authority() { .. }] of [new_full]; [env_var] is [HOTSTUFF_DURATION]. *)
Definition start_authority (config : Configuration) (parts : PartialComponents)
    (sync_service : SyncService) (now : Z) (env_var : option string) : S unit :=
  if cfg_is_authority config then
    slot_duration ← try_ (aura_slot_duration (pc_client parts));
    try_ (start_aura slot_duration (pc_client parts) (pc_select_chain parts) (pc_block_import parts)
            (cfg_force_authoring config) (pc_keystore parts) sync_service (pc_telemetry parts));;
    start (StartTask true true "hotstuff block author" (Some "block-authoring"));;
    voter ← lift (match start_hotstuff now (pc_link parts) (pc_keystore parts) env_var with
                  | Ok v => Ok v
                  | Err _ => Err "start_hotstuff"
                  | Panic m => Panic m
                  | Diverge => Diverge
                  end);
    start (StartVoter voter.1 voter.2);;
    start (StartTask true true "hotstuff block voter" None);;
    start (StartTask true true "hotstuff network" None)
  else mret ().

(** [new_full]. *)
Definition new_full (config : Configuration) (now : Z) (env_var : option string) : S unit :=
  parts ← new_partial config;
  let client := pc_client parts in
  genesis_hash ← lift (match client_block_hash client 0 with
                       | inr (Some h) => Ok h
                       | _ => Panic "Genesis block exists; qed"
                       end);
  let hotstuff_protocol_name := standard_name genesis_hash (cfg_fork_id config) in
  let net_config := hotstuff_peers_set_config hotstuff_protocol_name in
  start (StartProtocol net_config);;
  net ← try_ (build_network config net_config client (pc_transaction_pool parts)
                (pc_import_queue parts));
  let '(network, sync_service) := net in
  (if cfg_offchain_worker_enabled config
   then start (StartTask false false "offchain-workers-runner" (Some "offchain-worker"))
   else mret ());;
  try_ (spawn_tasks config network client (pc_keystore parts) (pc_transaction_pool parts) (pc_backend parts)
          sync_service (pc_telemetry parts));;
  start StartRpcAndTasks;;
  start_authority config parts sync_service now env_var;;
  start StartNetwork.

(** [rpc::create_full]. *)
Definition create_full (deps : FullDeps) : outcome string RpcModule :=
  let '(mkFullDeps client pool deny_unsafe) := deps in
  module ← map_err (rpc_merge rpc_module_new (rpc_system client pool deny_unsafe)) id;
  map_err (rpc_merge module (rpc_transaction_payment client)) id.
End service.

Section facts.
Context `{Platform} {CL : Client} {RC : RuntimeClient} {GL : GossipLib} {TT : TokioTime} `{!ServiceLib} `{HexLib}.

(** A run that stopped early: it has started a prefix of [plan]. *)
Definition stopped {A} (plan log : list Started) (res : outcome string A * list Started) : Prop :=
  is_ok res.1 = false ∧ ∃ l, res.2 = log ++ l ∧ l `prefix_of` plan.

Lemma stopped_after {A} plan log l (res : outcome string A * list Started) :
  stopped plan (log ++ l) res → stopped (l ++ plan) log res.
Proof.
  intros (Hr & l' & Heq & Hl'). split; [done|]. exists (l ++ l').
  rewrite app_assoc. split; [done|]. by apply prefix_app.
Qed.

Lemma stopped_weaken {A} plan plan' log (res : outcome string A * list Started) :
  plan `prefix_of` plan' → stopped plan log res → stopped plan' log res.
Proof. intros Hp (Hr & l & Heq & Hl). split; [done|]. exists l. split; [done|]. by etrans. Qed.

Lemma stopped_now {A} plan log (r : outcome string A) : is_ok r = false → stopped plan log (r, log).
Proof.
  intros Hr. split; [done|]. exists []. rewrite app_nil_r. split; [done|]. apply prefix_nil.
Qed.

(** Sequencing: after a prefix that stopped, or after one that did not. *)
Lemma bind_ok {A B} (m : Comp (list Started) string A) (k : A → Comp (list Started) string B)
    log a log' : m log = (Ok a, log') → (m ≫= k) log = k a log'.
Proof. intros Hm. unfold mbind, comp_bind. by rewrite Hm. Qed.

Lemma bind_stopped {A B} (m : Comp (list Started) string A) (k : A → Comp (list Started) string B) plan
    log : stopped plan log (m log) → stopped plan log ((m ≫= k) log).
Proof.
  unfold mbind, comp_bind. intros (Hr & l & Hl & Hn). destruct (m log) as [[] log']; try done;
    (split; [done|]; by exists l).
Qed.

(** A result from outside either goes on or stops. *)
Lemma bind_lift {A B} (o : outcome string A) (k : A → Comp (list Started) string B) log :
  (∃ a, o = Ok a ∧ (lift o ≫= k) log = k a log) ∨
  ∀ plan, stopped plan log ((lift o ≫= k) log).
Proof.
  destruct o as [a| | |]; [left; by exists a|right; intros plan; by apply bind_stopped, stopped_now..].
Qed.

Lemma bind_try {A B} (r : string + A) (k : A → Comp (list Started) string B) log :
  (∃ a, r = inr a ∧ (try_ r ≫= k) log = k a log) ∨
  ∀ plan, stopped plan log ((try_ r ≫= k) log).
Proof.
  unfold try_. destruct (bind_lift (map_err r id) k log) as [(a & Ha & ->)|Hs]; [left|by right].
  exists a. destruct r; by simplify_eq/=.
Qed.

(** The telemetry task is started when there are endpoints. *)
Definition telemetry_of (config : Configuration) : option Telemetry :=
  match cfg_telemetry_endpoints config with
  | Some ((_ :: _) as endpoints) => Some (new_telemetry endpoints)
  | _ => None
  end.
Definition telemetry_started (config : Configuration) : list Started :=
  if telemetry_of config then [StartTask false false "telemetry" None] else [].

Lemma new_partial_run config log :
  (∃ parts, new_partial config log = (Ok parts, log ++ telemetry_started config) ∧
     new_full_parts config (telemetry_of config) =
       inr (pc_client parts, pc_backend parts, pc_keystore parts) ∧
     block_import (pc_client parts) = Ok (pc_block_import parts, pc_link parts)) ∨
  stopped (telemetry_started config) log (new_partial config log).
Proof.
  unfold new_partial.
  assert (∀ (k : option Telemetry → Comp (list Started) string PartialComponents),
    let res := (match cfg_telemetry_endpoints config with
                | Some ((_ :: _) as endpoints) =>
                    try_ (telemetry_worker_new 16);; mret (Some (new_telemetry endpoints))
                | _ => mret None
                end ≫= k) log in
    res = k (telemetry_of config) log ∨ stopped (telemetry_started config) log res) as Htel.
  { intros k. cbv zeta. unfold telemetry_of.
    destruct (cfg_telemetry_endpoints config) as [[|e es]|]; auto.
    destruct (bind_try (telemetry_worker_new 16)
      (λ _, mret (M := Comp (list Started) string) (Some (new_telemetry (e :: es)))) log)
      as [(a & _ & Ha)|Hs]; [left|right; apply bind_stopped, Hs].
    by rewrite (bind_ok _ _ _ _ _ Ha). }
  match goal with |- context [(?m ≫= ?k) log] => destruct (Htel k) as [->|Hs]; [|by right] end.
  match goal with |- context [(try_ ?r ≫= ?k) log] =>
    destruct (bind_try r k log) as [([[c b] ks] & Hparts & ->)|Hs]; [|right; apply Hs] end.
  assert (∀ {B} (k : unit → Comp (list Started) string B),
    ((if telemetry_of config then start (StartTask false false "telemetry" None) else mret ()) ≫= k)
      log = k () (log ++ telemetry_started config)) as Hstart.
  { intros B k. unfold telemetry_started. destruct (telemetry_of config); [done|].
    by rewrite app_nil_r. }
  rewrite Hstart.
  assert (∀ res : outcome string PartialComponents * list Started,
    (∀ plan, stopped plan (log ++ telemetry_started config) res) →
    stopped (telemetry_started config) log res) as Hlate.
  { intros res Hs. rewrite <- (app_nil_r (telemetry_started config)).
    by apply stopped_after. }
  match goal with |- context [(lift ?r ≫= ?k) ?l] =>
    destruct (bind_lift r k l) as [([bi link] & Hpd & ->)|Hs]; [|right; exact (Hlate _ Hs)] end.
  match goal with |- context [(try_ ?r ≫= ?k) ?l] =>
    destruct (bind_try r k l) as [(sd & _ & ->)|Hs]; [|right; exact (Hlate _ Hs)] end.
  match goal with |- context [(try_ ?r ≫= ?k) ?l] =>
    destruct (bind_try r k l) as [(iq & _ & ->)|Hs]; [|right; exact (Hlate _ Hs)] end.
  left. eexists. split; [reflexivity|]. done.
Qed.

(** The tasks of a node that are no voter's, in their order: the gossip protocol,
    the off-chain worker, RPC, and on an authority the block author. *)
Definition base_started (config : Configuration) (genesis : Hash) : list Started :=
  [StartProtocol (hotstuff_peers_set_config (standard_name genesis (cfg_fork_id config)))] ++
  (if cfg_offchain_worker_enabled config
   then [StartTask false false "offchain-workers-runner" (Some "offchain-worker")] else []) ++
  [StartRpcAndTasks].
Definition author_started (config : Configuration) : list Started :=
  if cfg_is_authority config
  then [StartTask true true "hotstuff block author" (Some "block-authoring")] else [].
Definition voter_started (voter : option (Node * Timer)) : list Started :=
  match voter with
  | Some (node, timer) =>
      [StartVoter node timer; StartTask true true "hotstuff block voter" None;
       StartTask true true "hotstuff network" None]
  | None => []
  end.

(** The genesis block of the client, and what can be started before the voter. *)
Definition genesis_of (config : Configuration) : option Hash :=
  match new_full_parts config (telemetry_of config) with
  | inr (c, _, _) => match client_block_hash c 0 with inr h => h | inl _ => None end
  | inl _ => None
  end.
Definition before_voter (config : Configuration) : list Started :=
  telemetry_started config ++
  match genesis_of config with
  | Some genesis => base_started config genesis ++ author_started config
  | None => []
  end.

(** Neither the voter nor the network is among these. *)
Lemma before_voter_quiet config e :
  e ∈ before_voter config → e ≠ StartNetwork ∧ ∀ node timer, e ≠ StartVoter node timer.
Proof.
  unfold before_voter, telemetry_started, base_started, author_started.
  destruct (telemetry_of config), (genesis_of config), (cfg_offchain_worker_enabled config),
    (cfg_is_authority config); simpl; intros He;
    repeat (apply elem_of_cons in He as [->|He]; [done|]); by apply not_elem_of_nil in He.
Qed.

(** The voter that a configuration asks for. *)
Definition voter_of (config : Configuration) (now : Z) (link : LinkHalf) (ks : Keystore)
    (env : option string) (voter : option (Node * Timer)) : Prop :=
  if cfg_is_authority config
  then ∃ v, start_hotstuff now link ks env = Ok v ∧ voter = Some v
  else voter = None.

Lemma start_authority_run config parts sync now env log :
  (∃ voter, voter_of config now (pc_link parts) (pc_keystore parts) env voter ∧
     start_authority config parts sync now env log =
     (Ok (), log ++ author_started config ++ voter_started voter)) ∨
  stopped (author_started config) log (start_authority config parts sync now env log).
Proof.
  unfold start_authority, voter_of, author_started. destruct (cfg_is_authority config).
  2:{ left. exists None. by rewrite app_nil_r. }
  match goal with |- context [(try_ ?r ≫= ?k) ?l] =>
    destruct (bind_try r k l) as [(sd & _ & ->)|Hs]; [|right; apply Hs] end.
  match goal with |- context [(try_ ?r ≫= ?k) ?l] =>
    destruct (bind_try r k l) as [(u & _ & ->)|Hs]; [|right; apply Hs] end.
  rewrite (bind_ok _ _ log () (log ++ [StartTask true true "hotstuff block author"
    (Some "block-authoring")])) by done.
  match goal with |- context [(lift ?r ≫= ?k) ?l] =>
    destruct (bind_lift r k l) as [(v & Hv & ->)|Hs] end.
  - left. exists (Some v). split; [exists v; split; [|done]|].
    + by destruct (start_hotstuff _ _ _ _); simplify_eq.
    + destruct v as [node timer]. unfold start, modify, mbind, comp_bind. by rewrite <- !app_assoc.
  - right. exact (stopped_after [] _ _ _ (Hs [])).
Qed.

Lemma new_full_run config now env log :
  (∃ c backend ks bi link genesis voter,
    new_full_parts config (telemetry_of config) = inr (c, backend, ks) ∧
    block_import c = Ok (bi, link) ∧ client_block_hash c 0 = inr (Some genesis) ∧
    voter_of config now link ks env voter ∧
    new_full config now env log =
      (Ok (), log ++ before_voter config ++ voter_started voter ++ [StartNetwork])) ∨
  stopped (before_voter config) log (new_full config now env log).
Proof.
  unfold new_full.
  destruct (new_partial_run config log) as [(parts & Hpartial & Hparts & Himport)|Hs].
  2:{ right. apply bind_stopped. eapply stopped_weaken; [|exact Hs]. by apply prefix_app_r. }
  rewrite (bind_ok _ _ _ _ _ Hpartial). cbv zeta. unfold before_voter, genesis_of. rewrite Hparts.
  match goal with |- context [(lift ?r ≫= ?k) ?l] =>
    destruct (bind_lift r k l) as [(h & Hh & ->)|Hs]; [|right; apply stopped_after, Hs] end.
  assert (client_block_hash (pc_client parts) 0 = inr (Some h)) as Hgenesis.
  { destruct (client_block_hash _ 0) as [|[]]; by simplify_eq. }
  rewrite Hgenesis. unfold base_started.
  set (protocol := StartProtocol (hotstuff_peers_set_config (standard_name h (cfg_fork_id config)))).
  rewrite (bind_ok _ _ _ () ((log ++ telemetry_started config) ++ [protocol])) by done.
  rewrite <- !(app_assoc [protocol]).
  match goal with |- context [(try_ ?r ≫= ?k) ?l] =>
    destruct (bind_try r k l) as [([network sync] & _ & ->)|Hs];
      [|right; apply stopped_after, stopped_after, Hs] end.
  set (offchain := if cfg_offchain_worker_enabled config
    then [StartTask false false "offchain-workers-runner" (Some "offchain-worker")] else []).
  assert (∀ {B} (k : unit → Comp (list Started) string B) l,
    ((if cfg_offchain_worker_enabled config
      then start (StartTask false false "offchain-workers-runner" (Some "offchain-worker"))
      else mret ()) ≫= k) l = k () (l ++ offchain)) as ->.
  { intros B k l. unfold offchain. destruct (cfg_offchain_worker_enabled config); [done|].
    by rewrite app_nil_r. }
  rewrite <- !(app_assoc offchain).
  match goal with |- context [(try_ ?r ≫= ?k) ?l] =>
    destruct (bind_try r k l) as [(u & _ & ->)|Hs];
      [|right; apply stopped_after, stopped_after, stopped_after, Hs] end.
  rewrite (bind_ok _ _ _ () ((((log ++ telemetry_started config) ++ [protocol]) ++ offchain) ++
    [StartRpcAndTasks])) by done.
  match goal with |- context [(start_authority _ _ _ _ _ ≫= _) ?l] =>
    destruct (start_authority_run config parts sync now env l) as [(voter & Hvoter & Hrun)|Hs] end.
  - left. exists (pc_client parts), (pc_backend parts), (pc_keystore parts), (pc_block_import parts),
      (pc_link parts), h, voter.
    do 4 (split; [done|]). rewrite (bind_ok _ _ _ _ _ Hrun). unfold start, modify.
    by rewrite <- !app_assoc.
  - right. by do 4 apply stopped_after; apply bind_stopped.
Qed.

(** C33: how a node starts, for every configuration and every failure.  The
    sequence is fixed: the telemetry task if there are endpoints, the gossip
    protocol named by the genesis block and the fork id, the off-chain worker if
    enabled, the RPC and base tasks, on an authority the block author, then the
    voter that [start_hotstuff] made from the same client and keystore with its
    two tasks, and last the network.  A start that fails has started a prefix of
    what comes before the voter; one that succeeds has started all of it, the
    voter exactly on an authority.  So a voter is started only on an authority
    and only when nothing fails. *)
Theorem node_startup_sequence config now env log :
  let '(r, log') := new_full config now env log in
  ∃ started, log' = log ++ started ∧
    (StartNetwork ∈ started ↔ r = Ok ()) ∧
    (∀ node timer, StartVoter node timer ∈ started → r = Ok () ∧ cfg_is_authority config = true) ∧
    (r ≠ Ok () → started `prefix_of` before_voter config) ∧
    (r = Ok () →
     ∃ c backend ks bi link genesis voter,
       new_full_parts config (telemetry_of config) = inr (c, backend, ks) ∧
       block_import c = Ok (bi, link) ∧
       client_block_hash c 0 = inr (Some genesis) ∧
       voter_of config now link ks env voter ∧
       started = telemetry_started config ++ (base_started config genesis ++ author_started config) ++
         voter_started voter ++ [StartNetwork]).
Proof.
  destruct (new_full_run config now env log)
    as [(c & b & ks & bi & link & h & v & Hparts & Himport & Hh & Hv & ->)|Hs].
  - eexists. split; [done|]. split; [set_solver|]. split; [|split; [done|]].
    + intros node timer [Hin|[Hin|Hin]%elem_of_app]%elem_of_app.
      * by destruct (proj2 (before_voter_quiet _ _ Hin) node timer).
      * split; [done|]. unfold voter_of in Hv. destruct (cfg_is_authority config); [done|].
        subst v. by apply not_elem_of_nil in Hin.
      * by apply list_elem_of_singleton in Hin.
    + intros _. exists c, b, ks, bi, link, h, v. do 4 (split; [done|]).
      unfold before_voter, genesis_of. rewrite Hparts, Hh. by rewrite <- !app_assoc.
  - destruct (new_full config now env log) as [r log']. destruct Hs as (Hr & l & Hl' & Hl).
    cbn in Hr, Hl'. exists l. split; [done|].
    assert (∀ e, e ∈ l → e ≠ StartNetwork ∧ ∀ node timer, e ≠ StartVoter node timer) as Hq.
    { intros e He. apply (before_voter_quiet config). destruct Hl as [k ->].
      apply elem_of_app. by left. }
    split; [split; [intros He; by destruct (Hq _ He)|by intros ->]|].
    split; [intros node timer He; by destruct (proj2 (Hq _ He) node timer)|]. split; [done|by intros ->].
Qed.
End facts.

Section witnesses.
#[local] Existing Instance ref_platform.
#[local] Existing Instance ref_client.
#[local] Existing Instance ref_runtime_client.
#[local] Existing Instance ref_hex_lib.
#[local] Existing Instance ref_tokio.

(** Services that always succeed, for a node that is an authority. *)
Definition ref_gossip_lib : GossipLib := {|
  NetworkService := unit;
  SyncService := unit;
  PeerId := unit;
  service_local_peer_id _ := ();
  GossipEngine := list bytes;
  gossip_engine_new _ _ _ := [];
  gossip_engine_poll _ e := (false, e);
  gossip_engine_messages_for e _ := e;
|}.
#[local] Existing Instance ref_gossip_lib.
Definition ref_service_lib : ServiceLib := {|
  Configuration := bool;
  cfg_telemetry_endpoints _ := None;
  cfg_is_authority b := b;
  cfg_offchain_worker_enabled _ := false;
  cfg_force_authoring _ := false;
  cfg_fork_id _ := None;
  Telemetry := unit;
  Backend := unit;
  SelectChain := unit;
  TransactionPool := unit;
  ImportQueue := unit;
  telemetry_worker_new _ := inr ();
  new_telemetry _ := ();
  new_full_parts _ _ := inr (ref_genesis_chain, (), [ref_id 1]);
  longest_chain_new _ := ();
  basic_pool_new_full _ _ := ();
  aura_slot_duration _ := inr 6000;
  aura_import_queue _ _ _ _ := inr ();
  build_network _ _ _ _ _ := inr ((), ());
  spawn_tasks _ _ _ _ _ _ _ _ := inr ();
  start_aura _ _ _ _ _ _ _ _ := inr ();
  RpcModule := list string;
  rpc_module_new := [];
  rpc_merge a b := inr (a ++ b);
  rpc_system _ _ _ := ["system_accountNextIndex"%string];
  rpc_transaction_payment _ := ["payment_queryInfo"%string];
|}.
#[local] Existing Instance ref_service_lib.

Definition ref_authority : @Configuration _ _ _ ref_service_lib := true.
Definition ref_startup : outcome string unit * list Started :=
  new_full ref_authority 0 (Some "500"%string) [].

(** An authority starts its voter. *)
Lemma node_startup_sequence_witness :
  ∃ started, ref_startup.2 = [] ++ started ∧ StartNetwork ∈ started ∧ length started = 7%nat.
Proof.
  pose proof (node_startup_sequence ref_authority 0 (Some "500"%string) []) as Hs.
  fold ref_startup in Hs.
  assert (ref_startup.1 = Ok ()) as Hok by vm_refl.
  assert (length ref_startup.2 = 7%nat) as Hlen by vm_refl.
  destruct ref_startup as [r log']. cbn [fst snd] in Hok, Hlen.
  destruct Hs as (started & Hlog & Hnet & _). exists started. split; [exact Hlog|].
  split; [apply Hnet; exact Hok|]. rewrite Hlog in Hlen. exact Hlen.
Defined.
End witnesses.
