(* ===== verification/Benchmarking.v ===== *)
(** * Benchmark extrinsics ([node-template/node/src/benchmarking.rs])

    The builders make signed extrinsics of Bob's account for the benchmark
    commands.  Calls, eras and sr25519 signatures are libraries.  The theorem:
    what the extrinsics contain, that their signature covers it under the
    sender's key, and that they stay valid no longer than the runtime remembers
    block hashes. *)
From S2P Require Import Prelude Codec Primitives Reference Message Aggregator.
From S2P Require Import Synchronizer Network ConsensusState Import Worker WorkerFacts WorkerSafety.
From S2P Require Import Service Pallet Weights Runtime ChainSpec.
Local Open Scope Z_scope.

(** Calls, eras, signatures and the encoding of the signed payload. *)
Class TxLib `{KeyLib} {CL : Client} := {
  call_remark : bytes → RuntimeCall;
  call_transfer_keep_alive : AccountId → Z → RuntimeCall;
  Era : Type;
  era_mortal : Z → Z → Era;
  Sr25519Pair : Type;
  sr25519_public_of : Sr25519Pair → Sr25519Public;
  Sr25519Signature : Type;
  sr25519_sign : Sr25519Pair → bytes → Sr25519Signature;
  sr25519_verify : Sr25519Signature → bytes → Sr25519Public → bool;
  keyring_bob : Sr25519Pair;
  (** [client.chain_info().best_hash]. *)
  client_best_hash : client → Hash;
  (** [SignedPayload::from_raw(call, extra, additional).using_encoded]: the call, era,
      nonce, tip, spec and transaction version, genesis and best hash. *)
  signed_payload : RuntimeCall → Era * Z * Z → Z * Z * Hash * Hash → bytes;
}.

Class TxLaws `{TxLib} : Prop := {
  sr25519_sign_verify : ∀ pair msg,
    sr25519_verify (sr25519_sign pair msg) msg (sr25519_public_of pair) = true;
}.

(** [u32::checked_next_power_of_two]. *)
Definition checked_next_power_of_two (n : Z) : option Z :=
  let p := 2 ^ Z.log2_up n in
  if p <=? 2 ^ 32 - 1 then Some p else None.

(** [generic::UncheckedExtrinsic]; of [SignedExtra] only the era, the nonce and the
    tip carry data. *)
Record UncheckedExtrinsic `{TxLib} := mkExtrinsic {
  ux_call : RuntimeCall;
  ux_address : AccountId;
  ux_signature : Sr25519Signature;
  ux_extra : Era * Z * Z;
}.
Arguments mkExtrinsic {_ _ _ _ _} _ _ _ _.

(** [RemarkBuilder] and [TransferKeepAliveBuilder]. *)
Inductive ExtrinsicBuilder `{TxLib} :=
| RemarkBuilder (c : client)
| TransferKeepAliveBuilder (c : client) (dest : AccountId) (value : Z).

Section benchmarking.
Context `{TxLib}.

(** The period of the extrinsics' mortality. *)
Definition benchmark_period (block_hash_count : Z) : Z :=
  default 2 ((λ c, c / 2) <$> checked_next_power_of_two block_hash_count).

(** [create_benchmark_extrinsic]. *)
Definition create_benchmark_extrinsic (c : client) (sender : Sr25519Pair) (call : RuntimeCall)
    (nonce : Z) : outcome string UncheckedExtrinsic :=
  match client_block_hash c 0 with
  | inr (Some genesis_hash) =>
      let best_hash := client_best_hash c in
      let best_block := info_best_number (client_info c) in
      let period := benchmark_period BlockHashCount in
      let extra := (era_mortal period best_block, nonce, 0) in
      let raw_payload := signed_payload call extra
        (spec_version (VERSION []), transaction_version (VERSION []), genesis_hash, best_hash) in
      let signature := sr25519_sign sender raw_payload in
      Ok (mkExtrinsic call (into_account (sr25519_public_of sender)) signature extra)
  | _ => Panic "Genesis block exists; qed"
  end.

(** [ExtrinsicBuilder::pallet], [extrinsic] and [build]. *)
Definition builder_pallet (b : ExtrinsicBuilder) : string :=
  match b with RemarkBuilder _ => "system" | TransferKeepAliveBuilder _ _ _ => "balances" end.
Definition builder_extrinsic (b : ExtrinsicBuilder) : string :=
  match b with
  | RemarkBuilder _ => "remark"
  | TransferKeepAliveBuilder _ _ _ => "transfer_keep_alive"
  end.
Definition builder_build (b : ExtrinsicBuilder) (nonce : Z) : outcome string UncheckedExtrinsic :=
  let acc := keyring_bob in
  match b with
  | RemarkBuilder c => create_benchmark_extrinsic c acc (call_remark []) nonce
  | TransferKeepAliveBuilder c dest value =>
      create_benchmark_extrinsic c acc (call_transfer_keep_alive dest value) nonce
  end.

(** The client of a builder and the call it makes. *)
Definition builder_client (b : ExtrinsicBuilder) : client :=
  match b with RemarkBuilder c => c | TransferKeepAliveBuilder c _ _ => c end.
Definition builder_call (b : ExtrinsicBuilder) : RuntimeCall :=
  match b with
  | RemarkBuilder _ => call_remark []
  | TransferKeepAliveBuilder _ dest value => call_transfer_keep_alive dest value
  end.
End benchmarking.

(** Half the next power of two is the largest power of two below the count. *)
Lemma benchmark_period_bounds n :
  2 <= n <= 2 ^ 31 →
  (∃ k, 0 <= k ∧ benchmark_period n = 2 ^ k) ∧ benchmark_period n < n <= 2 * benchmark_period n.
Proof.
  intros Hn. unfold benchmark_period, checked_next_power_of_two.
  assert (0 < Z.log2_up n) as Hpos by (apply Z.log2_up_pos; lia).
  assert (2 ^ Z.pred (Z.log2_up n) < n <= 2 ^ Z.log2_up n) as Hup by (apply Z.log2_up_spec; lia).
  assert (Z.log2_up n <= 31) as Hle.
  { change 31 with (Z.log2_up (2 ^ 31)). apply Z.log2_up_le_mono. lia. }
  assert (2 ^ Z.log2_up n <= 2 ^ 31) by (apply Z.pow_le_mono_r; lia).
  destruct (Z.leb_spec (2 ^ Z.log2_up n) (2 ^ 32 - 1)); [|lia]. simpl.
  assert (2 ^ Z.log2_up n = 2 ^ Z.pred (Z.log2_up n) * 2) as Hd.
  { by rewrite Z.mul_comm, <- Z.pow_succ_r, Z.succ_pred by lia. }
  rewrite Hd in Hup |- *. rewrite Z.div_mul by done. split; [|lia]. exists (Z.pred (Z.log2_up n)). split; [lia|done].
Qed.

Section facts.
Context `{TxLib} `{!TxLaws}.

(** An extrinsic a builder makes is signed by Bob's key over its call, era,
    nonce and tip, the runtime's versions and the genesis and best block, names
    Bob's account, and is mortal for a power of two of blocks that the runtime's
    window of block hashes covers; without a genesis block the builder
    panics. *)
Lemma benchmark_extrinsic_signed (b : ExtrinsicBuilder) (nonce : Z) :
  let c := builder_client b in
  match client_block_hash c 0 with
  | inr (Some genesis) =>
      ∃ x k, builder_build b nonce = Ok x ∧
        ux_call x = builder_call b ∧
        ux_address x = into_account (sr25519_public_of keyring_bob) ∧
        ux_extra x = (era_mortal (2 ^ k) (info_best_number (client_info c)), nonce, 0) ∧
        sr25519_verify (ux_signature x)
          (signed_payload (builder_call b) (ux_extra x) (100, 1, genesis, client_best_hash c))
          (sr25519_public_of keyring_bob) = true ∧
        0 <= k ∧ 2 ^ k < BlockHashCount <= 2 * 2 ^ k
  | _ => ∃ msg, builder_build b nonce = Panic msg
  end.
Proof.
  intros c. destruct (benchmark_period_bounds BlockHashCount) as [(k & Hk & Hp) Hb];
    [unfold BlockHashCount; lia|].
  assert (builder_build b nonce = create_benchmark_extrinsic c keyring_bob (builder_call b) nonce) as ->
    by by destruct b.
  unfold create_benchmark_extrinsic. destruct (client_block_hash c 0) as [|[genesis|]]; eauto.
  eexists _, k. split; [reflexivity|]. cbn [ux_call ux_address ux_extra ux_signature].
  rewrite Hp in Hb |- *. split_and!; try done; [|lia..].
  apply sr25519_sign_verify.
Qed.
End facts.

Section witnesses.
#[local] Existing Instance ref_platform.
#[local] Existing Instance ref_client.
#[local] Existing Instance ref_frame.
#[local] Existing Instance ref_keys.

(** Signatures that name their key and message. *)
Definition ref_tx_lib : TxLib := {|
  call_remark _ := None;
  call_transfer_keep_alive _ _ := None;
  Era := Z * Z;
  era_mortal p c := (p, c);
  Sr25519Pair := Z;
  sr25519_public_of p := p;
  Sr25519Signature := Z * bytes;
  sr25519_sign p m := (p, m);
  sr25519_verify s m p := bool_decide (s = (p, m));
  keyring_bob := 1;
  client_best_hash c := ref_hash 0;
  signed_payload call extra add := le_encode 8 extra.1.2;
|}.
#[local] Existing Instance ref_tx_lib.

Lemma ref_tx_laws : TxLaws.
Proof. split. intros pair msg. by apply bool_decide_eq_true. Qed.

(** The nonce goes into the extrinsic, mortal for 2048 blocks. *)
Lemma benchmark_extrinsic_signed_witness :
  ∃ x, builder_build (RemarkBuilder ref_genesis_chain) 7 = Ok x ∧ (ux_extra x).1.2 = 7 ∧
    benchmark_period BlockHashCount = 2048.
Proof.
  pose proof (@benchmark_extrinsic_signed _ _ _ _ _ ref_tx_laws (RemarkBuilder ref_genesis_chain) 7) as Hx.
  cbv zeta in Hx.
  assert (client_block_hash (builder_client (RemarkBuilder ref_genesis_chain)) 0 =
    inr (Some (ref_hash 0))) as Hh by vm_refl.
  rewrite Hh in Hx. destruct Hx as (x & k & Hb & _ & _ & He & _). exists x.
  split; [exact Hb|]. split; [rewrite He; reflexivity|reflexivity].
Defined.
End witnesses.
