(* ===== verification/Command.v ===== *)
(** * The command line ([node-template/node/src/cli.rs], [command.rs], [main.rs])

    The subcommands, the chain specifications they load and what each of them
    runs.  Parsing, the runners and the commands themselves are Substrate's
    ([CliLib]).  The theorem: only the two ways to run the node start a network or
    a voter; all other commands start at most the telemetry task. *)
From S2P Require Import Prelude Codec Primitives Reference Message Aggregator.
From S2P Require Import Synchronizer ProtocolName Network ConsensusState Import Worker.
From S2P Require Import WorkerFacts WorkerSafety Service Pallet Weights Runtime ChainSpec.
From S2P Require Import NodeService Benchmarking.
From S2P Require Import Timer.
Local Open Scope Z_scope.

(** The commands of Substrate's command line library: their arguments, the
    runner they are given and what they do with the node's parts. *)
Class CliLib `{KeyLib} {CL : Client} {GL : GossipLib} {SL : ServiceLib} {TX : TxLib} := {
  Cmd : Type;
  create_runner : Cmd → string + Configuration;
  chain_spec_from_json_file : string → string + ChainSpec;
  key_run : Cmd → string + unit;
  build_spec_run : Cmd → Configuration → string + unit;
  check_block_run : Cmd → client → ImportQueue → string + unit;
  export_blocks_run : Cmd → client → Configuration → string + unit;
  export_state_run : Cmd → client → Configuration → string + unit;
  import_blocks_run : Cmd → client → ImportQueue → string + unit;
  purge_chain_run : Cmd → Configuration → string + unit;
  revert_run : Cmd → client → Backend → string + unit;
  chain_info_run : Cmd → Configuration → string + unit;
  BenchInherentData : Type;
  (** The timestamp provider's data for a duration in milliseconds. *)
  provide_timestamp : Z → string + BenchInherentData;
  benchmark_pallet_run : Cmd → Configuration → string + unit;
  benchmark_block_run : Cmd → client → string + unit;
  benchmark_storage_run : Cmd → Configuration → client → Backend → string + unit;
  benchmark_overhead_run :
    Cmd → Configuration → client → BenchInherentData → ExtrinsicBuilder → string + unit;
  benchmark_extrinsic_run : Cmd → client → BenchInherentData → list ExtrinsicBuilder → string + unit;
  benchmark_machine_run : Cmd → Configuration → string + unit;
  (** [Sr25519Keyring::Alice.to_account_id()]. *)
  alice_account : AccountId;
}.

(** [frame_benchmarking_cli::BenchmarkCmd]. *)
Inductive BenchmarkCmd `{CliLib} :=
| BenchPallet (cmd : Cmd)
| BenchBlock (cmd : Cmd)
| BenchStorage (cmd : Cmd)
| BenchOverhead (cmd : Cmd)
| BenchExtrinsic (cmd : Cmd)
| BenchMachine (cmd : Cmd).

(** [Subcommand] without the [try-runtime] feature. *)
Inductive Subcommand `{CliLib} :=
| Key (cmd : Cmd)
| BuildSpec (cmd : Cmd)
| CheckBlock (cmd : Cmd)
| ExportBlocks (cmd : Cmd)
| ExportState (cmd : Cmd)
| ImportBlocks (cmd : Cmd)
| PurgeChain (cmd : Cmd)
| Revert (cmd : Cmd)
| Benchmark (cmd : BenchmarkCmd)
| TryRuntime
| ChainInfo (cmd : Cmd)
| Substrate (cmd : Cmd).

Record Cli `{CliLib} := mkCli {
  cli_subcommand : option Subcommand;
  cli_run : Cmd;
}.
Arguments mkCli {_ _ _ _ _ _ _ _} _ _.

Section command.
Context `{Platform} {CL : Client} {RC : RuntimeClient} {GL : GossipLib} {SL : ServiceLib} {TT : TokioTime}.
Context `{HexLib} {FL : FrameLib} {KL : KeyLib} {TX : TxLib} {CLI : CliLib}.
Abbreviation S := (Comp (list Started) string).

(** [SubstrateCli for Cli]; the version, the description and the authors are set
    when the node is built. *)
Definition cli_impl_name : string := "Substrate Node".
Definition cli_impl_version (SUBSTRATE_CLI_IMPL_VERSION : string) : string :=
  SUBSTRATE_CLI_IMPL_VERSION.
Definition description (CARGO_PKG_DESCRIPTION : string) : string := CARGO_PKG_DESCRIPTION.
Definition author (CARGO_PKG_AUTHORS : string) : string := CARGO_PKG_AUTHORS.
Definition support_url : string := "support.anonymous.an".
Definition copyright_start_year : Z := 2017.

(** [load_spec]. *)
Definition load_spec (WASM_BINARY : option bytes) (id : string) : outcome string ChainSpec :=
  if String.eqb id "dev" then development_config WASM_BINARY
  else if String.eqb id "" || String.eqb id "local" then local_testnet_config WASM_BINARY
  else map_err (chain_spec_from_json_file id) Datatypes.id.

(** [inherent_benchmark_data]. *)
Definition inherent_benchmark_data : outcome string BenchInherentData :=
  map_err (provide_timestamp 0) (λ e, "creating inherent data: " +:+ e)%string.

(** The [Benchmark] arm of [run]. *)
Definition run_benchmark (runtime_benchmarks : bool) (config : Configuration) (cmd : BenchmarkCmd) :
    S unit :=
  match cmd with
  | BenchPallet cmd =>
      if negb runtime_benchmarks
      then raise "Runtime benchmarking wasn't enabled when building the node."
      else try_ (benchmark_pallet_run cmd config)
  | BenchBlock cmd =>
      parts ← new_partial config;
      try_ (benchmark_block_run cmd (pc_client parts))
  | BenchStorage cmd =>
      if negb runtime_benchmarks
      then raise "Storage benchmarking can be enabled with `--features runtime-benchmarks`."
      else
        parts ← new_partial config;
        try_ (benchmark_storage_run cmd config (pc_client parts) (pc_backend parts))
  | BenchOverhead cmd =>
      parts ← new_partial config;
      data ← lift inherent_benchmark_data;
      try_ (benchmark_overhead_run cmd config (pc_client parts) data
              (RemarkBuilder (pc_client parts)))
  | BenchExtrinsic cmd =>
      parts ← new_partial config;
      data ← lift inherent_benchmark_data;
      try_ (benchmark_extrinsic_run cmd (pc_client parts) data
              [RemarkBuilder (pc_client parts);
               TransferKeepAliveBuilder (pc_client parts) alice_account EXISTENTIAL_DEPOSIT])
  | BenchMachine cmd => try_ (benchmark_machine_run cmd config)
  end.

(** [run]; [runtime_benchmarks] is the feature of the build. *)
Definition run_cli (runtime_benchmarks : bool) (now : Z) (env_var : option string) (cli : Cli) : S unit :=
  match cli_subcommand cli with
  | Some (Key cmd) => try_ (key_run cmd)
  | Some (BuildSpec cmd) => config ← try_ (create_runner cmd); try_ (build_spec_run cmd config)
  | Some (CheckBlock cmd) =>
      config ← try_ (create_runner cmd);
      parts ← new_partial config;
      try_ (check_block_run cmd (pc_client parts) (pc_import_queue parts))
  | Some (ExportBlocks cmd) =>
      config ← try_ (create_runner cmd);
      parts ← new_partial config;
      try_ (export_blocks_run cmd (pc_client parts) config)
  | Some (ExportState cmd) =>
      config ← try_ (create_runner cmd);
      parts ← new_partial config;
      try_ (export_state_run cmd (pc_client parts) config)
  | Some (ImportBlocks cmd) =>
      config ← try_ (create_runner cmd);
      parts ← new_partial config;
      try_ (import_blocks_run cmd (pc_client parts) (pc_import_queue parts))
  | Some (PurgeChain cmd) => config ← try_ (create_runner cmd); try_ (purge_chain_run cmd config)
  | Some (Revert cmd) =>
      config ← try_ (create_runner cmd);
      parts ← new_partial config;
      try_ (revert_run cmd (pc_client parts) (pc_backend parts))
  | Some (Benchmark cmd) =>
      config ← try_ (create_runner (match cmd with
                                    | BenchPallet c | BenchBlock c | BenchStorage c
                                    | BenchOverhead c | BenchExtrinsic c | BenchMachine c => c
                                    end));
      run_benchmark runtime_benchmarks config cmd
  | Some TryRuntime => raise "TryRuntime wasn't enabled when building the node."
  | Some (ChainInfo cmd) => config ← try_ (create_runner cmd); try_ (chain_info_run cmd config)
  | Some (Substrate _) => config ← try_ (create_runner (cli_run cli)); new_full config now env_var
  | None => config ← try_ (create_runner (cli_run cli)); new_full config now env_var
  end.
End command.

(** ** Facts *)

(** A program that starts at most the telemetry task. *)
Definition starts_little `{Platform} {CL : Client} {TT : TokioTime} {A} (m : Comp (list Started) string A) : Prop :=
  ∀ log, ∃ l, (m log).2 = log ++ l ∧ Forall (λ e, e = StartTask false false "telemetry" None) l.

Create HintDb starts.

Section starts.
Context `{Platform} {CL : Client} {RC : RuntimeClient} {GL : GossipLib} {SL : ServiceLib} {TT : TokioTime}.

Lemma starts_lift {A} (o : outcome string A) : starts_little (lift o).
Proof. intros log. exists []. by rewrite app_nil_r. Qed.
Lemma starts_ret {A} (a : A) : starts_little (mret (M := Comp (list Started) string) a).
Proof. intros log. exists []. by rewrite app_nil_r. Qed.
Lemma starts_try {A} (r : string + A) : starts_little (try_ r).
Proof. apply starts_lift. Qed.
Lemma starts_raise {A} (e : string) : starts_little (raise (A := A) e).
Proof. apply starts_lift. Qed.
Lemma starts_bind {A B} (m : Comp (list Started) string A) (k : A → Comp (list Started) string B) :
  starts_little m → (∀ a, starts_little (k a)) → starts_little (m ≫= k).
Proof.
  intros Hm Hk log. destruct (Hm log) as (l & Hl & Hall). unfold mbind, comp_bind.
  destruct (m log) as [[a| | |] log']; cbn in Hl; subst; [|by exists l..].
  destruct (Hk a (log ++ l)) as (l' & -> & Hall'). exists (l ++ l').
  rewrite app_assoc. split; [done|]. by apply Forall_app.
Qed.
Lemma starts_telemetry : starts_little (start (StartTask false false "telemetry" None)).
Proof. intros log. eexists. split; [done|]. by repeat constructor. Qed.
End starts.
#[export] Hint Resolve starts_lift starts_ret starts_try starts_raise starts_telemetry : starts.

(** Walk through a program. *)
Ltac starts :=
  repeat first
    [ progress intros
    | solve [eauto with starts]
    | apply starts_bind
    | case_match ].

Section facts.
Context `{Platform} {CL : Client} {RC : RuntimeClient} {GL : GossipLib} {SL : ServiceLib} {TT : TokioTime}.
Context `{HexLib} {FL : FrameLib} {KL : KeyLib} {TX : TxLib} {CLI : CliLib}.

Lemma starts_new_partial config : starts_little (new_partial config).
Proof. unfold new_partial. starts. Qed.
#[local] Hint Resolve starts_new_partial : starts.

Lemma starts_run_benchmark features config cmd : starts_little (run_benchmark features config cmd).
Proof. unfold run_benchmark. starts. Qed.
#[local] Hint Resolve starts_run_benchmark : starts.

(** The subcommands that run the node. *)
Definition runs_node (cli : Cli) : bool :=
  match cli_subcommand cli with None | Some (Substrate _) => true | _ => false end.

Lemma starts_run_cli features now env cli :
  runs_node cli = false → starts_little (run_cli features now env cli).
Proof.
  unfold runs_node, run_cli. intros Hno. destruct (cli_subcommand cli) as [[]|]; try done; starts.
Qed.

(** Which commands run a node: with no subcommand, and with [substrate],
    whose help text says that it removes the chain, the program is [new_full];
    every other command, whatever its outcome, starts at most the telemetry
    task, and in particular neither the network nor a voter. *)
Lemma only_node_commands_start features now env (cli : Cli) log :
  (runs_node cli = true →
     run_cli features now env cli log = (config ← try_ (create_runner (cli_run cli));
                                     new_full config now env) log) ∧
  (runs_node cli = false →
     ∃ l, (run_cli features now env cli log).2 = log ++ l ∧
       Forall (λ e, e = StartTask false false "telemetry" None) l ∧
       StartNetwork ∉ l ∧ ∀ node timer, StartVoter node timer ∉ l).
Proof.
  split.
  - unfold runs_node, run_cli. by destruct (cli_subcommand cli) as [[]|].
  - intros Hno. destruct (starts_run_cli features now env cli Hno log) as (l & Hl & Hall).
    exists l. split; [done|]. split; [done|]. rewrite Forall_forall in Hall.
    split; [intros Hin|intros node timer Hin]; by apply Hall in Hin.
Qed.
End facts.
