(* ===== verification/Payload.v ===== *)
(** * Extensible payloads and commitments ([hotstuff/primitives/src/payload.rs],
    [commitment.rs])

    A sorted vector of values by two-byte identifiers with binary search.  The
    theorem: however a payload was built by pushes, lookup finds an entry of an
    identifier exactly when there is one.  Commitments carry such a payload;
    their derived coding round-trips. *)
From S2P Require Import Prelude Codec Primitives Reference.
Local Open Scope Z_scope.

(** [HotstuffPayloadId = [u8; 2]], compared lexicographically. *)
Abbreviation HotstuffPayloadId := (Byte.byte * Byte.byte)%type.

Definition byte_val (b : Byte.byte) : Z := Z.of_N (Byte.to_N b).
Definition id_val (id : HotstuffPayloadId) : Z := byte_val id.1 * 256 + byte_val id.2.

(** [Ord::cmp] on [[u8; 2]]. *)
Definition id_cmp (a b : HotstuffPayloadId) : comparison :=
  match byte_val a.1 ?= byte_val b.1 with
  | Eq => byte_val a.2 ?= byte_val b.2
  | c => c
  end.

Definition MMR_ROOT_ID : HotstuffPayloadId := (Byte.x6d, Byte.x68).

Abbreviation entry := (HotstuffPayloadId * bytes)%type.
Record ExtPayload := mkExtPayload { entries : list entry }.

(** [Payload::from_single_entry]. *)
Definition from_single_entry (id : HotstuffPayloadId) (value : bytes) : ExtPayload :=
  mkExtPayload [(id, value)].

(** [slice::binary_search_by] of the standard library, on [left], [right] with
    [size = right - left]; [fuel] bounds the iterations. *)
Fixpoint binary_search_by {A} (fuel : nat) (f : A → comparison) (l : list A) (left right : nat) :
    option nat :=
  match fuel with
  | O => None
  | S fuel =>
      if (left <? right)%nat then
        let mid := (left + (right - left) / 2)%nat in
        match f <$> l !! mid with
        | None => None
        | Some Lt => binary_search_by fuel f l (mid + 1) right
        | Some Gt => binary_search_by fuel f l left mid
        | Some Eq => Some mid
        end
      else None
  end.

(** [Payload::get_raw]. *)
Definition get_raw (p : ExtPayload) (id : HotstuffPayloadId) : option bytes :=
  index ← binary_search_by (S (length (entries p))) (λ probe, id_cmp probe.1 id) (entries p)
            0 (length (entries p));
  snd <$> entries p !! index.

(** [Payload::get_decoded]. *)
Definition get_decoded `{Codec A} (p : ExtPayload) (id : HotstuffPayloadId) : option A :=
  get_raw p id ≫= decode_all.

(** [slice::sort_by_key] is stable: an element goes before those of equal key
    that came after it. *)
Fixpoint insert_entry (e : entry) (l : list entry) : list entry :=
  match l with
  | [] => [e]
  | x :: rest =>
      match id_cmp e.1 x.1 with
      | Gt => x :: insert_entry e rest
      | _ => e :: l
      end
  end.
Definition sort_by_key (l : list entry) : list entry := foldr insert_entry [] l.

(** [Payload::push_raw]. *)
Definition push_raw (id : HotstuffPayloadId) (value : bytes) (p : ExtPayload) : ExtPayload :=
  mkExtPayload (sort_by_key (entries p ++ [(id, value)])).

(** ** Commitments *)

(** A commitment signed by Hotstuff validators. *)
Record Commitment (TBlockNumber : Type) := mkCommitment {
  commitment_payload : ExtPayload;
  commitment_block_number : TBlockNumber;
  commitment_validator_set_id : Z;
}.
Arguments mkCommitment {_} _ _ _.
Arguments commitment_payload {_} _.
Arguments commitment_block_number {_} _.
Arguments commitment_validator_set_id {_} _.

Section codecs.
Context `{Scale} {TBlockNumber : Type} `{!Codec TBlockNumber}.

(** [#[derive(Decode, Encode)]]: a newtype is coded as its field, an array of two
    bytes as the bytes. *)
#[export] Instance ExtPayload_codec : Codec ExtPayload := {|
  scale_encode p := scale_encode (entries p);
  scale_decode := (let+ l := scale_decode in dec_ret (mkExtPayload l))%codec;
|}.

#[export] Instance Commitment_codec : Codec (Commitment TBlockNumber) := {|
  scale_encode c :=
    scale_encode (commitment_payload c) ++ scale_encode (commitment_block_number c) ++
    encode_u64 (commitment_validator_set_id c);
  scale_decode := (
    let+ p := scale_decode in let+ n := scale_decode in let+ v := decode_u64 in
    dec_ret (mkCommitment p n v))%codec;
|}.
End codecs.

Section round_trip.
Context `{ScaleLaws}.

Definition entry_ok (e : entry) : Prop := (any_ok e.1.1 ∧ any_ok e.1.2) ∧ vec_ok any_ok e.2.
#[export] Instance entry_round_trip : RoundTrip entry entry_ok :=
  prod_round_trip (λ id, any_ok id.1 ∧ any_ok id.2) (vec_ok any_ok) _ _.

Definition ExtPayload_ok (p : ExtPayload) : Prop := vec_ok entry_ok (entries p).

#[export] Instance ExtPayload_round_trip : RoundTrip ExtPayload ExtPayload_ok.
Proof.
  split.
  - intros [l] r Hok. cbn. unfold dec_bind. by rewrite decode_encode_rest.
  - intros b [l] r (l' & b' & Hl & Heq)%dec_bind_Some. unfold dec_ret in Heq. simplify_eq.
    exact (decode_ok (ok := vec_ok entry_ok) _ _ _ Hl).
Qed.

Definition Commitment_ok {N} (ok : N → Prop) (c : Commitment N) : Prop :=
  ExtPayload_ok (commitment_payload c) ∧ ok (commitment_block_number c) ∧
  u64_ok (commitment_validator_set_id c).

#[export] Instance Commitment_round_trip {N} `{!Codec N} (ok : N → Prop) `{!RoundTrip N ok} :
  RoundTrip (Commitment N) (Commitment_ok ok).
Proof.
  split.
  - intros [p n v] r (? & ? & ?). cbn -[ExtPayload_codec]. unfold dec_bind.
    rewrite <- !app_assoc, !decode_encode_rest by done. by rewrite decode_encode_u64.
  - intros b [p n v] r.
    intros (p' & b1 & Hp & (n' & b2 & Hn & (v' & b3 & Hv & Heq)%dec_bind_Some)%dec_bind_Some)%dec_bind_Some.
    unfold dec_ret in Heq. simplify_eq.
    split; [by eapply decode_ok|]. split; [by eapply decode_ok|by eapply decode_u64_ok].
Qed.
End round_trip.

(** ** Facts *)

Lemma byte_val_range b : 0 <= byte_val b < 256.
Proof. unfold byte_val. pose proof (Byte.to_N_bounded b). lia. Qed.

Lemma byte_val_inj a b : byte_val a = byte_val b → a = b.
Proof.
  unfold byte_val. intros Heq%N2Z.inj.
  assert (Some a = Some b) as [= ->]; [|done]. by rewrite <- !Byte.of_to_N, Heq.
Qed.

Lemma id_cmp_val a b : id_cmp a b = (id_val a ?= id_val b).
Proof.
  unfold id_cmp, id_val. pose proof (byte_val_range a.1). pose proof (byte_val_range a.2).
  pose proof (byte_val_range b.1). pose proof (byte_val_range b.2).
  destruct (Z.compare_spec (byte_val a.1) (byte_val b.1)) as [Heq| |]; symmetry.
  - rewrite Heq. rewrite Z.add_compare_mono_l. done.
  - apply Z.compare_lt_iff. lia.
  - apply Z.compare_gt_iff. lia.
Qed.

Lemma id_val_inj a b : id_val a = id_val b → a = b.
Proof.
  destruct a as [a1 a2], b as [b1 b2]. unfold id_val. simpl.
  pose proof (byte_val_range a1). pose proof (byte_val_range a2).
  pose proof (byte_val_range b1). pose proof (byte_val_range b2). intros Heq.
  f_equal; apply byte_val_inj; lia.
Qed.

Definition by_id (a b : entry) : Prop := id_val a.1 <= id_val b.1.

Lemma insert_entry_perm e l : insert_entry e l ≡ₚ e :: l.
Proof.
  induction l as [|x l IH]; simpl; [done|]. case_match; [done..|].
  rewrite IH. by constructor.
Qed.

Lemma sort_by_key_perm l : sort_by_key l ≡ₚ l.
Proof. induction l as [|e l IH]; simpl; [done|]. by rewrite insert_entry_perm, IH. Qed.

Lemma insert_entry_sorted e l : StronglySorted by_id l → StronglySorted by_id (insert_entry e l).
Proof.
  induction 1 as [|x l Hs IH Hall]; simpl; [by repeat constructor|].
  rewrite id_cmp_val. destruct (Z.compare_spec (id_val e.1) (id_val x.1)).
  - constructor; [by constructor|]. constructor; [unfold by_id; lia|].
    eapply Forall_impl; [done|]. unfold by_id. simpl. lia.
  - constructor; [by constructor|]. constructor; [unfold by_id; lia|].
    eapply Forall_impl; [done|]. unfold by_id. simpl. lia.
  - constructor; [done|]. rewrite insert_entry_perm. constructor; [unfold by_id; lia|done].
Qed.

Lemma sort_by_key_sorted l : StronglySorted by_id (sort_by_key l).
Proof. induction l; simpl; [constructor|by apply insert_entry_sorted]. Qed.

Lemma sorted_lookup l i j a b :
  StronglySorted by_id l → l !! i = Some a → l !! j = Some b → (i ≤ j)%nat → by_id a b.
Proof.
  intros Hs. revert i j. induction Hs as [|x l Hs IH Hall]; intros i j Hi Hj Hij; [done|].
  destruct i as [|i], j as [|j]; simplify_eq/=; [unfold by_id; lia| |lia|eapply IH; eauto; lia].
  rewrite Forall_forall in Hall. by eapply Hall, list_elem_of_lookup_2.
Qed.

(** Binary search between [left] and [right] of a sorted list. *)
Lemma binary_search_spec (l : list entry) id fuel left right :
  StronglySorted by_id l → (right ≤ length l)%nat → (right - left < fuel)%nat →
  match binary_search_by fuel (λ probe, id_cmp probe.1 id) l left right with
  | Some i => ∃ v, l !! i = Some (id, v)
  | None => ∀ i v, (left ≤ i < right)%nat → l !! i ≠ Some (id, v)
  end.
Proof.
  intros Hs. revert left right. induction fuel as [|fuel IH]; intros left right Hr Hf; [lia|].
  cbn [binary_search_by]. destruct (Nat.ltb_spec left right); [|intros; lia].
  set (mid := (left + (right - left) / 2)%nat).
  assert (left ≤ mid < right)%nat as Hmid.
  { subst mid. pose proof (Nat.div_lt (right - left) 2 ltac:(lia) ltac:(lia)). lia. }
  destruct (lookup_lt_is_Some_2 l mid ltac:(lia)) as [[x v] Hx]. rewrite Hx. simpl.
  rewrite id_cmp_val. destruct (Z.compare_spec (id_val x) (id_val id)) as [Heq|Hlt|Hgt].
  - apply id_val_inj in Heq as ->. eauto.
  - specialize (IH (mid + 1)%nat right Hr ltac:(lia)).
    destruct (binary_search_by _ _ _ _ _); [done|]. intros i v' Hi Hv.
    destruct (decide (i ≤ mid)%nat); [|apply (IH i v'); [lia|done]].
    pose proof (sorted_lookup l i mid _ _ Hs Hv Hx ltac:(lia)) as Hb. unfold by_id in Hb. simpl in Hb. lia.
  - specialize (IH left mid ltac:(lia) ltac:(lia)).
    destruct (binary_search_by _ _ _ _ _); [done|]. intros i v' Hi Hv.
    destruct (decide (mid ≤ i)%nat); [|apply (IH i v'); [lia|done]].
    pose proof (sorted_lookup l mid i _ _ Hs Hx Hv ltac:(lia)) as Hb. unfold by_id in Hb. simpl in Hb. lia.
Qed.

(** A payload built from its first entry and pushes. *)
Definition build (first : entry) (pushes : list entry) : ExtPayload :=
  foldl (λ p e, push_raw e.1 e.2 p) (from_single_entry first.1 first.2) pushes.

Lemma build_entries first pushes :
  StronglySorted by_id (entries (build first pushes)) ∧
  entries (build first pushes) ≡ₚ first :: pushes.
Proof.
  destruct first as [i v]. unfold build. cbn [fst snd].
  induction pushes as [|e pushes IH] using rev_ind; simpl; [split; [by repeat constructor|done]|].
  rewrite foldl_app. simpl. destruct e as [j u]. destruct IH as [_ IH]. split.
  - apply sort_by_key_sorted.
  - simpl. rewrite sort_by_key_perm, IH. done.
Qed.

(** Lookup in a payload built by any pushes, in any order: [get_raw] returns
    a value pushed under that identifier, and [None] exactly when there is none;
    with a single entry for the identifier, it returns that entry's value.  The
    binary search always terminates within the vector. *)
Lemma payload_lookup_exact (first : entry) (pushes : list entry) (id : HotstuffPayloadId) :
  match get_raw (build first pushes) id with
  | Some v => (id, v) ∈ first :: pushes
  | None => ∀ v, (id, v) ∉ first :: pushes
  end ∧
  (NoDup (first :: pushes).*1 → ∀ v,
     get_raw (build first pushes) id = Some v ↔ (id, v) ∈ first :: pushes).
Proof.
  destruct (build_entries first pushes) as [Hs Hp].
  assert (match get_raw (build first pushes) id with
    | Some v => (id, v) ∈ first :: pushes
    | None => ∀ v, (id, v) ∉ first :: pushes
    end) as Hget.
  { unfold get_raw.
    pose proof (binary_search_spec (entries (build first pushes)) id
      (S (length (entries (build first pushes)))) 0 (length (entries (build first pushes)))
      Hs ltac:(lia) ltac:(lia)) as Hb.
    destruct (binary_search_by _ _ _ _ _) as [i|]; simpl.
    - destruct Hb as [v Hv]. rewrite Hv. simpl. rewrite <- Hp. by eapply list_elem_of_lookup_2.
    - intros v. rewrite <- Hp. intros [i Hi]%list_elem_of_lookup.
      apply (Hb i v); [|done]. apply lookup_lt_Some in Hi. lia. }
  split; [done|]. intros Hnd v. split.
  - intros Hv. by rewrite Hv in Hget.
  - intros Hv. destruct (get_raw (build first pushes) id) as [v'|]; [|by apply Hget in Hv].
    f_equal. by apply (NoDup_fmap_fst_inj (first :: pushes) id).
Qed.
