(* ===== verification/ConfigFile.v ===== *)
(** * Configuration files of the stand-alone node
    ([node-template/node/src/config.rs], [node.rs])

    Committees, keys and parameters are kept in JSON files; [Node::new] reads
    them and boots the mempool and the consensus core.  Files are bytes by path on
    a disk that may be full, written through the standard library's [BufWriter];
    JSON, the key generator and the booted services are libraries.  The theorems:
    what is written is what is read unless an older, longer file shows through at
    the end, since writing does not truncate; a full disk is reported only for
    values that do not fit the buffer; and what booting does on each combination
    of files. *)
From S2P Require Import Prelude Codec Primitives.
Local Open Scope Z_scope.

(** ** Files *)

(** The file system: contents by path, the paths that cannot be opened, and how
    many bytes a file can hold where there is a limit. *)
Record Fs := mkFs {
  fs_files : gmap string bytes;
  fs_denied : gset string;
  fs_limit : gmap string nat;
}.

(** [fs::read]. *)
Definition fs_read (fs : Fs) (path : string) : string + bytes :=
  if bool_decide (path ∈ fs_denied fs) then inl "permission denied"%string
  else match fs_files fs !! path with
       | Some data => inr data
       | None => inl "no such file"%string
       end.

(** [OpenOptions::new().create(true).write(true).open(path)]: a missing file is
    created empty, an existing one is kept as it is. *)
Definition fs_open (fs : Fs) (path : string) : string + Fs :=
  if bool_decide (path ∈ fs_denied fs) then inl "permission denied"%string
  else inr (mkFs (<[path := default [] (fs_files fs !! path)]> (fs_files fs)) (fs_denied fs)
              (fs_limit fs)).

(** [File::write_all] at [offset]: what fits is written, what lies beyond it in
    the file stays; the number of bytes written. *)
Definition fits (fs : Fs) (path : string) (offset : nat) (data : bytes) : bytes :=
  match fs_limit fs !! path with
  | Some limit => take (limit - offset) data
  | None => data
  end.
Definition splice (offset : nat) (data old : bytes) : bytes :=
  take offset old ++ data ++ drop (offset + length data) old.
Definition file_write (path : string) (offset : nat) (data : bytes) (fs : Fs) : nat * Fs :=
  let written := fits fs path offset data in
  (length written,
   mkFs (alter (splice offset written) path (fs_files fs)) (fs_denied fs) (fs_limit fs)).

(** [BufWriter] over an open file: where the file is written next and what has not
    been written yet. *)
Record BufWriter := mkBufWriter {
  bw_path : string;
  bw_offset : nat;
  bw_buffer : bytes;
}.
Definition BUFFER_CAPACITY : Z := 8192.
Definition buf_writer_new (path : string) : BufWriter := mkBufWriter path 0 [].
Definition no_space : string := "No space left on device".

Section buf_writer.
Abbreviation W := (Comp (BufWriter * Fs) string).

Definition spare_capacity (w : BufWriter) : Z := BUFFER_CAPACITY - Z.of_nat (length (bw_buffer w)).

(** [flush_buf]: what could not be written stays in the buffer. *)
Definition flush_buf : W unit := λ '(w, fs),
  let '(n, fs') := file_write (bw_path w) (bw_offset w) (bw_buffer w) fs in
  (if (n <? length (bw_buffer w))%nat then Err no_space else Ok (),
   (mkBufWriter (bw_path w) (bw_offset w + n) (drop n (bw_buffer w)), fs')).

Definition push_buf (data : bytes) : W unit :=
  modify (λ '(w, fs), (mkBufWriter (bw_path w) (bw_offset w) (bw_buffer w ++ data), fs)).

Definition write_through (data : bytes) : W unit := λ '(w, fs),
  let '(n, fs') := file_write (bw_path w) (bw_offset w) data fs in
  (if (n <? length data)%nat then Err no_space else Ok (),
   (mkBufWriter (bw_path w) (bw_offset w + n) (bw_buffer w), fs')).

(** [BufWriter::write_all]: data that does not fit the buffer goes to the file. *)
Definition write_all (data : bytes) : W unit :=
  s ← get;
  let len := Z.of_nat (length data) in
  if len <? spare_capacity s.1 then push_buf data
  else
    (if spare_capacity s.1 <? len then flush_buf else mret ());;
    if BUFFER_CAPACITY <=? len then write_through data else push_buf data.

(** Dropping the writer flushes it; an error is ignored. *)
Definition drop_writer (s : BufWriter * Fs) : Fs := (flush_buf s).2.2.
End buf_writer.

(** ** JSON *)

(** [serde_json::to_string_pretty] and [from_slice] on a type. *)
Class Json (A : Type) := {
  to_string_pretty : A → string + bytes;
  from_slice : bytes → string + A;
}.

(** The characters JSON allows around a value. *)
Definition json_space (b : Byte.byte) : bool :=
  match b with Byte.x20 | Byte.x09 | Byte.x0a | Byte.x0d => true | _ => false end.

(** Printing succeeds and is parsed back, also before white space; other
    characters after the value are an error. *)
Class JsonLaws (A : Type) `{Json A} : Prop := {
  json_prints : ∀ a, ∃ data, to_string_pretty a = inr data;
  json_parses : ∀ a data rest, to_string_pretty a = inr data →
    forallb json_space rest = true → from_slice (data ++ rest) = inr a;
  json_trailing : ∀ a data rest, to_string_pretty a = inr data →
    forallb json_space rest = false → ∃ e, from_slice (data ++ [Byte.x0a] ++ rest) = inl e;
}.

Inductive ConfigError :=
| ReadError (file message : string)
| WriteError (file message : string).

(** ** [Export] *)
Section export.
Context {A : Type} `{Json A}.

(** [Export::read]. *)
Definition export_read (path : string) (fs : Fs) : outcome ConfigError A :=
  let reader : string + A :=
    match fs_read fs path with
    | inl e => inl e
    | inr data => from_slice data
    end in
  map_err reader (ReadError path).

(** [Export::write]: the file is opened before the value is printed, and
    [unwrap] panics when printing fails.  The writer is dropped on every way
    out. *)
Definition export_write (self : A) (path : string) : Comp Fs ConfigError unit := λ fs,
  match fs_open fs path with
  | inl e => (Err (WriteError path e), fs)
  | inr fs1 =>
      let writer := buf_writer_new path in
      match to_string_pretty self with
      | inl _ => (Panic "called `Result::unwrap()` on an `Err` value", drop_writer (writer, fs1))
      | inr data =>
          let '(r, s) := (write_all data;; write_all [Byte.x0a]) (writer, fs1) in
          (match r with
           | Ok _ => Ok ()
           | Err e => Err (WriteError path e)
           | Panic m => Panic m
           | Diverge => Diverge
           end, drop_writer s)
      end
  end.
End export.

(** ** What a write leaves *)

(** The old contents with [data] written over their start. *)
Definition overwrite (data old : bytes) : bytes := data ++ drop (length data) old.

Lemma splice_overwrite a b old :
  splice (length a) b (overwrite a old) = overwrite (a ++ b) old.
Proof.
  unfold splice, overwrite. rewrite take_app_length, drop_app, drop_ge by lia.
  rewrite drop_drop, length_app, <- app_assoc. simpl. do 2 f_equal.
  f_equal. lia.
Qed.

Definition has_room (fs : Fs) (path : string) (n : nat) : bool :=
  match fs_limit fs !! path with Some limit => (n <=? limit)%nat | None => true end.

Lemma fits_app fs path a b :
  fits fs path 0 (a ++ b) = fits fs path 0 a ++ fits fs path (length a) b.
Proof.
  unfold fits. destruct (fs_limit fs !! path) as [limit|]; [|done].
  by rewrite take_app, Nat.sub_0_r.
Qed.

Lemma fits_room fs path a :
  (length (fits fs path 0 a) <? length a)%nat = negb (has_room fs path (length a)) ∧
  (has_room fs path (length a) = true → fits fs path 0 a = a) ∧
  (has_room fs path (length a) = false → ∀ b, fits fs path (length a) b = []).
Proof.
  unfold fits, has_room. destruct (fs_limit fs !! path) as [limit|].
  - rewrite length_take. destruct (Nat.leb_spec (length a) limit); simpl;
      (split; [apply Nat.ltb_ge || apply Nat.ltb_lt; lia|]); split; intros; try done.
    + by rewrite take_ge by lia.
    + by replace (limit - length a)%nat with 0%nat by lia.
  - split; [apply Nat.ltb_ge; lia|done].
Qed.

(** What was in a file, none for a missing one. *)
Definition old_contents (fs : Fs) (path : string) : bytes := default [] (fs_files fs !! path).

(** The file system after [data] has been written to [path] as far as it fits. *)
Definition written (fs : Fs) (path : string) (data : bytes) : Fs :=
  mkFs (<[path := overwrite (fits fs path 0 data) (old_contents fs path)]> (fs_files fs))
    (fs_denied fs) (fs_limit fs).

(** One more piece, at the place where the last one ended. *)
Lemma file_write_next fs path a b :
  has_room fs path (length a) = true →
  file_write path (length a) b (written fs path a) =
  (length (fits fs path (length a) b), written fs path (a ++ b)).
Proof.
  intros Hroom. unfold file_write, written. cbn [fs_files fs_limit fs_denied].
  change (fits (mkFs _ _ _) path (length a) b) with (fits fs path (length a) b).
  rewrite alter_insert_eq, fits_app. destruct (fits_room fs path a) as (_ & -> & _); [|done].
  by rewrite splice_overwrite.
Qed.

(** Dropping a writer that stands where the last piece ended. *)
Lemma drop_writer_next fs path a b :
  has_room fs path (length a) = true →
  drop_writer (mkBufWriter path (length a) b, written fs path a) = written fs path (a ++ b).
Proof.
  intros Hroom. unfold drop_writer, flush_buf. cbn [bw_path bw_offset bw_buffer].
  by rewrite file_write_next.
Qed.

(** Data that the buffer has room for is put there. *)
Lemma write_all_buffers w fs data :
  Z.of_nat (length data) <= spare_capacity w → Z.of_nat (length data) < BUFFER_CAPACITY →
  write_all data (w, fs) =
  (Ok (), (mkBufWriter (bw_path w) (bw_offset w) (bw_buffer w ++ data), fs)).
Proof.
  intros Hspare Hcap. unfold write_all, get, mbind, comp_bind. cbn [fst].
  destruct (Z.ltb_spec (Z.of_nat (length data)) (spare_capacity w)); [done|].
  rewrite (proj2 (Z.ltb_ge _ _)) by done. simpl.
  by rewrite (proj2 (Z.leb_gt _ _)).
Qed.

(** Data as long as the buffer is written through. *)
Lemma write_all_through path fs data :
  BUFFER_CAPACITY <= Z.of_nat (length data) →
  write_all data (buf_writer_new path, written fs path []) =
  (if has_room fs path (length data) then Ok () else Err no_space,
   (mkBufWriter path (length (fits fs path 0 data)) [], written fs path data)).
Proof.
  intros Hcap.
  assert (∀ b, file_write path 0 b (written fs path []) =
    (length (fits fs path 0 b), written fs path b)) as Hwrite.
  { intros b. apply (file_write_next fs path []). unfold has_room. by destruct (fs_limit fs !! path). }
  assert (flush_buf (buf_writer_new path, written fs path []) =
    (Ok (), (buf_writer_new path, written fs path []))) as Hflush.
  { unfold flush_buf, buf_writer_new. cbn [bw_path bw_offset bw_buffer]. rewrite Hwrite.
    unfold fits. by destruct (fs_limit fs !! path); rewrite ?take_nil. }
  assert (write_through data (buf_writer_new path, written fs path []) =
    (if has_room fs path (length data) then Ok () else Err no_space,
     (mkBufWriter path (length (fits fs path 0 data)) [], written fs path data))) as Hthrough.
  { unfold write_through, buf_writer_new. cbn [bw_path bw_offset bw_buffer].
    rewrite Hwrite, (proj1 (fits_room fs path data)). by destruct (has_room fs path (length data)). }
  unfold write_all, get, mbind, comp_bind. cbn [fst]. unfold spare_capacity. simpl bw_buffer.
  rewrite (proj2 (Z.ltb_ge _ _)) by (simpl; lia).
  rewrite (proj2 (Z.leb_le _ _) Hcap).
  destruct (_ <? _); [rewrite Hflush|]; exact Hthrough.
Qed.

Section export_facts.
Context {A : Type} `{JsonLaws A}.

(** A value as long as the buffer is written through and an error is reported;
    everything else waits for the drop. *)
Lemma export_write_eq (a : A) path fs data :
  path ∉ fs_denied fs → to_string_pretty a = inr data →
  export_write a path fs =
  (if (BUFFER_CAPACITY <=? Z.of_nat (length data)) && negb (has_room fs path (length data))
   then Err (WriteError path no_space) else Ok (),
   written fs path (data ++ [Byte.x0a])).
Proof.
  intros Hp Hd. unfold export_write, fs_open. rewrite bool_decide_eq_false_2, Hd by done.
  set (fs1 := mkFs _ _ _).
  assert (fs1 = written fs path []) as ->.
  { unfold fs1, written, overwrite, fits. by destruct (fs_limit fs !! path); rewrite ?take_nil. }
  unfold mbind, comp_bind.
  destruct (Z.leb_spec BUFFER_CAPACITY (Z.of_nat (length data))) as [Hl|Hl].
  - rewrite write_all_through by done. destruct (fits_room fs path data) as (_ & Hfit & Hfull).
    destruct (has_room fs path (length data)) eqn:Hroom.
    + rewrite Hfit, write_all_buffers by done. cbn -[written drop_writer]. by rewrite drop_writer_next.
    + cbn -[written drop_writer]. f_equal. unfold drop_writer, flush_buf, file_write. cbn -[written fits].
      unfold written. rewrite fits_app, (Hfull eq_refl), app_nil_r. cbn [fs_files fs_limit fs_denied].
      f_equal. rewrite alter_insert_eq. f_equal.
      change (fits (mkFs _ _ _) path ?o []) with (fits fs path o []).
      assert (∀ o, fits fs path o [] = []) as ->.
      { intros o. unfold fits. by destruct (fs_limit fs !! path); rewrite ?take_nil. }
      by rewrite splice_overwrite, app_nil_r.
  - rewrite write_all_buffers by (unfold spare_capacity, BUFFER_CAPACITY in *; simpl; lia).
    rewrite write_all_buffers by (unfold spare_capacity, BUFFER_CAPACITY in *; simpl; lia).
    cbn -[written drop_writer]. f_equal. apply (drop_writer_next fs path []).
    unfold has_room. by destruct (fs_limit fs !! path).
Qed.

(** What is read after a write that had room. *)
Lemma export_write_read (a : A) path fs data :
  path ∉ fs_denied fs → to_string_pretty a = inr data →
  has_room fs path (length data + 1) = true →
  let fs' := written fs path (data ++ [Byte.x0a]) in
  if forallb json_space (drop (length data + 1) (old_contents fs path))
  then export_read path fs' = Ok a else ∃ e, export_read (A := A) path fs' = Err (ReadError path e).
Proof.
  intros Hp Hd Hroom fs'.
  assert (fs_read fs' path =
    inr (data ++ [Byte.x0a] ++ drop (length data + 1) (old_contents fs path))) as Hread.
  { unfold fs_read, fs', written, overwrite. cbn [fs_files fs_denied].
    rewrite bool_decide_eq_false_2, lookup_insert_eq by done.
    destruct (fits_room fs path (data ++ [Byte.x0a])) as (_ & -> & _); [|by rewrite length_app].
    by rewrite length_app, <- app_assoc. }
  unfold export_read. rewrite Hread. destruct (forallb json_space _) eqn:E.
  - by rewrite (json_parses a).
  - destruct (json_trailing a data _ Hd E) as [e ->]. by exists e.
Qed.

(** C38: a value that was written to a disk with room for it is read back exactly
    when nothing but white space shows through from an older, longer file: writing
    does not truncate.  In particular it always is in a new file; otherwise reading
    fails with an error that names the file.  Without room the file holds the part
    that fitted, and the failure is reported exactly when the value alone does not
    fit on the disk and is as long as the buffer: the writer is never flushed, so
    what it holds in its buffer at the end is lost in silence.  Other files are
    not touched. *)
Theorem config_write_read (a : A) (path : string) (fs : Fs) :
  path ∉ fs_denied fs →
  ∃ data, to_string_pretty a = inr data ∧
    let '(r, fs') := export_write a path fs in
    (has_room fs path (length data + 1) = true → r = Ok () ∧
     (let rest := drop (length data + 1) (old_contents fs path) in
      if forallb json_space rest then export_read path fs' = Ok a
      else ∃ e, export_read (A := A) path fs' = Err (ReadError path e)) ∧
     (fs_files fs !! path = None → export_read path fs' = Ok a)) ∧
    (has_room fs path (length data + 1) = false →
     r = (if (BUFFER_CAPACITY <=? Z.of_nat (length data)) && negb (has_room fs path (length data))
          then Err (WriteError path no_space) else Ok ()) ∧
     fs_files fs' !! path =
       Some (overwrite (fits fs path 0 (data ++ [Byte.x0a])) (old_contents fs path))) ∧
    (∀ path', path' ≠ path → export_read (A := A) path' fs' = export_read path' fs).
Proof.
  intros Hp. destruct (json_prints a) as [data Hd]. exists data. split; [done|].
  rewrite (export_write_eq a path fs data) by done. split_and!.
  - intros Hroom. pose proof (export_write_read a path fs data Hp Hd Hroom) as Hread. split.
    { assert (has_room fs path (length data) = true) as ->; [|by rewrite andb_false_r].
      unfold has_room in *. destruct (fs_limit fs !! path); [|done].
      apply Nat.leb_le in Hroom. apply Nat.leb_le. lia. }
    split; [exact Hread|]. intros Hnone.
    assert (old_contents fs path = []) as Hold by (unfold old_contents; by rewrite Hnone).
    by rewrite Hold, drop_nil in Hread.
  - intros _. split; [done|]. unfold written. cbn [fs_files]. by rewrite lookup_insert_eq.
  - intros path' Hne. unfold export_read, fs_read, written. cbn [fs_files fs_denied].
    by rewrite lookup_insert_ne.
Qed.
End export_facts.

(** ** [Node] *)

(** The libraries the node boots: their configuration types, the key generator
    and the store. *)
Class NodeLib := {
  PublicKey : Type;
  SecretKey : Type;
  (** What the random generator of the operating system gives to one call. *)
  Entropy : Type;
  generate_production_keypair : Entropy → PublicKey * SecretKey;
  (** [generate_keypair] with [StdRng::from_seed]. *)
  generate_seeded_keypair : bytes → PublicKey * SecretKey;
  ConsensusCommittee : Type;
  MempoolCommittee : Type;
  ConsensusParameters : Type;
  MempoolParameters : Type;
  consensus_parameters_default : ConsensusParameters;
  mempool_parameters_default : MempoolParameters;
  Store : Type;
  store_new : string → string + Store;
}.

Record Parameters `{NodeLib} := mkParameters {
  p_consensus : ConsensusParameters;
  p_mempool : MempoolParameters;
}.
Record Secret `{NodeLib} := mkSecret {
  secret_name : PublicKey;
  secret_secret : SecretKey;
}.
Record Committee `{NodeLib} := mkCommittee {
  c_consensus : ConsensusCommittee;
  c_mempool : MempoolCommittee;
}.

(** The ends of the channels between the services, all of one capacity. *)
Inductive ChannelName := Commit | ConsensusToMempool | MempoolToConsensus.
Definition CHANNEL_CAPACITY : Z := 1000.

(** The services that are booted. *)
Inductive Service `{NodeLib} :=
| MempoolService (name : PublicKey) (committee : MempoolCommittee) (parameters : MempoolParameters)
    (store : Store) (rx_consensus : ChannelName) (tx_consensus : ChannelName)
| ConsensusService (name : PublicKey) (committee : ConsensusCommittee)
    (parameters : ConsensusParameters) (signature_service : SecretKey) (store : Store)
    (rx_mempool : ChannelName) (tx_mempool : ChannelName) (tx_commit : ChannelName).

Record NodeEnv `{NodeLib} := mkNodeEnv {
  ne_fs : Fs;
  ne_booted : list Service;
}.
Arguments mkNodeEnv {_} _ _.

(** [Node]: the channel its commits come from. *)
Record StandaloneNode := mkStandaloneNode { node_commit : ChannelName }.

Section node.
Context `{NodeLib} `{!Json Parameters, !Json Secret, !Json Committee}.

(** [Parameters::default] and [Secret::new]. *)
Definition parameters_default : Parameters :=
  mkParameters _ consensus_parameters_default mempool_parameters_default.
Definition secret_new (rng : Entropy) : Secret :=
  let '(name, secret) := generate_production_keypair rng in mkSecret _ name secret.

(** [Secret::default]: the key of the zero seed. *)
Definition secret_default : Secret :=
  let '(name, secret) := generate_seeded_keypair (replicate 32 Byte.x00) in mkSecret _ name secret.

Definition read_config {A} `{Json A} (path : string) : Comp NodeEnv ConfigError A := λ env,
  (export_read path (ne_fs env), env).
Definition boot (s : Service) : Comp NodeEnv ConfigError unit := λ env,
  (Ok (), mkNodeEnv (ne_fs env) (ne_booted env ++ [s])).

(** [Node::new]. *)
Definition node_new (committee_file key_file store_path : string) (parameters : option string) :
    Comp NodeEnv ConfigError StandaloneNode :=
  committee ← read_config (A := Committee) committee_file;
  secret ← read_config (A := Secret) key_file;
  let name := secret_name secret in
  let secret_key := secret_secret secret in
  parameters ← match parameters with
               | Some filename => read_config (A := Parameters) filename
               | None => mret parameters_default
               end;
  store ← lift (match store_new store_path with
                | inr store => Ok store
                | inl _ => Panic "Failed to create store"
                end);
  boot (MempoolService name (c_mempool committee) (p_mempool parameters) store
          ConsensusToMempool MempoolToConsensus);;
  boot (ConsensusService name (c_consensus committee) (p_consensus parameters) secret_key store
          MempoolToConsensus ConsensusToMempool Commit);;
  mret (mkStandaloneNode Commit).

(** [Node::print_key_file]. *)
Definition print_key_file (rng : Entropy) (filename : string) : Comp Fs ConfigError unit :=
  export_write (secret_new rng) filename.

(** [Node::analyze_block]: receives the committed blocks until the channel is
    closed; the blocks it is to receive are the state. *)
Fixpoint drain {Block} (commits : list Block) : unit * list Block :=
  match commits with
  | [] => ((), [])
  | _block :: rest => drain rest
  end.
Definition analyze_block {Block} (node : StandaloneNode) (channels : ChannelName → list Block) :
    unit * list Block := drain (channels (node_commit node)).
End node.

Section node_facts.
Context `{NodeLib} `{!Json Parameters, !Json Secret, !Json Committee} `{!JsonLaws Secret}.

(** Reading a file gives a value or an error. *)
Lemma export_read_returns {A} `{!Json A} path fs :
  match export_read (A := A) path fs with Ok _ | Err _ => True | _ => False end.
Proof.
  unfold export_read. destruct (fs_read fs path) as [|data]; [done|]. by destruct (from_slice data).
Qed.

(** C39: booting a node with a key file that [print_key_file] wrote to a disk with
    room for it.  The key can be used exactly when nothing but white space of an
    older file shows through behind it, so always in a new file.  The node boots
    with that key exactly when besides that the committee and the optional
    parameters can be read and the store can be made; otherwise it fails on the
    first of committee, key, parameters and store, and boots nothing.  Booting
    leaves the files alone. *)
Theorem node_boots_with_printed_key rng committee_file key_file store_path parameters fs data booted :
  let secret := secret_new rng in
  key_file ∉ fs_denied fs → to_string_pretty secret = inr data →
  has_room fs key_file (length data + 1) = true →
  let '(printed, fs') := print_key_file rng key_file fs in
  let usable := forallb json_space (drop (length data + 1) (old_contents fs key_file)) in
  let '(r, env') := node_new committee_file key_file store_path parameters (mkNodeEnv fs' booted) in
  printed = Ok () ∧ ne_fs env' = fs' ∧ (fs_files fs !! key_file = None → usable = true) ∧
  match export_read (A := Committee) committee_file fs' with
  | Ok committee =>
      if usable then
        match (match parameters with
               | Some f => export_read f fs'
               | None => Ok parameters_default
               end) with
        | Ok params =>
            match store_new store_path with
            | inr store =>
                r = Ok (mkStandaloneNode Commit) ∧
                ne_booted env' = booted ++
                  [MempoolService (secret_name secret) (c_mempool committee) (p_mempool params)
                     store ConsensusToMempool MempoolToConsensus;
                   ConsensusService (secret_name secret) (c_consensus committee)
                     (p_consensus params) (secret_secret secret) store
                     MempoolToConsensus ConsensusToMempool Commit]
            | inl _ => r = Panic "Failed to create store" ∧ ne_booted env' = booted
            end
        | Err e => r = Err e ∧ ne_booted env' = booted
        | _ => False
        end
      else (∃ e, r = Err (ReadError key_file e)) ∧ ne_booted env' = booted
  | Err e => r = Err e ∧ ne_booted env' = booted
  | _ => False
  end.
Proof.
  intros secret Hden Hd Hroom. unfold print_key_file. fold secret.
  rewrite (export_write_eq secret key_file fs data) by done.
  pose proof (export_write_read secret key_file fs data Hden Hd Hroom) as Hkey. cbv zeta in Hkey.
  set (fs' := written fs key_file _) in *.
  assert (has_room fs key_file (length data) = true) as ->.
  { unfold has_room in *. destruct (fs_limit fs !! key_file); [|done].
    apply Nat.leb_le in Hroom. apply Nat.leb_le. lia. }
  rewrite andb_false_r.
  assert (fs_files fs !! key_file = None →
    forallb json_space (drop (length data + 1) (old_contents fs key_file)) = true) as Hnew.
  { intros Hnone. assert (old_contents fs key_file = []) as -> by (unfold old_contents; by rewrite Hnone).
    by rewrite drop_nil. }
  unfold node_new, read_config, boot, lift, mbind, comp_bind. cbn [ne_fs].
  pose proof (export_read_returns (A := Committee) committee_file fs') as Hc.
  destruct (export_read committee_file fs') as [committee| | |]; try done.
  destruct (forallb json_space _); [|destruct Hkey as [e ->]; cbn; split_and!; [done..|by exists e|done]].
  rewrite Hkey. destruct parameters as [f|]; cbn [ne_fs].
  - pose proof (export_read_returns (A := Parameters) f fs') as Hp. destruct (export_read f fs'); try done.
    destruct (store_new store_path); [done|]. cbn. by rewrite <- app_assoc.
  - cbn. destruct (store_new store_path); [done|]. cbn. by rewrite <- app_assoc.
Qed.
End node_facts.

Section witnesses.

(** A type of two values printed as one digit. *)
Definition digit_json {A} (digit : A → bool) (value : bool → A) : Json A := {|
  to_string_pretty a := inr [if digit a then Byte.x31 else Byte.x30];
  from_slice b :=
    match b with
    | x :: rest =>
        if forallb json_space rest then
          match x with
          | Byte.x30 => inr (value false)
          | Byte.x31 => inr (value true)
          | _ => inl "expected value"%string
          end
        else inl "trailing characters"%string
    | [] => inl "EOF while parsing a value"%string
    end;
|}.

Lemma digit_json_laws {A} (digit : A → bool) (value : bool → A) :
  (∀ a, value (digit a) = a) → @JsonLaws A (digit_json digit value).
Proof.
  intros Hv. split; cbn.
  - eauto.
  - intros a data rest [= <-] Hr. cbn. rewrite Hr. specialize (Hv a). destruct (digit a); congruence.
  - intros a data rest [= <-] Hr. cbn. rewrite Hr. by destruct (digit a); eexists.
Qed.

(** A file of one byte over one of four: the tail of the old one shows.  On a full
    disk the write succeeds and the file is empty. *)
Definition ref_old_fs : Fs :=
  mkFs {[ "key"%string := [Byte.x31; Byte.x0a; Byte.x31; Byte.x0a] ]} ∅ {[ "full"%string := 0%nat ]}.

Lemma config_write_read_witness :
  let write path := @export_write bool (digit_json id id) true path ref_old_fs in
  let read path fs := @export_read bool (digit_json id id) path fs in
  (∃ e, read "key"%string (write "key"%string).2 = Err (ReadError "key" e)) ∧
  read "other"%string (write "key"%string).2 = read "other"%string ref_old_fs ∧
  (write "full"%string).1 = Ok () ∧ fs_files (write "full"%string).2 !! "full"%string = Some [].
Proof.
  intros write read.
  destruct (@config_write_read bool (digit_json id id) (digit_json_laws id id (λ a, eq_refl)) true "key" ref_old_fs)
    as (data & Hd & Hw); [vm_decide|].
  injection Hd as <-. destruct Hw as (Hroom & _ & Hother).
  split; [exact (proj1 (proj2 (Hroom eq_refl)))|]. split; [apply Hother; discriminate|].
  destruct (@config_write_read bool (digit_json id id) (digit_json_laws id id (λ a, eq_refl)) true "full" ref_old_fs)
    as (data & Hd & Hw); [vm_decide|].
  injection Hd as <-. destruct Hw as (_ & Hfull & _). exact (Hfull eq_refl).
Defined.

(** A node library with one-bit secrets. *)
Definition ref_node_lib : NodeLib := {|
  PublicKey := unit;
  SecretKey := bool;
  Entropy := bool;
  generate_production_keypair rng := ((), rng);
  generate_seeded_keypair _ := ((), false);
  ConsensusCommittee := unit;
  MempoolCommittee := bool;
  ConsensusParameters := unit;
  MempoolParameters := bool;
  consensus_parameters_default := ();
  mempool_parameters_default := false;
  Store := string;
  store_new path := inr path;
|}.
#[local] Existing Instance ref_node_lib.
#[local] Instance ref_secret_json : Json Secret :=
  digit_json (λ s : Secret, secret_secret s) (λ b, mkSecret ref_node_lib () b).
#[local] Instance ref_committee_json : Json Committee :=
  digit_json (λ c : Committee, c_mempool c) (λ b, mkCommittee ref_node_lib () b).
#[local] Instance ref_parameters_json : Json Parameters :=
  digit_json (λ p : Parameters, p_mempool p) (λ b, mkParameters ref_node_lib () b).

Lemma ref_secret_laws : JsonLaws Secret.
Proof. apply digit_json_laws. by intros [[] b]. Qed.

Lemma node_boots_with_printed_key_witness :
  let fs := mkFs {[ "committee"%string := [Byte.x31] ]} ∅ ∅ in
  let '(r, env) := node_new "committee" "key" "db" None
                     (mkNodeEnv (print_key_file true "key" fs).2 []) in
  r = Ok (mkStandaloneNode Commit) ∧ length (ne_booted env) = 2%nat.
Proof.
  intros fs.
  pose proof (@node_boots_with_printed_key _ _ _ _ ref_secret_laws true "committee" "key" "db" None fs
    [Byte.x31] [] ltac:(vm_decide) eq_refl eq_refl) as Hboot.
  rewrite (surjective_pairing (print_key_file _ _ fs)) in Hboot.
  set (fs' := (print_key_file _ _ fs).2) in *.
  assert (export_read "committee" fs' = Ok (mkCommittee ref_node_lib () true)) as Hc by vm_refl.
  rewrite Hc in Hboot. clearbody fs'. destruct (node_new _ _ _ _ _) as [r env].
  destruct Hboot as (_ & _ & _ & Hr & Hb). split; [exact Hr|exact (f_equal length Hb)].
Defined.
End witnesses.
