(* ===== verification/BenchClient.v ===== *)
(** * The benchmark client ([node-template/node/src/client.rs])

    The client waits until all nodes accept connections, then sends transactions
    to its target in bursts, twenty times a second, and marks one transaction of
    each burst as a sample.  The network is two oracles that say which connection
    attempts and which sends succeed; the log is left out.  The theorem: the
    client starts exactly when all nodes come up, and however long it runs, all
    transactions are different and of the asked size, and the samples are
    numbered without gaps; below twenty transactions a second nothing is ever
    sent. *)
From S2P Require Import Prelude Codec Primitives Reference.
Local Open Scope Z_scope.
Local Open Scope machine_scope.

(** [BufMut::put_u64] of the [bytes] library: eight bytes, most significant
    first. *)
Class BytesLib := { u64_be : Z → bytes }.
Class BytesLaws `{BytesLib} : Prop := {
  u64_be_length : ∀ z, length (u64_be z) = 8%nat;
  u64_be_inj : ∀ a b, u64_ok a → u64_ok b → u64_be a = u64_be b → a = b;
}.

(** [Client], which [main] fills from the command line. *)
Record BenchClient := mkBenchClient {
  bc_target : string;
  bc_size : nat;
  bc_rate : Z;
  bc_timeout : Z;
  bc_nodes : list string;
}.

Definition PRECISION : Z := 20.
Definition BURST_DURATION : Z := 1000 / PRECISION.

(** The variables of the loop and what has gone out on the connection. *)
Record SendState := mkSendState {
  ss_counter : Z;
  ss_r : Z;
  ss_sent : list bytes;
}.

Section send.
Context `{BytesLib}.

(** [BytesMut::resize(size, 0)]. *)
Definition resize (size : nat) (tx : bytes) : bytes :=
  take size tx ++ replicate (size - length tx) Byte.x00.

(** A sample transaction starts with 0, a standard one with 1. *)
Definition sample_tx (size : nat) (counter : Z) : bytes := resize size (Byte.x00 :: u64_be counter).
Definition standard_tx (size : nat) (r : Z) : bytes := resize size (Byte.x01 :: u64_be r).

(** One pass of the inner loop; [link n] says whether the [n]-th send succeeds.
    [false] breaks the main loop. *)
Definition send_one (c : BenchClient) (link : nat → bool) (burst x : Z) (st : SendState) :
    bool * SendState :=
  let '(tx, r) :=
    if x =? ss_counter st mod burst then (sample_tx (bc_size c) (ss_counter st), ss_r st)
    else let r := ss_r st +₆₄ 1 in (standard_tx (bc_size c) r, r) in
  if link (length (ss_sent st))
  then (true, mkSendState (ss_counter st) r (ss_sent st ++ [tx]))
  else (false, mkSendState (ss_counter st) r (ss_sent st)).

(** [for x in 0..burst]. *)
Fixpoint send_burst (c : BenchClient) (link : nat → bool) (burst : Z) (xs : list Z) (st : SendState) :
    bool * SendState :=
  match xs with
  | [] => (true, st)
  | x :: rest =>
      let '(go, st') := send_one c link burst x st in
      if go : bool then send_burst c link burst rest st' else (false, st')
  end.

(** ['main: loop], for a number of ticks of the interval. *)
Fixpoint send_loop (c : BenchClient) (link : nat → bool) (burst : Z) (ticks : nat) (st : SendState) :
    SendState :=
  match ticks with
  | O => st
  | S ticks =>
      let '(go, st') := send_burst c link burst (seqZ 0 burst) st in
      if go : bool
      then send_loop c link burst ticks
             (mkSendState (ss_counter st' +₆₄ 1) (ss_r st') (ss_sent st'))
      else st'
  end.

(** [Client::send]: the size check, the connection, then the loop, which ends
    only when a send fails. *)
Definition send (c : BenchClient) (connect : string + unit) (link : nat → bool) (r : Z)
    (ticks : nat) : outcome string SendState :=
  if (bc_size c <? 16)%nat then Err "Transaction size must be at least 9 bytes"
  else
    connect ← map_err connect (λ e, "failed to connect to " +:+ bc_target c)%string;
    let burst := bc_rate c / PRECISION in
    Ok (send_loop c link burst ticks (mkSendState 0 r [])).

(** The task of [wait] for one node: attempts until one succeeds, ten
    milliseconds apart; [up n] says whether the [n]-th attempt succeeds.  The
    result is the time it slept. *)
Fixpoint connect_task (up : nat → bool) (n fuel : nat) : outcome string Z :=
  match fuel with
  | O => Diverge
  | S fuel => if up n then Ok (10 * Z.of_nat n) else connect_task up (S n) fuel
  end.

(** [join_all] of concurrent tasks takes as long as the longest. *)
Fixpoint join_all (tasks : list (outcome string Z)) : outcome string Z :=
  match tasks with
  | [] => Ok 0
  | task :: rest => t ← task; u ← join_all rest; Ok (Z.max t u)
  end.

(** [Client::wait]: all nodes, then twice the timeout. *)
Definition wait (c : BenchClient) (up : string → nat → bool) (fuel : nat) : outcome string Z :=
  t ← join_all ((λ address, connect_task (up address) 0 fuel) <$> bc_nodes c);
  Ok (t + u64_wrap (2 * bc_timeout c)).

(** [Cli] and [main]; the error of [send] gets a context. *)
Record BenchCli := mkBenchCli {
  cli_target : string;
  cli_timeout : Z;
  cli_size : nat;
  cli_rate : Z;
  cli_nodes : list string;
}.
Definition bench_main (cli : BenchCli) (up : string → nat → bool) (connect : string + unit)
    (link : nat → bool) (r : Z) (fuel ticks : nat) : outcome string (Z * SendState) :=
  let client := {| bc_target := cli_target cli; bc_size := cli_size cli; bc_rate := cli_rate cli;
                   bc_timeout := cli_timeout cli; bc_nodes := cli_nodes cli |} in
  t ← wait client up fuel;
  match send client connect link r ticks with
  | Ok st => Ok (t, st)
  | Err _ => Err "Failed to submit transactions"%string
  | Panic m => Panic m
  | Diverge => Diverge
  end.
End send.

Section facts.
Context `{BytesLaws}.

Lemma resize_pad size tx :
  (length tx ≤ size)%nat → resize size tx = tx ++ replicate (size - length tx) Byte.x00.
Proof. intros. unfold resize. by rewrite take_ge. Qed.

Lemma tx_length size h z : (16 ≤ size)%nat → length (resize size (h :: u64_be z)) = size.
Proof.
  intros. rewrite resize_pad by (simpl; rewrite u64_be_length; lia).
  rewrite length_app, length_replicate. simpl. rewrite u64_be_length. lia.
Qed.

Lemma tx_inj size h h' z z' :
  (16 ≤ size)%nat → u64_ok z → u64_ok z' →
  resize size (h :: u64_be z) = resize size (h' :: u64_be z') → h = h' ∧ z = z'.
Proof.
  intros Hs Hz Hz'. rewrite !resize_pad by (simpl; rewrite u64_be_length; lia).
  intros [= -> Heq]. split; [done|].
  apply app_inj_1 in Heq as [Heq _]; [|by rewrite !u64_be_length]. by apply u64_be_inj.
Qed.

Definition is_sample (tx : bytes) : Prop := head tx = Some Byte.x00.
#[local] Instance is_sample_dec tx : Decision (is_sample tx).
Proof. unfold is_sample. apply _. Defined.

Lemma sample_is_sample size k : (16 ≤ size)%nat → is_sample (sample_tx size k).
Proof. destruct size; [lia|done]. Qed.
Lemma standard_not_sample size k : (16 ≤ size)%nat → ¬ is_sample (standard_tx size k).
Proof. destruct size; [lia|done]. Qed.

(** What has been sent: the samples below [m] and the standard ones up to [u]
    after the start. *)
Record sent_ok (size : nat) (r0 m u : Z) (st : SendState) : Prop := {
  so_samples : filter is_sample (ss_sent st) = sample_tx size <$> seqZ 0 m;
  so_standard : filter (λ tx, ¬ is_sample tx) (ss_sent st) =
    (λ j, standard_tx size (u64_wrap (r0 + j))) <$> seqZ 1 u;
  so_bounds : 0 <= m ∧ 0 <= u;
}.

Lemma sent_ok_length size r0 m u st :
  sent_ok size r0 m u st → Z.of_nat (length (ss_sent st)) = m + u.
Proof.
  intros [Hs Ht Hb]. apply (f_equal length) in Hs, Ht.
  rewrite length_fmap, length_seqZ in Hs, Ht.
  pose proof (Permutation_length (filter_app_complement is_sample (ss_sent st))) as Hl.
  rewrite length_app in Hl. lia.
Qed.

Lemma sent_ok_distinct size r0 m u st :
  (16 ≤ size)%nat → sent_ok size r0 m u st → m <= 2 ^ 64 → u < 2 ^ 64 →
  NoDup (ss_sent st) ∧ Forall (λ tx, length tx = size) (ss_sent st).
Proof.
  intros Hsize [Hs Ht _] Hm Hu.
  rewrite <- (filter_app_complement is_sample (ss_sent st)), Hs, Ht. split.
  - apply NoDup_app. split; [|split].
    + apply NoDup_fmap_2_strong; [|apply NoDup_seqZ].
      intros a b Ha%elem_of_seqZ Hb%elem_of_seqZ Heq.
      apply tx_inj in Heq as [_ ?]; [done|done|unfold u64_ok; lia..].
    + intros tx Htx Htx'. apply list_elem_of_fmap in Htx as (? & -> & _), Htx' as (? & Heq & _).
      eapply (standard_not_sample size); [done|]. rewrite <- Heq. by apply sample_is_sample.
    + apply NoDup_fmap_2_strong; [|apply NoDup_seqZ].
      intros a b Ha%elem_of_seqZ Hb%elem_of_seqZ Heq.
      apply tx_inj in Heq as [_ Heq]; [|done|apply u64_wrap_ok..].
      unfold u64_wrap in Heq. rewrite Z.add_mod, (Z.add_mod r0 b) in Heq by lia.
      rewrite (Z.mod_small a), (Z.mod_small b) in Heq by lia.
      pose proof (Z.mod_pos_bound r0 (2 ^ 64) ltac:(lia)).
      Z.div_mod_to_equations. lia.
  - apply Forall_app. split; apply Forall_forall; intros tx Htx;
      apply list_elem_of_fmap in Htx as (? & -> & _); by apply tx_length.
Qed.

Lemma seqZ_snoc m n : 0 <= n → seqZ m (n + 1) = seqZ m n ++ [m + n].
Proof. intros. rewrite seqZ_app by lia. done. Qed.

Lemma sent_ok_sample size r0 m u k st :
  (16 ≤ size)%nat → sent_ok size r0 m u st →
  sent_ok size r0 (m + 1) u (mkSendState k (ss_r st) (ss_sent st ++ [sample_tx size m])).
Proof.
  intros Hsize [Hs Ht [Hm Hu]]. split; cbn [ss_sent].
  - rewrite filter_app, Hs, filter_cons_True by by apply sample_is_sample.
    rewrite filter_nil, seqZ_snoc by lia. by rewrite fmap_app.
  - rewrite filter_app, Ht, filter_cons_False by (intros Hn; by apply Hn, sample_is_sample).
    by rewrite filter_nil, app_nil_r.
  - lia.
Qed.

Lemma sent_ok_standard size r0 m u k r st :
  (16 ≤ size)%nat → sent_ok size r0 m u st →
  sent_ok size r0 m (u + 1)
    (mkSendState k r (ss_sent st ++ [standard_tx size (u64_wrap (r0 + (u + 1)))])).
Proof.
  intros Hsize [Hs Ht [Hm Hu]]. split; cbn [ss_sent].
  - rewrite filter_app, Hs, filter_cons_False by by apply standard_not_sample.
    by rewrite filter_nil, app_nil_r.
  - rewrite filter_app, Ht, filter_cons_True by by apply standard_not_sample.
    rewrite filter_nil, seqZ_snoc, fmap_app by lia. by rewrite (Z.add_comm 1 u).
  - lia.
Qed.

(** The samples sent when the inner loop of burst [k] stands at [x]. *)
Definition samples_at (burst k x : Z) : Z := k + if k mod burst <? x then 1 else 0.

(** The inner loop of burst [k] stands at [x], after [u] standard ones. *)
Definition at_point (c : BenchClient) (burst r0 k x u : Z) (st : SendState) : Prop :=
  sent_ok (bc_size c) r0 (samples_at burst k x) u st ∧
  ss_r st = u64_wrap (r0 + u) ∧ ss_counter st = k.

(** A burst either goes on to a later point or broke on a failed send. *)
Definition burst_outcome c link burst r0 k x u n (res : bool * SendState) : Prop :=
  match res with
  | (true, st) => ∃ u', u <= u' <= u + n ∧ at_point c burst r0 k (x + n) u' st
  | (false, st) => (∃ i : nat, link i = false) ∧
      ∃ x' u', x <= x' <= x + n ∧ u <= u' <= u + n ∧
        sent_ok (bc_size c) r0 (samples_at burst k x') u' st
  end.

Lemma send_one_ok c link burst r0 k x u st :
  (16 ≤ bc_size c)%nat → 0 <= x → at_point c burst r0 k x u st →
  burst_outcome c link burst r0 k x u 1 (send_one c link burst x st).
Proof.
  intros Hsize Hx (Hok & Hr & Hk). unfold send_one. rewrite Hk, Hr.
  assert (u64_wrap (r0 + u) +₆₄ 1 = u64_wrap (r0 + (u + 1))) as Hwrap.
  { unfold u64_wrap. by rewrite Z.add_assoc, Z.add_mod_idemp_l. }
  assert (x ≠ k mod burst → samples_at burst k (x + 1) = samples_at burst k x) as Hsame.
  { intros Hne. unfold samples_at.
    destruct (Z.ltb_spec (k mod burst) x), (Z.ltb_spec (k mod burst) (x + 1)); lia. }
  assert (x = k mod burst → samples_at burst k x = k ∧ samples_at burst k (x + 1) = k + 1) as Hnew.
  { intros ->. unfold samples_at. rewrite Z.ltb_irrefl.
    destruct (Z.ltb_spec (k mod burst) (k mod burst + 1)); lia. }
  destruct (Z.eqb_spec x (k mod burst)) as [Hxk|Hxk]; destruct (link _) eqn:El; cbn.
  - destruct (Hnew Hxk) as [H1 H2]. exists u. split; [lia|]. split; [|done].
    rewrite H2. rewrite H1 in Hok. rewrite <- Hr. by apply sent_ok_sample.
  - split; [eauto|]. exists x, u. split_and!; [lia..|]. destruct Hok; by split.
  - exists (u + 1). split; [lia|]. rewrite Hwrap. split; [|done]. rewrite Hsame by done.
    by apply sent_ok_standard.
  - split; [eauto|]. exists x, u. split_and!; [lia..|]. destruct Hok; by split.
Qed.

Lemma send_burst_ok c link burst r0 k n : ∀ x u st,
  (16 ≤ bc_size c)%nat → 0 <= x → at_point c burst r0 k x u st →
  burst_outcome c link burst r0 k x u (Z.of_nat n)
    (send_burst c link burst (seqZ x (Z.of_nat n)) st).
Proof.
  induction n as [|n IH]; intros x u st Hsize Hx Hat.
  { cbn. exists u. rewrite !Z.add_0_r. by split; [lia|]. }
  rewrite seqZ_cons by lia. cbn [send_burst].
  pose proof (send_one_ok c link burst r0 k x u st Hsize Hx Hat) as Hone.
  destruct (send_one c link burst x st) as [[] st1]; cbn in Hone.
  - destruct Hone as (u1 & Hu1 & Hat1).
    specialize (IH (x + 1) u1 st1 Hsize ltac:(lia) Hat1).
    replace (Z.pred (Z.of_nat (S n))) with (Z.of_nat n) by lia.
    destruct (send_burst _ _ _ _ _) as [[] st2]; cbn in IH |- *.
    + destruct IH as (u2 & Hu2 & Hat2). exists u2. split; [lia|].
      by replace (x + Z.of_nat (S n)) with (x + 1 + Z.of_nat n) by lia.
    + destruct IH as (? & x2 & u2 & ? & ? & ?). split; [done|]. exists x2, u2. split_and!; [lia..|done].
  - destruct Hone as (? & x1 & u1 & ? & ? & ?). split; [done|]. exists x1, u1. split_and!; [lia..|done].
Qed.

Lemma send_loop_ok c link burst r0 ticks : ∀ k u st,
  (16 ≤ bc_size c)%nat → 0 < burst → 0 <= k → k + Z.of_nat ticks < 2 ^ 64 →
  at_point c burst r0 k 0 u st →
  ∃ m u', sent_ok (bc_size c) r0 m u' (send_loop c link burst ticks st) ∧
    m <= k + Z.of_nat ticks ∧ u' <= u + Z.of_nat ticks * burst ∧
    ((∀ i, link i = true) → m = k + Z.of_nat ticks).
Proof.
  induction ticks as [|ticks IH]; intros k u st Hsize Hb Hk Hmax Hat; cbn [send_loop].
  { destruct Hat as [Hok _]. exists k, u.
    assert (samples_at burst k 0 = k) as Hz.
    { unfold samples_at. pose proof (Z.mod_pos_bound k burst Hb).
      destruct (Z.ltb_spec (k mod burst) 0); lia. }
    rewrite Hz in Hok. split_and!; [done|lia..]. }
  pose proof (send_burst_ok c link burst r0 k (Z.to_nat burst) 0 u st Hsize ltac:(lia) Hat) as Hburst.
  rewrite Z2Nat.id in Hburst by lia. pose proof (Z.mod_pos_bound k burst Hb).
  destruct (send_burst _ _ _ _ _) as [[] st1]; cbn in Hburst.
  - destruct Hburst as (u1 & Hu1 & Hok1 & Hr1 & Hk1).
    destruct (IH (k + 1) u1 (mkSendState (ss_counter st1 +₆₄ 1) (ss_r st1) (ss_sent st1)))
      as (m & u2 & Hok2 & ? & ? & Hall); [done|done|lia|lia| |].
    { rewrite Hk1, u64_wrap_small by (unfold u64_ok; lia). split; [|done].
      assert (samples_at burst (k + 1) 0 = samples_at burst k burst) as ->.
      { unfold samples_at. pose proof (Z.mod_pos_bound (k + 1) burst Hb).
        destruct (Z.ltb_spec (k mod burst) burst), (Z.ltb_spec ((k + 1) mod burst) 0); lia. }
      destruct Hok1. by split. }
    exists m, u2. split; [done|]. split_and!; [lia|nia|].
    intros Hl. rewrite Hall by done. lia.
  - destruct Hburst as ([i Hi] & x' & u' & ? & ? & Hok). exists (samples_at burst k x'), u'.
    split; [done|]. split_and!; [unfold samples_at; case_match; lia|nia|].
    intros Hl. by rewrite Hl in Hi.
Qed.

(** The transactions of the client: as long as fewer than 2^64 have been sent,
    whichever sends fail, all are different and have the asked size, and the
    samples are numbered from 0 without gaps; if no send fails, every burst
    contributes exactly one sample.  With a rate below twenty nothing is sent. *)
Definition transactions_ok (size : nat) (rate : Z) (link : nat → bool) (ticks : nat)
    (st : SendState) : Prop :=
  (16 ≤ size)%nat ∧
  NoDup (ss_sent st) ∧ Forall (λ tx, length tx = size) (ss_sent st) ∧
  (∃ m, m <= Z.of_nat ticks ∧
     filter is_sample (ss_sent st) = sample_tx size <$> seqZ 0 m ∧
     (PRECISION <= rate → (∀ i, link i = true) → m = Z.of_nat ticks)) ∧
  (rate < PRECISION → ss_sent st = []).

Lemma send_ok (c : BenchClient) link r (ticks : nat) :
  u64_ok r → u64_ok (bc_rate c) → Z.of_nat ticks * (bc_rate c / PRECISION + 1) < 2 ^ 64 →
  match send c (inr ()) link r ticks with
  | Ok st => transactions_ok (bc_size c) (bc_rate c) link ticks st
  | Err _ => (bc_size c < 16)%nat
  | _ => False
  end.
Proof.
  intros Hr Hrate Hmax. unfold send. destruct (Nat.ltb_spec (bc_size c) 16); [done|]. cbn.
  assert (PRECISION = 20) as HP by done. unfold u64_ok in Hrate.
  set (burst := bc_rate c / PRECISION) in *.
  assert (0 <= burst) as Hb0 by (apply Z.div_pos; lia). split; [lia|].
  destruct (decide (burst = 0)) as [Hz|Hz].
  - assert (∀ n k, ss_sent (send_loop c link burst n (mkSendState k r [])) = []) as Hnone.
    { rewrite Hz. induction n as [|n IH]; intros k; simpl; auto. }
    rewrite Hnone. split; [constructor|]. split; [constructor|]. split; [|done].
    exists 0. split; [lia|]. split; [done|]. intros Hp. unfold burst in Hz.
    apply Z.div_small_iff in Hz; lia.
  - destruct (send_loop_ok c link burst r ticks 0 0 (mkSendState 0 r []))
      as (m & u & Hok & Hm & Hu & Hall); [done|lia|lia|nia| |].
    { split; [|split; [|done]].
      - unfold samples_at. rewrite Z.mod_0_l by done. by split.
      - by rewrite Z.add_0_r, u64_wrap_small. }
    destruct (sent_ok_distinct _ _ _ _ _ ltac:(done) Hok) as [Hnd Hlen]; [nia..|].
    split; [done|]. split; [done|]. split.
    + exists m. split; [lia|]. split; [apply Hok|]. intros _ Hl. rewrite Hall by done. lia.
    + intros Hlow. exfalso. apply Hz. apply Z.div_small. lia.
Qed.

Lemma connect_task_run up fuel : ∀ n,
  match connect_task up n fuel with
  | Ok t => ∃ k, (n ≤ k)%nat ∧ up k = true ∧ t = 10 * Z.of_nat k
  | Diverge => ∀ k, (n ≤ k < n + fuel)%nat → up k = false
  | _ => False
  end.
Proof.
  induction fuel as [|fuel IH]; intros n; simpl; [lia|].
  destruct (up n) eqn:E; [by exists n|]. specialize (IH (S n)).
  destruct (connect_task up (S n) fuel); try done.
  - destruct IH as (k & ? & ? & ?). exists k. split; [lia|done].
  - intros k Hk. destruct (decide (k = n)) as [->|]; [done|]. apply IH. lia.
Qed.

(** [wait] ends exactly when all nodes come up. *)
Lemma wait_run c up fuel :
  match wait c up fuel with
  | Ok t => u64_wrap (2 * bc_timeout c) <= t ∧
      ∀ a, a ∈ bc_nodes c → ∃ k : nat, up a k = true ∧
        10 * Z.of_nat k + u64_wrap (2 * bc_timeout c) <= t
  | Diverge => ∃ a, a ∈ bc_nodes c ∧ ∀ k, (k < fuel)%nat → up a k = false
  | _ => False
  end.
Proof.
  unfold wait.
  assert (match join_all ((λ address, connect_task (up address) 0 fuel) <$> bc_nodes c) with
    | Ok t => 0 <= t ∧ ∀ a, a ∈ bc_nodes c → ∃ k : nat, up a k = true ∧ 10 * Z.of_nat k <= t
    | Diverge => ∃ a, a ∈ bc_nodes c ∧ ∀ k, (k < fuel)%nat → up a k = false
    | _ => False
    end) as Hj.
  { induction (bc_nodes c) as [|a l IH]; cbn; [split; [lia|]; by intros a ?%elem_of_nil|].
    pose proof (connect_task_run (up a) fuel 0) as Ha.
    destruct (connect_task (up a) 0 fuel) as [t| | |]; cbn; try done.
    - destruct (join_all _) as [u| | |]; cbn; try done.
      + destruct Ha as (k & _ & Hup & ->), IH as [Hu IH]. split; [lia|].
        intros b [->|Hb]%elem_of_cons; [exists k; split; [done|lia]|].
        destruct (IH b Hb) as (k' & ? & ?). exists k'. split; [done|lia].
      + destruct IH as (b & Hb & ?). exists b. split; [by right|done].
    - exists a. split; [by left|]. intros k Hk. apply Ha. lia. }
  destruct (join_all _) as [t| | |]; cbn; try done. destruct Hj as [Ht Hj].
  split; [lia|]. intros a Ha. destruct (Hj a Ha) as (k & ? & ?). exists k. split; [done|lia].
Qed.

(** C40: the benchmark client starts sending only after every node has accepted
    a connection and, since then, twice the timeout has passed; it never starts
    only if some node refuses every attempt.  Of what it sends, as long as fewer
    than 2^64 transactions have gone out and whichever sends fail, all
    transactions are different and have the asked size, and the samples are
    numbered from 0 without gaps; if no send fails, every burst contributes
    exactly one sample.  With a rate below twenty nothing is ever sent, and it
    fails exactly when the size is below sixteen. *)
Theorem bench_transactions_distinct (cli : BenchCli) up link r (fuel ticks : nat) :
  u64_ok r → u64_ok (cli_rate cli) →
  Z.of_nat ticks * (cli_rate cli / PRECISION + 1) < 2 ^ 64 →
  match bench_main cli up (inr ()) link r fuel ticks with
  | Ok (t, st) =>
      (∀ a, a ∈ cli_nodes cli → ∃ k : nat, up a k = true ∧
         10 * Z.of_nat k + u64_wrap (2 * cli_timeout cli) <= t) ∧
      transactions_ok (cli_size cli) (cli_rate cli) link ticks st
  | Err e => (cli_size cli < 16)%nat ∧ e = "Failed to submit transactions"%string
  | Panic _ => False
  | Diverge => ∃ a, a ∈ cli_nodes cli ∧ ∀ k, (k < fuel)%nat → up a k = false
  end.
Proof.
  intros Hr Hrate Hmax. unfold bench_main. cbv zeta.
  match goal with |- context [wait ?c up fuel] =>
    pose proof (wait_run c up fuel) as Hw;
    pose proof (send_ok c link r ticks Hr Hrate Hmax) as Hs
  end.
  destruct (wait _ up fuel) as [t| | |]; try done. cbn [mbind outcome_bind].
  destruct (send _ _ link r ticks) as [st| | |]; try done. by destruct Hw.
Qed.
End facts.

Section witnesses.

(** Big-endian bytes. *)
Definition ref_bytes_lib : BytesLib := {| u64_be z := rev (le_encode 8 z) |}.
#[local] Existing Instance ref_bytes_lib.

Lemma ref_bytes_laws : BytesLaws.
Proof.
  split; cbn [u64_be ref_bytes_lib].
  - intros z. by rewrite length_rev, le_encode_length.
  - intros a b Ha Hb Heq%(f_equal (@rev Byte.byte)). rewrite !rev_involutive in Heq.
    pose proof (le_decode_encode 8 a [] Ha) as Hd. rewrite Heq, le_decode_encode in Hd by done.
    by simplify_eq.
Qed.

(** Sixty transactions a second: three in each of two bursts; the node accepts
    the third connection. *)
Definition ref_bench : BenchCli :=
  mkBenchCli "127.0.0.1:9944" 1000 16 60 ["127.0.0.1:9945"%string].

Lemma bench_transactions_distinct_witness :
  match bench_main ref_bench (λ _ n, (2 <=? n)%nat) (inr ()) (λ _, true) 41 5 2 with
  | Ok (t, st) => t = 2020 ∧ NoDup (ss_sent st) ∧ length (ss_sent st) = 6%nat
  | _ => False
  end.
Proof.
  pose proof (@bench_transactions_distinct _ ref_bytes_laws ref_bench (λ _ n, (2 <=? n)%nat)
    (λ _, true) 41 5 2
    ltac:(split; lia) ltac:(split; simpl; lia) ltac:(vm_compute; reflexivity)) as Hb.
  destruct (bench_main ref_bench _ (inr ()) (λ _, true) 41 5 2) as [[t st]|e|m|] eqn:E;
    [|vm_compute in E; discriminate E..].
  destruct Hb as (_ & _ & Hnd & _).
  vm_compute in E. injection E as <- <-. split; [reflexivity|]. split; [exact Hnd|reflexivity].
Defined.
End witnesses.
